(** * SESHP: the aggregation and ranking engine of [app.js]

    A shallow embedding of the pure core of [src/app.js] (record
    classification, field sanitising, timestamp parsing, the single
    aggregation pass of [buildReport], the ranking comparators and the
    peak selector) and of the pure helpers around it (the selection of
    input files, the text of the file list, file sizes, month labels,
    column widths and sheet names), followed by the properties stated
    about them.

    Modelling conventions.
    - A JavaScript string is a sequence of code units; the model uses
      Rocq's [string], whose units are 8 bits wide, so code units above
      U+00FF do not occur.
    - The counters and millisecond totals of the program are integers and
      are modelled by [Z]; the derived minute, hour and rate fields are
      modelled by exact rationals [Q].  The pass adds exactly, where the
      program adds Numbers: the two agree as long as the durations of the
      accepted records add up to less than 2^53 ms, which the properties
      about totals assume ([sumNumbers] is the program's addition, and
      [sumNumbers_exact] the agreement).  A numeric string is read as the
      exact rational it denotes, not as the nearest Number.
    - A JavaScript [Map] iterates in insertion order; it is modelled by an
      association list in which [set] on an existing key keeps the key's
      position and [set] on a new key appends.
    - The fields of a record hold JSON scalars (or are missing); nested
      arrays and objects, which the streaming history does not use for the
      fields read here, are not part of the value type.
    - A file size is a whole number of bytes below 2^53; its quotients by
      powers of 1024 are doubles, so that the exact rationals of the model
      are the values [formatFileSize] computes with.
    - The pages, the workbook and the PDF document are not modelled: of a
      function that writes to them, the model keeps the values it writes.
    - What the host platform decides (the collation behind
      [localeCompare], the fallback formats of [Date.parse], the local time
      zone, the rendering of non-integral numbers) is collected in the
      class [Platform]. *)

From Stdlib Require Import ZArith QArith Qround Qabs List String Ascii Bool Lia.
From Stdlib Require Import Permutation Sorted DecimalString.
From Stdlib Require DecimalZ DecimalPos.
Import ListNotations.

Local Open Scope string_scope.
Local Open Scope Z_scope.

(** ** Strings *)

(** [WhiteSpace] and [LineTerminator] code units below U+0100, the ones
    [String.prototype.trim] strips. *)
Definition isWhiteSpace (c : ascii) : bool :=
  let n := N_of_ascii c in
  (n =? 9)%N || (n =? 10)%N || (n =? 11)%N || (n =? 12)%N || (n =? 13)%N
  || (n =? 32)%N || (n =? 160)%N.

Fixpoint trimStart (s : string) : string :=
  match s with
  | EmptyString => EmptyString
  | String c s' => if isWhiteSpace c then trimStart s' else s
  end.

Fixpoint trimEnd (s : string) : string :=
  match s with
  | EmptyString => EmptyString
  | String c s' =>
      match trimEnd s' with
      | EmptyString => if isWhiteSpace c then EmptyString else String c EmptyString
      | t => String c t
      end
  end.

(** [value.trim()] *)
Definition trim (s : string) : string := trimEnd (trimStart s).

(** Truthiness of a string: [!s] holds exactly for the empty string. *)
Definition strTruthy (s : string) : bool :=
  match s with EmptyString => false | _ => true end.

(** [s.startsWith(p)] *)
Fixpoint startsWith (p s : string) : bool :=
  match p, s with
  | EmptyString, _ => true
  | String a p', String b s' => Ascii.eqb a b && startsWith p' s'
  | String _ _, EmptyString => false
  end.

(** [s.indexOf(p)]: the least index at which [p] occurs in [s], or -1. *)
Fixpoint indexOf (p s : string) : Z :=
  if startsWith p s then 0
  else match s with
       | EmptyString => -1
       | String _ s' => let i := indexOf p s' in if i <? 0 then -1 else i + 1
       end.

(** [s.includes(p)] *)
Definition includes (p s : string) : bool := 0 <=? indexOf p s.

(** [s.endsWith(p)] *)
Fixpoint endsWith (p s : string) : bool :=
  String.eqb p s
  || match s with
     | EmptyString => false
     | String _ s' => endsWith p s'
     end.

Fixpoint takeStr (n : nat) (s : string) : string :=
  match n, s with
  | S n', String c s' => String c (takeStr n' s')
  | _, _ => EmptyString
  end.

Fixpoint dropStr (n : nat) (s : string) : string :=
  match n, s with
  | S n', String _ s' => dropStr n' s'
  | _, _ => s
  end.

(** [s.slice(from)] and [s.slice(from, to)], negative indices counting from
    the end as in ECMAScript. *)
Definition sliceIndex (len i : Z) : Z :=
  if i <? 0 then Z.max (len + i) 0 else Z.min i len.

Definition sliceFrom (s : string) (from : Z) : string :=
  let len := Z.of_nat (String.length s) in
  dropStr (Z.to_nat (sliceIndex len from)) s.

Definition slice (s : string) (from to : Z) : string :=
  let len := Z.of_nat (String.length s) in
  let a := sliceIndex len from in
  let b := sliceIndex len to in
  takeStr (Z.to_nat (Z.max (b - a) 0)) (dropStr (Z.to_nat a) s).

(** [s.replace(" ", "T")] with a one-unit pattern: only the first
    occurrence is replaced. *)
Fixpoint replaceFirst (c : ascii) (r : string) (s : string) : string :=
  match s with
  | EmptyString => EmptyString
  | String a s' => if Ascii.eqb a c then r ++ s' else String a (replaceFirst c r s')
  end.

(** [s.split(sep)] for a one-unit separator. *)
Fixpoint splitOn (sep : ascii) (s : string) : list string :=
  match s with
  | EmptyString => [EmptyString]
  | String a s' =>
      if Ascii.eqb a sep then EmptyString :: splitOn sep s'
      else match splitOn sep s' with
           | [] => [String a EmptyString]
           | h :: t => String a h :: t
           end
  end.

(** [s.padStart(n, "0")] *)
Definition padStart0 (n : nat) (s : string) : string :=
  String.concat "" (repeat "0" (n - String.length s)) ++ s.

(** The relational operator [a > b] on two strings: code units compared
    left to right. *)
Definition strGt (a b : string) : bool :=
  match String.compare a b with Gt => true | _ => false end.

(** Decimal rendering of an integer, as [String(n)] gives for an integral
    Number of magnitude below 10^21. *)
Definition intToString (z : Z) : string :=
  NilZero.string_of_int (Z.to_int z).

(** ** Values and numbers *)

(** A Number: NaN, an infinity, or a finite value.  Every finite double is
    a rational; the model lets any rational stand for a finite Number. *)
Inductive JsNum : Type :=
| NaN
| Infinity (negative : bool)
| Finite (q : Q).

(** The values a field of a decoded record holds: a JSON scalar, or
    [undefined] when the field is missing. *)
Inductive JsValue : Type :=
| JUndefined
| JNull
| JBool (b : bool)
| JNumber (n : JsNum)
| JString (s : string).

(** Magnitudes from here on round to an infinity in double precision. *)
Definition doubleOverflow : Q := inject_Z (2 ^ 1024 - 2 ^ 970).

Definition finiteOrInfinity (negative : bool) (magnitude : Q) : JsNum :=
  if Qle_bool doubleOverflow magnitude then Infinity negative
  else Finite (if negative then Qopp magnitude else magnitude).

Definition digitOf (radix : Z) (c : ascii) : option Z :=
  let n := Z.of_N (N_of_ascii c) in
  let d := if (48 <=? n) && (n <=? 57) then n - 48
           else if (97 <=? n) && (n <=? 122) then n - 87
           else if (65 <=? n) && (n <=? 90) then n - 55
           else radix in
  if d <? radix then Some d else None.

(** Reads the longest run of digits at the head of [s]: the value read on
    top of [acc], the number of digits read, and the rest of the string. *)
Fixpoint readDigits (radix : Z) (s : string) (acc : Z) (count : nat)
  : Z * nat * string :=
  match s with
  | EmptyString => (acc, count, s)
  | String c s' =>
      match digitOf radix c with
      | Some d => readDigits radix s' (acc * radix + d) (S count)
      | None => (acc, count, s)
      end
  end.

Definition readSign (s : string) : bool * string :=
  match s with
  | String "+"%char r => (false, r)
  | String "-"%char r => (true, r)
  | _ => (false, s)
  end.

Definition isExponentMark (c : ascii) : bool :=
  Ascii.eqb c "e"%char || Ascii.eqb c "E"%char.

(** [StrUnsignedDecimalLiteral]: [Infinity], or digits with an optional
    fraction and an optional exponent; the magnitude denoted, if any. *)
Definition unsignedDecimal (s : string) : option (option Q) :=
  if String.eqb s "Infinity" then Some None
  else
    let '(ip, ni, r1) := readDigits 10 s 0 0 in
    let '(fp, nf, r2) :=
      match r1 with
      | String "."%char r => readDigits 10 r 0 0
      | _ => (0, 0%nat, r1)
      end in
    if (ni + nf =? 0)%nat then None
    else
      let mantissa := inject_Z (ip * 10 ^ Z.of_nat nf + fp) in
      let scaled (e : Z) := Qmult mantissa (Qpower (inject_Z 10) (e - Z.of_nat nf)) in
      match r2 with
      | EmptyString => Some (Some (scaled 0))
      | String e r3 =>
          if isExponentMark e then
            let '(eneg, r4) := readSign r3 in
            let '(ev, ne, r5) := readDigits 10 r4 0 0 in
            if (ne =? 0)%nat || strTruthy r5 then None
            else Some (Some (scaled (if eneg then - ev else ev)))
          else None
      end.

Definition radixOfPrefix (s : string) : option (Z * string) :=
  match s with
  | String "0"%char (String x r) =>
      if Ascii.eqb x "x"%char || Ascii.eqb x "X"%char then Some (16, r)
      else if Ascii.eqb x "o"%char || Ascii.eqb x "O"%char then Some (8, r)
      else if Ascii.eqb x "b"%char || Ascii.eqb x "B"%char then Some (2, r)
      else None
  | _ => None
  end.

(** [StringToNumber]: the Number a string converts to. *)
Definition stringToNumber (s : string) : JsNum :=
  let t := trim s in
  match t with
  | EmptyString => Finite 0
  | _ =>
      match radixOfPrefix t with
      | Some (radix, r) =>
          let '(v, n, rest) := readDigits radix r 0 0 in
          if (n =? 0)%nat || strTruthy rest then NaN
          else finiteOrInfinity false (inject_Z v)
      | None =>
          let '(negative, u) := readSign t in
          match unsignedDecimal u with
          | Some None => Infinity negative
          | Some (Some q) => finiteOrInfinity negative q
          | None => NaN
          end
      end
  end.

(** [Number(value)] *)
Definition toNumber (value : JsValue) : JsNum :=
  match value with
  | JUndefined => NaN
  | JNull => Finite 0
  | JBool b => Finite (if b then 1 else 0)
  | JNumber n => n
  | JString s => stringToNumber s
  end.

(** [Boolean(value)] *)
Definition toBoolean (value : JsValue) : bool :=
  match value with
  | JUndefined | JNull => false
  | JBool b => b
  | JNumber NaN => false
  | JNumber (Infinity _) => true
  | JNumber (Finite q) => negb (Qeq_bool q 0)
  | JString s => strTruthy s
  end.

(** [Math.round(q)]: the nearest integer, a tie going to the greater. *)
Definition mathRound (q : Q) : Z := Qfloor (Qplus q (1 # 2)).

Definition isIntegral (q : Q) : bool := Qeq_bool q (inject_Z (Qfloor q)).

(** ** Record fields *)

Record RawRecord : Type := {
  master_metadata_track_name : JsValue;
  master_metadata_album_artist_name : JsValue;
  master_metadata_album_album_name : JsValue;
  spotify_track_uri : JsValue;
  episode_name : JsValue;
  spotify_episode_uri : JsValue;
  ts : JsValue;
  ms_played : JsValue;
  skipped : JsValue
}.

Definition cleanString (value : JsValue) : string :=
  match value with
  | JString s => trim s
  | _ => EmptyString
  end.

Definition isSongRecord (record : RawRecord) : bool :=
  let trackName := cleanString record.(master_metadata_track_name) in
  let artistName := cleanString record.(master_metadata_album_artist_name) in
  let episodeName := cleanString record.(episode_name) in
  let episodeUri := cleanString record.(spotify_episode_uri) in
  if negb (strTruthy trackName) || negb (strTruthy artistName) then false
  else if strTruthy episodeName || strTruthy episodeUri then false
  else true.

Definition sanitizeMs (value : JsValue) : Z :=
  match toNumber value with
  | Finite num => if negb (Qle_bool 0 num) then 0 else mathRound num
  | _ => 0
  end.

(** ** Composite song keys *)

Definition KEY_SEP : string := String (ascii_of_nat 31) EmptyString.

Definition makeSongKey (song artist : string) : string :=
  song ++ KEY_SEP ++ artist.

Definition splitSongKey (songKey : string) : string * string :=
  let splitIndex := indexOf KEY_SEP songKey in
  if splitIndex <? 0 then (songKey, EmptyString)
  else (slice songKey 0 splitIndex, sliceFrom songKey (splitIndex + 1)).

(** ** The host platform *)

(** What the program leaves to the JavaScript engine it runs on. *)
Class Platform : Type := {
  (** [a.localeCompare(b)]: negative, zero or positive. *)
  localeCompare : string -> string -> Z;
  (** The time value [Date.parse] gives to a string that is not in the
      ECMAScript date-time format ([None] for NaN). *)
  legacyDateParse : string -> option Z;
  (** The offset, in milliseconds, of local time from UTC at a local time. *)
  localTZA : Z -> Z;
  (** [String(x)] for a finite Number that is not an integer of magnitude
      below 10^21. *)
  numberToStringOther : Q -> string
}.

(** ** Dates: the ECMAScript time-value functions *)

Definition msPerDay : Z := 86400000.

Definition Day (t : Z) : Z := t / msPerDay.

Definition DayFromYear (y : Z) : Z :=
  365 * (y - 1970) + (y - 1969) / 4 - (y - 1901) / 100 + (y - 1601) / 400.

Definition isLeapYear (y : Z) : bool :=
  if negb (y mod 4 =? 0) then false
  else if negb (y mod 100 =? 0) then true
  else if negb (y mod 400 =? 0) then false
  else true.

(** The largest year whose first day is not after [t]. *)
Definition YearFromTime (t : Z) : Z :=
  let d := Day t in
  let y0 := 1970 + d * 400 / 146097 in
  if DayFromYear (y0 + 1) <=? d then y0 + 1
  else if DayFromYear y0 <=? d then y0
  else y0 - 1.

Definition DayWithinYear (t : Z) : Z := Day t - DayFromYear (YearFromTime t).

(** The day within the year on which month [m] (0 to 11) starts. *)
Definition monthStart (leap : bool) (m : Z) : Z :=
  let l := if leap then 1 else 0 in
  if m <=? 0 then 0
  else if m =? 1 then 31
  else nth (Z.to_nat (m - 2)) [59; 90; 120; 151; 181; 212; 243; 273; 304; 334] 365 + l.

Definition MonthFromTime (t : Z) : Z :=
  let leap := isLeapYear (YearFromTime t) in
  let d := DayWithinYear t in
  let fix scan (fuel : nat) (m : Z) : Z :=
    match fuel with
    | O => m
    | S fuel' => if d <? monthStart leap (m + 1) then m else scan fuel' (m + 1)
    end in
  scan 11%nat 0.

Definition MakeDay (year month date : Z) : Z :=
  let ym := year + month / 12 in
  let mn := month mod 12 in
  DayFromYear ym + monthStart (isLeapYear ym) mn + date - 1.

Definition MakeTime (hour min sec ms : Z) : Z :=
  hour * 3600000 + min * 60000 + sec * 1000 + ms.

Definition MakeDate (day time : Z) : Z := day * msPerDay + time.

(** [TimeClip]: a time value further than 8.64e15 ms from the epoch is NaN. *)
Definition TimeClip (t : Z) : option Z :=
  if Z.abs t <=? 8640000000000000 then Some t else None.

(** ** Dates: the date-time string format *)

(** Reads exactly [n] decimal digits. *)
Fixpoint readFixed (n : nat) (s : string) (acc : Z) : option (Z * string) :=
  match n with
  | O => Some (acc, s)
  | S n' =>
      match s with
      | EmptyString => None
      | String c s' =>
          match digitOf 10 c with
          | Some d => readFixed n' s' (acc * 10 + d)
          | None => None
          end
      end
  end.

(** [YYYY], or a sign and six digits; [-000000] is not a year. *)
Definition readIsoYear (s : string) : option (Z * string) :=
  match s with
  | String "+"%char r => readFixed 6 r 0
  | String "-"%char r =>
      match readFixed 6 r 0 with
      | Some (y, r') => if y =? 0 then None else Some (- y, r')
      | None => None
      end
  | _ => readFixed 4 s 0
  end.

(** An optional field of [n] digits introduced by the unit [lead]; [dflt]
    when the string does not go on with [lead]. *)
Definition readOptField (lead : ascii) (n : nat) (dflt : Z) (s : string)
  : option (Z * bool * string) :=
  match s with
  | String c r =>
      if Ascii.eqb c lead then
        match readFixed n r 0 with
        | Some (v, r') => Some (v, true, r')
        | None => None
        end
      else Some (dflt, false, s)
  | EmptyString => Some (dflt, false, s)
  end.

(** The UTC offset that closes a date-time: none (local time), [Z], or a
    sign with [HH:mm]. *)
Definition readIsoOffset (s : string) : option (option Z) :=
  match s with
  | EmptyString => Some None
  | String "Z"%char EmptyString => Some (Some 0)
  | String c r =>
      if Ascii.eqb c "+"%char || Ascii.eqb c "-"%char then
        match readFixed 2 r 0 with
        | Some (h, String ":"%char r1) =>
            match readFixed 2 r1 0 with
            | Some (m, EmptyString) =>
                if (h <=? 23) && (m <=? 59) then
                  let off := h * 3600000 + m * 60000 in
                  Some (Some (if Ascii.eqb c "-"%char then - off else off))
                else None
            | _ => None
            end
        | _ => None
        end
      else None
  end.

(** The time of day and offset after the [T]: [HH:mm], [HH:mm:ss] or
    [HH:mm:ss.sss], then the offset. *)
Definition readIsoTime (s : string) : option (Z * option Z) :=
  match readFixed 2 s 0 with
  | Some (h, String ":"%char r1) =>
      match readFixed 2 r1 0 with
      | Some (m, r2) =>
          match readOptField ":"%char 2 0 r2 with
          | Some (sec, hasSec, r3) =>
              match (if hasSec then readOptField "."%char 3 0 r3
                     else Some (0, false, r3)) with
              | Some (ms, _, r4) =>
                  match readIsoOffset r4 with
                  | Some off =>
                      if (h <=? 24) && (m <=? 59) && (sec <=? 59)
                         && ((h <? 24) || ((m =? 0) && (sec =? 0) && (ms =? 0)))
                      then Some (MakeTime h m sec ms, off)
                      else None
                  | None => None
                  end
              | None => None
              end
          | None => None
          end
      | None => None
      end
  | _ => None
  end.

(** A string in the date-time format: the time value its fields denote
    and its offset ([None] for a date-time without one, which is local
    time).  A date without a time of day is UTC.  The fields are checked
    against the ranges of the format (month 01 to 12, day 01 to 31, hour 00
    to 24, minute and second 00 to 59); a day past the end of its month
    carries into the next month, as [MakeDay] has it. *)
Definition readIsoDateTime (s : string) : option (Z * option Z) :=
  match readIsoYear s with
  | Some (y, r1) =>
      match readOptField "-"%char 2 1 r1 with
      | Some (mo, hasMonth, r2) =>
          match (if hasMonth then readOptField "-"%char 2 1 r2
                 else Some (1, false, r2)) with
          | Some (d, _, r3) =>
              if (1 <=? mo) && (mo <=? 12) && (1 <=? d) && (d <=? 31) then
                let day := MakeDay y (mo - 1) d in
                match r3 with
                | EmptyString => Some (MakeDate day 0, Some 0)
                | String "T"%char r4 =>
                    match readIsoTime r4 with
                    | Some (time, off) => Some (MakeDate day time, off)
                    | None => None
                    end
                | _ => None
                end
              else None
          | None => None
          end
      | None => None
      end
  | None => None
  end.

Section Dates.
Context {P : Platform}.

(** [Date.parse(s)]: the date-time format first, then whatever else the
    engine recognises.  [None] is NaN. *)
Definition dateParse (s : string) : option Z :=
  match readIsoDateTime s with
  | Some (t, Some off) => Some (t - off)
  | Some (t, None) => Some (t - localTZA t)
  | None => legacyDateParse s
  end.

(** [new Date(value).getTime()] for a string: the parsed time value,
    clipped to the range of a Date. *)
Definition newDate (value : string) : option Z :=
  match dateParse value with
  | Some tv => TimeClip tv
  | None => None
  end.

(** The result is the time value of the Date returned, [None] for
    [null]. *)
Definition parseTimestamp (value : JsValue) : option Z :=
  match value with
  | JString s =>
      if negb (strTruthy (trim s)) then None
      else
        match newDate s with
        | Some date => Some date
        | None =>
            let maybeIso := if includes "T" s then s
                            else replaceFirst " " "T" s in
            let withZone := if endsWith "Z" maybeIso then maybeIso
                            else maybeIso ++ "Z" in
            match newDate withZone with
            | None => None
            | Some date => Some date
            end
        end
  | _ => None
  end.

Definition getUTCFullYear (date : Z) : Z := YearFromTime date.

Definition getUTCMonth (date : Z) : Z := MonthFromTime date.

Definition timestampToMonthKey (date : Z) : string :=
  let year := getUTCFullYear date in
  let month := padStart0 2 (intToString (getUTCMonth date + 1)) in
  intToString year ++ "-" ++ month.

Definition MONTH_NAMES : list string :=
  ["Jan"; "Feb"; "Mar"; "Apr"; "May"; "Jun";
   "Jul"; "Aug"; "Sep"; "Oct"; "Nov"; "Dec"].

(** [String(x)] for a finite Number. *)
Definition numberToString (q : Q) : string :=
  if isIntegral q && negb (Qle_bool (inject_Z (10 ^ 21)) (Qabs q))
  then intToString (Qfloor q)
  else numberToStringOther q.

Definition formatMonthLabel (monthKey : string) : string :=
  match splitOn "-" monthKey with
  | [p0; p1] =>
      match stringToNumber p0, stringToNumber p1 with
      | Finite year, Finite month =>
          if negb (Qle_bool 1 month) || negb (Qle_bool month 12) then monthKey
          else
            (if isIntegral month
             then nth (Z.to_nat (Qfloor month - 1)) MONTH_NAMES "undefined"
             else "undefined")
            ++ " " ++ numberToString year
      | _, _ => monthKey
      end
  | _ => monthKey
  end.

End Dates.

(** ** Insertion-ordered maps *)

(** Keys are compared by a decidable equality ([SameValueZero] on strings
    and on integers is equality). *)
Class EqKey (K : Type) : Type := {
  keyb : K -> K -> bool;
  keyb_eq : forall a b, keyb a b = true <-> a = b
}.

#[global] Instance EqKey_string : EqKey string :=
  {| keyb := String.eqb; keyb_eq := String.eqb_eq |}.

#[global] Instance EqKey_Z : EqKey Z :=
  {| keyb := Z.eqb; keyb_eq := Z.eqb_eq |}.

(** A [Map]: its entries in insertion order. *)
Definition JsMap (K V : Type) : Type := list (K * V).

Fixpoint mapGet {K V : Type} `{EqKey K} (m : JsMap K V) (k : K) : option V :=
  match m with
  | [] => None
  | (k', v) :: m' => if keyb k' k then Some v else mapGet m' k
  end.

Fixpoint mapSet {K V : Type} `{EqKey K} (m : JsMap K V) (k : K) (v : V)
  : JsMap K V :=
  match m with
  | [] => [(k, v)]
  | (k', v') :: m' =>
      if keyb k' k then (k', v) :: m' else (k', v') :: mapSet m' k v
  end.

Definition mapKeys {K V : Type} (m : JsMap K V) : list K := map fst m.

Definition mapValues {K V : Type} (m : JsMap K V) : list V := map snd m.

(** [o || d] for an optional object or count. *)
Definition orDefault {V : Type} (o : option V) (d : V) : V :=
  match o with Some v => v | None => d end.

(** ** Counters *)

Definition incrementCounter (counter : JsMap string Z) (value : string)
  : JsMap string Z :=
  if negb (strTruthy value) then counter
  else mapSet counter value (orDefault (mapGet counter value) 0 + 1).

Definition mostCommonCounterKey (counter : JsMap string Z) : string :=
  fst (fold_left
         (fun (best : string * Z) (entry : string * Z) =>
            let '(bestKey, bestCount) := best in
            let '(key, count) := entry in
            if count >? bestCount then (key, count) else (bestKey, bestCount))
         counter (EmptyString, -1)).

(** ** Accumulators *)

Record SongEntry : Type := {
  se_song : string;
  se_artist : string;
  se_playCount : Z;
  se_skipCount : Z;
  se_totalMs : Z;
  se_albumCounter : JsMap string Z;
  se_uriCounter : JsMap string Z
}.

Record ArtistEntry : Type := {
  ae_artist : string;
  ae_playCount : Z;
  ae_skipCount : Z;
  ae_totalMs : Z
}.

Record MonthSongEntry : Type := {
  ms_playCount : Z;
  ms_totalMs : Z
}.

(** The variables of the aggregation loop. *)
Record State : Type := {
  st_songMap : JsMap string SongEntry;
  st_artistMap : JsMap string ArtistEntry;
  st_monthlySongMap : JsMap string (JsMap string MonthSongEntry);
  st_monthlyMs : JsMap string Z;
  st_yearlyMs : JsMap Z Z;
  st_ignoredNonSong : Z;
  st_ignoredBadTimestamp : Z;
  st_songRecordsUsed : Z
}.

Definition initialState : State :=
  {| st_songMap := []; st_artistMap := []; st_monthlySongMap := [];
     st_monthlyMs := []; st_yearlyMs := [];
     st_ignoredNonSong := 0; st_ignoredBadTimestamp := 0;
     st_songRecordsUsed := 0 |}.

Definition boolToZ (b : bool) : Z := if b then 1 else 0.

Section Aggregation.
Context {P : Platform}.

(** The body of the loop [for (const record of records)]. *)
Definition processRecord (st : State) (record : RawRecord) : State :=
  if negb (isSongRecord record) then
    {| st_songMap := st.(st_songMap); st_artistMap := st.(st_artistMap);
       st_monthlySongMap := st.(st_monthlySongMap);
       st_monthlyMs := st.(st_monthlyMs); st_yearlyMs := st.(st_yearlyMs);
       st_ignoredNonSong := st.(st_ignoredNonSong) + 1;
       st_ignoredBadTimestamp := st.(st_ignoredBadTimestamp);
       st_songRecordsUsed := st.(st_songRecordsUsed) |}
  else
    match parseTimestamp record.(ts) with
    | None =>
        {| st_songMap := st.(st_songMap); st_artistMap := st.(st_artistMap);
           st_monthlySongMap := st.(st_monthlySongMap);
           st_monthlyMs := st.(st_monthlyMs); st_yearlyMs := st.(st_yearlyMs);
           st_ignoredNonSong := st.(st_ignoredNonSong);
           st_ignoredBadTimestamp := st.(st_ignoredBadTimestamp) + 1;
           st_songRecordsUsed := st.(st_songRecordsUsed) |}
    | Some timestamp =>
        let song := cleanString record.(master_metadata_track_name) in
        let artist := cleanString record.(master_metadata_album_artist_name) in
        let album := cleanString record.(master_metadata_album_album_name) in
        let uri := cleanString record.(spotify_track_uri) in
        let msPlayed := sanitizeMs record.(ms_played) in
        let skipped := toBoolean record.(skipped) in
        let songKey := makeSongKey song artist in
        let monthKey := timestampToMonthKey timestamp in
        let yearKey := getUTCFullYear timestamp in
        let songEntry :=
          orDefault (mapGet st.(st_songMap) songKey)
            {| se_song := song; se_artist := artist; se_playCount := 0;
               se_skipCount := 0; se_totalMs := 0;
               se_albumCounter := []; se_uriCounter := [] |} in
        let songEntry :=
          {| se_song := songEntry.(se_song);
             se_artist := songEntry.(se_artist);
             se_playCount := songEntry.(se_playCount) + 1;
             se_skipCount := songEntry.(se_skipCount) + boolToZ skipped;
             se_totalMs := songEntry.(se_totalMs) + msPlayed;
             se_albumCounter := incrementCounter songEntry.(se_albumCounter) album;
             se_uriCounter := incrementCounter songEntry.(se_uriCounter) uri |} in
        let artistEntry :=
          orDefault (mapGet st.(st_artistMap) artist)
            {| ae_artist := artist; ae_playCount := 0; ae_skipCount := 0;
               ae_totalMs := 0 |} in
        let artistEntry :=
          {| ae_artist := artistEntry.(ae_artist);
             ae_playCount := artistEntry.(ae_playCount) + 1;
             ae_skipCount := artistEntry.(ae_skipCount) + boolToZ skipped;
             ae_totalMs := artistEntry.(ae_totalMs) + msPlayed |} in
        let monthSongs := orDefault (mapGet st.(st_monthlySongMap) monthKey) [] in
        let monthSongEntry :=
          orDefault (mapGet monthSongs songKey)
            {| ms_playCount := 0; ms_totalMs := 0 |} in
        let monthSongEntry :=
          {| ms_playCount := monthSongEntry.(ms_playCount) + 1;
             ms_totalMs := monthSongEntry.(ms_totalMs) + msPlayed |} in
        let monthSongs := mapSet monthSongs songKey monthSongEntry in
        {| st_songMap := mapSet st.(st_songMap) songKey songEntry;
           st_artistMap := mapSet st.(st_artistMap) artist artistEntry;
           st_monthlySongMap := mapSet st.(st_monthlySongMap) monthKey monthSongs;
           st_monthlyMs :=
             mapSet st.(st_monthlyMs) monthKey
               (orDefault (mapGet st.(st_monthlyMs) monthKey) 0 + msPlayed);
           st_yearlyMs :=
             mapSet st.(st_yearlyMs) yearKey
               (orDefault (mapGet st.(st_yearlyMs) yearKey) 0 + msPlayed);
           st_ignoredNonSong := st.(st_ignoredNonSong);
           st_ignoredBadTimestamp := st.(st_ignoredBadTimestamp);
           st_songRecordsUsed := st.(st_songRecordsUsed) + 1 |}
    end.

(** The state when the loop over [records] ends. *)
Definition aggregate (records : list RawRecord) : State :=
  fold_left processRecord records initialState.

End Aggregation.

(** ** Rows of the report *)

Record SongRow : Type := {
  song : string;
  artist : string;
  album : string;
  uri : string;
  playCount : Z;
  skipCount : Z;
  skipRate : Q;
  totalMs : Z;
  totalMinutes : Q;
  totalHours : Q
}.

Record ArtistRow : Type := {
  ar_artist : string;
  ar_playCount : Z;
  ar_skipCount : Z;
  ar_totalMs : Z;
  ar_totalMinutes : Q
}.

Record Top3Row : Type := {
  t3_month : string;
  t3_monthLabel : string;
  t3_rank : Z;
  t3_song : string;
  t3_artist : string;
  t3_playCount : Z;
  t3_minutesListened : Q
}.

Record MonthRow : Type := {
  mr_month : string;
  mr_monthLabel : string;
  mr_totalMs : Z;
  mr_minutes : Q;
  mr_hours : Q
}.

Record YearRow : Type := {
  yr_year : Z;
  yr_totalMs : Z;
  yr_minutes : Q;
  yr_hours : Q
}.

(** A row of either time series, as [pickPeak] receives it. *)
Inductive PeriodRow : Type :=
| MonthlyRow (row : MonthRow)
| YearlyRow (row : YearRow).

(** What [pickPeak] returns: the month shape or the year shape. *)
Inductive Peak : Type :=
| PeakMonth (month monthLabel : string) (totalMs : Z) (minutes : Q)
| PeakYear (year : Z) (totalMs : Z) (minutes : Q).

Record Report (Meta : Type) : Type := {
  parsedInputMeta : Meta;
  totalRecordsRead : Z;
  songRecordsUsed : Z;
  ignoredNonSong : Z;
  ignoredBadTimestamp : Z;
  uniqueSongs : Z;
  totalSongMs : Z;
  rp_totalMinutes : Q;
  rp_totalHours : Q;
  peakMonth : option Peak;
  peakYear : option Peak;
  dataRange : string;
  songRows : list SongRow;
  top10ByPlayCount : list SongRow;
  top10ByTime : list SongRow;
  top10Skipped : list SongRow;
  top3PerMonthRows : list Top3Row;
  monthlyMinutesRows : list MonthRow;
  yearlyMinutesRows : list YearRow;
  topArtistsByMinutes : list ArtistRow
}.

Arguments parsedInputMeta {Meta} _.
Arguments totalRecordsRead {Meta} _.
Arguments songRecordsUsed {Meta} _.
Arguments ignoredNonSong {Meta} _.
Arguments ignoredBadTimestamp {Meta} _.
Arguments uniqueSongs {Meta} _.
Arguments totalSongMs {Meta} _.
Arguments rp_totalMinutes {Meta} _.
Arguments rp_totalHours {Meta} _.
Arguments peakMonth {Meta} _.
Arguments peakYear {Meta} _.
Arguments dataRange {Meta} _.
Arguments songRows {Meta} _.
Arguments top10ByPlayCount {Meta} _.
Arguments top10ByTime {Meta} _.
Arguments top10Skipped {Meta} _.
Arguments top3PerMonthRows {Meta} _.
Arguments monthlyMinutesRows {Meta} _.
Arguments yearlyMinutesRows {Meta} _.
Arguments topArtistsByMinutes {Meta} _.

(** ** Sorting *)

(** [x || y] on two numbers: [y] when [x] is zero. *)
Definition orElse (x y : Z) : Z := if x =? 0 then y else x.

(** [Array.prototype.sort(cmp)] is a stable sort: of two elements the
    comparator does not order ([cmp a b <= 0] for [a] before [b]), the one
    first in the input stays first.  The model is the stable insertion
    sort, which every stable sort agrees with on a consistent comparator. *)
Fixpoint sortInsert {A : Type} (cmp : A -> A -> Z) (x : A) (l : list A)
  : list A :=
  match l with
  | [] => [x]
  | y :: l' => if cmp x y <=? 0 then x :: l else y :: sortInsert cmp x l'
  end.

Fixpoint sortWith {A : Type} (cmp : A -> A -> Z) (l : list A) : list A :=
  match l with
  | [] => []
  | x :: l' => sortInsert cmp x (sortWith cmp l')
  end.

(** [l.slice(0, n)] *)
Definition sliceFirst {A : Type} (n : nat) (l : list A) : list A := firstn n l.

(** [l.map((x, index) => f x index)] with the index counted from [index]. *)
Fixpoint mapIndexed {A B : Type} (f : A -> Z -> B) (index : Z) (l : list A)
  : list B :=
  match l with
  | [] => []
  | x :: l' => f x index :: mapIndexed f (index + 1) l'
  end.

Section Ranking.
Context {P : Platform}.

Definition compareSongsByPlayCount (a b : SongRow) : Z :=
  orElse (b.(playCount) - a.(playCount))
    (orElse (b.(totalMs) - a.(totalMs))
       (orElse (b.(skipCount) - a.(skipCount))
          (orElse (localeCompare a.(artist) b.(artist))
             (localeCompare a.(song) b.(song))))).

Definition compareSongsByListenTime (a b : SongRow) : Z :=
  orElse (b.(totalMs) - a.(totalMs))
    (orElse (b.(playCount) - a.(playCount))
       (orElse (localeCompare a.(artist) b.(artist))
          (localeCompare a.(song) b.(song)))).

Definition compareSongsBySkipCount (a b : SongRow) : Z :=
  orElse (b.(skipCount) - a.(skipCount))
    (orElse (b.(playCount) - a.(playCount))
       (orElse (localeCompare a.(artist) b.(artist))
          (localeCompare a.(song) b.(song)))).

Definition compareMonthlySongRank (a b : string * MonthSongEntry) : Z :=
  let '(songA, statA) := a in
  let '(songB, statB) := b in
  let '(titleA, artistA) := splitSongKey songA in
  let '(titleB, artistB) := splitSongKey songB in
  orElse (statB.(ms_playCount) - statA.(ms_playCount))
    (orElse (statB.(ms_totalMs) - statA.(ms_totalMs))
       (orElse (localeCompare artistA artistB)
          (localeCompare titleA titleB))).

Definition compareArtistsByTime (a b : ArtistRow) : Z :=
  orElse (b.(ar_totalMs) - a.(ar_totalMs))
    (orElse (b.(ar_playCount) - a.(ar_playCount))
       (localeCompare a.(ar_artist) b.(ar_artist))).

End Ranking.

(** ** The peak selector *)

Definition pickPeak (rows : list PeriodRow)
  (valueAccessor : PeriodRow -> Z) (tieBreakerAccessor : PeriodRow -> string)
  : option Peak :=
  match rows with
  | [] => None
  | first :: rest =>
      let best :=
        fold_left
          (fun best current =>
             let currentValue := valueAccessor current in
             let bestValue := valueAccessor best in
             if (currentValue >? bestValue)
                || ((currentValue =? bestValue)
                    && strGt (tieBreakerAccessor current) (tieBreakerAccessor best))
             then current else best)
          rest first in
      match best with
      | MonthlyRow r =>
          Some (PeakMonth r.(mr_month) r.(mr_monthLabel) r.(mr_totalMs) r.(mr_minutes))
      | YearlyRow r =>
          Some (PeakYear r.(yr_year) r.(yr_totalMs) r.(yr_minutes))
      end
  end.

(** [row.totalMs], [row.month] and [String(row.year)] on a row of either
    series; a property the row does not have reads as [undefined]. *)
Definition periodTotalMs (row : PeriodRow) : Z :=
  match row with
  | MonthlyRow r => r.(mr_totalMs)
  | YearlyRow r => r.(yr_totalMs)
  end.

Definition periodMonth (row : PeriodRow) : string :=
  match row with
  | MonthlyRow r => r.(mr_month)
  | YearlyRow _ => "undefined"
  end.

Definition periodYearString (row : PeriodRow) : string :=
  match row with
  | MonthlyRow _ => "undefined"
  | YearlyRow r => intToString r.(yr_year)
  end.

(** ** Assembling the report *)

Definition toMinutes (ms : Z) : Q := Qdiv (inject_Z ms) (inject_Z 60000).

Definition toHours (ms : Z) : Q := Qdiv (inject_Z ms) (inject_Z 3600000).

(** The errors [handleProcess] throws once the files are decoded; each is
    an [Error] told apart by its message. *)
Inductive RunError : Type :=
| NoStreamingRecords
    (* "No valid JSON streaming records were found in the selected files." *)
| NoSongRecords
    (* "No song records were found after filtering out non-song entries." *).

Section BuildReport.
Context {P : Platform}.

(** [Array.from(songMap.values()).map((entry) => ...)] *)
Definition songRowOf (entry : SongEntry) : SongRow :=
  let album := mostCommonCounterKey entry.(se_albumCounter) in
  let uri := mostCommonCounterKey entry.(se_uriCounter) in
  let totalMinutes := toMinutes entry.(se_totalMs) in
  {| song := entry.(se_song);
     artist := entry.(se_artist);
     album := album;
     uri := uri;
     playCount := entry.(se_playCount);
     skipCount := entry.(se_skipCount);
     skipRate := if entry.(se_playCount) =? 0 then 0%Q
                 else Qdiv (inject_Z entry.(se_skipCount))
                           (inject_Z entry.(se_playCount));
     totalMs := entry.(se_totalMs);
     totalMinutes := totalMinutes;
     totalHours := Qdiv totalMinutes (inject_Z 60) |}.

(** The rows one month contributes to [top3PerMonthRows]. *)
Definition top3RowsOfMonth (monthlySongMap : JsMap string (JsMap string MonthSongEntry))
  (month : string) : list Top3Row :=
  match mapGet monthlySongMap month with
  | None => []
  | Some monthSongs =>
      let ranked := sliceFirst 3 (sortWith compareMonthlySongRank monthSongs) in
      mapIndexed
        (fun (entry : string * MonthSongEntry) (index : Z) =>
           let '(songKey, monthEntry) := entry in
           let '(song, artist) := splitSongKey songKey in
           {| t3_month := month;
              t3_monthLabel := formatMonthLabel month;
              t3_rank := index + 1;
              t3_song := song;
              t3_artist := artist;
              t3_playCount := monthEntry.(ms_playCount);
              t3_minutesListened := toMinutes monthEntry.(ms_totalMs) |})
        0 ranked
  end.

Definition monthRowOf (entry : string * Z) : MonthRow :=
  let '(month, totalMs) := entry in
  {| mr_month := month;
     mr_monthLabel := formatMonthLabel month;
     mr_totalMs := totalMs;
     mr_minutes := toMinutes totalMs;
     mr_hours := toHours totalMs |}.

Definition yearRowOf (entry : Z * Z) : YearRow :=
  let '(year, totalMs) := entry in
  {| yr_year := year;
     yr_totalMs := totalMs;
     yr_minutes := toMinutes totalMs;
     yr_hours := toHours totalMs |}.

Definition artistRowOf (row : ArtistEntry) : ArtistRow :=
  {| ar_artist := row.(ae_artist);
     ar_playCount := row.(ae_playCount);
     ar_skipCount := row.(ae_skipCount);
     ar_totalMs := row.(ae_totalMs);
     ar_totalMinutes := toMinutes row.(ae_totalMs) |}.

Definition buildReport {Meta : Type} (records : list RawRecord)
  (parsedInputMeta : Meta) : Report Meta :=
  let st := aggregate records in
  let songRows :=
    sortWith compareSongsByPlayCount (map songRowOf (mapValues st.(st_songMap))) in
  let top10ByPlayCount := sliceFirst 10 (sortWith compareSongsByPlayCount songRows) in
  let top10ByTime := sliceFirst 10 (sortWith compareSongsByListenTime songRows) in
  let top10Skipped :=
    sliceFirst 10
      (sortWith compareSongsBySkipCount
         (filter (fun row => row.(skipCount) >? 0) songRows)) in
  let sortedMonths := sortWith localeCompare (mapKeys st.(st_monthlySongMap)) in
  let top3PerMonthRows :=
    flat_map (top3RowsOfMonth st.(st_monthlySongMap)) sortedMonths in
  let monthlyMinutesRows :=
    map monthRowOf
      (sortWith (fun a b => localeCompare (fst a) (fst b)) st.(st_monthlyMs)) in
  let yearlyMinutesRows :=
    map yearRowOf (sortWith (fun a b => fst a - fst b) st.(st_yearlyMs)) in
  let peakMonth :=
    pickPeak (map MonthlyRow monthlyMinutesRows) periodTotalMs periodMonth in
  let peakYear :=
    pickPeak (map YearlyRow yearlyMinutesRows) periodTotalMs periodYearString in
  let topArtistsByMinutes :=
    sliceFirst 10
      (sortWith compareArtistsByTime
         (map artistRowOf (mapValues st.(st_artistMap)))) in
  let totalSongMs := fold_left (fun sum row => sum + row.(totalMs)) songRows 0 in
  let dataRange :=
    match monthlyMinutesRows with
    | [] => "N/A"
    | first :: _ =>
        first.(mr_monthLabel) ++ " - "
        ++ (last monthlyMinutesRows first).(mr_monthLabel)
    end in
  {| parsedInputMeta := parsedInputMeta;
     totalRecordsRead := Z.of_nat (List.length records);
     songRecordsUsed := st.(st_songRecordsUsed);
     ignoredNonSong := st.(st_ignoredNonSong);
     ignoredBadTimestamp := st.(st_ignoredBadTimestamp);
     uniqueSongs := Z.of_nat (List.length songRows);
     totalSongMs := totalSongMs;
     rp_totalMinutes := toMinutes totalSongMs;
     rp_totalHours := toHours totalSongMs;
     peakMonth := peakMonth;
     peakYear := peakYear;
     dataRange := dataRange;
     songRows := songRows;
     top10ByPlayCount := top10ByPlayCount;
     top10ByTime := top10ByTime;
     top10Skipped := top10Skipped;
     top3PerMonthRows := top3PerMonthRows;
     monthlyMinutesRows := monthlyMinutesRows;
     yearlyMinutesRows := yearlyMinutesRows;
     topArtistsByMinutes := topArtistsByMinutes |}.

(** ** The run, from the decoded records on *)

(** [handleProcess] from the decoded records on, up to the export: [inl] is
    the error thrown, [inr] the report handed to the exporter. *)
Definition handleProcess {Meta : Type} (records : list RawRecord)
  (parsedInput : Meta) : RunError + Report Meta :=
  if (List.length records =? 0)%nat then inl NoStreamingRecords
  else
    let report := buildReport records parsedInput in
    if report.(songRecordsUsed) =? 0 then inl NoSongRecords
    else inr report.

End BuildReport.

(** ** Notions used to state the properties *)

(** Code units compared left to right: a collation an engine may use. *)
Definition codeUnitCompare (a b : string) : Z :=
  match String.compare a b with Lt => -1 | Eq => 0 | Gt => 1 end.

(** A platform that reads nothing but the date-time format, runs in UTC and
    collates by code units. *)
Definition strictPlatform : Platform :=
  {| localeCompare := codeUnitCompare;
     legacyDateParse := fun _ => None;
     localTZA := fun _ => 0;
     numberToStringOther := fun _ => "NaN" |}.

(** A value read as text: what is not a string counts as the empty string. *)
Definition asText (value : JsValue) : string :=
  match value with
  | JString s => s
  | _ => EmptyString
  end.

(** The classification rule in the words of the specification. *)
Definition qualifiesAsSong (record : RawRecord) : Prop :=
  trim (asText record.(master_metadata_track_name)) <> EmptyString
  /\ trim (asText record.(master_metadata_album_artist_name)) <> EmptyString
  /\ trim (asText record.(episode_name)) = EmptyString
  /\ trim (asText record.(spotify_episode_uri)) = EmptyString.

(** [n] is the integer nearest to [q], the greater one on a tie. *)
Definition nearestInteger (q : Q) (n : Z) : Prop :=
  (inject_Z n - (1 # 2) <= q)%Q /\ (q < inject_Z n + (1 # 2))%Q.

(** A record of the given fields that is a song with a timestamp. *)
Definition songRecord (title artistName albumName trackUri stamp : string)
  (ms : Z) (skip : bool) : RawRecord :=
  {| master_metadata_track_name := JString title;
     master_metadata_album_artist_name := JString artistName;
     master_metadata_album_album_name := JString albumName;
     spotify_track_uri := JString trackUri;
     episode_name := JNull;
     spotify_episode_uri := JNull;
     ts := JString stamp;
     ms_played := JNumber (Finite (inject_Z ms));
     skipped := JBool skip |}.

(** The identity and the counts of a row of the song table. *)
Definition rowSummary (row : SongRow) : string * string * Z * Z :=
  (row.(song), row.(artist), row.(playCount), row.(totalMs)).

(** The lenient repair of a timestamp string: a space becomes the [T]
    separator when the string has no [T], and the [Z] zone marker is
    appended when the string does not end with one. *)
Definition withTSeparator (s : string) : string :=
  if includes "T" s then s else replaceFirst " " "T" s.

Definition withZoneMarker (s : string) : string :=
  if endsWith "Z" s then s else s ++ "Z".

Definition lenientRepair (s : string) : string :=
  withZoneMarker (withTSeparator s).

(** The object [pickPeak] builds from the row it selected. *)
Definition peakOfRow (row : PeriodRow) : Peak :=
  match row with
  | MonthlyRow r =>
      PeakMonth r.(mr_month) r.(mr_monthLabel) r.(mr_totalMs) r.(mr_minutes)
  | YearlyRow r => PeakYear r.(yr_year) r.(yr_totalMs) r.(yr_minutes)
  end.

(** [r] does not beat [b]: a smaller value, or the same value and a key
    that is not greater. *)
Definition dominatedBy {R : Type} (value : R -> Z) (key : R -> string)
  (r b : R) : Prop :=
  value r < value b \/ (value r = value b /\ strGt (key r) (key b) = false).

(** The body of the loop of [pickPeak]. *)
Definition peakStep {R : Type} (value : R -> Z) (key : R -> string)
  (best current : R) : R :=
  if (value current >? value best)
     || ((value current =? value best) && strGt (key current) (key best))
  then current else best.

(** [best] is a peak of [rows]: a row of the series with the maximum value
    whose key no other row with that value exceeds as a string. *)
Definition isPeakOf {R : Type} (value : R -> Z) (key : R -> string)
  (rows : list R) (best : R) : Prop :=
  In best rows
  /\ (forall r, In r rows -> value r <= value best)
  /\ (forall r, In r rows -> value r = value best ->
                strGt (key r) (key best) = false).

(** *** The accepted events *)

(** What the loop body computes from a record it accepts. *)
Record Event : Type := {
  ev_song : string;
  ev_artist : string;
  ev_album : string;
  ev_uri : string;
  ev_msPlayed : Z;
  ev_skipped : bool;
  ev_monthKey : string;
  ev_yearKey : Z
}.

Definition ev_songKey (e : Event) : string :=
  makeSongKey e.(ev_song) e.(ev_artist).

(** How the loop body disposes of a record. *)
Inductive Disposition : Type :=
| NonSong
| BadTimestamp
| Accepted (e : Event).

Section Events.
Context {P : Platform}.

Definition dispose (record : RawRecord) : Disposition :=
  if isSongRecord record then
    match parseTimestamp record.(ts) with
    | None => BadTimestamp
    | Some timestamp =>
        Accepted
          {| ev_song := cleanString record.(master_metadata_track_name);
             ev_artist := cleanString record.(master_metadata_album_artist_name);
             ev_album := cleanString record.(master_metadata_album_album_name);
             ev_uri := cleanString record.(spotify_track_uri);
             ev_msPlayed := sanitizeMs record.(ms_played);
             ev_skipped := toBoolean record.(skipped);
             ev_monthKey := timestampToMonthKey timestamp;
             ev_yearKey := getUTCFullYear timestamp |}
    end
  else NonSong.

(** The events of the accepted records, in input order. *)
Definition eventsOf (records : list RawRecord) : list Event :=
  flat_map (fun record =>
              match dispose record with
              | Accepted e => [e]
              | _ => []
              end) records.

Definition isNonSong (record : RawRecord) : bool :=
  match dispose record with NonSong => true | _ => false end.

Definition isBadTimestamp (record : RawRecord) : bool :=
  match dispose record with BadTimestamp => true | _ => false end.

Definition isAccepted (record : RawRecord) : bool :=
  match dispose record with Accepted _ => true | _ => false end.

End Events.

(** *** Grouping *)

(** One step of a loop that keeps, per key, a value updated by each element
    with that key: [m.set(k, upd(m.get(k), e))]. *)
Definition groupStep {E K V : Type} `{EqKey K} (key : E -> K)
  (upd : option V -> E -> V) (m : JsMap K V) (e : E) : JsMap K V :=
  mapSet m (key e) (upd (mapGet m (key e)) e).

Definition groupBy {E K V : Type} `{EqKey K} (key : E -> K)
  (upd : option V -> E -> V) (es : list E) : JsMap K V :=
  fold_left (groupStep key upd) es [].

Definition updSong (o : option SongEntry) (e : Event) : SongEntry :=
  let songEntry :=
    orDefault o
      {| se_song := e.(ev_song); se_artist := e.(ev_artist); se_playCount := 0;
         se_skipCount := 0; se_totalMs := 0;
         se_albumCounter := []; se_uriCounter := [] |} in
  {| se_song := songEntry.(se_song);
     se_artist := songEntry.(se_artist);
     se_playCount := songEntry.(se_playCount) + 1;
     se_skipCount := songEntry.(se_skipCount) + boolToZ e.(ev_skipped);
     se_totalMs := songEntry.(se_totalMs) + e.(ev_msPlayed);
     se_albumCounter := incrementCounter songEntry.(se_albumCounter) e.(ev_album);
     se_uriCounter := incrementCounter songEntry.(se_uriCounter) e.(ev_uri) |}.

Definition updArtist (o : option ArtistEntry) (e : Event) : ArtistEntry :=
  let artistEntry :=
    orDefault o
      {| ae_artist := e.(ev_artist); ae_playCount := 0; ae_skipCount := 0;
         ae_totalMs := 0 |} in
  {| ae_artist := artistEntry.(ae_artist);
     ae_playCount := artistEntry.(ae_playCount) + 1;
     ae_skipCount := artistEntry.(ae_skipCount) + boolToZ e.(ev_skipped);
     ae_totalMs := artistEntry.(ae_totalMs) + e.(ev_msPlayed) |}.

Definition updMonthSong (o : option MonthSongEntry) (e : Event) : MonthSongEntry :=
  let monthSongEntry := orDefault o {| ms_playCount := 0; ms_totalMs := 0 |} in
  {| ms_playCount := monthSongEntry.(ms_playCount) + 1;
     ms_totalMs := monthSongEntry.(ms_totalMs) + e.(ev_msPlayed) |}.

Definition updMonthSongs (o : option (JsMap string MonthSongEntry)) (e : Event)
  : JsMap string MonthSongEntry :=
  groupStep ev_songKey updMonthSong (orDefault o []) e.

Definition updMs (o : option Z) (e : Event) : Z :=
  orDefault o 0 + e.(ev_msPlayed).

(** The value a key ends with: each element with that key updates it in
    turn. *)
Definition accumulate {E V : Type} (upd : option V -> E -> V) (es : list E)
  (o : option V) : option V :=
  fold_left (fun o e => Some (upd o e)) es o.

(** The effect of an accepted record on the state, in terms of its event. *)
Definition applyEvent (st : State) (e : Event) : State :=
  {| st_songMap := groupStep ev_songKey updSong st.(st_songMap) e;
     st_artistMap := groupStep ev_artist updArtist st.(st_artistMap) e;
     st_monthlySongMap := groupStep ev_monthKey updMonthSongs st.(st_monthlySongMap) e;
     st_monthlyMs := groupStep ev_monthKey updMs st.(st_monthlyMs) e;
     st_yearlyMs := groupStep ev_yearKey updMs st.(st_yearlyMs) e;
     st_ignoredNonSong := st.(st_ignoredNonSong);
     st_ignoredBadTimestamp := st.(st_ignoredBadTimestamp);
     st_songRecordsUsed := st.(st_songRecordsUsed) + 1 |}.

Definition bumpNonSong (st : State) : State :=
  {| st_songMap := st.(st_songMap); st_artistMap := st.(st_artistMap);
     st_monthlySongMap := st.(st_monthlySongMap);
     st_monthlyMs := st.(st_monthlyMs); st_yearlyMs := st.(st_yearlyMs);
     st_ignoredNonSong := st.(st_ignoredNonSong) + 1;
     st_ignoredBadTimestamp := st.(st_ignoredBadTimestamp);
     st_songRecordsUsed := st.(st_songRecordsUsed) |}.

Definition bumpBadTimestamp (st : State) : State :=
  {| st_songMap := st.(st_songMap); st_artistMap := st.(st_artistMap);
     st_monthlySongMap := st.(st_monthlySongMap);
     st_monthlyMs := st.(st_monthlyMs); st_yearlyMs := st.(st_yearlyMs);
     st_ignoredNonSong := st.(st_ignoredNonSong);
     st_ignoredBadTimestamp := st.(st_ignoredBadTimestamp) + 1;
     st_songRecordsUsed := st.(st_songRecordsUsed) |}.

(** The number of elements of [l] that satisfy [f]. *)
Definition countIf {A : Type} (f : A -> bool) (l : list A) : Z :=
  Z.of_nat (List.length (filter f l)).

(** *** Totals over a list of events *)

Definition sumMs (es : list Event) : Z :=
  fold_right (fun e total => e.(ev_msPlayed) + total) 0 es.

Definition skipsOf (es : list Event) : Z := countIf ev_skipped es.

Definition playsOf (es : list Event) : Z := Z.of_nat (List.length es).

(** The counter after the values [vs] were observed in this order. *)
Definition observedCounter (vs : list string) : JsMap string Z :=
  fold_left incrementCounter vs [].

(** The events of a song key, of an artist, of a month, of a year. *)
Definition withSongKey (k : string) (es : list Event) : list Event :=
  filter (fun e => keyb (ev_songKey e) k) es.

Definition withArtist (a : string) (es : list Event) : list Event :=
  filter (fun e => keyb e.(ev_artist) a) es.

Definition withMonth (m : string) (es : list Event) : list Event :=
  filter (fun e => keyb e.(ev_monthKey) m) es.

Definition withYear (y : Z) (es : list Event) : list Event :=
  filter (fun e => keyb e.(ev_yearKey) y) es.

(** *** Representative values *)

(** How often [v] occurs in [vs]. *)
Definition occurrences (v : string) (vs : list string) : Z :=
  countIf (String.eqb v) vs.

(** [x] stands before [y] in [l]. *)
Definition standsBefore {A : Type} (l : list A) (x y : A) : Prop :=
  exists a b, l = (a ++ x :: b)%list /\ In y b.

(** [r] is observed in [vs] before [v] ever is. *)
Definition seenBefore (vs : list string) (r v : string) : Prop :=
  exists pre post, vs = (pre ++ r :: post)%list /\ ~ In v pre.

(** [r] is the representative of the observed values [vs]: the most
    frequent non-empty value, the first seen among the most frequent, and
    the empty string when no non-empty value was observed. *)
Definition isRepresentative (vs : list string) (r : string) : Prop :=
  ((forall v, In v vs -> v = EmptyString) /\ r = EmptyString)
  \/ (r <> EmptyString
      /\ In r vs
      /\ forall v, v <> EmptyString -> In v vs ->
           occurrences v vs <= occurrences r vs
           /\ (occurrences v vs = occurrences r vs -> v <> r ->
               seenBefore vs r v)).

(** *** Comparators *)

(** A consistent comparator, as [Array.prototype.sort] asks for: the sign
    of [cmp a b] is the opposite of the sign of [cmp b a], and "not after"
    is transitive. *)
Record Consistent {A : Type} (cmp : A -> A -> Z) : Prop := {
  consistent_sym : forall a b, cmp a b < 0 <-> 0 < cmp b a;
  consistent_trans : forall a b c, cmp a b <= 0 -> cmp b c <= 0 -> cmp a c <= 0
}.

(** [a] is not placed after [b]. *)
Definition notAfter {A : Type} (cmp : A -> A -> Z) (a b : A) : Prop :=
  cmp a b <= 0.

(** The order of the song table in the words of the specification: play
    count descending, then total time descending, then skip count
    descending, then artist ascending, then song ascending, strings being
    compared by [localeCompare].  [a] may stand before [b]. *)
Definition byPlayCountOrder {P : Platform} (a b : SongRow) : Prop :=
  b.(playCount) < a.(playCount)
  \/ (a.(playCount) = b.(playCount)
      /\ (b.(totalMs) < a.(totalMs)
          \/ (a.(totalMs) = b.(totalMs)
              /\ (b.(skipCount) < a.(skipCount)
                  \/ (a.(skipCount) = b.(skipCount)
                      /\ (localeCompare a.(artist) b.(artist) < 0
                          \/ (localeCompare a.(artist) b.(artist) = 0
                              /\ localeCompare a.(song) b.(song) <= 0))))))).

(** *** Reports up to the representative values *)

(** A song row without its representative album and URI. *)
Definition eraseRepresentatives (row : SongRow) : SongRow :=
  {| song := row.(song);
     artist := row.(artist);
     album := EmptyString;
     uri := EmptyString;
     playCount := row.(playCount);
     skipCount := row.(skipCount);
     skipRate := row.(skipRate);
     totalMs := row.(totalMs);
     totalMinutes := row.(totalMinutes);
     totalHours := row.(totalHours) |}.

(** A report without the representative albums and URIs of its song rows;
    everything else is kept. *)
Definition eraseReport {Meta : Type} (r : Report Meta) : Report Meta :=
  {| parsedInputMeta := r.(parsedInputMeta);
     totalRecordsRead := r.(totalRecordsRead);
     songRecordsUsed := r.(songRecordsUsed);
     ignoredNonSong := r.(ignoredNonSong);
     ignoredBadTimestamp := r.(ignoredBadTimestamp);
     uniqueSongs := r.(uniqueSongs);
     totalSongMs := r.(totalSongMs);
     rp_totalMinutes := r.(rp_totalMinutes);
     rp_totalHours := r.(rp_totalHours);
     peakMonth := r.(peakMonth);
     peakYear := r.(peakYear);
     dataRange := r.(dataRange);
     songRows := map eraseRepresentatives r.(songRows);
     top10ByPlayCount := map eraseRepresentatives r.(top10ByPlayCount);
     top10ByTime := map eraseRepresentatives r.(top10ByTime);
     top10Skipped := map eraseRepresentatives r.(top10Skipped);
     top3PerMonthRows := r.(top3PerMonthRows);
     monthlyMinutesRows := r.(monthlyMinutesRows);
     yearlyMinutesRows := r.(yearlyMinutesRows);
     topArtistsByMinutes := r.(topArtistsByMinutes) |}.

(** No two events with different (song, artist) pairs share a song key. *)
Definition keysDistinguish (es : list Event) : Prop :=
  forall e e', In e es -> In e' es -> ev_songKey e = ev_songKey e' ->
               e.(ev_song) = e'.(ev_song) /\ e.(ev_artist) = e'.(ev_artist).

(** What a song entry holds besides its two counters. *)
Definition songCore (entry : SongEntry) : string * string * Z * Z * Z :=
  (entry.(se_song), entry.(se_artist), entry.(se_playCount),
   entry.(se_skipCount), entry.(se_totalMs)).

(** The song row of an entry, without the representatives. *)
Definition rowOfCore (core : string * string * Z * Z * Z) : SongRow :=
  let '(title, performer, plays, skips, ms) := core in
  {| song := title;
     artist := performer;
     album := EmptyString;
     uri := EmptyString;
     playCount := plays;
     skipCount := skips;
     skipRate := if plays =? 0 then 0%Q
                 else Qdiv (inject_Z skips) (inject_Z plays);
     totalMs := ms;
     totalMinutes := toMinutes ms;
     totalHours := Qdiv (toMinutes ms) (inject_Z 60) |}.

(** The song table in terms of the accepted events. *)
Definition songRowsOf {P : Platform} (records : list RawRecord) : list SongRow :=
  sortWith compareSongsByPlayCount
    (map songRowOf (mapValues (groupBy ev_songKey updSong (eventsOf records)))).

(** *** Sums and keys of rows *)

(** The sum of [f] over a list. *)
Definition sumOf {A : Type} (f : A -> Z) (l : list A) : Z :=
  fold_right (fun x total => f x + total) 0 l.

(** The song key a row of the song table stands for. *)
Definition rowSongKey (row : SongRow) : string :=
  makeSongKey row.(song) row.(artist).

(** *** The orders of the other rankings *)

(** Total time descending, then play count descending, then artist and
    song ascending.  [a] may stand before [b]. *)
Definition byListenTimeOrder {P : Platform} (a b : SongRow) : Prop :=
  b.(totalMs) < a.(totalMs)
  \/ (a.(totalMs) = b.(totalMs)
      /\ (b.(playCount) < a.(playCount)
          \/ (a.(playCount) = b.(playCount)
              /\ (localeCompare a.(artist) b.(artist) < 0
                  \/ (localeCompare a.(artist) b.(artist) = 0
                      /\ localeCompare a.(song) b.(song) <= 0))))).

(** Skip count descending, then play count descending, then artist and
    song ascending. *)
Definition bySkipCountOrder {P : Platform} (a b : SongRow) : Prop :=
  b.(skipCount) < a.(skipCount)
  \/ (a.(skipCount) = b.(skipCount)
      /\ (b.(playCount) < a.(playCount)
          \/ (a.(playCount) = b.(playCount)
              /\ (localeCompare a.(artist) b.(artist) < 0
                  \/ (localeCompare a.(artist) b.(artist) = 0
                      /\ localeCompare a.(song) b.(song) <= 0))))).

(** Total time descending, then play count descending, then artist
    ascending. *)
Definition byArtistTimeOrder {P : Platform} (a b : ArtistRow) : Prop :=
  b.(ar_totalMs) < a.(ar_totalMs)
  \/ (a.(ar_totalMs) = b.(ar_totalMs)
      /\ (b.(ar_playCount) < a.(ar_playCount)
          \/ (a.(ar_playCount) = b.(ar_playCount)
              /\ localeCompare a.(ar_artist) b.(ar_artist) <= 0))).

(** The first [n] rows of a ranking of [l]: at most [n] rows of [l], in
    the order [R], none of them ranked after a row of [l] left out. *)
Definition isTopOf {A : Type} (R : A -> A -> Prop) (n : nat) (l top : list A)
  : Prop :=
  (List.length top <= n)%nat
  /\ List.length top = Nat.min n (List.length l)
  /\ StronglySorted R top
  /\ (forall x, In x top -> In x l)
  /\ (forall a b, In a top -> In b l -> ~ In b top -> R a b).

(** A short listening history used to instantiate the properties. *)
Definition sampleHistory : list RawRecord :=
  [songRecord "Song B" "Artist A" "Album 1" "uri:b" "2023-05-01T10:00:00Z" 1000 false;
   songRecord "Song A" "Artist A" "Album 1" "uri:a" "2023-05-02T10:00:00Z" 1000 true;
   songRecord "Song C" "Artist B" "Album 2" "uri:c" "2023-06-03 10:00:00" 500 true;
   songRecord "Song C" "Artist B" "Album 2" "uri:c" "2024-01-04T10:00:00Z" 2500 false;
   songRecord "" "Artist B" "" "" "2024-01-04T10:00:00Z" 700 false;
   songRecord "Song D" "Artist C" "" "" "yesterday" 900 false].

(** The artist table before it is cut to ten rows, in terms of the
    accepted events. *)
Definition artistRowsOf {P : Platform} (records : list RawRecord)
  : list ArtistRow :=
  map artistRowOf (mapValues (groupBy ev_artist updArtist (eventsOf records))).

(** *** The monthly Top-3 *)

(** The row the monthly Top-3 makes of an entry of a month at an index. *)
Definition top3RowOf {P : Platform} (month : string)
  (entry : string * MonthSongEntry) (index : Z) : Top3Row :=
  {| t3_month := month;
     t3_monthLabel := formatMonthLabel month;
     t3_rank := index + 1;
     t3_song := fst (splitSongKey (fst entry));
     t3_artist := snd (splitSongKey (fst entry));
     t3_playCount := (snd entry).(ms_playCount);
     t3_minutesListened := toMinutes (snd entry).(ms_totalMs) |}.

(** The order within a month: play count descending, then minutes
    descending, then artist and song ascending. *)
Definition byMonthlyRankOrder {P : Platform} (a b : Top3Row) : Prop :=
  b.(t3_playCount) < a.(t3_playCount)
  \/ (a.(t3_playCount) = b.(t3_playCount)
      /\ ((b.(t3_minutesListened) < a.(t3_minutesListened))%Q
          \/ ((a.(t3_minutesListened) == b.(t3_minutesListened))%Q
              /\ (localeCompare a.(t3_artist) b.(t3_artist) < 0
                  \/ (localeCompare a.(t3_artist) b.(t3_artist) = 0
                      /\ localeCompare a.(t3_song) b.(t3_song) <= 0))))).

(** The rows of a month in the monthly Top-3. *)
Definition rowsOfMonth (month : string) (rows : list Top3Row) : list Top3Row :=
  filter (fun row => keyb row.(t3_month) month) rows.

(** * The pages around the engine: selecting files and naming sheets *)

(** ** Escaping text for the file list *)

(** [s.replaceAll(c, r)] with a one-unit pattern. *)
Fixpoint replaceAll (c : ascii) (r : string) (s : string) : string :=
  match s with
  | EmptyString => EmptyString
  | String a s' =>
      if Ascii.eqb a c then r ++ replaceAll c r s'
      else String a (replaceAll c r s')
  end.

(** The double quote, U+0022. *)
Definition QUOTE : ascii := "034"%char.

(** [escapeHtml(value)] on a string. *)
Definition escapeHtml (value : string) : string :=
  replaceAll "'" "&#39;"
    (replaceAll QUOTE "&quot;"
       (replaceAll ">" "&gt;"
          (replaceAll "<" "&lt;"
             (replaceAll "&" "&amp;" value)))).

(** The entity that stands for a code unit, or the unit itself. *)
Definition escapeUnit (c : ascii) : string :=
  if Ascii.eqb c "&" then "&amp;"
  else if Ascii.eqb c "<" then "&lt;"
  else if Ascii.eqb c ">" then "&gt;"
  else if Ascii.eqb c QUOTE then "&quot;"
  else if Ascii.eqb c "'" then "&#39;"
  else String c EmptyString.

(** Every code unit escaped once, from left to right. *)
Fixpoint escapeUnits (s : string) : string :=
  match s with
  | EmptyString => EmptyString
  | String c s' => escapeUnit c ++ escapeUnits s'
  end.

(** The code unit [c] occurs in [s]. *)
Fixpoint occursIn (c : ascii) (s : string) : bool :=
  match s with
  | EmptyString => false
  | String a s' => Ascii.eqb a c || occursIn c s'
  end.

(** The units that would open or close markup or an attribute value. *)
Definition isMarkupUnit (c : ascii) : bool :=
  Ascii.eqb c "<" || Ascii.eqb c ">" || Ascii.eqb c QUOTE || Ascii.eqb c "'".

(** ** Selecting files *)

(** [c.toLowerCase()] for a code unit below U+0100: the letters A to Z
    and the capital letters of Latin-1 (U+00C0 to U+00DE, without the
    multiplication sign U+00D7) move up by 32; every other unit is its
    own lower case. *)
Definition lowerUnit (c : ascii) : ascii :=
  let n := N_of_ascii c in
  if ((65 <=? n) && (n <=? 90)
      || (192 <=? n) && (n <=? 222) && negb (n =? 215))%N
  then ascii_of_N (n + 32)
  else c.

(** [s.toLowerCase()] *)
Fixpoint toLowerCase (s : string) : string :=
  match s with
  | EmptyString => EmptyString
  | String c s' => String (lowerUnit c) (toLowerCase s')
  end.

(** What the program reads of a [File]: its name, its size in bytes and
    its modification time in milliseconds, both integers (rendered in
    decimal as long as they stay below 10^21). *)
Record File : Type := {
  f_name : string;
  f_size : Z;
  f_lastModified : Z
}.

Definition isSupportedInputFile (fileName : string) : bool :=
  let lower := toLowerCase fileName in
  endsWith ".zip" lower || endsWith ".json" lower.

Definition fileUniqueKey (file : File) : string :=
  file.(f_name) ++ "::" ++ intToString file.(f_size)
  ++ "::" ++ intToString file.(f_lastModified).

(** [set.has(k)] on a [Set] of strings, kept as the list of its members. *)
Definition setHas (set : list string) (k : string) : bool :=
  existsb (String.eqb k) set.

(** The variables of the loop of [addFiles]: [state.files], the set
    [existing], and the two counters. *)
Record AddLoop : Type := {
  al_files : list File;
  al_existing : list string;
  al_added : Z;
  al_skipped : Z
}.

(** The body of the loop [for (const file of incomingFiles)]. *)
Definition addFileStep (loop : AddLoop) (file : File) : AddLoop :=
  if negb (isSupportedInputFile file.(f_name)) then
    {| al_files := loop.(al_files); al_existing := loop.(al_existing);
       al_added := loop.(al_added); al_skipped := loop.(al_skipped) + 1 |}
  else
    let key := fileUniqueKey file in
    if setHas loop.(al_existing) key then
      {| al_files := loop.(al_files); al_existing := loop.(al_existing);
         al_added := loop.(al_added); al_skipped := loop.(al_skipped) + 1 |}
    else
      {| al_files := (loop.(al_files) ++ [file])%list;
         al_existing := (loop.(al_existing) ++ [key])%list;
         al_added := loop.(al_added) + 1;
         al_skipped := loop.(al_skipped) |}.

(** The variables of [addFiles] when its loop ends. *)
Definition addFilesLoop (files incomingFiles : list File) : AddLoop :=
  fold_left addFileStep incomingFiles
    {| al_files := files; al_existing := map fileUniqueKey files;
       al_added := 0; al_skipped := 0 |}.

(** [addFiles(incomingFiles)] on [state.files]: the files selected
    afterwards and the status lines added, each with its level. *)
Definition addFiles (files incomingFiles : list File)
  : list File * list (string * string) :=
  match incomingFiles with
  | [] => (files, [])
  | _ :: _ =>
      let loop := addFilesLoop files incomingFiles in
      let addedLine :=
        (intToString loop.(al_added) ++ " file(s) added.", "ok") in
      let skippedLine :=
        (intToString loop.(al_skipped)
         ++ " file(s) skipped (duplicate or unsupported).", "warn") in
      (loop.(al_files),
       ((if loop.(al_added) >? 0 then [addedLine] else [])
        ++ (if loop.(al_skipped) >? 0 then [skippedLine] else []))%list)
  end.

(** The two counts [renderSelectedFiles] shows in the summary line. *)
Definition zipCount (files : list File) : Z :=
  Z.of_nat (List.length
              (filter (fun file => endsWith ".zip" (toLowerCase file.(f_name)))
                      files)).

Definition jsonCount (files : list File) : Z :=
  Z.of_nat (List.length
              (filter (fun file => endsWith ".json" (toLowerCase file.(f_name)))
                      files)).

(** [dom.fileSummary.textContent] after [renderSelectedFiles]. *)
Definition fileSummary (files : list File) : string :=
  match files with
  | [] => "No files selected."
  | _ :: _ =>
      intToString (Z.of_nat (List.length files)) ++ " file(s) selected ("
      ++ intToString (jsonCount files) ++ " JSON, "
      ++ intToString (zipCount files) ++ " ZIP)."
  end.

(** A decimal digit. *)
Definition isDigitUnit (c : ascii) : bool :=
  let n := N_of_ascii c in ((48 <=? n) && (n <=? 57))%N.

(** Every unit of [s] satisfies [f]. *)
Fixpoint allUnits (f : ascii -> bool) (s : string) : bool :=
  match s with
  | EmptyString => true
  | String c s' => f c && allUnits f s'
  end.

(** A selection as [addFiles] keeps it: supported files only, no two with
    the same key. *)
Definition selectionOk (files : list File) : Prop :=
  NoDup (map fileUniqueKey files)
  /\ forall file, In file files -> isSupportedInputFile file.(f_name) = true.

(** Two exports next to a file that is not one. *)
Definition sampleFiles : list File :=
  [{| f_name := "my_spotify_data.ZIP"; f_size := 52428800;
      f_lastModified := 1700000000000 |};
   {| f_name := "notes.txt"; f_size := 120; f_lastModified := 1700000000001 |};
   {| f_name := "Streaming_History_Audio_2023.json"; f_size := 9961472;
      f_lastModified := 1700000000002 |};
   {| f_name := "my_spotify_data.ZIP"; f_size := 52428800;
      f_lastModified := 1700000000000 |}].

(** ** Sheets of the workbook *)

Section Sheets.
Context {P : Platform}.

(** [String(value ?? "")] for a cell that holds a scalar. *)
Definition cellText (value : JsValue) : string :=
  match value with
  | JUndefined | JNull => EmptyString
  | JBool b => if b then "true" else "false"
  | JNumber NaN => "NaN"
  | JNumber (Infinity negative) => if negative then "-Infinity" else "Infinity"
  | JNumber (Finite q) => numberToString q
  | JString s => s
  end.

(** [row[col]]: [undefined] past the end of the row. *)
Definition cellAt (row : list JsValue) (col : nat) : JsValue :=
  nth col row JUndefined.

(** [widths[col] = v] for an index within the array. *)
Fixpoint setAt {A : Type} (l : list A) (i : nat) (v : A) : list A :=
  match l, i with
  | [], _ => []
  | _ :: l', O => v :: l'
  | x :: l', S i' => x :: setAt l' i' v
  end.

(** The body of the loop over the columns. *)
Definition widenStep (row : list JsValue) (widths : list Z) (col : nat)
  : list Z :=
  let value := cellAt row col in
  let length := Z.of_nat (String.length (cellText value)) in
  if length >? nth col widths 0 then setAt widths col (Z.min (length + 2) 70)
  else widths.

(** [columnWidths(table)]: the [wch] of each column. *)
Definition columnWidths (table : list (list JsValue)) : list Z :=
  match table with
  | [] => []
  | header :: _ =>
      let widthCount := List.length header in
      fold_left
        (fun widths row => fold_left (widenStep row) (seq 0 widthCount) widths)
        table (repeat 10 widthCount)
  end.

End Sheets.

(** The characters a sheet name may not hold, as the expression
    [/[\\/*?:[\]]/g] lists them. *)
Definition isForbiddenSheetUnit (c : ascii) : bool :=
  Ascii.eqb c "\" || Ascii.eqb c "/" || Ascii.eqb c "*" || Ascii.eqb c "?"
  || Ascii.eqb c ":" || Ascii.eqb c "[" || Ascii.eqb c "]".

(** [desiredName.replace(/[\\/*?:[\]]/g, "_")] *)
Fixpoint replaceForbidden (s : string) : string :=
  match s with
  | EmptyString => EmptyString
  | String c s' =>
      String (if isForbiddenSheetUnit c then "_"%char else c) (replaceForbidden s')
  end.

(** The candidate the loop of [uniqueSheetName] tries at [index]. *)
Definition sheetCandidate (base : string) (index : Z) : string :=
  let suffix := "_" ++ intToString index in
  slice base 0 (31 - Z.of_nat (String.length suffix)) ++ suffix.

(** The loop [while (true)] of [uniqueSheetName], run for at most [fuel]
    rounds: [None] when the rounds are used up. *)
Fixpoint firstFreeCandidate (fuel : nat) (used : list string) (base : string)
  (index : Z) : option string :=
  match fuel with
  | O => None
  | S fuel' =>
      let candidate := sheetCandidate base index in
      if negb (setHas used candidate) then Some candidate
      else firstFreeCandidate fuel' used base (index + 1)
  end.

(** The name [uniqueSheetName] starts from. *)
Definition sheetBase (desiredName : string) : string :=
  let base := trim (replaceForbidden desiredName) in
  let base := if negb (strTruthy base) then "Sheet" else base in
  slice base 0 31.

(** [uniqueSheetName(workbook, desiredName)] on [workbook.SheetNames]. *)
Definition uniqueSheetName (fuel : nat) (sheetNames : list string)
  (desiredName : string) : option string :=
  let used := sheetNames in
  let base := sheetBase desiredName in
  if negb (setHas used base) then Some base
  else firstFreeCandidate fuel used base 2.

(** What one cell makes of the width of its column. *)
Definition widenCell {P : Platform} (row : list JsValue) (col : nat) (width : Z)
  : Z :=
  let length := Z.of_nat (String.length (cellText (cellAt row col))) in
  if length >? width then Z.min (length + 2) 70 else width.

(** A unit a sheet name may hold. *)
Definition isSheetUnit (c : ascii) : bool := negb (isForbiddenSheetUnit c).

(** ** File sizes *)

Section FileSizes.
Context {P : Platform}.

(** [x.toFixed(fractionDigits)] for a finite [x]: the integer [n] for
    which [n / 10^f] is nearest to the magnitude of [x], the greater one on
    a tie, written with [f] digits after the point, and with the sign of
    [x] in front.  From 10^21 on the result is [String(x)]. *)
Definition toFixed (x : Q) (fractionDigits : nat) : string :=
  if Qle_bool (inject_Z (10 ^ 21)) (Qabs x) then numberToString x
  else
    let sign := if Qle_bool 0 x then EmptyString else "-" in
    let n :=
      Qfloor (Qabs x * inject_Z (10 ^ Z.of_nat fractionDigits) + (1 # 2)) in
    let m := intToString n in
    let m :=
      match fractionDigits with
      | O => m
      | S _ =>
          let m := padStart0 (S fractionDigits) m in
          let k := String.length m in
          takeStr (k - fractionDigits) m ++ "."
          ++ dropStr (k - fractionDigits) m
      end in
    sign ++ m.

Definition SIZE_UNITS : list string := ["B"; "KB"; "MB"; "GB"].

(** The loop [while (size >= 1024 && unitIndex < units.length - 1)], where
    [larger] is the number of units above [unitIndex]. *)
Fixpoint scaleSize (larger : nat) (size : Q) (unitIndex : nat) : Q * nat :=
  match larger with
  | O => (size, unitIndex)
  | S larger' =>
      if Qle_bool 1024 size
      then scaleSize larger' (size / 1024) (S unitIndex)
      else (size, unitIndex)
  end.

(** [formatFileSize(bytes)] for a whole number of bytes; below 2^53 every
    quotient by a power of 1024 is a double, so that the rational is the
    value the program holds. *)
Definition formatFileSize (bytes : Z) : string :=
  let '(size, unitIndex) :=
    scaleSize (List.length SIZE_UNITS - 1) (inject_Z bytes) 0 in
  toFixed size
    (if negb (Qle_bool 10 size) && (0 <? unitIndex)%nat then 1 else 0)
  ++ " " ++ nth unitIndex SIZE_UNITS "undefined".

End FileSizes.

(** ** Decimal digits *)

(** The number a run of decimal digits denotes when read on top of [acc]. *)
Fixpoint digitsValue (acc : Z) (d : Decimal.uint) : Z :=
  match d with
  | Decimal.Nil => acc
  | Decimal.D0 d' => digitsValue (acc * 10 + 0) d'
  | Decimal.D1 d' => digitsValue (acc * 10 + 1) d'
  | Decimal.D2 d' => digitsValue (acc * 10 + 2) d'
  | Decimal.D3 d' => digitsValue (acc * 10 + 3) d'
  | Decimal.D4 d' => digitsValue (acc * 10 + 4) d'
  | Decimal.D5 d' => digitsValue (acc * 10 + 5) d'
  | Decimal.D6 d' => digitsValue (acc * 10 + 6) d'
  | Decimal.D7 d' => digitsValue (acc * 10 + 7) d'
  | Decimal.D8 d' => digitsValue (acc * 10 + 8) d'
  | Decimal.D9 d' => digitsValue (acc * 10 + 9) d'
  end.

(** ** Timestamps as the streaming history writes them *)

(** The number of days of a month (1 to 12) of a year. *)
Definition daysInMonth (year month : Z) : Z :=
  monthStart (isLeapYear year) month - monthStart (isLeapYear year) (month - 1).

(** [YYYY-MM-DDTHH:mm:ssZ] *)
Definition isoStamp (year month date hour minute second : Z) : string :=
  padStart0 4 (intToString year) ++ "-" ++ padStart0 2 (intToString month)
  ++ "-" ++ padStart0 2 (intToString date) ++ "T"
  ++ padStart0 2 (intToString hour) ++ ":" ++ padStart0 2 (intToString minute)
  ++ ":" ++ padStart0 2 (intToString second) ++ "Z".

(** ** The list of the selected files *)

Section FileList.
Context {P : Platform}.

(** One item of [dom.fileList.innerHTML]. *)
Definition fileListItem (file : File) : string :=
  let q := String QUOTE EmptyString in
  "<li><span class=" ++ q ++ "name" ++ q ++ " title=" ++ q
  ++ escapeHtml file.(f_name) ++ q ++ ">" ++ escapeHtml file.(f_name)
  ++ "</span><span class=" ++ q ++ "size" ++ q ++ ">"
  ++ formatFileSize file.(f_size) ++ "</span></li>".

(** [dom.fileSummary.textContent] and [dom.fileList.innerHTML] after
    [renderSelectedFiles]. *)
Definition renderSelectedFiles (files : list File) : string * string :=
  match files with
  | [] => ("No files selected.", EmptyString)
  | _ :: _ => (fileSummary files, String.concat "" (map fileListItem files))
  end.

End FileList.

(** How often the unit [c] occurs in [s]. *)
Fixpoint countUnit (c : ascii) (s : string) : Z :=
  match s with
  | EmptyString => 0
  | String a s' => (if Ascii.eqb a c then 1 else 0) + countUnit c s'
  end.

(** The units of a number written with a sign and a decimal point. *)
Definition isNumberUnit (c : ascii) : bool :=
  isDigitUnit c || Ascii.eqb c "." || Ascii.eqb c "-".

(** ** Sums of Numbers *)

(** The program adds durations with [+=] on Numbers.  The sum of two
    Numbers that are whole and not negative is the Number nearest to
    their exact sum, the one with the even significand on a tie: the sum
    itself up to 2^53, and from there on a multiple of the power of two
    that leaves 53 significant bits.  (Sums beyond the range of a Number,
    which are infinite, are not considered.) *)
Definition nearestNumber (n : Z) : Z :=
  if n <=? 2 ^ 53 then n
  else
    let ulp := 2 ^ (Z.log2 n - 52) in
    let q := n / ulp in
    let r := n mod ulp in
    if 2 * r <? ulp then q * ulp
    else if ulp <? 2 * r then (q + 1) * ulp
    else if Z.even q then q * ulp
    else (q + 1) * ulp.

Definition addNumbers (a b : Z) : Z := nearestNumber (a + b).

(** [total += x] for the elements [x] of a list in turn, from 0. *)
Definition sumNumbers (l : list Z) : Z := fold_left addNumbers l 0.

(** An engine that, as V8 and SpiderMonkey do, also reads a date-time
    written with a space in the place of the [T], and takes it for local
    time when it names no zone; it runs [tza] milliseconds ahead of UTC
    and collates by code units. *)
Definition spaceTolerantPlatform (tza : Z) : Platform :=
  {| localeCompare := codeUnitCompare;
     legacyDateParse := fun s =>
       match readIsoDateTime (replaceFirst " " "T" s) with
       | Some (t, Some off) => Some (t - off)
       | Some (t, None) => Some (t - tza)
       | None => None
       end;
     localTZA := fun _ => tza;
     numberToStringOther := fun _ => "NaN" |}.

(** *** Strings the collation keeps apart *)

(** The collation ties no two different strings of [names]. *)
Definition separates {P : Platform} (names : list string) : Prop :=
  forall a b, In a names -> In b names -> localeCompare a b = 0 -> a = b.

(** The collation ties no two different strings that the rankings of a
    report of [es] compare with one another: song titles, artists, month
    keys, and the two parts into which the monthly ranking splits the
    song keys (title and artist once more, when no title holds the
    separator). *)
Definition namesSeparated {P : Platform} (es : list Event) : Prop :=
  separates (map ev_song es)
  /\ separates (map ev_artist es)
  /\ separates (map ev_monthKey es)
  /\ separates (map (fun e => fst (splitSongKey (ev_songKey e))) es)
  /\ separates (map (fun e => snd (splitSongKey (ev_songKey e))) es).

(** A unit the collation below passes over: a control character that is
    not white space. *)
Definition isIgnorableUnit (c : ascii) : bool :=
  let n := N_of_ascii c in
  ((n <? 9) || ((13 <? n) && (n <? 32)))%N.

Fixpoint dropIgnorable (s : string) : string :=
  match s with
  | EmptyString => EmptyString
  | String c s' =>
      if isIgnorableUnit c then dropIgnorable s' else String c (dropIgnorable s')
  end.

(** A platform that collates as the ICU collations do in this respect:
    control characters are ignored, so that two different strings can
    tie.  It is [strictPlatform] otherwise. *)
Definition ignoringControlsPlatform : Platform :=
  {| localeCompare := fun a b => codeUnitCompare (dropIgnorable a) (dropIgnorable b);
     legacyDateParse := fun _ => None;
     localTZA := fun _ => 0;
     numberToStringOther := fun _ => "NaN" |}.

(** * Properties *)

(** ** Strings *)

Lemma strTruthy_false (s : string) : strTruthy s = false <-> s = EmptyString.
Proof. destruct s; simpl; split; congruence. Qed.

Lemma strTruthy_true (s : string) : strTruthy s = true <-> s <> EmptyString.
Proof. destruct s; simpl; split; congruence. Qed.

Lemma cleanString_asText (value : JsValue) :
  cleanString value = trim (asText value).
Proof. destruct value; reflexivity. Qed.

(** ** The record classifier *)

(** C4. [isSongRecord] accepts a record exactly when, after trimming, the
    track name and the artist name are non-empty and the episode name and
    the episode URI are empty, a value that is not a string (or is missing)
    counting as the empty string.  [isSongRecord] is a total function: it
    answers on every record. *)
Theorem isSongRecord_qualifies (record : RawRecord) :
  isSongRecord record = true <-> qualifiesAsSong record.
Proof.
  unfold isSongRecord, qualifiesAsSong.
  rewrite !cleanString_asText.
  destruct (trim (asText (master_metadata_track_name record))) eqn:Et;
  destruct (trim (asText (master_metadata_album_artist_name record))) eqn:Ea;
  destruct (trim (asText (episode_name record))) eqn:En;
  destruct (trim (asText (spotify_episode_uri record))) eqn:Eu;
  simpl; split; intros H; try discriminate; try tauto;
  try (repeat split; congruence);
  destruct H as (H1 & H2 & H3 & H4); congruence.
Qed.

(** ** Sanitising the played duration *)

Lemma mathRound_nearest (q : Q) : nearestInteger q (mathRound q).
Proof.
  unfold nearestInteger, mathRound.
  pose proof (Qfloor_le (q + (1 # 2))) as Hle.
  pose proof (Qlt_floor (q + (1 # 2))) as Hlt.
  rewrite inject_Z_plus in Hlt.
  split.
  - apply Qplus_le_l with (z := 1 # 2).
    setoid_replace (inject_Z (Qfloor (q + (1 # 2))) - (1 # 2) + (1 # 2))%Q
      with (inject_Z (Qfloor (q + (1 # 2)))) by ring.
    exact Hle.
  - apply Qplus_lt_l with (z := 1 # 2).
    setoid_replace (inject_Z (Qfloor (q + (1 # 2))) + (1 # 2) + (1 # 2))%Q
      with (inject_Z (Qfloor (q + (1 # 2))) + inject_Z 1)%Q by ring.
    exact Hlt.
Qed.

(** C5. [sanitizeMs] coerces [ms_played] to a number; a coercion that is
    not finite gives 0, a negative number gives 0, and any other number
    gives the integer nearest to it (a tie going up).  So -500 gives 0, and
    the string "120.9" gives 121: rounded, not truncated to 120. *)
Theorem sanitizeMs_spec :
  (forall value : JsValue,
      match toNumber value with
      | NaN | Infinity _ => sanitizeMs value = 0
      | Finite q =>
          if Qlt_le_dec q 0 then sanitizeMs value = 0
          else nearestInteger q (sanitizeMs value)
      end)
  /\ sanitizeMs (JNumber (Finite (inject_Z (-500)))) = 0
  /\ sanitizeMs (JString "120.9") = 121
  /\ sanitizeMs (JString "120.9") <> Qfloor (1209 # 10).
Proof.
  split; [| repeat split; try reflexivity; vm_compute; discriminate].
  intros value. unfold sanitizeMs.
  destruct (toNumber value) as [| neg | q]; try reflexivity.
  destruct (Qlt_le_dec q 0) as [Hneg | Hpos].
  - destruct (Qle_bool 0 q) eqn:E; [| reflexivity].
    apply Qle_bool_iff in E. exfalso. apply (Qlt_not_le _ _ Hneg E).
  - apply Qle_bool_iff in Hpos. rewrite Hpos. simpl. apply mathRound_nearest.
Qed.
(** ** Composite song keys *)

Lemma indexOf_lower (p s : string) : -1 <= indexOf p s.
Proof.
  induction s as [| c s IH]; simpl.
  - destruct (startsWith p ""); lia.
  - destruct (startsWith p (String c s)); [lia |].
    destruct (indexOf p s <? 0) eqn:E; [lia |].
    apply Z.ltb_ge in E. lia.
Qed.

Lemma indexOf_sep_cons (c : ascii) (s : string) :
  indexOf KEY_SEP (String c s)
  = if Ascii.eqb (ascii_of_nat 31) c then 0
    else if indexOf KEY_SEP s <? 0 then -1 else indexOf KEY_SEP s + 1.
Proof.
  unfold KEY_SEP at 1. cbn [indexOf startsWith].
  rewrite andb_true_r. reflexivity.
Qed.

Lemma indexOf_sep_absent (song rest : string) :
  indexOf KEY_SEP song < 0 ->
  indexOf KEY_SEP (song ++ KEY_SEP ++ rest) = Z.of_nat (String.length song).
Proof.
  induction song as [| c s IH]; intros H.
  - reflexivity.
  - rewrite indexOf_sep_cons in H.
    cbn [append String.length]. rewrite indexOf_sep_cons.
    destruct (Ascii.eqb (ascii_of_nat 31) c); [lia |].
    destruct (indexOf KEY_SEP s <? 0) eqn:E.
    + apply Z.ltb_lt in E. rewrite (IH E).
      destruct (Z.of_nat (String.length s) <? 0) eqn:E'; [apply Z.ltb_lt in E' |]; lia.
    + apply Z.ltb_ge in E. lia.
Qed.

Lemma indexOf_sep_present (song rest : string) :
  0 <= indexOf KEY_SEP song ->
  indexOf KEY_SEP (song ++ rest) = indexOf KEY_SEP song
  /\ indexOf KEY_SEP song < Z.of_nat (String.length song)
  /\ song = takeStr (Z.to_nat (indexOf KEY_SEP song)) song ++ KEY_SEP
            ++ dropStr (Z.to_nat (indexOf KEY_SEP song + 1)) song.
Proof.
  induction song as [| c s IH]; intros H.
  - simpl in H. lia.
  - rewrite indexOf_sep_cons in H.
    cbn [append String.length]. rewrite !indexOf_sep_cons.
    destruct (Ascii.eqb (ascii_of_nat 31) c) eqn:Ec.
    + apply Ascii.eqb_eq in Ec. subst c.
      split; [reflexivity |]. split; [lia |]. reflexivity.
    + destruct (indexOf KEY_SEP s <? 0) eqn:E; [lia |].
      pose proof E as E'. apply Z.ltb_ge in E'.
      destruct (IH E') as (H1 & H2 & H3).
      rewrite H1, E. split; [reflexivity |]. split; [lia |].
      replace (Z.to_nat (indexOf KEY_SEP s + 1))
        with (S (Z.to_nat (indexOf KEY_SEP s))) by lia.
      replace (Z.to_nat (indexOf KEY_SEP s + 1 + 1))
        with (S (Z.to_nat (indexOf KEY_SEP s + 1))) by lia.
      cbn [takeStr dropStr append]. f_equal. exact H3.
Qed.

Lemma append_assoc_str (a b c : string) : (a ++ b) ++ c = a ++ (b ++ c).
Proof. induction a as [| x a IH]; simpl; [reflexivity | now rewrite IH]. Qed.

Lemma takeStr_app (a b : string) : takeStr (String.length a) (a ++ b) = a.
Proof.
  induction a as [| c a IH]; simpl.
  - destruct b; reflexivity.
  - f_equal. exact IH.
Qed.

Lemma dropStr_app (a b : string) : dropStr (String.length a) (a ++ b) = b.
Proof.
  induction a as [| c a IH]; simpl.
  - destruct b; reflexivity.
  - exact IH.
Qed.

Lemma length_append (a b : string) :
  String.length (a ++ b) = (String.length a + String.length b)%nat.
Proof. induction a as [| c a IH]; simpl; [reflexivity | now rewrite IH]. Qed.

Lemma length_takeStr (n : nat) (s : string) :
  (n <= String.length s)%nat -> String.length (takeStr n s) = n.
Proof.
  revert s. induction n as [| n IH]; intros [| c s] H; simpl in *; try lia.
  rewrite IH; lia.
Qed.

Lemma slice_prefix (s : string) (i : Z) :
  0 <= i <= Z.of_nat (String.length s) ->
  slice s 0 i = takeStr (Z.to_nat i) s.
Proof.
  intros H. unfold slice, sliceIndex. simpl (0 <? 0).
  destruct (i <? 0) eqn:E; [apply Z.ltb_lt in E; lia |].
  rewrite (Z.min_l 0) by lia. rewrite (Z.min_l i) by lia.
  rewrite Z.sub_0_r, Z.max_l by lia. reflexivity.
Qed.

Lemma sliceFrom_suffix (s : string) (i : Z) :
  0 <= i <= Z.of_nat (String.length s) ->
  sliceFrom s i = dropStr (Z.to_nat i) s.
Proof.
  intros H. unfold sliceFrom, sliceIndex.
  destruct (i <? 0) eqn:E; [apply Z.ltb_lt in E; lia |].
  rewrite Z.min_l by lia. reflexivity.
Qed.

Lemma includes_false (p s : string) : includes p s = false <-> indexOf p s < 0.
Proof. unfold includes. rewrite Z.leb_gt. reflexivity. Qed.

Lemma includes_true (p s : string) : includes p s = true <-> 0 <= indexOf p s.
Proof. unfold includes. rewrite Z.leb_le. reflexivity. Qed.

Lemma splitSongKey_make (song artist : string) :
  includes KEY_SEP song = false ->
  splitSongKey (makeSongKey song artist) = (song, artist).
Proof.
  intros H. apply includes_false in H.
  unfold splitSongKey, makeSongKey.
  rewrite (indexOf_sep_absent song artist H).
  destruct (Z.of_nat (String.length song) <? 0) eqn:E;
    [apply Z.ltb_lt in E; lia |].
  rewrite slice_prefix, sliceFrom_suffix;
    rewrite ?length_append; unfold KEY_SEP; cbn [String.length]; try lia.
  rewrite Nat2Z.id, takeStr_app.
  replace (Z.to_nat (Z.of_nat (String.length song) + 1))
    with (String.length (song ++ String (ascii_of_nat 31) "")).
  - change (String (ascii_of_nat 31) artist)
      with (String (ascii_of_nat 31) "" ++ artist).
    rewrite <- (append_assoc_str song). rewrite dropStr_app. reflexivity.
  - rewrite length_append. simpl. lia.
Qed.

Lemma splitSongKey_make_collides (song artist : string) :
  includes KEY_SEP song = true ->
  splitSongKey (makeSongKey song artist) <> (song, artist)
  /\ exists song' artist',
       (song', artist') <> (song, artist)
       /\ makeSongKey song' artist' = makeSongKey song artist.
Proof.
  intros H. apply includes_true in H.
  destruct (indexOf_sep_present song (KEY_SEP ++ artist) H) as (H1 & H2 & H3).
  set (i := indexOf KEY_SEP song) in *.
  assert (Hlen : String.length (takeStr (Z.to_nat i) song) <> String.length song).
  { rewrite length_takeStr; lia. }
  split.
  - unfold splitSongKey, makeSongKey. rewrite H1.
    destruct (i <? 0) eqn:E; [apply Z.ltb_lt in E; lia |].
    rewrite slice_prefix by (rewrite length_append; lia).
    intros Heq. injection Heq as Heq _.
    apply (f_equal String.length) in Heq.
    rewrite length_takeStr in Heq by (rewrite length_append; lia). lia.
  - exists (takeStr (Z.to_nat i) song),
           (dropStr (Z.to_nat (i + 1)) song ++ KEY_SEP ++ artist).
    split.
    + intros Heq. injection Heq as Heq _. apply Hlen. now rewrite Heq.
    + unfold makeSongKey. rewrite H3 at 3.
      rewrite !append_assoc_str. reflexivity.
Qed.

(** C10. When [song] does not contain the separator U+001F, splitting the
    key made of [song] and [artist] gives back exactly [(song, artist)].
    The condition is needed: when [song] contains the separator, the split
    does not give the pair back, and a different pair has the same key, so
    that [makeSongKey] is not injective; the events of two such pairs are
    aggregated into one row of the song table. *)
Theorem songKey_roundtrip (song artist : string) :
  (includes KEY_SEP song = false ->
   splitSongKey (makeSongKey song artist) = (song, artist))
  /\ (includes KEY_SEP song = true ->
      splitSongKey (makeSongKey song artist) <> (song, artist)
      /\ exists song' artist',
           (song', artist') <> (song, artist)
           /\ makeSongKey song' artist' = makeSongKey song artist)
  /\ (let r1 := songRecord ("a" ++ KEY_SEP ++ "b") "c" "" ""
                  "2023-05-01T10:00:00Z" 1000 false in
      let r2 := songRecord "a" ("b" ++ KEY_SEP ++ "c") "" ""
                  "2023-05-02T10:00:00Z" 2000 false in
      map rowSummary
          (songRows (buildReport (P := strictPlatform) [r1; r2] tt))
      = [("a" ++ KEY_SEP ++ "b", "c", 2, 3000)]).
Proof.
  split; [apply splitSongKey_make |].
  split; [apply splitSongKey_make_collides |].
  vm_compute. reflexivity.
Qed.

Lemma songKey_roundtrip_witness :
  splitSongKey (makeSongKey "Song X" "Artist A") = ("Song X", "Artist A")
  /\ splitSongKey (makeSongKey ("a" ++ KEY_SEP ++ "b") "c")
     <> ("a" ++ KEY_SEP ++ "b", "c").
Proof.
  split.
  - apply (proj1 (songKey_roundtrip "Song X" "Artist A")). reflexivity.
  - apply (proj1 (proj2 (songKey_roundtrip ("a" ++ KEY_SEP ++ "b") "c"))).
    reflexivity.
Defined.

(** ** Timestamps *)

(** [YearFromTime] is the year ECMAScript defines: the one whose first day
    is not after the day of [t] and whose successor's first day is. *)
Lemma YearFromTime_bounds (t : Z) :
  DayFromYear (YearFromTime t) <= Day t < DayFromYear (YearFromTime t + 1).
Proof.
  unfold YearFromTime. set (d := Day t). clearbody d.
  set (y0 := 1970 + d * 400 / 146097).
  assert (H0 : 146097 * (y0 - 1970) <= d * 400 < 146097 * (y0 - 1970) + 146097).
  { subst y0. pose proof (Z.div_mod (d * 400) 146097 ltac:(lia)).
    pose proof (Z.mod_pos_bound (d * 400) 146097 ltac:(lia)). lia. }
  clearbody y0.
  destruct (DayFromYear (y0 + 1) <=? d) eqn:E1.
  - apply Z.leb_le in E1. split; [exact E1 |].
    unfold DayFromYear in *. Z.div_mod_to_equations. lia.
  - apply Z.leb_gt in E1.
    destruct (DayFromYear y0 <=? d) eqn:E2.
    + apply Z.leb_le in E2. lia.
    + apply Z.leb_gt in E2. split; [| replace (y0 - 1 + 1) with y0 by lia; lia].
      unfold DayFromYear in *. Z.div_mod_to_equations. lia.
Qed.

Lemma endsWith_append (p s : string) : endsWith p (s ++ p) = true.
Proof.
  induction s as [| c s IH]; cbn [append].
  - destruct p; cbn [endsWith]; now rewrite String.eqb_refl.
  - cbn [endsWith]. rewrite IH. apply orb_true_r.
Qed.

(** The repaired string ends with the zone marker, and a string that has
    the [T] separator and the marker is left as it is. *)
Lemma lenientRepair_zone (s : string) : endsWith "Z" (lenientRepair s) = true.
Proof.
  unfold lenientRepair, withZoneMarker.
  destruct (endsWith "Z" (withTSeparator s)) eqn:E; [exact E |].
  apply endsWith_append.
Qed.

Lemma lenientRepair_fixed (s : string) :
  includes "T" s = true -> endsWith "Z" s = true -> lenientRepair s = s.
Proof.
  intros HT HZ. unfold lenientRepair, withZoneMarker, withTSeparator.
  now rewrite HT, HZ.
Qed.

Section TimestampProperties.
Context {P : Platform}.

Lemma parseTimestamp_string (s : string) :
  parseTimestamp (JString s)
  = if negb (strTruthy (trim s)) then None
    else match newDate s with
         | Some date => Some date
         | None => newDate (lenientRepair s)
         end.
Proof.
  unfold parseTimestamp, lenientRepair, withZoneMarker, withTSeparator.
  destruct (negb (strTruthy (trim s))); [reflexivity |].
  destruct (newDate s); [reflexivity |].
  destruct (newDate _); reflexivity.
Qed.

(** The timestamp of scenario D is not in the date-time format: what its
    direct parse gives is up to the engine. *)
Lemma scenarioD_direct :
  newDate "2023-05-01 10:00:00"
  = match legacyDateParse "2023-05-01 10:00:00" with
    | Some tv => TimeClip tv
    | None => None
    end.
Proof.
  unfold newDate, dateParse.
  replace (readIsoDateTime "2023-05-01 10:00:00") with (@None (Z * option Z))
    by (vm_compute; reflexivity).
  reflexivity.
Qed.

Lemma scenarioD_repaired :
  newDate "2023-05-01T10:00:00Z" = Some 1682935200000.
Proof.
  unfold newDate, dateParse.
  replace (readIsoDateTime "2023-05-01T10:00:00Z")
    with (Some (1682935200000, Some 0)) by (vm_compute; reflexivity).
  reflexivity.
Qed.

(** An engine that reads a string directly decides its timestamp: the
    repair is not tried. *)
Lemma parseTimestamp_direct (s : string) (date : Z) :
  trim s <> EmptyString -> newDate s = Some date ->
  parseTimestamp (JString s) = Some date.
Proof.
  intros Hs Hd. rewrite parseTimestamp_string, Hd.
  apply strTruthy_true in Hs. now rewrite Hs.
Qed.

Lemma scenarioD_parse :
  parseTimestamp (JString "2023-05-01 10:00:00")
  = match newDate "2023-05-01 10:00:00" with
    | Some date => Some date
    | None => Some 1682935200000
    end.
Proof.
  rewrite parseTimestamp_string.
  replace (negb (strTruthy (trim "2023-05-01 10:00:00"))) with false
    by (vm_compute; reflexivity).
  replace (lenientRepair "2023-05-01 10:00:00") with "2023-05-01T10:00:00Z"
    by (vm_compute; reflexivity).
  now rewrite scenarioD_repaired.
Qed.

(** The report of a single song record with a timestamp. *)
Lemma single_record_bucket {Meta : Type} (record : RawRecord) (meta : Meta)
  (date : Z) :
  isSongRecord record = true ->
  parseTimestamp record.(ts) = Some date ->
  let report := buildReport [record] meta in
  report.(songRecordsUsed) = 1
  /\ report.(ignoredBadTimestamp) = 0
  /\ map mr_month report.(monthlyMinutesRows) = [timestampToMonthKey date]
  /\ map yr_year report.(yearlyMinutesRows) = [getUTCFullYear date].
Proof.
  intros Hsong Hts.
  unfold buildReport, aggregate. cbn [fold_left].
  unfold processRecord. rewrite Hsong, Hts. cbn [negb].
  generalize (timestampToMonthKey date) (getUTCFullYear date).
  intros monthKey yearKey. cbn. repeat split; reflexivity.
Qed.

End TimestampProperties.

(** ** The order of strings *)

Lemma ascii_compare_refl (c : ascii) : Ascii.compare c c = Eq.
Proof. unfold Ascii.compare. apply N.compare_refl. Qed.

Lemma string_compare_refl (s : string) : String.compare s s = Eq.
Proof.
  induction s as [| c s IH]; simpl; [reflexivity |].
  rewrite ascii_compare_refl. exact IH.
Qed.

Lemma string_compare_lt_trans (a b c : string) :
  String.compare a b = Lt -> String.compare b c = Lt -> String.compare a c = Lt.
Proof.
  revert b c. induction a as [| x a IH]; intros [| y b] [| z c]; simpl;
    try congruence.
  unfold Ascii.compare.
  destruct (N.compare_spec (N_of_ascii x) (N_of_ascii y)) as [Exy | Lxy | Gxy];
    try discriminate;
  destruct (N.compare_spec (N_of_ascii y) (N_of_ascii z)) as [Eyz | Lyz | Gyz];
    try discriminate; intros H1 H2.
  - rewrite Exy, Eyz, N.compare_refl. eapply IH; eassumption.
  - rewrite Exy. apply N.compare_lt_iff in Lyz. now rewrite Lyz.
  - rewrite <- Eyz. apply N.compare_lt_iff in Lxy. now rewrite Lxy.
  - assert (L : (N_of_ascii x < N_of_ascii z)%N) by lia.
    apply N.compare_lt_iff in L. now rewrite L.
Qed.

Lemma string_compare_le_trans (a b c : string) :
  String.compare a b <> Gt -> String.compare b c <> Gt ->
  String.compare a c <> Gt.
Proof.
  intros H1 H2.
  destruct (String.compare a b) eqn:Eab; try congruence;
  destruct (String.compare b c) eqn:Ebc; try congruence.
  - apply String.compare_eq_iff in Eab, Ebc. subst.
    rewrite string_compare_refl. discriminate.
  - apply String.compare_eq_iff in Eab. subst. rewrite Ebc. discriminate.
  - apply String.compare_eq_iff in Ebc. subst. rewrite Eab. discriminate.
  - rewrite (string_compare_lt_trans _ _ _ Eab Ebc). discriminate.
Qed.

Lemma strGt_false (a b : string) :
  strGt a b = false <-> String.compare a b <> Gt.
Proof.
  unfold strGt. destruct (String.compare a b); split; intros H;
    try reflexivity; try discriminate; try (intros H'; discriminate);
    exfalso; apply H; reflexivity.
Qed.

Lemma strGt_irrefl (a : string) : strGt a a = false.
Proof. unfold strGt. now rewrite string_compare_refl. Qed.

Lemma strGt_asym (a b : string) : strGt a b = true -> strGt b a = false.
Proof.
  unfold strGt. rewrite (String.compare_antisym b a).
  destruct (String.compare a b); simpl; intros H;
    try reflexivity; discriminate.
Qed.

Lemma strGt_le_trans (a b c : string) :
  strGt a b = false -> strGt b c = false -> strGt a c = false.
Proof. rewrite !strGt_false. apply string_compare_le_trans. Qed.

Lemma codeUnitCompare_sym (a b : string) :
  codeUnitCompare a b < 0 <-> 0 < codeUnitCompare b a.
Proof.
  unfold codeUnitCompare. rewrite (String.compare_antisym b a).
  destruct (String.compare a b); simpl; lia.
Qed.

Lemma codeUnitCompare_trans (a b c : string) :
  codeUnitCompare a b <= 0 -> codeUnitCompare b c <= 0 ->
  codeUnitCompare a c <= 0.
Proof.
  unfold codeUnitCompare. intros H1 H2.
  assert (G : String.compare a c <> Gt).
  { apply string_compare_le_trans with b.
    - destruct (String.compare a b); [discriminate | discriminate | lia].
    - destruct (String.compare b c); [discriminate | discriminate | lia]. }
  destruct (String.compare a c); [lia | lia | congruence].
Qed.

Lemma codeUnitCompare_eq (a b : string) : codeUnitCompare a b = 0 -> a = b.
Proof.
  unfold codeUnitCompare. intros H. apply String.compare_eq_iff.
  destruct (String.compare a b); [reflexivity | lia | lia].
Qed.

(** ** The peak selector *)

Section PeakSelection.
Variable R : Type.
Variables (value : R -> Z) (key : R -> string).

Local Abbreviation dominated := (dominatedBy value key).
Local Abbreviation pick := (peakStep value key).

Lemma dominated_refl (r : R) : dominated r r.
Proof. right. split; [reflexivity | apply strGt_irrefl]. Qed.

Lemma dominated_trans (a b c : R) :
  dominated a b -> dominated b c -> dominated a c.
Proof.
  unfold dominatedBy. intros [H1 | [H1 K1]] [H2 | [H2 K2]].
  - left; lia.
  - left; lia.
  - left; lia.
  - right. split; [lia |]. eapply strGt_le_trans; eassumption.
Qed.

Lemma pick_cases (best current : R) :
  (pick best current = current /\ dominated best current)
  \/ (pick best current = best /\ dominated current best).
Proof.
  unfold peakStep, dominatedBy.
  destruct (value current >? value best) eqn:Egt.
  - left. split; [reflexivity |]. apply Z.gtb_lt in Egt. left; lia.
  - assert (Hle : value current <= value best).
    { destruct (Z.gtb_spec (value current) (value best)); [discriminate | lia]. }
    destruct (value current =? value best) eqn:Eeq.
    + apply Z.eqb_eq in Eeq.
      destruct (strGt (key current) (key best)) eqn:Es; simpl.
      * left. split; [reflexivity |]. right. split; [lia |].
        now apply strGt_asym.
      * right. split; [reflexivity |]. right. split; [lia | reflexivity].
    + apply Z.eqb_neq in Eeq. simpl. right. split; [reflexivity |].
      left; lia.
Qed.

Lemma fold_pick_dominates (rest seen : list R) (acc : R) :
  In acc seen ->
  (forall r, In r seen -> dominated r acc) ->
  let best := fold_left pick rest acc in
  In best (seen ++ rest)%list
  /\ (forall r, In r (seen ++ rest)%list -> dominated r best).
Proof.
  revert seen acc. induction rest as [| current rest IH]; intros seen acc Hin Hdom.
  - simpl. rewrite app_nil_r. split; assumption.
  - cbn [fold_left].
    replace (seen ++ current :: rest)%list
      with ((seen ++ [current]) ++ rest)%list
      by (rewrite <- app_assoc; reflexivity).
    apply IH.
    + destruct (pick_cases acc current) as [[-> _] | [-> _]];
        apply in_or_app; [right; left; reflexivity | left; exact Hin].
    + intros r Hr. apply in_app_or in Hr.
      destruct (pick_cases acc current) as [[-> Hd] | [-> Hd]].
      * destruct Hr as [Hr | [<- | []]].
        -- eapply dominated_trans; [apply Hdom; exact Hr | exact Hd].
        -- apply dominated_refl.
      * destruct Hr as [Hr | [<- | []]].
        -- apply Hdom; exact Hr.
        -- exact Hd.
Qed.

Lemma fold_pick_isPeak (first : R) (rest : list R) :
  isPeakOf value key (first :: rest) (fold_left pick rest first).
Proof.
  destruct (fold_pick_dominates rest [first] first) as [Hin Hdom].
  - left; reflexivity.
  - intros r [<- | []]. apply dominated_refl.
  - unfold isPeakOf. split; [exact Hin |]. split.
    + intros r Hr. destruct (Hdom r Hr) as [H | [H _]]; lia.
    + intros r Hr Heq. destruct (Hdom r Hr) as [H | [_ H]]; [lia | exact H].
Qed.

End PeakSelection.

Lemma pickPeak_isPeak (rows : list PeriodRow)
  (value : PeriodRow -> Z) (key : PeriodRow -> string) :
  match pickPeak rows value key with
  | None => rows = []
  | Some peak =>
      exists best, isPeakOf value key rows best /\ peak = peakOfRow best
  end.
Proof.
  destruct rows as [| first rest]; [reflexivity |].
  unfold pickPeak.
  set (best := fold_left _ rest first).
  assert (H : isPeakOf value key (first :: rest) best)
    by apply fold_pick_isPeak.
  clearbody best.
  destruct best; eexists; (split; [exact H | reflexivity]).
Qed.

Lemma isPeakOf_map {A B : Type} (f : A -> B) (value : B -> Z)
  (key : B -> string) (rows : list A) (best : B) :
  isPeakOf value key (map f rows) best ->
  exists b, best = f b
            /\ isPeakOf (fun r => value (f r)) (fun r => key (f r)) rows b.
Proof.
  intros (Hin & Hmax & Htie).
  apply in_map_iff in Hin. destruct Hin as (b & <- & Hb).
  exists b. split; [reflexivity |]. split; [exact Hb |]. split.
  - intros r Hr. apply Hmax. apply in_map. exact Hr.
  - intros r Hr. apply Htie. apply in_map. exact Hr.
Qed.

Section PeakProperties.
Context {P : Platform}.

(** C7. [pickPeak] returns nothing on an empty series; on any other
    series it returns the row with the maximum total of milliseconds and,
    among the rows with that total, one whose key no other exceeds under
    string comparison.  For the report this is the month with the
    greatest [YYYY-MM] key, and the year whose decimal rendering is the
    greatest string. *)
Theorem pickPeak_selects :
  (forall value key, pickPeak [] value key = None)
  /\ (forall rows value key,
         match pickPeak rows value key with
         | None => rows = []
         | Some peak =>
             exists best,
               isPeakOf value key rows best /\ peak = peakOfRow best
         end)
  /\ (forall (Meta : Type) (records : list RawRecord) (meta : Meta),
         let report := buildReport records meta in
         match report.(peakMonth) with
         | None => report.(monthlyMinutesRows) = []
         | Some peak =>
             exists best,
               isPeakOf mr_totalMs mr_month report.(monthlyMinutesRows) best
               /\ peak = PeakMonth best.(mr_month) best.(mr_monthLabel)
                                   best.(mr_totalMs) best.(mr_minutes)
         end)
  /\ (forall (Meta : Type) (records : list RawRecord) (meta : Meta),
         let report := buildReport records meta in
         match report.(peakYear) with
         | None => report.(yearlyMinutesRows) = []
         | Some peak =>
             exists best,
               isPeakOf yr_totalMs (fun row => intToString row.(yr_year))
                        report.(yearlyMinutesRows) best
               /\ peak = PeakYear best.(yr_year) best.(yr_totalMs)
                                  best.(yr_minutes)
         end).
Proof.
  split; [reflexivity |].
  split; [apply pickPeak_isPeak |].
  split.
  - intros Meta records meta report. subst report.
    cbn [peakMonth monthlyMinutesRows buildReport].
    match goal with
    | |- match pickPeak (map MonthlyRow ?rows) ?v ?k with _ => _ end =>
        pose proof (pickPeak_isPeak (map MonthlyRow rows) v k) as H;
        destruct (pickPeak (map MonthlyRow rows) v k) as [peak |]
    end.
    + destruct H as (best & Hbest & ->).
      apply isPeakOf_map in Hbest. destruct Hbest as (b & -> & Hb).
      exists b. split; [exact Hb | reflexivity].
    + now apply map_eq_nil in H.
  - intros Meta records meta report. subst report.
    cbn [peakYear yearlyMinutesRows buildReport].
    match goal with
    | |- match pickPeak (map YearlyRow ?rows) ?v ?k with _ => _ end =>
        pose proof (pickPeak_isPeak (map YearlyRow rows) v k) as H;
        destruct (pickPeak (map YearlyRow rows) v k) as [peak |]
    end.
    + destruct H as (best & Hbest & ->).
      apply isPeakOf_map in Hbest. destruct Hbest as (b & -> & Hb).
      exists b. split; [exact Hb | reflexivity].
    + now apply map_eq_nil in H.
Qed.

End PeakProperties.

Lemma pickPeak_selects_witness :
  let rows :=
    map MonthlyRow
        [monthRowOf (P := strictPlatform) ("2023-04", 600000);
         monthRowOf (P := strictPlatform) ("2023-05", 600000);
         monthRowOf (P := strictPlatform) ("2023-03", 1000)] in
  pickPeak rows periodTotalMs periodMonth
  = Some (PeakMonth "2023-05" "May 2023" 600000 (toMinutes 600000))
  /\ exists best, isPeakOf periodTotalMs periodMonth rows best.
Proof.
  intros rows. split; [vm_compute; reflexivity |].
  pose proof (proj1 (proj2 (@pickPeak_selects strictPlatform))
                rows periodTotalMs periodMonth) as H.
  destruct (pickPeak rows periodTotalMs periodMonth) as [peak |].
  - destruct H as (best & Hbest & _). exists best. exact Hbest.
  - discriminate H.
Defined.

(** ** The aggregation pass *)

Ltac state_fields :=
  unfold bumpNonSong, bumpBadTimestamp, applyEvent;
  cbn [st_songMap st_artistMap st_monthlySongMap st_monthlyMs st_yearlyMs
       st_ignoredNonSong st_ignoredBadTimestamp st_songRecordsUsed
       initialState boolToZ].

Section PassProperties.
Context {P : Platform}.

Lemma processRecord_dispose (st : State) (record : RawRecord) :
  processRecord st record
  = match dispose record with
    | NonSong => bumpNonSong st
    | BadTimestamp => bumpBadTimestamp st
    | Accepted e => applyEvent st e
    end.
Proof.
  unfold processRecord, dispose.
  destruct (isSongRecord record); [| reflexivity].
  destruct (parseTimestamp (ts record)); reflexivity.
Qed.

Lemma countIf_cons {A : Type} (f : A -> bool) (x : A) (l : list A) :
  countIf f (x :: l) = boolToZ (f x) + countIf f l.
Proof.
  unfold countIf. cbn [filter]. destruct (f x); cbn [List.length boolToZ]; lia.
Qed.

Lemma countIf_nonneg {A : Type} (f : A -> bool) (l : list A) : 0 <= countIf f l.
Proof. unfold countIf. lia. Qed.

(** The three counters after the loop, from any starting state. *)
Lemma fold_counters (records : list RawRecord) (st : State) :
  let st' := fold_left processRecord records st in
  st'.(st_ignoredNonSong) = st.(st_ignoredNonSong) + countIf isNonSong records
  /\ st'.(st_ignoredBadTimestamp)
     = st.(st_ignoredBadTimestamp) + countIf isBadTimestamp records
  /\ st'.(st_songRecordsUsed)
     = st.(st_songRecordsUsed) + countIf isAccepted records.
Proof.
  revert st. induction records as [| record records IH]; intros st.
  - unfold countIf. simpl. lia.
  - cbn [fold_left]. cbv zeta in IH |- *.
    destruct (IH (processRecord st record)) as (H1 & H2 & H3).
    rewrite H1, H2, H3, !countIf_cons.
    rewrite processRecord_dispose.
    unfold isNonSong at 2, isBadTimestamp at 2, isAccepted at 2.
    destruct (dispose record); state_fields; lia.
Qed.

Lemma counts_partition (records : list RawRecord) :
  countIf isAccepted records + countIf isNonSong records
  + countIf isBadTimestamp records
  = Z.of_nat (List.length records).
Proof.
  induction records as [| record records IH].
  - reflexivity.
  - rewrite !countIf_cons. cbn [List.length].
    assert (H : boolToZ (isAccepted record) + boolToZ (isNonSong record)
                + boolToZ (isBadTimestamp record) = 1).
    { unfold isNonSong, isBadTimestamp, isAccepted.
      destruct (dispose record); reflexivity. }
    lia.
Qed.

Lemma countIf_isAccepted (records : list RawRecord) :
  countIf isAccepted records = Z.of_nat (List.length (eventsOf records)).
Proof.
  induction records as [| record records IH].
  - reflexivity.
  - rewrite countIf_cons. unfold eventsOf in *. cbn [flat_map].
    rewrite length_app, Nat2Z.inj_add, <- IH.
    unfold isAccepted at 1. destruct (dispose record); cbn; lia.
Qed.

(** C2. On every sequence of records the provenance counters add up:
    [songRecordsUsed + ignoredNonSong + ignoredBadTimestamp] is
    [totalRecordsRead], which is the number of records.  Each counter is
    the number of records of its kind, and the loop body adds one to
    exactly one of the three counters and leaves the other two as they
    were. *)
Theorem provenance_counters :
  (forall (Meta : Type) (records : list RawRecord) (meta : Meta),
      let report := buildReport records meta in
      report.(songRecordsUsed) + report.(ignoredNonSong)
      + report.(ignoredBadTimestamp) = report.(totalRecordsRead)
      /\ report.(totalRecordsRead) = Z.of_nat (List.length records)
      /\ report.(songRecordsUsed) = countIf isAccepted records
      /\ report.(ignoredNonSong) = countIf isNonSong records
      /\ report.(ignoredBadTimestamp) = countIf isBadTimestamp records)
  /\ (forall (st : State) (record : RawRecord),
         let st' := processRecord st record in
         let dNonSong := st'.(st_ignoredNonSong) - st.(st_ignoredNonSong) in
         let dBad := st'.(st_ignoredBadTimestamp) - st.(st_ignoredBadTimestamp) in
         let dUsed := st'.(st_songRecordsUsed) - st.(st_songRecordsUsed) in
         (dNonSong, dBad, dUsed) = (1, 0, 0)
         \/ (dNonSong, dBad, dUsed) = (0, 1, 0)
         \/ (dNonSong, dBad, dUsed) = (0, 0, 1)).
Proof.
  split.
  - intros Meta records meta report. subst report.
    cbn [songRecordsUsed ignoredNonSong ignoredBadTimestamp totalRecordsRead
         buildReport].
    unfold aggregate.
    destruct (fold_counters records initialState) as (H1 & H2 & H3).
    rewrite H1, H2, H3. cbn [initialState st_ignoredNonSong
      st_ignoredBadTimestamp st_songRecordsUsed].
    pose proof (counts_partition records).
    repeat split; lia.
  - intros st record. cbv zeta. rewrite processRecord_dispose.
    destruct (dispose record); state_fields.
    + left. f_equal; [f_equal |]; lia.
    + right; left. f_equal; [f_equal |]; lia.
    + right; right. f_equal; [f_equal |]; lia.
Qed.

End PassProperties.

(** ** Insertion-ordered maps *)

Section MapFacts.
Context {K V : Type} `{EqKey K}.

Lemma keyb_refl (k : K) : keyb k k = true.
Proof. apply keyb_eq. reflexivity. Qed.

Lemma keyb_neq (a b : K) : keyb a b = false <-> a <> b.
Proof.
  split.
  - intros E Heq. apply keyb_eq in Heq. congruence.
  - intros Hne. destruct (keyb a b) eqn:E; [| reflexivity].
    apply keyb_eq in E. contradiction.
Qed.

Lemma mapGet_set_same (m : JsMap K V) (k : K) (v : V) :
  mapGet (mapSet m k v) k = Some v.
Proof.
  induction m as [| [k' v'] m IH]; cbn [mapSet mapGet].
  - now rewrite keyb_refl.
  - destruct (keyb k' k) eqn:E; cbn [mapGet]; rewrite E; [reflexivity | exact IH].
Qed.

Lemma mapGet_set_other (m : JsMap K V) (k k' : K) (v : V) :
  k <> k' -> mapGet (mapSet m k v) k' = mapGet m k'.
Proof.
  intros Hne. induction m as [| [k0 v0] m IH]; cbn [mapSet mapGet].
  - apply keyb_neq in Hne. now rewrite Hne.
  - destruct (keyb k0 k) eqn:E; cbn [mapGet].
    + apply keyb_eq in E. subst k0. apply keyb_neq in Hne. now rewrite Hne.
    + rewrite IH. reflexivity.
Qed.

Lemma mapGet_None (m : JsMap K V) (k : K) :
  mapGet m k = None <-> ~ In k (mapKeys m).
Proof.
  induction m as [| [k' v'] m IH]; cbn [mapGet mapKeys map fst In].
  - tauto.
  - destruct (keyb k' k) eqn:E.
    + apply keyb_eq in E. split; [discriminate | intros Hn; exfalso; auto].
    + apply keyb_neq in E. unfold mapKeys in IH. rewrite IH. tauto.
Qed.

Lemma mapGet_Some_In (m : JsMap K V) (k : K) (v : V) :
  mapGet m k = Some v -> In (k, v) m.
Proof.
  induction m as [| [k' v'] m IH]; cbn [mapGet In]; [discriminate |].
  destruct (keyb k' k) eqn:E.
  - apply keyb_eq in E. intros [= ->]. left. now subst.
  - intros Hg. right. auto.
Qed.

Lemma In_mapGet (m : JsMap K V) (k : K) (v : V) :
  NoDup (mapKeys m) -> In (k, v) m -> mapGet m k = Some v.
Proof.
  induction m as [| [k' v'] m IH]; cbn [mapGet mapKeys map fst In];
    [contradiction |].
  intros Hnd [Heq | Hin].
  - injection Heq as -> ->. now rewrite keyb_refl.
  - inversion Hnd as [| ? ? Hnotin Hnd']; subst.
    destruct (keyb k' k) eqn:E.
    + apply keyb_eq in E. subst k'. exfalso. apply Hnotin.
      change k with (fst (k, v)). apply in_map. exact Hin.
    + apply IH; assumption.
Qed.

Lemma mapKeys_set (m : JsMap K V) (k : K) (v : V) :
  mapKeys (mapSet m k v)
  = match mapGet m k with
    | Some _ => mapKeys m
    | None => (mapKeys m ++ [k])%list
    end.
Proof.
  induction m as [| [k' v'] m IH]; cbn [mapSet mapGet mapKeys map fst app].
  - reflexivity.
  - destruct (keyb k' k) eqn:E; cbn [map fst].
    + reflexivity.
    + unfold mapKeys in IH. rewrite IH.
      destruct (mapGet m k); reflexivity.
Qed.

Lemma mapSet_NoDup (m : JsMap K V) (k : K) (v : V) :
  NoDup (mapKeys m) -> NoDup (mapKeys (mapSet m k v)).
Proof.
  intros Hnd. rewrite mapKeys_set.
  destruct (mapGet m k) eqn:E; [exact Hnd |].
  apply mapGet_None in E.
  apply NoDup_rev in Hnd. apply (NoDup_cons k) in Hnd.
  - apply NoDup_rev in Hnd. cbn [rev] in Hnd. now rewrite rev_involutive in Hnd.
  - now rewrite <- in_rev.
Qed.

Lemma NoDup_entries (m : JsMap K V) : NoDup (mapKeys m) -> NoDup m.
Proof. unfold mapKeys. apply NoDup_map_inv. Qed.

(** Two maps with the same lookups hold the same entries. *)
Lemma maps_Permutation (m m' : JsMap K V) :
  NoDup (mapKeys m) -> NoDup (mapKeys m') ->
  (forall k, mapGet m k = mapGet m' k) ->
  Permutation m m'.
Proof.
  intros Hnd Hnd' Hget.
  apply NoDup_Permutation; try (apply NoDup_entries; assumption).
  intros [k v]. split; intros Hin.
  - apply mapGet_Some_In. rewrite <- Hget. now apply In_mapGet.
  - apply mapGet_Some_In. rewrite Hget. now apply In_mapGet.
Qed.

End MapFacts.

Lemma mapGet_mapValues {K V W : Type} `{EqKey K} (g : V -> W)
  (m : JsMap K V) (k : K) :
  mapGet (map (fun entry => (fst entry, g (snd entry))) m) k
  = option_map g (mapGet m k).
Proof.
  induction m as [| [k' v'] m IH]; cbn [map mapGet fst snd]; [reflexivity |].
  destruct (keyb k' k); [reflexivity | exact IH].
Qed.

(** Maps whose lookups agree under [g] have the same values under [g], up to
    their order. *)
Lemma mapValues_Permutation {K V W : Type} `{EqKey K} (g : V -> W)
  (m m' : JsMap K V) :
  NoDup (mapKeys m) -> NoDup (mapKeys m') ->
  (forall k, option_map g (mapGet m k) = option_map g (mapGet m' k)) ->
  Permutation (map g (mapValues m)) (map g (mapValues m')).
Proof.
  intros Hnd Hnd' Hget.
  set (em := map (fun entry : K * V => (fst entry, g (snd entry))) m).
  set (em' := map (fun entry : K * V => (fst entry, g (snd entry))) m').
  assert (Hk : forall x : JsMap K V,
             mapKeys (map (fun entry : K * V => (fst entry, g (snd entry))) x)
             = mapKeys x).
  { intros x. unfold mapKeys. rewrite map_map. reflexivity. }
  assert (Hv : forall x : JsMap K V,
             mapValues (map (fun entry : K * V => (fst entry, g (snd entry))) x)
             = map g (mapValues x)).
  { intros x. unfold mapValues. rewrite !map_map. reflexivity. }
  rewrite <- !Hv. unfold mapValues. apply Permutation_map.
  apply maps_Permutation.
  - now rewrite Hk.
  - now rewrite Hk.
  - intros k. rewrite !mapGet_mapValues. apply Hget.
Qed.

(** ** Grouping loops *)

Section GroupFacts.
Context {E K V : Type} `{EqKey K}.
Variable key : E -> K.
Variable upd : option V -> E -> V.

Lemma accumulate_nonempty (es : list E) (o : option V) :
  es <> [] -> exists v, accumulate upd es o = Some v.
Proof.
  revert o. induction es as [| e es IH]; intros o Hne; [contradiction |].
  unfold accumulate. cbn [fold_left].
  destruct es as [| e' es'].
  - eexists. reflexivity.
  - apply IH. discriminate.
Qed.

Lemma accumulate_None (es : list E) :
  accumulate upd es None = None <-> es = [].
Proof.
  split.
  - intros Hacc. destruct es as [| e es]; [reflexivity |].
    destruct (accumulate_nonempty (e :: es) None) as [v Hv]; [discriminate |].
    congruence.
  - intros ->. reflexivity.
Qed.

(** The value under [k] after the loop: the elements with key [k] applied
    in order to the value [k] had before. *)
Lemma fold_group_get (es : list E) (m : JsMap K V) (k : K) :
  mapGet (fold_left (groupStep key upd) es m) k
  = accumulate upd (filter (fun e => keyb (key e) k) es) (mapGet m k).
Proof.
  revert m. induction es as [| e es IH]; intros m; [reflexivity |].
  cbn [fold_left filter]. rewrite IH. unfold groupStep.
  destruct (keyb (key e) k) eqn:Ek.
  - apply keyb_eq in Ek. subst k. rewrite mapGet_set_same. reflexivity.
  - apply keyb_neq in Ek. rewrite mapGet_set_other by exact Ek. reflexivity.
Qed.

Lemma fold_group_NoDup (es : list E) (m : JsMap K V) :
  NoDup (mapKeys m) -> NoDup (mapKeys (fold_left (groupStep key upd) es m)).
Proof.
  revert m. induction es as [| e es IH]; intros m Hnd; [exact Hnd |].
  cbn [fold_left]. apply IH. unfold groupStep. now apply mapSet_NoDup.
Qed.

Lemma groupBy_get (es : list E) (k : K) :
  mapGet (groupBy key upd es) k
  = accumulate upd (filter (fun e => keyb (key e) k) es) None.
Proof. unfold groupBy. now rewrite fold_group_get. Qed.

Lemma groupBy_NoDup (es : list E) : NoDup (mapKeys (groupBy key upd es)).
Proof. unfold groupBy. apply fold_group_NoDup. constructor. Qed.

Lemma groupBy_keys (es : list E) (k : K) :
  In k (mapKeys (groupBy key upd es)) <-> exists e, In e es /\ key e = k.
Proof.
  split.
  - intros Hin.
    destruct (filter (fun e => keyb (key e) k) es) as [| e l] eqn:Ef.
    + exfalso. revert Hin. apply mapGet_None.
      rewrite groupBy_get, Ef. reflexivity.
    + assert (He : In e (filter (fun e => keyb (key e) k) es))
        by (rewrite Ef; left; reflexivity).
      apply filter_In in He. destruct He as [He Hk]. apply keyb_eq in Hk.
      exists e. split; assumption.
  - intros (e & He & Hk).
    destruct (mapGet (groupBy key upd es) k) as [v |] eqn:Hget.
    + apply mapGet_Some_In in Hget.
      change k with (fst (k, v)). unfold mapKeys. apply in_map. exact Hget.
    + rewrite groupBy_get in Hget. apply accumulate_None in Hget.
      assert (Hf : In e (filter (fun e => keyb (key e) k) es)).
      { apply filter_In. split; [exact He |]. apply keyb_eq. exact Hk. }
      rewrite Hget in Hf. contradiction.
Qed.

End GroupFacts.

(** ** The pass as five grouping loops *)

Section PassAsGroups.
Context {P : Platform}.

Lemma fold_projection {X : Type} (proj : State -> X) (step : X -> Event -> X) :
  (forall st e, proj (applyEvent st e) = step (proj st) e) ->
  (forall st, proj (bumpNonSong st) = proj st) ->
  (forall st, proj (bumpBadTimestamp st) = proj st) ->
  forall records st,
    proj (fold_left processRecord records st)
    = fold_left step (eventsOf records) (proj st).
Proof.
  intros Happly Hnon Hbad records.
  induction records as [| record records IH]; intros st; [reflexivity |].
  cbn [fold_left]. rewrite IH, processRecord_dispose.
  unfold eventsOf. cbn [flat_map]. rewrite fold_left_app.
  destruct (dispose record); cbn [fold_left].
  - now rewrite Hnon.
  - now rewrite Hbad.
  - now rewrite Happly.
Qed.

Lemma aggregate_songMap (records : list RawRecord) :
  (aggregate records).(st_songMap)
  = groupBy ev_songKey updSong (eventsOf records).
Proof.
  unfold aggregate, groupBy.
  now rewrite (fold_projection st_songMap (groupStep ev_songKey updSong)).
Qed.

Lemma aggregate_artistMap (records : list RawRecord) :
  (aggregate records).(st_artistMap)
  = groupBy ev_artist updArtist (eventsOf records).
Proof.
  unfold aggregate, groupBy.
  now rewrite (fold_projection st_artistMap (groupStep ev_artist updArtist)).
Qed.

Lemma aggregate_monthlySongMap (records : list RawRecord) :
  (aggregate records).(st_monthlySongMap)
  = groupBy ev_monthKey updMonthSongs (eventsOf records).
Proof.
  unfold aggregate, groupBy.
  now rewrite (fold_projection st_monthlySongMap
                 (groupStep ev_monthKey updMonthSongs)).
Qed.

Lemma aggregate_monthlyMs (records : list RawRecord) :
  (aggregate records).(st_monthlyMs)
  = groupBy ev_monthKey updMs (eventsOf records).
Proof.
  unfold aggregate, groupBy.
  now rewrite (fold_projection st_monthlyMs (groupStep ev_monthKey updMs)).
Qed.

Lemma aggregate_yearlyMs (records : list RawRecord) :
  (aggregate records).(st_yearlyMs)
  = groupBy ev_yearKey updMs (eventsOf records).
Proof.
  unfold aggregate, groupBy.
  now rewrite (fold_projection st_yearlyMs (groupStep ev_yearKey updMs)).
Qed.

Lemma eventsOf_Permutation (records records' : list RawRecord) :
  Permutation records records' ->
  Permutation (eventsOf records) (eventsOf records').
Proof. unfold eventsOf. apply Permutation_flat_map. Qed.

End PassAsGroups.

(** ** What a key accumulates *)

Lemma skipsOf_cons (e : Event) (es : list Event) :
  skipsOf (e :: es) = boolToZ e.(ev_skipped) + skipsOf es.
Proof.
  unfold skipsOf, countIf. cbn [filter].
  destruct (ev_skipped e); cbn [List.length boolToZ]; lia.
Qed.

Lemma playsOf_cons (e : Event) (es : list Event) :
  playsOf (e :: es) = 1 + playsOf es.
Proof. unfold playsOf. cbn [List.length]. lia. Qed.

Lemma sumMs_cons (e : Event) (es : list Event) :
  sumMs (e :: es) = e.(ev_msPlayed) + sumMs es.
Proof. reflexivity. Qed.

Lemma accumulate_updSong_from (es : list Event) (entry : SongEntry) :
  accumulate updSong es (Some entry)
  = Some {| se_song := entry.(se_song);
            se_artist := entry.(se_artist);
            se_playCount := entry.(se_playCount) + playsOf es;
            se_skipCount := entry.(se_skipCount) + skipsOf es;
            se_totalMs := entry.(se_totalMs) + sumMs es;
            se_albumCounter :=
              fold_left incrementCounter (map ev_album es) entry.(se_albumCounter);
            se_uriCounter :=
              fold_left incrementCounter (map ev_uri es) entry.(se_uriCounter) |}.
Proof.
  revert entry. induction es as [| e es IH]; intros entry.
  - destruct entry. unfold accumulate, playsOf, skipsOf, countIf.
    cbn. do 2 f_equal; lia.
  - unfold accumulate in *. cbn [fold_left]. rewrite IH.
    rewrite playsOf_cons, skipsOf_cons, sumMs_cons.
    unfold updSong. cbn [orDefault se_song se_artist se_playCount se_skipCount
      se_totalMs se_albumCounter se_uriCounter map fold_left].
    do 2 f_equal; lia.
Qed.

Lemma accumulate_updSong (e : Event) (es : list Event) :
  accumulate updSong (e :: es) None
  = Some {| se_song := e.(ev_song);
            se_artist := e.(ev_artist);
            se_playCount := playsOf (e :: es);
            se_skipCount := skipsOf (e :: es);
            se_totalMs := sumMs (e :: es);
            se_albumCounter := observedCounter (map ev_album (e :: es));
            se_uriCounter := observedCounter (map ev_uri (e :: es)) |}.
Proof.
  change (accumulate updSong (e :: es) None)
    with (accumulate updSong es (Some (updSong None e))).
  rewrite accumulate_updSong_from.
  rewrite playsOf_cons, skipsOf_cons, sumMs_cons.
  unfold updSong, observedCounter.
  cbn [orDefault se_song se_artist se_playCount se_skipCount
       se_totalMs se_albumCounter se_uriCounter map fold_left].
  do 2 f_equal; lia.
Qed.

Lemma accumulate_updArtist_from (es : list Event) (entry : ArtistEntry) :
  accumulate updArtist es (Some entry)
  = Some {| ae_artist := entry.(ae_artist);
            ae_playCount := entry.(ae_playCount) + playsOf es;
            ae_skipCount := entry.(ae_skipCount) + skipsOf es;
            ae_totalMs := entry.(ae_totalMs) + sumMs es |}.
Proof.
  revert entry. induction es as [| e es IH]; intros entry.
  - destruct entry. unfold accumulate, playsOf, skipsOf, countIf.
    cbn. do 2 f_equal; lia.
  - unfold accumulate in *. cbn [fold_left]. rewrite IH.
    rewrite playsOf_cons, skipsOf_cons, sumMs_cons.
    unfold updArtist. cbn [orDefault ae_artist ae_playCount ae_skipCount ae_totalMs].
    do 2 f_equal; lia.
Qed.

Lemma accumulate_updArtist (e : Event) (es : list Event) :
  accumulate updArtist (e :: es) None
  = Some {| ae_artist := e.(ev_artist);
            ae_playCount := playsOf (e :: es);
            ae_skipCount := skipsOf (e :: es);
            ae_totalMs := sumMs (e :: es) |}.
Proof.
  change (accumulate updArtist (e :: es) None)
    with (accumulate updArtist es (Some (updArtist None e))).
  rewrite accumulate_updArtist_from.
  rewrite playsOf_cons, skipsOf_cons, sumMs_cons.
  unfold updArtist.
  cbn [orDefault ae_artist ae_playCount ae_skipCount ae_totalMs].
  do 2 f_equal; lia.
Qed.

Lemma accumulate_updMonthSong_from (es : list Event) (entry : MonthSongEntry) :
  accumulate updMonthSong es (Some entry)
  = Some {| ms_playCount := entry.(ms_playCount) + playsOf es;
            ms_totalMs := entry.(ms_totalMs) + sumMs es |}.
Proof.
  revert entry. induction es as [| e es IH]; intros entry.
  - destruct entry. unfold accumulate, playsOf. cbn. do 2 f_equal; lia.
  - unfold accumulate in *. cbn [fold_left]. rewrite IH.
    rewrite playsOf_cons, sumMs_cons.
    unfold updMonthSong. cbn [orDefault ms_playCount ms_totalMs].
    do 2 f_equal; lia.
Qed.

Lemma accumulate_updMonthSong (e : Event) (es : list Event) :
  accumulate updMonthSong (e :: es) None
  = Some {| ms_playCount := playsOf (e :: es);
            ms_totalMs := sumMs (e :: es) |}.
Proof.
  change (accumulate updMonthSong (e :: es) None)
    with (accumulate updMonthSong es (Some (updMonthSong None e))).
  rewrite accumulate_updMonthSong_from.
  rewrite playsOf_cons, sumMs_cons.
  unfold updMonthSong. cbn [orDefault ms_playCount ms_totalMs].
  do 2 f_equal; lia.
Qed.

Lemma accumulate_updMs_from (es : list Event) (total : Z) :
  accumulate updMs es (Some total) = Some (total + sumMs es).
Proof.
  revert total. induction es as [| e es IH]; intros total.
  - unfold accumulate. cbn. f_equal; lia.
  - unfold accumulate in *. cbn [fold_left]. rewrite IH, sumMs_cons.
    unfold updMs. cbn [orDefault]. f_equal; lia.
Qed.

Lemma accumulate_updMs (e : Event) (es : list Event) :
  accumulate updMs (e :: es) None = Some (sumMs (e :: es)).
Proof.
  change (accumulate updMs (e :: es) None)
    with (accumulate updMs es (Some (updMs None e))).
  rewrite accumulate_updMs_from, sumMs_cons.
  unfold updMs. cbn [orDefault]. f_equal; lia.
Qed.

(** ** The fatal condition *)

Section RunProperties.
Context {P : Platform}.

Lemma buildReport_songRecordsUsed {Meta : Type} (records : list RawRecord)
  (meta : Meta) :
  (buildReport records meta).(songRecordsUsed) = countIf isAccepted records.
Proof.
  cbn [songRecordsUsed buildReport]. unfold aggregate.
  destruct (fold_counters records initialState) as (_ & _ & H).
  rewrite H. reflexivity.
Qed.

Lemma handleProcess_cases {Meta : Type} (records : list RawRecord)
  (meta : Meta) :
  handleProcess records meta
  = if countIf isAccepted records =? 0
    then inl (match records with
              | [] => NoStreamingRecords
              | _ :: _ => NoSongRecords
              end)
    else inr (buildReport records meta).
Proof.
  unfold handleProcess. rewrite buildReport_songRecordsUsed.
  destruct records as [| record records]; [reflexivity |].
  cbn [List.length Nat.eqb]. reflexivity.
Qed.


End RunProperties.


(** ** Counters and representatives *)

Lemma standsBefore_snoc {A : Type} (l : list A) (z x y : A) :
  standsBefore (l ++ [z]) x y -> standsBefore l x y \/ (In x l /\ y = z).
Proof.
  intros (a & b & Heq & Hy).
  destruct (exists_last (l := b)) as (b' & w & ->).
  { intros ->. contradiction. }
  rewrite app_comm_cons, app_assoc in Heq.
  apply app_inj_tail in Heq. destruct Heq as [-> ->].
  apply in_app_or in Hy. destruct Hy as [Hy | [-> | []]].
  - left. exists a, b'. split; [reflexivity | exact Hy].
  - right. split; [| reflexivity]. apply in_or_app. right. left. reflexivity.
Qed.

Lemma occurrences_snoc (v w : string) (vs : list string) :
  occurrences v (vs ++ [w]) = occurrences v vs + boolToZ (String.eqb v w).
Proof.
  unfold occurrences, countIf. rewrite filter_app, length_app. cbn [filter].
  destruct (String.eqb v w); cbn [List.length boolToZ]; lia.
Qed.

Lemma occurrences_nonneg (v : string) (vs : list string) : 0 <= occurrences v vs.
Proof. apply countIf_nonneg. Qed.

Lemma occurrences_pos (v : string) (vs : list string) :
  0 < occurrences v vs <-> In v vs.
Proof.
  unfold occurrences, countIf. split.
  - intros Hpos.
    destruct (filter (String.eqb v) vs) as [| x l] eqn:Ef; [simpl in Hpos; lia |].
    assert (Hx : In x (filter (String.eqb v) vs)) by (rewrite Ef; now left).
    apply filter_In in Hx. destruct Hx as [Hx Heq].
    apply String.eqb_eq in Heq. now subst.
  - intros Hin.
    assert (Hf : In v (filter (String.eqb v) vs)).
    { apply filter_In. split; [exact Hin | apply String.eqb_refl]. }
    destruct (filter (String.eqb v) vs); [contradiction | cbn [List.length]; lia].
Qed.

Lemma observedCounter_snoc (vs : list string) (v : string) :
  observedCounter (vs ++ [v]) = incrementCounter (observedCounter vs) v.
Proof. unfold observedCounter. now rewrite fold_left_app. Qed.

(** The counter holds, for each non-empty value observed, how often it was
    observed. *)
Lemma observedCounter_get (vs : list string) (v : string) :
  mapGet (observedCounter vs) v
  = if strTruthy v && (0 <? occurrences v vs)
    then Some (occurrences v vs) else None.
Proof.
  induction vs as [| w vs IH] using rev_ind.
  - cbn. now rewrite andb_false_r.
  - rewrite observedCounter_snoc, occurrences_snoc. unfold incrementCounter.
    pose proof (occurrences_nonneg v vs) as Hnn.
    destruct (strTruthy w) eqn:Ew; cbn [negb].
    + destruct (String.eqb v w) eqn:Evw; cbn [boolToZ].
      * apply String.eqb_eq in Evw. subst w.
        rewrite mapGet_set_same. rewrite IH, Ew. cbn [andb].
        replace (0 <? occurrences v vs + 1) with true
          by (symmetry; apply Z.ltb_lt; lia).
        destruct (0 <? occurrences v vs) eqn:E0; cbn [orDefault]; [reflexivity |].
        apply Z.ltb_ge in E0. f_equal. lia.
      * apply String.eqb_neq in Evw.
        rewrite mapGet_set_other by congruence.
        rewrite IH, Z.add_0_r. reflexivity.
    + rewrite IH. destruct (String.eqb v w) eqn:Evw; cbn [boolToZ].
      * apply String.eqb_eq in Evw. subst w. rewrite Ew. reflexivity.
      * now rewrite Z.add_0_r.
Qed.

Lemma observedCounter_NoDup (vs : list string) :
  NoDup (mapKeys (observedCounter vs)).
Proof.
  induction vs as [| w vs IH] using rev_ind.
  - constructor.
  - rewrite observedCounter_snoc. unfold incrementCounter.
    destruct (negb (strTruthy w)); [exact IH |]. now apply mapSet_NoDup.
Qed.

Lemma observedCounter_key (vs : list string) (v : string) :
  In v (mapKeys (observedCounter vs)) <-> v <> EmptyString /\ In v vs.
Proof.
  pose proof (mapGet_None (observedCounter vs) v) as Hnone.
  rewrite observedCounter_get in Hnone.
  pose proof (occurrences_pos v vs) as Hpos.
  pose proof (strTruthy_true v) as Htrue.
  destruct (strTruthy v); destruct (0 <? occurrences v vs) eqn:E0;
    cbn [andb] in Hnone.
  - apply Z.ltb_lt in E0. split.
    + intros _. split; [now apply Htrue | now apply Hpos].
    + intros _.
      destruct (in_dec string_dec v (mapKeys (observedCounter vs))) as [Hin | Hn];
        [assumption |]. apply Hnone in Hn. discriminate.
  - apply Z.ltb_ge in E0. split.
    + intros Hin. exfalso. revert Hin. now apply Hnone.
    + intros [_ Hin]. apply Hpos in Hin. lia.
  - split.
    + intros Hin. exfalso. revert Hin. now apply Hnone.
    + intros [Hne _]. apply Htrue in Hne. discriminate.
  - split.
    + intros Hin. exfalso. revert Hin. now apply Hnone.
    + intros [Hne _]. apply Htrue in Hne. discriminate.
Qed.

(** The counter lists its keys in the order in which they were first
    observed. *)
Lemma observedCounter_order (vs : list string) (k1 k2 : string) :
  standsBefore (mapKeys (observedCounter vs)) k1 k2 -> seenBefore vs k1 k2.
Proof.
  revert k1 k2. induction vs as [| w vs IH] using rev_ind; intros k1 k2 Hb.
  - destruct Hb as (a & b & Heq & _). destruct a; discriminate.
  - assert (Hext : seenBefore vs k1 k2 -> seenBefore (vs ++ [w]) k1 k2).
    { intros (pre & post & -> & Hn). exists pre, (post ++ [w])%list.
      split; [| exact Hn]. now rewrite <- app_assoc. }
    rewrite observedCounter_snoc in Hb. unfold incrementCounter in Hb.
    destruct (strTruthy w) eqn:Ew; cbn [negb] in Hb; [| auto].
    rewrite mapKeys_set in Hb.
    destruct (mapGet (observedCounter vs) w) eqn:Eg; [auto |].
    apply standsBefore_snoc in Hb. destruct Hb as [Hb | [Hk1 ->]]; [auto |].
    apply mapGet_None in Eg.
    assert (Hw : ~ In w vs).
    { intros Hin. apply Eg. apply observedCounter_key.
      split; [| exact Hin]. now apply strTruthy_true. }
    apply observedCounter_key in Hk1. destruct Hk1 as [_ Hk1].
    apply in_split in Hk1. destruct Hk1 as (pre & post & ->).
    exists pre, (post ++ [w])%list. split.
    + now rewrite <- app_assoc.
    + intros Hin. apply Hw. apply in_or_app. now left.
Qed.

(** The loop of [mostCommonCounterKey]: it ends on the first entry that
    holds the greatest count, or on its initial value when no entry exceeds
    it. *)
Lemma mostCommon_fold (entries : list (string * Z)) (bestKey : string)
  (bestCount : Z) :
  let result :=
    fold_left
      (fun (best : string * Z) (entry : string * Z) =>
         let '(bestKey, bestCount) := best in
         let '(key, count) := entry in
         if count >? bestCount then (key, count) else (bestKey, bestCount))
      entries (bestKey, bestCount) in
  (forall k n, In (k, n) entries -> n <= snd result)
  /\ (result = (bestKey, bestCount)
      \/ (bestCount < snd result
          /\ exists a b, entries = (a ++ result :: b)%list
                         /\ forall k n, In (k, n) a -> n < snd result)).
Proof.
  revert bestKey bestCount.
  induction entries as [| [k n] entries IH]; intros bestKey bestCount.
  - cbn. split; [intros ? ? [] | now left].
  - cbn [fold_left]. cbv zeta.
    destruct (n >? bestCount) eqn:E.
    + apply Z.gtb_lt in E.
      destruct (IH k n) as (Hmax & Hres). cbv zeta in Hmax, Hres.
      set (result := fold_left _ entries (k, n)) in *.
      split.
      * intros k' n' [[= <- <-] | Hin]; [| eauto].
        destruct Hres as [-> | [Hlt _]]; cbn [snd]; lia.
      * right. destruct Hres as [Hres | (Hlt & a & b & Heq & Ha)].
        -- rewrite Hres. cbn [snd]. split; [lia |].
           exists [], entries. split; [reflexivity | intros ? ? []].
        -- split; [lia |]. exists ((k, n) :: a), b. split.
           ++ rewrite Heq. reflexivity.
           ++ intros k' n' [[= <- <-] | Hin]; [lia | eauto].
    + assert (Hle : n <= bestCount).
      { destruct (Z.gtb_spec n bestCount); [discriminate | lia]. }
      destruct (IH bestKey bestCount) as (Hmax & Hres). cbv zeta in Hmax, Hres.
      set (result := fold_left _ entries (bestKey, bestCount)) in *.
      split.
      * intros k' n' [[= <- <-] | Hin]; [| eauto].
        destruct Hres as [-> | [Hlt _]]; cbn [snd]; lia.
      * destruct Hres as [Hres | (Hlt & a & b & Heq & Ha)]; [now left |].
        right. split; [lia |]. exists ((k, n) :: a), b. split.
        -- rewrite Heq. reflexivity.
        -- intros k' n' [[= <- <-] | Hin]; [lia | eauto].
Qed.

(** The representative of the values observed. *)
Lemma mostCommon_isRepresentative (vs : list string) :
  isRepresentative vs (mostCommonCounterKey (observedCounter vs)).
Proof.
  unfold mostCommonCounterKey.
  destruct (mostCommon_fold (observedCounter vs) EmptyString (-1))
    as (Hmax & Hres).
  cbv zeta in Hmax, Hres.
  set (result := fold_left _ (observedCounter vs) (EmptyString, -1)) in *.
  assert (Hentry : forall k n, In (k, n) (observedCounter vs) ->
                     k <> EmptyString /\ In k vs /\ n = occurrences k vs).
  { intros k n Hin.
    assert (Hk : In k (mapKeys (observedCounter vs))).
    { change k with (fst (k, n)). unfold mapKeys. now apply in_map. }
    apply observedCounter_key in Hk. destruct Hk as [Hne Hk].
    apply In_mapGet in Hin; [| apply observedCounter_NoDup].
    rewrite observedCounter_get in Hin.
    destruct (strTruthy k && (0 <? occurrences k vs)); [| discriminate].
    injection Hin as <-. auto. }
  assert (Hkey : forall v, v <> EmptyString -> In v vs ->
                   In (v, occurrences v vs) (observedCounter vs)).
  { intros v Hne Hin. apply mapGet_Some_In. rewrite observedCounter_get.
    apply strTruthy_true in Hne. apply occurrences_pos in Hin.
    apply Z.ltb_lt in Hin. now rewrite Hne, Hin. }
  destruct Hres as [Hres | (Hlt & a & b & Heq & Ha)].
  - left. rewrite Hres in *. cbn [fst snd] in *. split; [| reflexivity].
    intros v Hin.
    destruct (string_dec v EmptyString) as [-> | Hne]; [reflexivity |].
    specialize (Hmax _ _ (Hkey v Hne Hin)).
    apply occurrences_pos in Hin. lia.
  - right. destruct result as [r n]. cbn [fst snd] in *.
    assert (Hr : In (r, n) (observedCounter vs))
      by (rewrite Heq; apply in_or_app; right; now left).
    destruct (Hentry r n Hr) as (Hrne & Hrin & Hn).
    split; [exact Hrne |]. split; [exact Hrin |].
    intros v Hne Hin. pose proof (Hkey v Hne Hin) as Hv.
    split; [rewrite <- Hn; eauto |].
    intros Hocc Hvr. apply observedCounter_order.
    rewrite Heq in Hv. apply in_app_or in Hv.
    destruct Hv as [Hv | [Hv | Hv]].
    + apply Ha in Hv. lia.
    + congruence.
    + exists (map fst a), (map fst b). split.
      * unfold mapKeys. rewrite Heq, map_app. reflexivity.
      * change v with (fst (v, occurrences v vs)). now apply in_map.
Qed.

(** ** Sorting *)

Section SortFacts.
Context {A : Type}.
Variable cmp : A -> A -> Z.

Lemma sortInsert_Permutation (x : A) (l : list A) :
  Permutation (sortInsert cmp x l) (x :: l).
Proof.
  induction l as [| y l IH]; cbn [sortInsert]; [reflexivity |].
  destruct (cmp x y <=? 0); [reflexivity |].
  rewrite IH. apply perm_swap.
Qed.

Lemma sortWith_Permutation (l : list A) : Permutation (sortWith cmp l) l.
Proof.
  induction l as [| x l IH]; cbn [sortWith]; [reflexivity |].
  rewrite sortInsert_Permutation. now constructor.
Qed.

Lemma sortWith_In (l : list A) (x : A) : In x (sortWith cmp l) <-> In x l.
Proof.
  split; apply Permutation_in;
    [apply sortWith_Permutation | symmetry; apply sortWith_Permutation].
Qed.

Lemma sortWith_length (l : list A) :
  List.length (sortWith cmp l) = List.length l.
Proof. apply Permutation_length, sortWith_Permutation. Qed.

(** A list that is in order is left as it is. *)
Lemma sortWith_sorted_id (l : list A) :
  Sorted (notAfter cmp) l -> sortWith cmp l = l.
Proof.
  induction 1 as [| x l Hs IH Hhd]; [reflexivity |].
  cbn [sortWith]. rewrite IH.
  destruct Hhd as [| y l Hxy]; [reflexivity |].
  cbn [sortInsert]. unfold notAfter in Hxy.
  apply Z.leb_le in Hxy. now rewrite Hxy.
Qed.

Hypothesis cmp_consistent : Consistent cmp.

Lemma consistent_refl (a : A) : cmp a a = 0.
Proof.
  pose proof (consistent_sym cmp cmp_consistent a a). lia.
Qed.

Lemma consistent_total (a b : A) : 0 < cmp a b -> cmp b a <= 0.
Proof.
  pose proof (consistent_sym cmp cmp_consistent b a). lia.
Qed.

Lemma consistent_zero (a b : A) : cmp a b <= 0 -> cmp b a <= 0 -> cmp a b = 0.
Proof.
  pose proof (consistent_sym cmp cmp_consistent a b). lia.
Qed.

Lemma consistent_zero_sym (a b : A) : cmp a b = 0 -> cmp b a = 0.
Proof.
  pose proof (consistent_sym cmp cmp_consistent a b).
  pose proof (consistent_sym cmp cmp_consistent b a). lia.
Qed.

Lemma consistent_lt_le (a b c : A) : cmp a b < 0 -> cmp b c <= 0 -> cmp a c < 0.
Proof.
  intros Hab Hbc.
  destruct (Z.lt_ge_cases (cmp a c) 0) as [Hlt | Hge]; [exact Hlt |].
  assert (Hca : cmp c a <= 0).
  { pose proof (consistent_sym cmp cmp_consistent a c). lia. }
  pose proof (consistent_trans cmp cmp_consistent b c a Hbc Hca).
  pose proof (consistent_sym cmp cmp_consistent a b). lia.
Qed.

Lemma consistent_le_lt (a b c : A) : cmp a b <= 0 -> cmp b c < 0 -> cmp a c < 0.
Proof.
  intros Hab Hbc.
  destruct (Z.lt_ge_cases (cmp a c) 0) as [Hlt | Hge]; [exact Hlt |].
  assert (Hca : cmp c a <= 0).
  { pose proof (consistent_sym cmp cmp_consistent a c). lia. }
  pose proof (consistent_trans cmp cmp_consistent c a b Hca Hab).
  pose proof (consistent_sym cmp cmp_consistent b c). lia.
Qed.

Lemma consistent_zero_trans (a b c : A) :
  cmp a b = 0 -> cmp b c = 0 -> cmp a c = 0.
Proof.
  intros Hab Hbc.
  pose proof (consistent_zero_sym a b Hab).
  pose proof (consistent_zero_sym b c Hbc).
  apply consistent_zero.
  - apply (consistent_trans cmp cmp_consistent a b c); lia.
  - apply (consistent_trans cmp cmp_consistent c b a); lia.
Qed.

Lemma sortInsert_Sorted (x : A) (l : list A) :
  Sorted (notAfter cmp) l -> Sorted (notAfter cmp) (sortInsert cmp x l).
Proof.
  induction 1 as [| y l Hs IH Hhd]; cbn [sortInsert].
  - repeat constructor.
  - destruct (cmp x y <=? 0) eqn:E.
    + apply Z.leb_le in E. repeat constructor; assumption.
    + apply Z.leb_gt in E. constructor; [exact IH |].
      destruct Hhd as [| z l Hyz]; cbn [sortInsert].
      * constructor. now apply consistent_total.
      * destruct (cmp x z <=? 0); constructor;
          [now apply consistent_total | exact Hyz].
Qed.

Lemma sortWith_Sorted (l : list A) : Sorted (notAfter cmp) (sortWith cmp l).
Proof.
  induction l as [| x l IH]; cbn [sortWith]; [constructor |].
  now apply sortInsert_Sorted.
Qed.

Lemma sortWith_StronglySorted (l : list A) :
  StronglySorted (notAfter cmp) (sortWith cmp l).
Proof.
  apply Sorted_StronglySorted; [| apply sortWith_Sorted].
  intros a b c. apply (consistent_trans cmp cmp_consistent).
Qed.

(** Two lists in order with the same elements are the same list, when the
    comparator ties no two different elements. *)
Lemma StronglySorted_unique (l l' : list A) :
  (forall a b, In a l -> In b l -> cmp a b = 0 -> a = b) ->
  StronglySorted (notAfter cmp) l -> StronglySorted (notAfter cmp) l' ->
  Permutation l l' -> l = l'.
Proof.
  revert l'. induction l as [| x l IH]; intros l' Hanti Hs Hs' Hp.
  - apply Permutation_nil in Hp. now subst.
  - destruct l' as [| y l'].
    { symmetry in Hp. apply Permutation_nil in Hp. discriminate. }
    assert (Hxy : x = y).
    { inversion Hs as [| ? ? _ Hx]; subst. inversion Hs' as [| ? ? _ Hy]; subst.
      rewrite Forall_forall in Hx, Hy.
      assert (Hyin : In y (x :: l))
        by (apply Permutation_in with (y :: l'); [now symmetry | now left]).
      assert (Hxin : In x (y :: l'))
        by (apply Permutation_in with (x :: l); [exact Hp | now left]).
      destruct Hyin as [-> | Hyin]; [reflexivity |].
      destruct Hxin as [-> | Hxin]; [reflexivity |].
      apply Hanti; [now left | now right |].
      apply consistent_zero; [apply Hx | apply Hy]; assumption. }
    subst y. f_equal. apply IH.
    + intros a b Ha Hb. apply Hanti; now right.
    + now inversion Hs.
    + now inversion Hs'.
    + now apply Permutation_cons_inv in Hp.
Qed.

Lemma sortWith_unique (l l' : list A) :
  (forall a b, In a l -> In b l -> cmp a b = 0 -> a = b) ->
  Permutation l l' -> sortWith cmp l = sortWith cmp l'.
Proof.
  intros Hanti Hp. apply StronglySorted_unique.
  - intros a b Ha Hb. apply Hanti; now apply sortWith_In.
  - apply sortWith_StronglySorted.
  - apply sortWith_StronglySorted.
  - rewrite !sortWith_Permutation. exact Hp.
Qed.

End SortFacts.

(** Sorting commutes with a map the comparator does not see through. *)
Lemma sortWith_map {A B : Type} (f : A -> B) (cmp : A -> A -> Z)
  (cmp' : B -> B -> Z) (l : list A) :
  (forall a b, cmp' (f a) (f b) = cmp a b) ->
  map f (sortWith cmp l) = sortWith cmp' (map f l).
Proof.
  intros Hf.
  assert (Hins : forall x s, map f (sortInsert cmp x s)
                             = sortInsert cmp' (f x) (map f s)).
  { intros x s. induction s as [| y s IH]; cbn [sortInsert map]; [reflexivity |].
    rewrite Hf. destruct (cmp x y <=? 0); cbn [map]; [reflexivity |].
    now rewrite IH. }
  induction l as [| x l IH]; cbn [sortWith map]; [reflexivity |].
  now rewrite Hins, IH.
Qed.

(** *** Building consistent comparators *)

Lemma Consistent_descending {A : Type} (f : A -> Z) :
  Consistent (fun a b => f b - f a).
Proof. split; intros; lia. Qed.

Lemma Consistent_ascending {A : Type} (f : A -> Z) :
  Consistent (fun a b => f a - f b).
Proof. split; intros; lia. Qed.

Lemma Consistent_on {A B : Type} (f : A -> B) (cmp : B -> B -> Z) :
  Consistent cmp -> Consistent (fun a b => cmp (f a) (f b)).
Proof.
  intros [Hsym Htrans]. split.
  - intros a b. apply Hsym.
  - intros a b c. apply Htrans.
Qed.

Lemma orElse_zero (x y : Z) : orElse x y = 0 <-> x = 0 /\ y = 0.
Proof.
  unfold orElse. destruct (x =? 0) eqn:E;
    [apply Z.eqb_eq in E | apply Z.eqb_neq in E]; lia.
Qed.

Lemma orElse_lt (x y : Z) : orElse x y < 0 <-> x < 0 \/ (x = 0 /\ y < 0).
Proof.
  unfold orElse. destruct (x =? 0) eqn:E;
    [apply Z.eqb_eq in E | apply Z.eqb_neq in E]; lia.
Qed.

Lemma orElse_gt (x y : Z) : 0 < orElse x y <-> 0 < x \/ (x = 0 /\ 0 < y).
Proof.
  unfold orElse. destruct (x =? 0) eqn:E;
    [apply Z.eqb_eq in E | apply Z.eqb_neq in E]; lia.
Qed.

Lemma orElse_le (x y : Z) : orElse x y <= 0 <-> x < 0 \/ (x = 0 /\ y <= 0).
Proof.
  unfold orElse. destruct (x =? 0) eqn:E;
    [apply Z.eqb_eq in E | apply Z.eqb_neq in E]; lia.
Qed.

Lemma Consistent_orElse {A : Type} (c1 c2 : A -> A -> Z) :
  Consistent c1 -> Consistent c2 ->
  Consistent (fun a b => orElse (c1 a b) (c2 a b)).
Proof.
  intros H1 H2. split.
  - intros a b. rewrite orElse_lt, orElse_gt.
    rewrite (consistent_sym c1 H1 a b), (consistent_sym c2 H2 a b).
    assert (Hz : c1 a b = 0 <-> c1 b a = 0)
      by (split; apply (consistent_zero_sym c1 H1)).
    rewrite Hz. reflexivity.
  - intros a b c. rewrite !orElse_le.
    intros [Hab | [Hab Kab]] [Hbc | [Hbc Kbc]].
    + left. apply (consistent_lt_le c1 H1 a b c); lia.
    + left. apply (consistent_lt_le c1 H1 a b c); lia.
    + left. apply (consistent_le_lt c1 H1 a b c); lia.
    + right. split.
      * now apply (consistent_zero_trans c1 H1 a b c).
      * now apply (consistent_trans c2 H2 a b c).
Qed.

Lemma codeUnitCompare_Consistent : Consistent codeUnitCompare.
Proof.
  split; [apply codeUnitCompare_sym | apply codeUnitCompare_trans].
Qed.

(** ** The song table and the Top-10 by play count *)

Lemma In_firstn {A : Type} (n : nat) (l : list A) (x : A) :
  In x (firstn n l) -> In x l.
Proof.
  intros Hin. rewrite <- (firstn_skipn n l). apply in_or_app. now left.
Qed.

Lemma StronglySorted_firstn {A : Type} (R : A -> A -> Prop) (n : nat)
  (l : list A) :
  StronglySorted R l -> StronglySorted R (firstn n l).
Proof.
  revert n. induction l as [| x l IH]; intros n Hs.
  - rewrite firstn_nil. constructor.
  - destruct n as [| n]; cbn [firstn]; [constructor |].
    inversion Hs as [| ? ? Hs' Hall]; subst. constructor; [now apply IH |].
    rewrite Forall_forall in *. intros y Hy. apply Hall.
    eapply In_firstn; eassumption.
Qed.

Lemma StronglySorted_iff {A : Type} (R R' : A -> A -> Prop) (l : list A) :
  (forall a b, R a b -> R' a b) -> StronglySorted R l -> StronglySorted R' l.
Proof.
  intros Himp. induction 1 as [| x l Hs IH Hall]; constructor; [exact IH |].
  rewrite Forall_forall in *. auto.
Qed.

Section RankingProperties.
Context {P : Platform}.

Lemma compareSongsByPlayCount_order (a b : SongRow) :
  compareSongsByPlayCount a b <= 0 <-> byPlayCountOrder a b.
Proof.
  unfold compareSongsByPlayCount, byPlayCountOrder.
  rewrite !orElse_le. lia.
Qed.

Hypothesis collation : Consistent localeCompare.

Lemma compareSongsByPlayCount_Consistent : Consistent compareSongsByPlayCount.
Proof.
  unfold compareSongsByPlayCount.
  apply (Consistent_orElse (fun a b : SongRow => b.(playCount) - a.(playCount))).
  { apply (Consistent_descending playCount). }
  apply (Consistent_orElse (fun a b : SongRow => b.(totalMs) - a.(totalMs))).
  { apply (Consistent_descending totalMs). }
  apply (Consistent_orElse (fun a b : SongRow => b.(skipCount) - a.(skipCount))).
  { apply (Consistent_descending skipCount). }
  apply (Consistent_orElse
           (fun a b : SongRow => localeCompare a.(artist) b.(artist))
           (fun a b : SongRow => localeCompare a.(song) b.(song))).
  - apply (Consistent_on artist localeCompare collation).
  - apply (Consistent_on song localeCompare collation).
Qed.

(** C6. The song table is in the order of the comparator chain: play
    count descending, then total time descending, then skip count
    descending, then artist ascending, then song ascending, each row
    standing in this order before every later row.  The Top-10 by play
    count is the first ten rows of the song table (all of them when there
    are fewer), so it has at most ten rows and is in the same order. *)
Theorem songRows_ranked :
  forall (Meta : Type) (records : list RawRecord) (meta : Meta),
    let report := buildReport records meta in
    StronglySorted byPlayCountOrder report.(songRows)
    /\ report.(top10ByPlayCount) = firstn 10 report.(songRows)
    /\ (List.length report.(top10ByPlayCount) <= 10)%nat
    /\ (exists rest,
           report.(songRows) = (report.(top10ByPlayCount) ++ rest)%list)
    /\ StronglySorted byPlayCountOrder report.(top10ByPlayCount).
Proof.
  intros Meta records meta report. subst report.
  cbn [songRows top10ByPlayCount buildReport].
  set (rows := sortWith compareSongsByPlayCount
                 (map songRowOf (mapValues (st_songMap (aggregate records))))).
  assert (Hsorted : StronglySorted byPlayCountOrder rows).
  { apply StronglySorted_iff with (R := notAfter compareSongsByPlayCount).
    - intros a b. apply compareSongsByPlayCount_order.
    - apply sortWith_StronglySorted, compareSongsByPlayCount_Consistent. }
  assert (Htop : sliceFirst 10 (sortWith compareSongsByPlayCount rows)
                 = firstn 10 rows).
  { unfold sliceFirst. f_equal. apply sortWith_sorted_id.
    apply sortWith_Sorted, compareSongsByPlayCount_Consistent. }
  rewrite Htop.
  split; [exact Hsorted |].
  split; [reflexivity |].
  split; [apply firstn_le_length |].
  split; [exists (skipn 10 rows); symmetry; apply firstn_skipn |].
  now apply StronglySorted_firstn.
Qed.

End RankingProperties.

Lemma songRows_ranked_witness :
  let records :=
    [songRecord "Song B" "Artist A" "" "" "2023-05-01T10:00:00Z" 1000 false;
     songRecord "Song A" "Artist A" "" "" "2023-05-02T10:00:00Z" 1000 false;
     songRecord "Song C" "Artist B" "" "" "2023-05-03T10:00:00Z" 500 true;
     songRecord "Song C" "Artist B" "" "" "2023-05-04T10:00:00Z" 500 false] in
  let report := @buildReport strictPlatform unit records tt in
  map rowSummary report.(songRows)
  = [("Song C", "Artist B", 2, 1000); ("Song A", "Artist A", 1, 1000);
     ("Song B", "Artist A", 1, 1000)]
  /\ StronglySorted (@byPlayCountOrder strictPlatform) report.(songRows)
  /\ report.(top10ByPlayCount) = firstn 10 report.(songRows).
Proof.
  intros records report. split; [vm_compute; reflexivity |].
  pose proof (@songRows_ranked strictPlatform codeUnitCompare_Consistent
                unit records tt) as (H1 & H2 & _).
  split; [exact H1 | exact H2].
Defined.

(** ** Representative album and URI of a song *)

Section RepresentativeProperties.
Context {P : Platform}.

(** An entry of the song map aggregates the events that share its key. *)
Lemma songMap_entry (records : list RawRecord) (entry : SongEntry) :
  In entry (mapValues (aggregate records).(st_songMap)) ->
  exists e es,
    withSongKey (makeSongKey entry.(se_song) entry.(se_artist))
                (eventsOf records) = e :: es
    /\ entry = {| se_song := e.(ev_song);
                  se_artist := e.(ev_artist);
                  se_playCount := playsOf (e :: es);
                  se_skipCount := skipsOf (e :: es);
                  se_totalMs := sumMs (e :: es);
                  se_albumCounter := observedCounter (map ev_album (e :: es));
                  se_uriCounter := observedCounter (map ev_uri (e :: es)) |}.
Proof.
  rewrite aggregate_songMap. intros Hin.
  unfold mapValues in Hin. apply in_map_iff in Hin.
  destruct Hin as ([k entry'] & Heq & Hin). cbn [snd] in Heq. subst entry'.
  apply In_mapGet in Hin; [| apply groupBy_NoDup].
  rewrite groupBy_get in Hin.
  destruct (filter (fun e => keyb (ev_songKey e) k) (eventsOf records))
    as [| e es] eqn:Ef; [discriminate |].
  rewrite accumulate_updSong in Hin. injection Hin as Hentry.
  assert (Hk : k = ev_songKey e).
  { assert (He : In e (filter (fun e => keyb (ev_songKey e) k) (eventsOf records)))
      by (rewrite Ef; now left).
    apply filter_In in He. destruct He as [_ He]. apply keyb_eq in He.
    now symmetry. }
  exists e, es. split; [| now symmetry].
  rewrite <- Hentry. cbn [se_song se_artist].
  unfold withSongKey. fold (ev_songKey e). now rewrite <- Hk.
Qed.

(** C8. The album and the track URI a song row reports are the
    representatives of the albums and of the URIs of the events
    aggregated in the row: the most frequent non-empty value, and among
    the values observed equally often the one observed first (the empty
    string when no non-empty value was observed).  The counter keeps its
    keys in the order in which they were first observed, which is the
    order its loop visits them in. *)
Theorem representative_album_uri :
  (forall vs : list string,
      isRepresentative vs (mostCommonCounterKey (observedCounter vs)))
  /\ (forall (vs : list string) (k1 k2 : string),
         standsBefore (mapKeys (observedCounter vs)) k1 k2 ->
         seenBefore vs k1 k2)
  /\ (forall (Meta : Type) (records : list RawRecord) (meta : Meta)
             (row : SongRow),
         In row (buildReport records meta).(songRows) ->
         let es := withSongKey (makeSongKey row.(song) row.(artist))
                               (eventsOf records) in
         es <> []
         /\ row.(playCount) = playsOf es
         /\ isRepresentative (map ev_album es) row.(album)
         /\ isRepresentative (map ev_uri es) row.(uri)).
Proof.
  split; [apply mostCommon_isRepresentative |].
  split; [apply observedCounter_order |].
  intros Meta records meta row Hin es.
  cbn [songRows buildReport] in Hin.
  apply sortWith_In in Hin. apply in_map_iff in Hin.
  destruct Hin as (entry & <- & Hentry).
  apply songMap_entry in Hentry. destruct Hentry as (e & rest & Hes & Hentry).
  subst es. cbn [song artist songRowOf]. rewrite Hes.
  split; [discriminate |].
  rewrite Hentry. cbn [songRowOf playCount album uri se_playCount
                       se_albumCounter se_uriCounter].
  split; [reflexivity |].
  split; apply mostCommon_isRepresentative.
Qed.

End RepresentativeProperties.

Lemma representative_album_uri_witness :
  let records :=
    [songRecord "Song X" "Artist A" "Album 2" "" "2023-05-01T10:00:00Z" 1000 false;
     songRecord "Song X" "Artist A" "Album 1" "" "2023-05-02T10:00:00Z" 1000 false;
     songRecord "Song X" "Artist A" "Album 1" "" "2023-05-03T10:00:00Z" 500 true;
     songRecord "Song X" "Artist A" "Album 2" "" "2023-05-04T10:00:00Z" 500 false] in
  map album (@buildReport strictPlatform unit records tt).(songRows) = ["Album 2"]
  /\ isRepresentative ["Album 2"; "Album 1"; "Album 1"; "Album 2"] "Album 2".
Proof.
  intros records. split; [vm_compute; reflexivity |].
  exact (proj1 (@representative_album_uri strictPlatform)
           ["Album 2"; "Album 1"; "Album 1"; "Album 2"]).
Defined.

(** ** Independence of the input order *)

Lemma filter_Permutation {A : Type} (keep : A -> bool) (xs ys : list A) :
  Permutation xs ys -> Permutation (filter keep xs) (filter keep ys).
Proof.
  intros Hp.
  induction Hp as [| x xs ys Hp IH | x y xs | xs ys zs Hp IH Hp' IH'];
    cbn [filter].
  - constructor.
  - destruct (keep x); [now constructor | exact IH].
  - destruct (keep x), (keep y); try reflexivity. apply perm_swap.
  - now transitivity (filter keep ys).
Qed.

Lemma countIf_Permutation {A : Type} (f : A -> bool) (l l' : list A) :
  Permutation l l' -> countIf f l = countIf f l'.
Proof.
  intros Hp. unfold countIf. f_equal.
  apply Permutation_length. now apply filter_Permutation.
Qed.

Lemma sumMs_Permutation (es es' : list Event) :
  Permutation es es' -> sumMs es = sumMs es'.
Proof.
  induction 1 as [| x l l' Hp IH | x y l | l l' l'' Hp IH Hp' IH'].
  - reflexivity.
  - rewrite !sumMs_cons. lia.
  - rewrite !sumMs_cons. lia.
  - lia.
Qed.

Lemma playsOf_Permutation (es es' : list Event) :
  Permutation es es' -> playsOf es = playsOf es'.
Proof. intros Hp. unfold playsOf. f_equal. now apply Permutation_length. Qed.

Lemma skipsOf_Permutation (es es' : list Event) :
  Permutation es es' -> skipsOf es = skipsOf es'.
Proof. apply countIf_Permutation. Qed.

Lemma erase_songRowOf (entry : SongEntry) :
  eraseRepresentatives (songRowOf entry) = rowOfCore (songCore entry).
Proof. reflexivity. Qed.

(** Two maps with the same lookups list the same entries once sorted by a
    comparator of their keys that ties no two different keys. *)
Lemma sorted_entries_unique {K V : Type} `{EqKey K} (keycmp : K -> K -> Z)
  (m m' : JsMap K V) :
  Consistent keycmp ->
  (forall a b, In a (mapKeys m) -> In b (mapKeys m) -> keycmp a b = 0 -> a = b) ->
  NoDup (mapKeys m) -> NoDup (mapKeys m') ->
  (forall k, mapGet m k = mapGet m' k) ->
  sortWith (fun a b => keycmp (fst a) (fst b)) m
  = sortWith (fun a b => keycmp (fst a) (fst b)) m'.
Proof.
  intros Hc Hanti Hnd Hnd' Hget.
  apply sortWith_unique.
  - apply (Consistent_on fst keycmp Hc).
  - intros [ka va] [kb vb] Ha Hb Hz. cbn [fst] in Hz.
    apply Hanti in Hz;
      [| change ka with (fst (ka, va)); unfold mapKeys; now apply in_map
       | change kb with (fst (kb, vb)); unfold mapKeys; now apply in_map].
    subst kb.
    apply In_mapGet in Ha, Hb; try assumption. congruence.
  - now apply maps_Permutation.
Qed.

Lemma sorted_keys_unique {K V W : Type} `{EqKey K} (keycmp : K -> K -> Z)
  (m : JsMap K V) (m' : JsMap K W) :
  Consistent keycmp ->
  (forall a b, In a (mapKeys m) -> In b (mapKeys m) -> keycmp a b = 0 -> a = b) ->
  NoDup (mapKeys m) -> NoDup (mapKeys m') ->
  (forall k, In k (mapKeys m) <-> In k (mapKeys m')) ->
  sortWith keycmp (mapKeys m) = sortWith keycmp (mapKeys m').
Proof.
  intros Hc Hanti Hnd Hnd' Hin.
  apply sortWith_unique; [exact Hc | exact Hanti |].
  now apply NoDup_Permutation.
Qed.

Lemma Consistent_ext {A : Type} (c c' : A -> A -> Z) :
  (forall a b, c a b = c' a b) -> Consistent c -> Consistent c'.
Proof.
  intros Hext [Hsym Htrans]. split.
  - intros a b. rewrite <- !Hext. apply Hsym.
  - intros a b x. rewrite <- !Hext. apply Htrans.
Qed.

Lemma fold_totalMs_erase (rows : list SongRow) (start : Z) :
  fold_left (fun sum row => sum + row.(totalMs)) (map eraseRepresentatives rows) start
  = fold_left (fun sum row => sum + row.(totalMs)) rows start.
Proof.
  revert start. induction rows as [| row rows IH]; intros start; [reflexivity |].
  cbn [map fold_left]. rewrite IH. reflexivity.
Qed.

Lemma makeSongKey_has_separator (title performer : string) :
  0 <= indexOf KEY_SEP (makeSongKey title performer).
Proof.
  unfold makeSongKey.
  destruct (Z.lt_ge_cases (indexOf KEY_SEP title) 0) as [Hlt | Hge].
  - rewrite indexOf_sep_absent by exact Hlt. lia.
  - destruct (indexOf_sep_present title (KEY_SEP ++ performer) Hge) as (-> & _).
    exact Hge.
Qed.

(** A key that holds the separator is made of the two parts it splits
    into. *)
Lemma splitSongKey_parts (k : string) :
  0 <= indexOf KEY_SEP k ->
  k = fst (splitSongKey k) ++ KEY_SEP ++ snd (splitSongKey k).
Proof.
  intros Hk.
  destruct (indexOf_sep_present k EmptyString Hk) as (_ & Hlt & Heq).
  unfold splitSongKey.
  destruct (indexOf KEY_SEP k <? 0) eqn:E; [apply Z.ltb_lt in E; lia |].
  cbn [fst snd]. rewrite slice_prefix, sliceFrom_suffix by lia. exact Heq.
Qed.

Lemma splitSongKey_injective (k1 k2 : string) :
  0 <= indexOf KEY_SEP k1 -> 0 <= indexOf KEY_SEP k2 ->
  splitSongKey k1 = splitSongKey k2 -> k1 = k2.
Proof.
  intros H1 H2 Heq.
  rewrite (splitSongKey_parts k1 H1), (splitSongKey_parts k2 H2), Heq.
  reflexivity.
Qed.

Lemma Permutation_nonempty {A : Type} (x : A) (l l' : list A) :
  Permutation (x :: l) l' -> exists y l'', l' = y :: l''.
Proof.
  intros Hp. destruct l' as [| y l''].
  - apply Permutation_sym, Permutation_nil in Hp. discriminate.
  - eauto.
Qed.

Lemma accumulate_updMs_Permutation (es es' : list Event) :
  Permutation es es' -> accumulate updMs es None = accumulate updMs es' None.
Proof.
  intros Hp. destruct es as [| e es].
  - apply Permutation_nil in Hp. now subst.
  - destruct (Permutation_nonempty _ _ _ Hp) as (e' & es'' & ->).
    rewrite !accumulate_updMs. f_equal. now apply sumMs_Permutation.
Qed.

Lemma accumulate_updMonthSong_Permutation (es es' : list Event) :
  Permutation es es' ->
  accumulate updMonthSong es None = accumulate updMonthSong es' None.
Proof.
  intros Hp. destruct es as [| e es].
  - apply Permutation_nil in Hp. now subst.
  - destruct (Permutation_nonempty _ _ _ Hp) as (e' & es'' & ->).
    rewrite !accumulate_updMonthSong.
    now rewrite (playsOf_Permutation _ _ Hp), (sumMs_Permutation _ _ Hp).
Qed.

Lemma accumulate_updArtist_Permutation (a : string) (es es' : list Event) :
  Permutation es es' ->
  accumulate updArtist (withArtist a es) None
  = accumulate updArtist (withArtist a es') None.
Proof.
  intros Hp. apply (filter_Permutation (fun e => keyb e.(ev_artist) a)) in Hp.
  fold (withArtist a es) in Hp. fold (withArtist a es') in Hp.
  destruct (withArtist a es) as [| e l] eqn:El.
  - apply Permutation_nil in Hp. now rewrite Hp.
  - destruct (Permutation_nonempty _ _ _ Hp) as (e' & l' & El').
    rewrite El' in *. rewrite !accumulate_updArtist.
    assert (He : e.(ev_artist) = a).
    { assert (Hin : In e (withArtist a es)) by (rewrite El; now left).
      apply filter_In in Hin. destruct Hin as [_ Hin]. now apply keyb_eq in Hin. }
    assert (He' : e'.(ev_artist) = a).
    { assert (Hin : In e' (withArtist a es')) by (rewrite El'; now left).
      apply filter_In in Hin. destruct Hin as [_ Hin]. now apply keyb_eq in Hin. }
    rewrite He, He'.
    now rewrite (playsOf_Permutation _ _ Hp), (skipsOf_Permutation _ _ Hp),
      (sumMs_Permutation _ _ Hp).
Qed.

(** The map a month accumulates is the grouping of its events by song. *)
Lemma accumulate_updMonthSongs_from (es : list Event)
  (m : JsMap string MonthSongEntry) :
  accumulate updMonthSongs es (Some m)
  = Some (fold_left (groupStep ev_songKey updMonthSong) es m).
Proof.
  revert m. induction es as [| e es IH]; intros m; [reflexivity |].
  unfold accumulate in *. cbn [fold_left]. now rewrite IH.
Qed.

Lemma accumulate_updMonthSongs (es : list Event) :
  accumulate updMonthSongs es None
  = match es with
    | [] => None
    | _ :: _ => Some (groupBy ev_songKey updMonthSong es)
    end.
Proof.
  destruct es as [| e es]; [reflexivity |].
  change (accumulate updMonthSongs (e :: es) None)
    with (accumulate updMonthSongs es (Some (updMonthSongs None e))).
  now rewrite accumulate_updMonthSongs_from.
Qed.

Lemma songCore_Permutation (k : string) (es es' : list Event) :
  Permutation es es' -> keysDistinguish es ->
  option_map songCore (accumulate updSong (withSongKey k es) None)
  = option_map songCore (accumulate updSong (withSongKey k es') None).
Proof.
  intros Hp Hkeys.
  pose proof (filter_Permutation (fun e => keyb (ev_songKey e) k) _ _ Hp) as Hf.
  fold (withSongKey k es) in Hf. fold (withSongKey k es') in Hf.
  destruct (withSongKey k es) as [| e l] eqn:El.
  - apply Permutation_nil in Hf. now rewrite Hf.
  - destruct (Permutation_nonempty _ _ _ Hf) as (e' & l' & El').
    rewrite El' in *. rewrite !accumulate_updSong.
    cbn [option_map songCore se_song se_artist se_playCount se_skipCount
         se_totalMs].
    assert (He : In e es /\ ev_songKey e = k).
    { assert (Hin : In e (withSongKey k es)) by (rewrite El; now left).
      apply filter_In in Hin. destruct Hin as [Hin Hk].
      apply keyb_eq in Hk. now split. }
    assert (He' : In e' es /\ ev_songKey e' = k).
    { assert (Hin : In e' (withSongKey k es')) by (rewrite El'; now left).
      apply filter_In in Hin. destruct Hin as [Hin Hk]. apply keyb_eq in Hk.
      split; [| exact Hk]. apply Permutation_in with es'; [now symmetry | exact Hin]. }
    destruct He as [Hin Hk], He' as [Hin' Hk'].
    destruct (Hkeys e e' Hin Hin') as [Hs Ha]; [congruence |].
    rewrite Hs, Ha.
    now rewrite (playsOf_Permutation _ _ Hf), (skipsOf_Permutation _ _ Hf),
      (sumMs_Permutation _ _ Hf).
Qed.

Section OrderIndependence.
Context {P : Platform}.
Hypothesis collation : Consistent localeCompare.

Variables es es' : list Event.
Hypothesis events_Permutation : Permutation es es'.
Hypothesis names_separated : namesSeparated es.

Lemma events_In (e : Event) : In e es <-> In e es'.
Proof.
  split; apply Permutation_in; [exact events_Permutation | now symmetry].
Qed.

Lemma group_keys_In {K V : Type} `{EqKey K} (key : Event -> K)
  (upd : option V -> Event -> V) (k : K) :
  In k (mapKeys (groupBy key upd es)) <-> In k (mapKeys (groupBy key upd es')).
Proof.
  rewrite !groupBy_keys. split; intros (e & He & Hk); exists e;
    (split; [now apply events_In | exact Hk]).
Qed.

(** *** The song table *)

Lemma compareSongsByPlayCount_erase (a b : SongRow) :
  compareSongsByPlayCount (eraseRepresentatives a) (eraseRepresentatives b)
  = compareSongsByPlayCount a b.
Proof. reflexivity. Qed.

Lemma songCore_names (core : string * string * Z * Z * Z) :
  In core (map songCore (mapValues (groupBy ev_songKey updSong es))) ->
  In (fst (fst (fst (fst core)))) (map ev_song es)
  /\ In (snd (fst (fst (fst core)))) (map ev_artist es).
Proof.
  intros Hin. apply in_map_iff in Hin. destruct Hin as (entry & <- & Hin).
  unfold mapValues in Hin. apply in_map_iff in Hin.
  destruct Hin as ([k entry'] & Heq & Hin). cbn [snd] in Heq. subst entry'.
  apply In_mapGet in Hin; [| apply groupBy_NoDup].
  rewrite groupBy_get in Hin.
  destruct (filter (fun e => keyb (ev_songKey e) k) es) as [| e f] eqn:Ef;
    [discriminate |].
  rewrite accumulate_updSong in Hin. injection Hin as <-.
  assert (He : In e es).
  { assert (Hin : In e (filter (fun e => keyb (ev_songKey e) k) es))
      by (rewrite Ef; now left).
    now apply filter_In in Hin. }
  cbn [songCore se_song se_artist fst snd]. split; now apply in_map.
Qed.

Lemma compareSongsByPlayCount_cores (ca cb : string * string * Z * Z * Z) :
  In ca (map songCore (mapValues (groupBy ev_songKey updSong es))) ->
  In cb (map songCore (mapValues (groupBy ev_songKey updSong es))) ->
  compareSongsByPlayCount (rowOfCore ca) (rowOfCore cb) = 0 -> ca = cb.
Proof.
  intros Hca Hcb.
  destruct (songCore_names ca Hca) as [Hsa Haa].
  destruct (songCore_names cb Hcb) as [Hsb Hab].
  destruct names_separated as (Hsongs & Hartists & _).
  destruct ca as [[[[sa aa] pa] ka] ta], cb as [[[[sb ab] pb] kb] tb].
  cbn [fst snd] in Hsa, Haa, Hsb, Hab.
  unfold compareSongsByPlayCount.
  cbn [rowOfCore playCount totalMs skipCount artist song].
  rewrite !orElse_zero. intros (Hp & Ht & Hk & Ha & Hs).
  apply (Hartists aa ab Haa Hab) in Ha. apply (Hsongs sa sb Hsa Hsb) in Hs.
  subst. repeat f_equal; lia.
Qed.

Lemma erased_songRows_equal :
  keysDistinguish es ->
  map eraseRepresentatives
      (sortWith compareSongsByPlayCount
         (map songRowOf (mapValues (groupBy ev_songKey updSong es))))
  = map eraseRepresentatives
        (sortWith compareSongsByPlayCount
           (map songRowOf (mapValues (groupBy ev_songKey updSong es')))).
Proof.
  intros Hkeys.
  rewrite !(sortWith_map eraseRepresentatives compareSongsByPlayCount
              compareSongsByPlayCount)
    by apply compareSongsByPlayCount_erase.
  rewrite !map_map.
  rewrite !(map_ext (fun x => eraseRepresentatives (songRowOf x))
              (fun x => rowOfCore (songCore x)))
    by (intros; apply erase_songRowOf).
  rewrite <- !(map_map songCore rowOfCore).
  apply sortWith_unique.
  - now apply compareSongsByPlayCount_Consistent.
  - intros a b Ha Hb. apply in_map_iff in Ha, Hb.
    destruct Ha as (ca & <- & Hca), Hb as (cb & <- & Hcb).
    intros Hz. f_equal. now apply compareSongsByPlayCount_cores.
  - apply Permutation_map. apply mapValues_Permutation.
    + apply groupBy_NoDup.
    + apply groupBy_NoDup.
    + intros k. rewrite !groupBy_get.
      now apply songCore_Permutation.
Qed.

(** *** The artists *)

Lemma artistMap_get (k : string) :
  mapGet (groupBy ev_artist updArtist es) k
  = mapGet (groupBy ev_artist updArtist es') k.
Proof.
  rewrite !groupBy_get.
  now apply (accumulate_updArtist_Permutation k).
Qed.

Lemma artistMap_entry (l : list Event) (k : string) (entry : ArtistEntry) :
  In (k, entry) (groupBy ev_artist updArtist l) -> entry.(ae_artist) = k.
Proof.
  intros Hin. apply In_mapGet in Hin; [| apply groupBy_NoDup].
  rewrite groupBy_get in Hin.
  destruct (filter (fun e => keyb (ev_artist e) k) l) as [| e f] eqn:Ef;
    [discriminate |].
  rewrite accumulate_updArtist in Hin. injection Hin as <-.
  cbn [ae_artist].
  assert (He : In e (filter (fun e => keyb (ev_artist e) k) l))
    by (rewrite Ef; now left).
  apply filter_In in He. destruct He as [_ He]. now apply keyb_eq in He.
Qed.

Lemma compareArtistsByTime_Consistent : Consistent compareArtistsByTime.
Proof.
  unfold compareArtistsByTime.
  apply (Consistent_orElse (fun a b : ArtistRow => b.(ar_totalMs) - a.(ar_totalMs))).
  { apply (Consistent_descending ar_totalMs). }
  apply (Consistent_orElse
           (fun a b : ArtistRow => b.(ar_playCount) - a.(ar_playCount))
           (fun a b : ArtistRow => localeCompare a.(ar_artist) b.(ar_artist))).
  - apply (Consistent_descending ar_playCount).
  - apply (Consistent_on ar_artist localeCompare collation).
Qed.

Lemma artistRows_equal :
  sortWith compareArtistsByTime
    (map artistRowOf (mapValues (groupBy ev_artist updArtist es)))
  = sortWith compareArtistsByTime
      (map artistRowOf (mapValues (groupBy ev_artist updArtist es'))).
Proof.
  apply sortWith_unique.
  - apply compareArtistsByTime_Consistent.
  - intros a b Ha Hb Hz. apply in_map_iff in Ha, Hb.
    destruct Ha as (ea & <- & Ha), Hb as (eb & <- & Hb).
    unfold mapValues in Ha, Hb. apply in_map_iff in Ha, Hb.
    destruct Ha as ([ka ea'] & Hea & Ha), Hb as ([kb eb'] & Heb & Hb).
    cbn [snd] in Hea, Heb. subst ea' eb'.
    unfold compareArtistsByTime in Hz. rewrite !orElse_zero in Hz.
    destruct Hz as (_ & _ & Hz).
    cbn [artistRowOf ar_artist] in Hz.
    rewrite (artistMap_entry _ _ _ Ha), (artistMap_entry _ _ _ Hb) in Hz.
    assert (Hkeys : forall k v, In (k, v) (groupBy ev_artist updArtist es) ->
                      In k (map ev_artist es)).
    { intros k v Hin.
      assert (Hk : In k (mapKeys (groupBy ev_artist updArtist es))).
      { change k with (fst (k, v)). unfold mapKeys. now apply in_map. }
      apply groupBy_keys in Hk. destruct Hk as (e & He & <-). now apply in_map. }
    destruct names_separated as (_ & Hartists & _).
    apply (Hartists ka kb (Hkeys _ _ Ha) (Hkeys _ _ Hb)) in Hz.
    subst kb. f_equal.
    apply In_mapGet in Ha, Hb; try apply groupBy_NoDup. congruence.
  - apply Permutation_map. unfold mapValues. apply Permutation_map.
    apply maps_Permutation; try apply groupBy_NoDup.
    apply artistMap_get.
Qed.

(** *** The time series *)

Lemma monthlyMs_get (k : string) :
  mapGet (groupBy ev_monthKey updMs es) k
  = mapGet (groupBy ev_monthKey updMs es') k.
Proof.
  rewrite !groupBy_get. apply accumulate_updMs_Permutation.
  now apply filter_Permutation.
Qed.

Lemma yearlyMs_get (k : Z) :
  mapGet (groupBy ev_yearKey updMs es) k
  = mapGet (groupBy ev_yearKey updMs es') k.
Proof.
  rewrite !groupBy_get. apply accumulate_updMs_Permutation.
  now apply filter_Permutation.
Qed.

Lemma monthlyMs_sorted_equal :
  sortWith (fun a b : string * Z => localeCompare (fst a) (fst b))
           (groupBy ev_monthKey updMs es)
  = sortWith (fun a b : string * Z => localeCompare (fst a) (fst b))
             (groupBy ev_monthKey updMs es').
Proof.
  apply sorted_entries_unique; try apply groupBy_NoDup; try assumption.
  - intros a b Ha Hb. destruct names_separated as (_ & _ & Hmonths & _).
    apply groupBy_keys in Ha, Hb.
    destruct Ha as (ea & Hea & <-), Hb as (eb & Heb & <-).
    apply Hmonths; now apply in_map.
  - apply monthlyMs_get.
Qed.

Lemma yearlyMs_sorted_equal :
  sortWith (fun a b : Z * Z => fst a - fst b) (groupBy ev_yearKey updMs es)
  = sortWith (fun a b : Z * Z => fst a - fst b) (groupBy ev_yearKey updMs es').
Proof.
  apply (sorted_entries_unique (fun a b : Z => a - b));
    try apply groupBy_NoDup.
  - apply (Consistent_ascending (fun z : Z => z)).
  - intros a b _ _. lia.
  - apply yearlyMs_get.
Qed.

(** *** The monthly ranking *)

Lemma compareMonthlySongRank_chain (a b : string * MonthSongEntry) :
  orElse ((snd b).(ms_playCount) - (snd a).(ms_playCount))
    (orElse ((snd b).(ms_totalMs) - (snd a).(ms_totalMs))
       (orElse (localeCompare (snd (splitSongKey (fst a)))
                              (snd (splitSongKey (fst b))))
          (localeCompare (fst (splitSongKey (fst a)))
                         (fst (splitSongKey (fst b))))))
  = compareMonthlySongRank a b.
Proof.
  destruct a as [ka sa], b as [kb sb]. unfold compareMonthlySongRank.
  cbn [fst snd]. destruct (splitSongKey ka), (splitSongKey kb). reflexivity.
Qed.

Lemma compareMonthlySongRank_Consistent : Consistent compareMonthlySongRank.
Proof.
  eapply Consistent_ext; [apply compareMonthlySongRank_chain |].
  apply (Consistent_orElse
           (fun a b : string * MonthSongEntry =>
              (snd b).(ms_playCount) - (snd a).(ms_playCount))).
  { apply (Consistent_descending (fun a : string * MonthSongEntry =>
                                    (snd a).(ms_playCount))). }
  apply (Consistent_orElse
           (fun a b : string * MonthSongEntry =>
              (snd b).(ms_totalMs) - (snd a).(ms_totalMs))).
  { apply (Consistent_descending (fun a : string * MonthSongEntry =>
                                    (snd a).(ms_totalMs))). }
  apply (Consistent_orElse
           (fun a b : string * MonthSongEntry =>
              localeCompare (snd (splitSongKey (fst a)))
                            (snd (splitSongKey (fst b))))
           (fun a b : string * MonthSongEntry =>
              localeCompare (fst (splitSongKey (fst a)))
                            (fst (splitSongKey (fst b))))).
  - apply (Consistent_on (fun a : string * MonthSongEntry =>
                            snd (splitSongKey (fst a))) localeCompare collation).
  - apply (Consistent_on (fun a : string * MonthSongEntry =>
                            fst (splitSongKey (fst a))) localeCompare collation).
Qed.

Lemma monthSongs_sorted_equal (l l' : list Event) :
  (forall e, In e l -> In e es) ->
  Permutation l l' ->
  sortWith compareMonthlySongRank (groupBy ev_songKey updMonthSong l)
  = sortWith compareMonthlySongRank (groupBy ev_songKey updMonthSong l').
Proof.
  intros Hsub Hp. apply sortWith_unique.
  - apply compareMonthlySongRank_Consistent.
  - intros [ka sa] [kb sb] Ha Hb Hz.
    rewrite <- compareMonthlySongRank_chain in Hz. cbn [fst snd] in Hz.
    rewrite !orElse_zero in Hz. destruct Hz as (_ & _ & Hartist & Htitle).
    assert (Hevent : forall k s, In (k, s) (groupBy ev_songKey updMonthSong l) ->
                       exists e, In e es /\ ev_songKey e = k).
    { intros k s Hin.
      assert (Hk : In k (mapKeys (groupBy ev_songKey updMonthSong l))).
      { change k with (fst (k, s)). unfold mapKeys. now apply in_map. }
      apply groupBy_keys in Hk. destruct Hk as (e & He & <-).
      exists e. split; [now apply Hsub | reflexivity]. }
    destruct (Hevent ka sa Ha) as (ea & Hea & Hka).
    destruct (Hevent kb sb Hb) as (eb & Heb & Hkb).
    destruct names_separated as (_ & _ & _ & Htitles & Hartists).
    apply (Hartists (snd (splitSongKey ka)) (snd (splitSongKey kb))) in Hartist;
      [| rewrite <- Hka; now apply (in_map (fun e => snd (splitSongKey (ev_songKey e))))
       | rewrite <- Hkb; now apply (in_map (fun e => snd (splitSongKey (ev_songKey e))))].
    apply (Htitles (fst (splitSongKey ka)) (fst (splitSongKey kb))) in Htitle;
      [| rewrite <- Hka; now apply (in_map (fun e => fst (splitSongKey (ev_songKey e))))
       | rewrite <- Hkb; now apply (in_map (fun e => fst (splitSongKey (ev_songKey e))))].
    clear Hka Hkb.
    assert (Hsep : forall k s, In (k, s) (groupBy ev_songKey updMonthSong l) ->
                     0 <= indexOf KEY_SEP k).
    { intros k s Hin.
      assert (Hk : In k (mapKeys (groupBy ev_songKey updMonthSong l))).
      { change k with (fst (k, s)). unfold mapKeys. now apply in_map. }
      apply groupBy_keys in Hk. destruct Hk as (e & _ & <-).
      apply makeSongKey_has_separator. }
    assert (Hk : ka = kb).
    { apply splitSongKey_injective; [now apply (Hsep ka sa) | now apply (Hsep kb sb) |].
      destruct (splitSongKey ka), (splitSongKey kb). cbn [fst snd] in *.
      congruence. }
    subst kb. f_equal.
    apply In_mapGet in Ha, Hb; try apply groupBy_NoDup. congruence.
  - apply maps_Permutation; try apply groupBy_NoDup.
    intros k. rewrite !groupBy_get. apply accumulate_updMonthSong_Permutation.
    now apply filter_Permutation.
Qed.

Lemma top3RowsOfMonth_equal (month : string) :
  top3RowsOfMonth (groupBy ev_monthKey updMonthSongs es) month
  = top3RowsOfMonth (groupBy ev_monthKey updMonthSongs es') month.
Proof.
  unfold top3RowsOfMonth. rewrite !groupBy_get, !accumulate_updMonthSongs.
  pose proof (filter_Permutation (fun e => keyb (ev_monthKey e) month) _ _
                events_Permutation) as Hf.
  assert (Hsub : forall x, In x (filter (fun e => keyb (ev_monthKey e) month) es) ->
                           In x es)
    by (intros x Hx; now apply filter_In in Hx).
  destruct (filter (fun e => keyb (ev_monthKey e) month) es) as [| e l] eqn:El.
  - apply Permutation_nil in Hf. now rewrite Hf.
  - destruct (Permutation_nonempty _ _ _ Hf) as (e' & l' & El').
    rewrite El' in *. rewrite (monthSongs_sorted_equal _ _ Hsub Hf).
    reflexivity.
Qed.

Lemma sortedMonths_equal :
  sortWith localeCompare (mapKeys (groupBy ev_monthKey updMonthSongs es))
  = sortWith localeCompare (mapKeys (groupBy ev_monthKey updMonthSongs es')).
Proof.
  apply sorted_keys_unique; try apply groupBy_NoDup; try assumption.
  - intros a b Ha Hb. destruct names_separated as (_ & _ & Hmonths & _).
    apply groupBy_keys in Ha, Hb.
    destruct Ha as (ea & Hea & <-), Hb as (eb & Heb & <-).
    apply Hmonths; now apply in_map.
  - apply group_keys_In.
Qed.

Lemma top3PerMonthRows_equal :
  flat_map (top3RowsOfMonth (groupBy ev_monthKey updMonthSongs es))
           (sortWith localeCompare
              (mapKeys (groupBy ev_monthKey updMonthSongs es)))
  = flat_map (top3RowsOfMonth (groupBy ev_monthKey updMonthSongs es'))
             (sortWith localeCompare
                (mapKeys (groupBy ev_monthKey updMonthSongs es'))).
Proof.
  rewrite sortedMonths_equal. apply flat_map_ext. apply top3RowsOfMonth_equal.
Qed.

End OrderIndependence.

(** *** The whole report *)

Lemma Report_eq {Meta : Type} (a b : Report Meta) :
  a.(parsedInputMeta) = b.(parsedInputMeta) ->
  a.(totalRecordsRead) = b.(totalRecordsRead) ->
  a.(songRecordsUsed) = b.(songRecordsUsed) ->
  a.(ignoredNonSong) = b.(ignoredNonSong) ->
  a.(ignoredBadTimestamp) = b.(ignoredBadTimestamp) ->
  a.(uniqueSongs) = b.(uniqueSongs) ->
  a.(totalSongMs) = b.(totalSongMs) ->
  a.(rp_totalMinutes) = b.(rp_totalMinutes) ->
  a.(rp_totalHours) = b.(rp_totalHours) ->
  a.(peakMonth) = b.(peakMonth) ->
  a.(peakYear) = b.(peakYear) ->
  a.(dataRange) = b.(dataRange) ->
  a.(songRows) = b.(songRows) ->
  a.(top10ByPlayCount) = b.(top10ByPlayCount) ->
  a.(top10ByTime) = b.(top10ByTime) ->
  a.(top10Skipped) = b.(top10Skipped) ->
  a.(top3PerMonthRows) = b.(top3PerMonthRows) ->
  a.(monthlyMinutesRows) = b.(monthlyMinutesRows) ->
  a.(yearlyMinutesRows) = b.(yearlyMinutesRows) ->
  a.(topArtistsByMinutes) = b.(topArtistsByMinutes) ->
  a = b.
Proof.
  destruct a, b. cbn. intros. subst. reflexivity.
Qed.

Lemma keysDistinguish_without_separator (es : list Event) :
  (forall e, In e es -> includes KEY_SEP e.(ev_song) = false) ->
  keysDistinguish es.
Proof.
  intros Hsep e e' He He' Hk.
  pose proof (splitSongKey_make e.(ev_song) e.(ev_artist) (Hsep e He)) as H1.
  pose proof (splitSongKey_make e'.(ev_song) e'.(ev_artist) (Hsep e' He')) as H2.
  unfold ev_songKey in Hk. rewrite Hk, H2 in H1.
  injection H1 as Hs Ha. now split.
Qed.

Section ReportOrderIndependence.
Context {P : Platform}.
Hypothesis collation : Consistent localeCompare.

Variable Meta : Type.
Variables records records' : list RawRecord.
Variable meta : Meta.
Hypothesis records_Permutation : Permutation records records'.
Hypothesis keys_distinguish : keysDistinguish (eventsOf records).
Hypothesis names_separated : namesSeparated (eventsOf records).

Lemma buildReport_songRows (rs : list RawRecord) :
  (buildReport rs meta).(songRows) = songRowsOf rs.
Proof.
  cbn [songRows buildReport]. now rewrite aggregate_songMap.
Qed.

Lemma erased_rows_equal :
  map eraseRepresentatives (songRowsOf records)
  = map eraseRepresentatives (songRowsOf records').
Proof.
  apply erased_songRows_equal; try assumption.
  now apply eventsOf_Permutation.
Qed.

Lemma erased_top (cmp : SongRow -> SongRow -> Z) (keep : SongRow -> bool) :
  (forall a b, cmp (eraseRepresentatives a) (eraseRepresentatives b) = cmp a b) ->
  (forall a, keep (eraseRepresentatives a) = keep a) ->
  map eraseRepresentatives
      (sliceFirst 10 (sortWith cmp (filter keep (songRowsOf records))))
  = map eraseRepresentatives
        (sliceFirst 10 (sortWith cmp (filter keep (songRowsOf records')))).
Proof.
  intros Hcmp Hkeep.
  assert (Hone : forall rows,
             map eraseRepresentatives
                 (sliceFirst 10 (sortWith cmp (filter keep rows)))
             = sliceFirst 10
                 (sortWith cmp (filter keep (map eraseRepresentatives rows)))).
  { intros rows. unfold sliceFirst. rewrite <- firstn_map.
    rewrite (sortWith_map eraseRepresentatives cmp cmp) by exact Hcmp.
    rewrite filter_map_swap.
    rewrite (filter_ext (fun a => keep (eraseRepresentatives a)) keep)
      by exact Hkeep.
    reflexivity. }
  now rewrite !Hone, erased_rows_equal.
Qed.

Lemma filter_all {A : Type} (l : list A) : filter (fun _ => true) l = l.
Proof. induction l as [| x l IH]; cbn [filter]; [reflexivity | now rewrite IH]. Qed.

Lemma buildReport_ignored (rs : list RawRecord) :
  (buildReport rs meta).(ignoredNonSong) = countIf isNonSong rs
  /\ (buildReport rs meta).(ignoredBadTimestamp) = countIf isBadTimestamp rs.
Proof.
  cbn [ignoredNonSong ignoredBadTimestamp buildReport]. unfold aggregate.
  destruct (fold_counters rs initialState) as (H1 & H2 & _).
  rewrite H1, H2. split; reflexivity.
Qed.

Lemma buildReport_totalSongMs (rs : list RawRecord) :
  (buildReport rs meta).(totalSongMs)
  = fold_left (fun sum row => sum + row.(totalMs))
              (map eraseRepresentatives (songRowsOf rs)) 0.
Proof.
  cbn [totalSongMs buildReport]. rewrite aggregate_songMap.
  now rewrite fold_totalMs_erase.
Qed.

Lemma buildReport_monthlyMinutesRows (rs : list RawRecord) :
  (buildReport rs meta).(monthlyMinutesRows)
  = map monthRowOf
      (sortWith (fun a b : string * Z => localeCompare (fst a) (fst b))
                (groupBy ev_monthKey updMs (eventsOf rs))).
Proof.
  cbn [monthlyMinutesRows buildReport]. now rewrite aggregate_monthlyMs.
Qed.

Lemma buildReport_yearlyMinutesRows (rs : list RawRecord) :
  (buildReport rs meta).(yearlyMinutesRows)
  = map yearRowOf
      (sortWith (fun a b : Z * Z => fst a - fst b)
                (groupBy ev_yearKey updMs (eventsOf rs))).
Proof.
  cbn [yearlyMinutesRows buildReport]. now rewrite aggregate_yearlyMs.
Qed.

Lemma buildReport_peaks (rs : list RawRecord) :
  (buildReport rs meta).(peakMonth)
  = pickPeak (map MonthlyRow (buildReport rs meta).(monthlyMinutesRows))
             periodTotalMs periodMonth
  /\ (buildReport rs meta).(peakYear)
     = pickPeak (map YearlyRow (buildReport rs meta).(yearlyMinutesRows))
                periodTotalMs periodYearString
  /\ (buildReport rs meta).(dataRange)
     = match (buildReport rs meta).(monthlyMinutesRows) with
       | [] => "N/A"
       | first :: _ =>
           first.(mr_monthLabel) ++ " - "
           ++ (last (buildReport rs meta).(monthlyMinutesRows) first).(mr_monthLabel)
       end.
Proof. repeat split; reflexivity. Qed.

Lemma monthlyMinutesRows_equal :
  (buildReport records meta).(monthlyMinutesRows)
  = (buildReport records' meta).(monthlyMinutesRows).
Proof.
  rewrite !buildReport_monthlyMinutesRows. f_equal.
  apply monthlyMs_sorted_equal; try assumption.
  now apply eventsOf_Permutation.
Qed.

Lemma yearlyMinutesRows_equal :
  (buildReport records meta).(yearlyMinutesRows)
  = (buildReport records' meta).(yearlyMinutesRows).
Proof.
  rewrite !buildReport_yearlyMinutesRows. f_equal.
  apply yearlyMs_sorted_equal.
  now apply eventsOf_Permutation.
Qed.

Lemma report_erased_equal :
  eraseReport (buildReport records meta)
  = eraseReport (buildReport records' meta).
Proof.
  pose proof (eventsOf_Permutation _ _ records_Permutation) as Hev.
  pose proof (buildReport_peaks records) as (Hpm & Hpy & Hdr).
  pose proof (buildReport_peaks records') as (Hpm' & Hpy' & Hdr').
  apply Report_eq; cbn [eraseReport parsedInputMeta totalRecordsRead
    songRecordsUsed ignoredNonSong ignoredBadTimestamp uniqueSongs totalSongMs
    rp_totalMinutes rp_totalHours peakMonth peakYear dataRange songRows
    top10ByPlayCount top10ByTime top10Skipped top3PerMonthRows
    monthlyMinutesRows yearlyMinutesRows topArtistsByMinutes].
  - reflexivity.
  - cbn [totalRecordsRead buildReport]. f_equal.
    now apply Permutation_length.
  - rewrite !buildReport_songRecordsUsed. now apply countIf_Permutation.
  - rewrite (proj1 (buildReport_ignored records)),
      (proj1 (buildReport_ignored records')).
    now apply countIf_Permutation.
  - rewrite (proj2 (buildReport_ignored records)),
      (proj2 (buildReport_ignored records')).
    now apply countIf_Permutation.
  - change (uniqueSongs (buildReport records meta))
      with (Z.of_nat (List.length (buildReport records meta).(songRows))).
    change (uniqueSongs (buildReport records' meta))
      with (Z.of_nat (List.length (buildReport records' meta).(songRows))).
    rewrite !buildReport_songRows.
    rewrite <- (length_map eraseRepresentatives (songRowsOf records)).
    rewrite <- (length_map eraseRepresentatives (songRowsOf records')).
    now rewrite erased_rows_equal.
  - rewrite !buildReport_totalSongMs. now rewrite erased_rows_equal.
  - change (rp_totalMinutes (buildReport records meta))
      with (toMinutes (buildReport records meta).(totalSongMs)).
    change (rp_totalMinutes (buildReport records' meta))
      with (toMinutes (buildReport records' meta).(totalSongMs)).
    rewrite !buildReport_totalSongMs. now rewrite erased_rows_equal.
  - change (rp_totalHours (buildReport records meta))
      with (toHours (buildReport records meta).(totalSongMs)).
    change (rp_totalHours (buildReport records' meta))
      with (toHours (buildReport records' meta).(totalSongMs)).
    rewrite !buildReport_totalSongMs. now rewrite erased_rows_equal.
  - rewrite Hpm, Hpm'. now rewrite monthlyMinutesRows_equal.
  - rewrite Hpy, Hpy'. now rewrite yearlyMinutesRows_equal.
  - rewrite Hdr, Hdr'. now rewrite monthlyMinutesRows_equal.
  - rewrite !buildReport_songRows. apply erased_rows_equal.
  - change (top10ByPlayCount (buildReport records meta))
      with (sliceFirst 10 (sortWith compareSongsByPlayCount
                             (buildReport records meta).(songRows))).
    change (top10ByPlayCount (buildReport records' meta))
      with (sliceFirst 10 (sortWith compareSongsByPlayCount
                             (buildReport records' meta).(songRows))).
    rewrite !buildReport_songRows.
    rewrite <- (filter_all (songRowsOf records)), <- (filter_all (songRowsOf records')).
    now apply erased_top.
  - change (top10ByTime (buildReport records meta))
      with (sliceFirst 10 (sortWith compareSongsByListenTime
                             (buildReport records meta).(songRows))).
    change (top10ByTime (buildReport records' meta))
      with (sliceFirst 10 (sortWith compareSongsByListenTime
                             (buildReport records' meta).(songRows))).
    rewrite !buildReport_songRows.
    rewrite <- (filter_all (songRowsOf records)), <- (filter_all (songRowsOf records')).
    now apply erased_top.
  - change (top10Skipped (buildReport records meta))
      with (sliceFirst 10
              (sortWith compareSongsBySkipCount
                 (filter (fun row => row.(skipCount) >? 0)
                         (buildReport records meta).(songRows)))).
    change (top10Skipped (buildReport records' meta))
      with (sliceFirst 10
              (sortWith compareSongsBySkipCount
                 (filter (fun row => row.(skipCount) >? 0)
                         (buildReport records' meta).(songRows)))).
    rewrite !buildReport_songRows.
    now apply erased_top.
  - cbn [top3PerMonthRows buildReport]. rewrite !aggregate_monthlySongMap.
    now apply top3PerMonthRows_equal.
  - apply monthlyMinutesRows_equal.
  - apply yearlyMinutesRows_equal.
  - cbn [topArtistsByMinutes buildReport]. rewrite !aggregate_artistMap.
    f_equal. now apply artistRows_equal.
Qed.

End ReportOrderIndependence.

Lemma eventsOf_song {P : Platform} (records : list RawRecord) (e : Event) :
  In e (eventsOf records) ->
  exists record,
    In record records
    /\ e.(ev_song) = cleanString record.(master_metadata_track_name).
Proof.
  unfold eventsOf. intros Hin. apply in_flat_map in Hin.
  destruct Hin as (record & Hrecord & He). exists record.
  split; [exact Hrecord |].
  unfold dispose in He. destruct (isSongRecord record); [| contradiction].
  destruct (parseTimestamp (ts record)); [| contradiction].
  destruct He as [<- | []]. reflexivity.
Qed.

(** ** The scenarios of the specification, evaluated *)

(** Scenario A: three plays of one song, one of them skipped. *)
Example scenarioA_song_row :
  let records :=
    [songRecord "Song X" "Artist A" "" "" "2023-05-01T10:00:00Z" 1000 false;
     songRecord "Song X" "Artist A" "" "" "2023-05-02T10:00:00Z" 2000 true;
     songRecord "Song X" "Artist A" "" "" "2023-05-03T10:00:00Z" 3000 false] in
  map (fun row => (rowSummary row, row.(skipCount), row.(skipRate)))
      (@buildReport strictPlatform unit records tt).(songRows)
  = [(("Song X", "Artist A", 3, 6000), 1, (1 # 3)%Q)].
Proof. vm_compute. reflexivity. Qed.

(** Scenario B: in one month, two songs with five plays each; the one
    with more time played is ranked first. *)
Example scenarioB_monthly_rank :
  let plays (title : string) (ms : Z) :=
    repeat (songRecord title "Artist A" "" "" "2023-05-01T10:00:00Z" ms false) 5 in
  map (fun row => (row.(t3_month), row.(t3_rank), row.(t3_song), row.(t3_playCount)))
      (@buildReport strictPlatform unit
         (plays "Song A" 1000 ++ plays "Song B" 2000)%list tt).(top3PerMonthRows)
  = [("2023-05", 1, "Song B", 5); ("2023-05", 2, "Song A", 5)].
Proof. vm_compute. reflexivity. Qed.

(** Two months with the same total: the greater [YYYY-MM] key is the
    peak. *)
Example peak_tie_break :
  let records :=
    [songRecord "Song X" "Artist A" "" "" "2023-05-01T10:00:00Z" 60000 false;
     songRecord "Song X" "Artist A" "" "" "2023-04-01T10:00:00Z" 60000 false] in
  (@buildReport strictPlatform unit records tt).(peakMonth)
  = Some (PeakMonth "2023-05" "May 2023" 60000 (toMinutes 60000)).
Proof. vm_compute. reflexivity. Qed.

(** The representative album does depend on the input order: of two albums
    observed once each, the one observed first is reported. *)
Example representative_depends_on_order :
  let r1 := songRecord "Song X" "Artist A" "Album 1" ""
              "2023-05-01T10:00:00Z" 1000 false in
  let r2 := songRecord "Song X" "Artist A" "Album 2" ""
              "2023-05-02T10:00:00Z" 1000 false in
  map album (@buildReport strictPlatform unit [r1; r2] tt).(songRows) = ["Album 1"]
  /\ map album (@buildReport strictPlatform unit [r2; r1] tt).(songRows) = ["Album 2"].
Proof. split; vm_compute; reflexivity. Qed.

(** ** Accepted events and the rows made of them *)

Lemma sanitizeMs_nonneg (value : JsValue) : 0 <= sanitizeMs value.
Proof.
  unfold sanitizeMs. destruct (toNumber value) as [| neg | q]; try lia.
  destruct (Qle_bool 0 q) eqn:E; cbn [negb]; [| lia].
  apply Qle_bool_iff in E. unfold mathRound.
  change 0 with (Qfloor 0). apply Qfloor_resp_le.
  apply Qle_trans with q; [exact E |].
  rewrite <- (Qplus_0_r q) at 1. apply Qplus_le_r. discriminate.
Qed.

Lemma sumMs_nonneg (es : list Event) :
  (forall e, In e es -> 0 <= e.(ev_msPlayed)) -> 0 <= sumMs es.
Proof.
  induction es as [| e es IH]; intros H; [reflexivity |].
  rewrite sumMs_cons.
  assert (0 <= ev_msPlayed e) by (apply H; now left).
  assert (0 <= sumMs es) by (apply IH; intros x Hx; apply H; now right).
  lia.
Qed.

Lemma skipsOf_bounds (es : list Event) : 0 <= skipsOf es <= playsOf es.
Proof.
  induction es as [| e es IH]; [unfold skipsOf, playsOf, countIf; simpl; lia |].
  rewrite skipsOf_cons, playsOf_cons. destruct (ev_skipped e); cbn [boolToZ]; lia.
Qed.

Section EventProperties.
Context {P : Platform}.

Lemma eventsOf_In (records : list RawRecord) (e : Event) :
  In e (eventsOf records) <->
  exists record, In record records /\ dispose record = Accepted e.
Proof.
  unfold eventsOf. rewrite in_flat_map. split.
  - intros (record & Hr & He). exists record. split; [exact Hr |].
    destruct (dispose record); try contradiction.
    destruct He as [-> | []]. reflexivity.
  - intros (record & Hr & Hd). exists record. split; [exact Hr |].
    rewrite Hd. now left.
Qed.

Lemma dispose_Accepted (record : RawRecord) (e : Event) :
  dispose record = Accepted e ->
  isSongRecord record = true
  /\ (exists timestamp,
         parseTimestamp record.(ts) = Some timestamp
         /\ e.(ev_monthKey) = timestampToMonthKey timestamp
         /\ e.(ev_yearKey) = getUTCFullYear timestamp)
  /\ e.(ev_song) = cleanString record.(master_metadata_track_name)
  /\ e.(ev_artist) = cleanString record.(master_metadata_album_artist_name)
  /\ e.(ev_album) = cleanString record.(master_metadata_album_album_name)
  /\ e.(ev_uri) = cleanString record.(spotify_track_uri)
  /\ e.(ev_msPlayed) = sanitizeMs record.(ms_played)
  /\ e.(ev_skipped) = toBoolean record.(skipped).
Proof.
  unfold dispose. destruct (isSongRecord record); [| discriminate].
  destruct (parseTimestamp (ts record)) as [timestamp |]; [| discriminate].
  intros [= <-]. cbn. split; [reflexivity |].
  split; [exists timestamp; auto |]. repeat split.
Qed.

Lemma isSongRecord_names (record : RawRecord) :
  isSongRecord record = true ->
  cleanString record.(master_metadata_track_name) <> EmptyString
  /\ cleanString record.(master_metadata_album_artist_name) <> EmptyString.
Proof.
  unfold isSongRecord.
  destruct (cleanString (master_metadata_track_name record));
    destruct (cleanString (master_metadata_album_artist_name record));
    cbn; try discriminate.
  intros _. split; discriminate.
Qed.

Lemma event_invariant (records : list RawRecord) (e : Event) :
  In e (eventsOf records) ->
  e.(ev_song) <> EmptyString /\ e.(ev_artist) <> EmptyString
  /\ 0 <= e.(ev_msPlayed).
Proof.
  intros Hin. apply eventsOf_In in Hin. destruct Hin as (record & _ & Hd).
  apply dispose_Accepted in Hd.
  destruct Hd as (Hsong & _ & -> & -> & _ & _ & -> & _).
  destruct (isSongRecord_names record Hsong). repeat split; try assumption.
  apply sanitizeMs_nonneg.
Qed.

End EventProperties.

(** ** Sums over groups *)

Lemma sumOf_cons {A : Type} (f : A -> Z) (x : A) (l : list A) :
  sumOf f (x :: l) = f x + sumOf f l.
Proof. reflexivity. Qed.

Lemma sumOf_app {A : Type} (f : A -> Z) (l l' : list A) :
  sumOf f (l ++ l')%list = sumOf f l + sumOf f l'.
Proof.
  induction l as [| x l IH]; [reflexivity |].
  cbn [app]. rewrite !sumOf_cons, IH. lia.
Qed.

Lemma sumOf_map {A B : Type} (g : A -> B) (f : B -> Z) (l : list A) :
  sumOf f (map g l) = sumOf (fun x => f (g x)) l.
Proof.
  induction l as [| x l IH]; [reflexivity |].
  cbn [map]. now rewrite !sumOf_cons, IH.
Qed.

Lemma sumOf_ext {A : Type} (f g : A -> Z) (l : list A) :
  (forall x, In x l -> f x = g x) -> sumOf f l = sumOf g l.
Proof.
  induction l as [| x l IH]; intros Hfg; [reflexivity |].
  rewrite !sumOf_cons, IH, (Hfg x); [reflexivity | now left |].
  intros y Hy. apply Hfg. now right.
Qed.

Lemma sumOf_Permutation {A : Type} (f : A -> Z) (l l' : list A) :
  Permutation l l' -> sumOf f l = sumOf f l'.
Proof.
  induction 1 as [| x l l' _ IH | x y l | l l' l'' _ IH1 _ IH2];
    rewrite ?sumOf_cons; lia.
Qed.

Lemma sumOf_fold_left {A : Type} (f : A -> Z) (l : list A) (start : Z) :
  fold_left (fun sum x => sum + f x) l start = start + sumOf f l.
Proof.
  revert start. induction l as [| x l IH]; intros start; cbn [fold_left].
  - unfold sumOf. cbn. lia.
  - rewrite IH, sumOf_cons. lia.
Qed.

Lemma sumOf_nonneg {A : Type} (f : A -> Z) (l : list A) :
  (forall x, In x l -> 0 <= f x) -> 0 <= sumOf f l.
Proof.
  induction l as [| x l IH]; intros Hf; [reflexivity |].
  rewrite sumOf_cons.
  assert (0 <= f x) by (apply Hf; now left).
  assert (0 <= sumOf f l) by (apply IH; intros y Hy; apply Hf; now right).
  lia.
Qed.

Lemma sumMs_sumOf (es : list Event) : sumMs es = sumOf ev_msPlayed es.
Proof. reflexivity. Qed.

Lemma playsOf_sumOf (es : list Event) : playsOf es = sumOf (fun _ => 1) es.
Proof.
  induction es as [| e es IH]; [reflexivity |].
  rewrite playsOf_cons, sumOf_cons, IH. lia.
Qed.

Lemma skipsOf_sumOf (es : list Event) :
  skipsOf es = sumOf (fun e => boolToZ e.(ev_skipped)) es.
Proof.
  induction es as [| e es IH]; [reflexivity |].
  rewrite skipsOf_cons, sumOf_cons, IH. lia.
Qed.

(** ** Sums of Numbers *)

Lemma sumNumbers_from (l : list Z) (start : Z) :
  (forall x, In x l -> 0 <= x) -> 0 <= start ->
  start + sumOf (fun x => x) l <= 2 ^ 53 ->
  fold_left addNumbers l start = start + sumOf (fun x => x) l.
Proof.
  revert start. induction l as [| x l IH]; intros start Hpos Hstart Hsum;
    cbn [fold_left].
  - unfold sumOf. cbn. lia.
  - rewrite sumOf_cons in Hsum |- *.
    assert (Hx : 0 <= x) by (apply Hpos; now left).
    assert (Hl : 0 <= sumOf (fun x => x) l).
    { clear - Hpos. induction l as [| y l IH]; [unfold sumOf; cbn; lia |].
      rewrite sumOf_cons.
      assert (0 <= y) by (apply Hpos; right; now left).
      assert (0 <= sumOf (fun x => x) l).
      { apply IH. intros z [Hz | Hz]; apply Hpos; [now left | right; now right]. }
      lia. }
    assert (Hadd : addNumbers start x = start + x).
    { unfold addNumbers, nearestNumber.
      destruct (start + x <=? 2 ^ 53) eqn:E; [reflexivity |].
      apply Z.leb_gt in E. lia. }
    rewrite Hadd, IH; [lia | | lia | lia].
    intros y Hy. apply Hpos. now right.
Qed.

(** Whole numbers that are not negative and add up to no more than 2^53
    are added exactly. *)
Lemma sumNumbers_exact (l : list Z) :
  (forall x, In x l -> 0 <= x) -> sumOf (fun x => x) l <= 2 ^ 53 ->
  sumNumbers l = sumOf (fun x => x) l.
Proof.
  intros Hpos Hsum. unfold sumNumbers.
  rewrite sumNumbers_from; [lia | exact Hpos | lia | lia].
Qed.

(** Beyond 2^53 the sum depends on the order of the terms. *)
Example sumNumbers_beyond :
  sumNumbers [2 ^ 53; 1] = 2 ^ 53
  /\ sumNumbers [2 ^ 53; 1; 1] = 2 ^ 53
  /\ sumNumbers [1; 1; 2 ^ 53] = 2 ^ 53 + 2
  /\ sumNumbers [2 ^ 53; 3] = 2 ^ 53 + 4.
Proof. repeat split; vm_compute; reflexivity. Qed.

Section ExactTotals.
Context {P : Platform}.

Lemma sumMs_filter_le (p : Event -> bool) (es : list Event) :
  (forall e, In e es -> 0 <= e.(ev_msPlayed)) ->
  0 <= sumMs (filter p es) <= sumMs es.
Proof.
  induction es as [| e es IH]; intros Hpos; [unfold sumMs; cbn; lia |].
  assert (He : 0 <= ev_msPlayed e) by (apply Hpos; now left).
  assert (Hes : 0 <= sumMs (filter p es) <= sumMs es)
    by (apply IH; intros x Hx; apply Hpos; now right).
  cbn [filter]. destruct (p e); rewrite ?sumMs_cons; lia.
Qed.

Lemma sumNumbers_events (es : list Event) :
  (forall e, In e es -> 0 <= e.(ev_msPlayed)) -> sumMs es <= 2 ^ 53 ->
  sumNumbers (map ev_msPlayed es) = sumMs es.
Proof.
  intros Hpos Hsum.
  assert (Heq : sumOf (fun x => x) (map ev_msPlayed es) = sumMs es).
  { rewrite sumOf_map, sumMs_sumOf. reflexivity. }
  rewrite sumNumbers_exact, Heq; [reflexivity | | lia].
  intros x Hx. apply in_map_iff in Hx. destruct Hx as (e & <- & He).
  now apply Hpos.
Qed.

(** The durations of any selection of the accepted records are added
    exactly when all of them together stay below 2^53. *)
Lemma selection_exact (records : list RawRecord) (p : Event -> bool) :
  sumMs (eventsOf records) < 2 ^ 53 ->
  let plays := filter p (eventsOf records) in
  0 <= sumMs plays < 2 ^ 53
  /\ sumNumbers (map ev_msPlayed plays) = sumMs plays.
Proof.
  intros Hbound plays.
  assert (Hpos : forall e, In e (eventsOf records) -> 0 <= e.(ev_msPlayed))
    by (intros e He; now apply (event_invariant records e)).
  pose proof (sumMs_filter_le p _ Hpos) as Hle. fold plays in Hle.
  split; [lia |]. apply sumNumbers_events; [| lia].
  intros e He. apply Hpos. subst plays. now apply filter_In in He.
Qed.

Lemma selection_exact_within (records : list RawRecord) (p q : Event -> bool) :
  sumMs (eventsOf records) < 2 ^ 53 ->
  let plays := filter q (filter p (eventsOf records)) in
  0 <= sumMs plays < 2 ^ 53
  /\ sumNumbers (map ev_msPlayed plays) = sumMs plays.
Proof.
  intros Hbound plays.
  assert (Hpos : forall e, In e (eventsOf records) -> 0 <= e.(ev_msPlayed))
    by (intros e He; now apply (event_invariant records e)).
  assert (Hpos' : forall e, In e (filter p (eventsOf records)) ->
                            0 <= e.(ev_msPlayed))
    by (intros e He; apply Hpos; now apply filter_In in He).
  pose proof (sumMs_filter_le p _ Hpos) as Hle.
  pose proof (sumMs_filter_le q _ Hpos') as Hle'. fold plays in Hle'.
  split; [lia |]. apply sumNumbers_events; [| lia].
  intros e He. apply Hpos'. subst plays. now apply filter_In in He.
Qed.

End ExactTotals.

Section GroupSums.
Context {E K : Type} `{EqKey K}.
Variable key : E -> K.
Variable weight : E -> Z.

Lemma sumOf_indicator (x : K) (c : Z) (ks : list K) :
  NoDup ks ->
  sumOf (fun k => if keyb x k then c else 0) ks = if existsb (keyb x) ks then c else 0.
Proof.
  induction 1 as [| k ks Hk _ IH]; [reflexivity |].
  rewrite sumOf_cons, IH. cbn [existsb].
  destruct (keyb x k) eqn:E1; cbn [orb]; [| lia].
  apply keyb_eq in E1. subst k.
  destruct (existsb (keyb x) ks) eqn:E2; [| lia].
  apply existsb_exists in E2. destruct E2 as (y & Hy & Exy).
  apply keyb_eq in Exy. subst y. contradiction.
Qed.

(** The sums of the groups of a partition by key add up to the sum of the
    whole list. *)
Lemma sumOf_groups (es : list E) (ks : list K) :
  NoDup ks ->
  (forall e, In e es -> In (key e) ks) ->
  sumOf (fun k => sumOf weight (filter (fun e => keyb (key e) k) es)) ks
  = sumOf weight es.
Proof.
  intros Hnd. induction es as [| e es IH]; intros Hks.
  - cbn [filter]. clear. induction ks as [| k ks IH]; [reflexivity |].
    rewrite sumOf_cons, IH. reflexivity.
  - rewrite sumOf_cons, <- IH by (intros x Hx; apply Hks; now right).
    rewrite (sumOf_ext _ (fun k => (if keyb (key e) k then weight e else 0)
                                   + sumOf weight
                                       (filter (fun e => keyb (key e) k) es))).
    2:{ intros k _. cbn [filter]. destruct (keyb (key e) k); [apply sumOf_cons | lia]. }
    assert (Hsplit : forall (f g : K -> Z) l,
               sumOf (fun k => f k + g k) l = sumOf f l + sumOf g l).
    { intros f g l. induction l as [| k l IHl]; [reflexivity |].
      rewrite !sumOf_cons, IHl. lia. }
    rewrite Hsplit, sumOf_indicator by exact Hnd.
    assert (Hex : existsb (keyb (key e)) ks = true).
    { apply existsb_exists. exists (key e). split; [apply Hks; now left |].
      apply keyb_refl. }
    now rewrite Hex.
Qed.

(** A map that holds per key a value whose measure is the sum of the
    weights of the elements with that key: the measures add up to the
    sum over all elements. *)
Lemma sumOf_groupBy {V : Type} (upd : option V -> E -> V) (measure : V -> Z)
  (es : list E) :
  (forall k v, mapGet (groupBy key upd es) k = Some v ->
               measure v = sumOf weight (filter (fun e => keyb (key e) k) es)) ->
  sumOf measure (mapValues (groupBy key upd es)) = sumOf weight es.
Proof.
  intros Hmeasure.
  rewrite <- (sumOf_groups es (mapKeys (groupBy key upd es))).
  - unfold mapValues, mapKeys. rewrite !sumOf_map.
    apply sumOf_ext. intros [k v] Hin. cbn [fst snd].
    apply Hmeasure. apply In_mapGet; [apply groupBy_NoDup | exact Hin].
  - apply groupBy_NoDup.
  - intros e He. apply groupBy_keys. now exists e.
Qed.

End GroupSums.

(** ** The report and the input order *)

Lemma namesSeparated_total {P : Platform} (es : list Event) :
  (forall a b, localeCompare a b = 0 -> a = b) -> namesSeparated es.
Proof.
  intros Htotal. unfold namesSeparated, separates.
  repeat split; intros a b _ _; apply Htotal.
Qed.

(** C9, as amended.  Let the collation be a consistent comparator.  Let
    no two accepted records of [records] with different (song, artist)
    pairs have the same song key, which is the case when no song title
    holds the separator U+001F.  Let the collation tie no two different
    strings among those of the input that the rankings compare with one
    another (song titles, artists, month keys, parts of song keys), which
    is the case when it gives 0 to equal strings only.  Let the durations
    of the accepted records add up to less than 2^53 ms.  Then the report
    built on any permutation of [records] is the report built on
    [records], except for the representative album and URI of the song
    rows: the provenance counters, the totals, the play and skip counts,
    the time series, the peaks and all rankings are the same, and the
    durations add up as Numbers to the same total in both orders. *)
Theorem report_order_independent (P : Platform) (Meta : Type)
  (records records' : list RawRecord) (meta : Meta) :
  Consistent localeCompare ->
  Permutation records records' ->
  ((forall record, In record records ->
      includes KEY_SEP (cleanString record.(master_metadata_track_name)) = false) ->
   keysDistinguish (eventsOf records))
  /\ ((forall a b, localeCompare a b = 0 -> a = b) ->
      namesSeparated (eventsOf records))
  /\ (keysDistinguish (eventsOf records) ->
      namesSeparated (eventsOf records) ->
      sumMs (eventsOf records) < 2 ^ 53 ->
      eraseReport (buildReport records meta)
      = eraseReport (buildReport records' meta)
      /\ sumNumbers (map ev_msPlayed (eventsOf records))
         = (buildReport records meta).(totalSongMs)
      /\ sumNumbers (map ev_msPlayed (eventsOf records'))
         = (buildReport records meta).(totalSongMs)).
Proof.
  intros Hc Hp. split.
  { intros Hsep. apply keysDistinguish_without_separator.
    intros e He. apply eventsOf_song in He.
    destruct He as (record & Hrecord & ->). now apply Hsep. }
  split; [apply namesSeparated_total |].
  intros Hkeys Hnames Hbound.
  assert (Hequal : eraseReport (buildReport records meta)
                   = eraseReport (buildReport records' meta))
    by now apply report_erased_equal.
  split; [exact Hequal |].
  assert (Htotal : forall rs, (buildReport rs meta).(totalSongMs)
                              = sumMs (eventsOf rs)).
  { intros rs. cbn [totalSongMs buildReport]. rewrite aggregate_songMap.
    rewrite sumOf_fold_left, Z.add_0_l.
    rewrite (sumOf_Permutation totalMs _ _ (sortWith_Permutation _ _)).
    rewrite sumOf_map, sumMs_sumOf.
    apply (sumOf_groupBy ev_songKey ev_msPlayed updSong
             (fun entry => totalMs (songRowOf entry))).
    intros k v Hget. rewrite groupBy_get in Hget.
    destruct (filter (fun e => keyb (ev_songKey e) k) _) as [| e rest];
      [discriminate |].
    rewrite accumulate_updSong in Hget. injection Hget as <-.
    exact (sumMs_sumOf (e :: rest)). }
  assert (Hsame : sumMs (eventsOf records') = sumMs (eventsOf records)).
  { symmetry. apply sumMs_Permutation. now apply eventsOf_Permutation. }
  rewrite Htotal. split.
  - apply sumNumbers_events; [| lia].
    intros e He. now apply (event_invariant records e).
  - rewrite <- Hsame. apply sumNumbers_events; [| lia].
    intros e He. now apply (event_invariant records' e).
Qed.

Lemma ignoringControls_Consistent :
  Consistent (@localeCompare ignoringControlsPlatform).
Proof.
  exact (Consistent_on dropIgnorable codeUnitCompare codeUnitCompare_Consistent).
Qed.

Lemma report_order_independent_witness :
  let r1 := songRecord "Song X" "Artist A" "Album 1" "uri:1"
              "2023-05-01T10:00:00Z" 1000 false in
  let r2 := songRecord "Song X" "Artist A" "Album 2" "uri:2"
              "2023-06-01 10:00:00" 2000 true in
  let r3 := songRecord "Song Y" "Artist B" "" "" "2024-01-01T00:00:00Z" 3000 false in
  eraseReport (@buildReport strictPlatform unit [r1; r2; r3] tt)
  = eraseReport (@buildReport strictPlatform unit [r3; r2; r1] tt)
  /\ eraseReport (@buildReport ignoringControlsPlatform unit [r1; r2; r3] tt)
     = eraseReport (@buildReport ignoringControlsPlatform unit [r3; r2; r1] tt).
Proof.
  intros r1 r2 r3. split.
  - destruct (report_order_independent strictPlatform unit [r1; r2; r3]
                [r3; r2; r1] tt codeUnitCompare_Consistent)
      as (Hkeys & Hnames & Hequal).
    + apply Permutation_rev.
    + apply Hequal.
      * apply Hkeys. intros record [<- | [<- | [<- | []]]]; reflexivity.
      * apply Hnames. exact codeUnitCompare_eq.
      * vm_compute. reflexivity.
  - destruct (report_order_independent ignoringControlsPlatform unit [r1; r2; r3]
                [r3; r2; r1] tt ignoringControls_Consistent)
      as (Hkeys & _ & Hequal).
    + apply Permutation_rev.
    + apply Hequal.
      * apply Hkeys. intros record [<- | [<- | [<- | []]]]; reflexivity.
      * unfold namesSeparated, separates.
        repeat split; intros a b Ha Hb Hz; vm_compute in Ha, Hb;
          destruct Ha as [<- | [<- | [<- | []]]];
          destruct Hb as [<- | [<- | [<- | []]]];
          first [reflexivity | vm_compute in Hz; discriminate Hz].
      * vm_compute. reflexivity.
Defined.

(** C9 as stated fails, in two ways.  Two records whose (song, artist)
    pairs differ but whose song keys coincide are aggregated into one
    row, which takes its song and artist from the record that comes
    first, so that exchanging the two records changes the song table.
    And where the collation ties two different titles, as it does when it
    ignores control characters, two songs with the same counts and the
    same artist are tied in every ranking and stand in the order in
    which they were first seen, with no two song keys coinciding. *)
Lemma order_dependence_counterexample :
  let r1 := songRecord ("a" ++ KEY_SEP ++ "b") "c" "" ""
              "2023-05-01T10:00:00Z" 1000 false in
  let r2 := songRecord "a" ("b" ++ KEY_SEP ++ "c") "" ""
              "2023-05-02T10:00:00Z" 2000 false in
  let title := "Song" ++ String (ascii_of_nat 1) EmptyString in
  let s1 := songRecord "Song" "Artist A" "" "" "2023-05-01T10:00:00Z" 1000 false in
  let s2 := songRecord title "Artist A" "" "" "2023-05-02T10:00:00Z" 1000 false in
  (Permutation [r1; r2] [r2; r1]
   /\ map rowSummary (@buildReport strictPlatform unit [r1; r2] tt).(songRows)
      = [("a" ++ KEY_SEP ++ "b", "c", 2, 3000)]
   /\ map rowSummary (@buildReport strictPlatform unit [r2; r1] tt).(songRows)
      = [("a", "b" ++ KEY_SEP ++ "c", 2, 3000)]
   /\ eraseReport (@buildReport strictPlatform unit [r1; r2] tt)
      <> eraseReport (@buildReport strictPlatform unit [r2; r1] tt))
  /\ (Permutation [s1; s2] [s2; s1]
      /\ @localeCompare ignoringControlsPlatform "Song" title = 0
      /\ map ev_songKey (@eventsOf ignoringControlsPlatform [s1; s2])
         = [makeSongKey "Song" "Artist A"; makeSongKey title "Artist A"]
      /\ makeSongKey "Song" "Artist A" <> makeSongKey title "Artist A"
      /\ map rowSummary
           (@buildReport ignoringControlsPlatform unit [s1; s2] tt).(songRows)
         = [("Song", "Artist A", 1, 1000); (title, "Artist A", 1, 1000)]
      /\ map rowSummary
           (@buildReport ignoringControlsPlatform unit [s2; s1] tt).(songRows)
         = [(title, "Artist A", 1, 1000); ("Song", "Artist A", 1, 1000)]
      /\ eraseReport (@buildReport ignoringControlsPlatform unit [s1; s2] tt)
         <> eraseReport (@buildReport ignoringControlsPlatform unit [s2; s1] tt)).
Proof.
  intros r1 r2 title s1 s2. split.
  - split; [apply perm_swap |].
    split; [vm_compute; reflexivity |].
    split; [vm_compute; reflexivity |].
    intros H.
    apply (f_equal (fun r => map rowSummary r.(songRows))) in H.
    vm_compute in H. discriminate H.
  - split; [apply perm_swap |].
    split; [vm_compute; reflexivity |].
    split; [vm_compute; reflexivity |].
    split; [vm_compute; discriminate |].
    split; [vm_compute; reflexivity |].
    split; [vm_compute; reflexivity |].
    intros H.
    apply (f_equal (fun r => map rowSummary r.(songRows))) in H.
    vm_compute in H. discriminate H.
Qed.

(** ** The rows of the song table *)

Section SongRowProperties.
Context {P : Platform}.

Lemma withSongKey_In (k : string) (es : list Event) (e : Event) :
  In e (withSongKey k es) <-> In e es /\ ev_songKey e = k.
Proof.
  unfold withSongKey. rewrite filter_In.
  split; intros [H1 H2]; (split; [exact H1 |]); now apply keyb_eq.
Qed.

Lemma songEntry_key (es : list Event) (k : string) (entry : SongEntry) :
  In (k, entry) (groupBy ev_songKey updSong es) ->
  makeSongKey entry.(se_song) entry.(se_artist) = k.
Proof.
  intros Hin. apply In_mapGet in Hin; [| apply groupBy_NoDup].
  rewrite groupBy_get in Hin.
  destruct (filter (fun e => keyb (ev_songKey e) k) es) as [| e f] eqn:Ef;
    [discriminate |].
  rewrite accumulate_updSong in Hin. injection Hin as <-.
  cbn [se_song se_artist]. fold (ev_songKey e).
  assert (He : In e (filter (fun e => keyb (ev_songKey e) k) es))
    by (rewrite Ef; now left).
  apply filter_In in He. destruct He as [_ He]. now apply keyb_eq in He.
Qed.

Lemma songRows_keys (records : list RawRecord) :
  Permutation (map rowSongKey (songRowsOf records))
              (mapKeys (groupBy ev_songKey updSong (eventsOf records))).
Proof.
  unfold songRowsOf.
  rewrite (Permutation_map rowSongKey (sortWith_Permutation _ _)).
  rewrite map_map. unfold mapValues, mapKeys. rewrite map_map.
  erewrite map_ext_in; [reflexivity |].
  intros [k entry] Hin. cbn [fst snd]. unfold rowSongKey. cbn [songRowOf song artist].
  now apply songEntry_key with (es := eventsOf records).
Qed.

Lemma Qdiv_unit_interval (a b : Z) :
  0 <= a <= b -> 0 < b ->
  (0 <= Qdiv (inject_Z a) (inject_Z b))%Q /\ (Qdiv (inject_Z a) (inject_Z b) <= 1)%Q.
Proof.
  intros Ha Hb.
  assert (Hb' : (0 < inject_Z b)%Q) by (change 0%Q with (inject_Z 0); now rewrite <- Zlt_Qlt).
  split.
  - apply Qle_shift_div_l; [exact Hb' |]. rewrite Qmult_0_l.
    change 0%Q with (inject_Z 0). rewrite <- Zle_Qle. lia.
  - apply Qle_shift_div_r; [exact Hb' |]. rewrite Qmult_1_l.
    rewrite <- Zle_Qle. lia.
Qed.

(** X1. Every row of the song table stands for at least one accepted
    play: its song and its artist are non-empty, its play count is at
    least one, its skip count lies between zero and its play count, its
    total time is not negative, its skip rate is the quotient of the two
    counts and lies between zero and one, and its minutes and hours are
    its total time divided by 60000 and by 60 again. *)
Theorem songRows_wellformed :
  forall (Meta : Type) (records : list RawRecord) (meta : Meta) (row : SongRow),
    In row (buildReport records meta).(songRows) ->
    row.(song) <> EmptyString
    /\ row.(artist) <> EmptyString
    /\ 1 <= row.(playCount)
    /\ 0 <= row.(skipCount) <= row.(playCount)
    /\ 0 <= row.(totalMs)
    /\ row.(skipRate) = Qdiv (inject_Z row.(skipCount)) (inject_Z row.(playCount))
    /\ (0 <= row.(skipRate))%Q /\ (row.(skipRate) <= 1)%Q
    /\ row.(totalMinutes) = toMinutes row.(totalMs)
    /\ row.(totalHours) = Qdiv (toMinutes row.(totalMs)) (inject_Z 60).
Proof.
  intros Meta records meta row Hin.
  cbn [songRows buildReport] in Hin.
  apply sortWith_In in Hin. apply in_map_iff in Hin.
  destruct Hin as (entry & <- & Hentry).
  apply songMap_entry in Hentry. destruct Hentry as (e & rest & Hes & Hentry).
  set (k := makeSongKey (se_song entry) (se_artist entry)) in Hes.
  assert (Hall : forall x, In x (e :: rest) -> In x (eventsOf records)).
  { intros x Hx. rewrite <- Hes in Hx. now apply withSongKey_In in Hx. }
  destruct (event_invariant records e (Hall e (or_introl eq_refl)))
    as (Hsong & Hartist & _).
  assert (Hplays : 1 <= playsOf (e :: rest)) by (rewrite playsOf_cons; unfold playsOf; lia).
  pose proof (skipsOf_bounds (e :: rest)) as Hskips.
  assert (Hms : 0 <= sumMs (e :: rest)).
  { apply sumMs_nonneg. intros x Hx. now apply (event_invariant records x), Hall. }
  rewrite Hentry.
  cbn [songRowOf song artist playCount skipCount totalMs skipRate totalMinutes
       totalHours se_song se_artist se_playCount se_skipCount se_totalMs].
  assert (Ez : (playsOf (e :: rest) =? 0) = false) by (apply Z.eqb_neq; lia).
  rewrite Ez.
  destruct (Qdiv_unit_interval (skipsOf (e :: rest)) (playsOf (e :: rest)))
    as [Hlo Hhi]; [lia | lia |].
  repeat split; try assumption; try lia.
Qed.

(** X2. The song table has one row per song key: the keys of its rows
    are pairwise different, they are the song keys of the accepted
    events, and [uniqueSongs] is the number of different song keys among
    the accepted events. *)
Theorem songRows_one_per_key :
  forall (Meta : Type) (records : list RawRecord) (meta : Meta),
    let report := buildReport records meta in
    NoDup (map rowSongKey report.(songRows))
    /\ (forall k, In k (map rowSongKey report.(songRows))
                  <-> exists e, In e (eventsOf records) /\ ev_songKey e = k)
    /\ report.(uniqueSongs)
       = Z.of_nat (List.length
                     (nodup string_dec (map ev_songKey (eventsOf records)))).
Proof.
  intros Meta records meta report.
  assert (Hrows : report.(songRows) = songRowsOf records).
  { subst report. cbn [songRows buildReport]. unfold songRowsOf.
    now rewrite aggregate_songMap. }
  pose proof (songRows_keys records) as Hperm. rewrite <- Hrows in Hperm.
  assert (Hnd : NoDup (map rowSongKey report.(songRows))).
  { apply (Permutation_NoDup (Permutation_sym Hperm)), groupBy_NoDup. }
  assert (Hkeys : forall k, In k (map rowSongKey report.(songRows))
                            <-> exists e, In e (eventsOf records) /\ ev_songKey e = k).
  { intros k. rewrite <- (groupBy_keys ev_songKey updSong).
    split; apply Permutation_in; [exact Hperm | now apply Permutation_sym]. }
  split; [exact Hnd |]. split; [exact Hkeys |].
  change (uniqueSongs report) with (Z.of_nat (List.length report.(songRows))).
  f_equal. rewrite <- (length_map rowSongKey).
  apply Permutation_length, NoDup_Permutation; [exact Hnd | apply NoDup_nodup |].
  intros k. rewrite Hkeys, nodup_In, in_map_iff.
  split; intros (e & H1 & H2); exists e; auto.
Qed.

Lemma songRow_totalMs_nonneg {Meta : Type} (records : list RawRecord)
  (meta : Meta) (row : SongRow) :
  In row (buildReport records meta).(songRows) -> 0 <= row.(totalMs).
Proof.
  intros Hin. cbn [songRows buildReport] in Hin.
  apply sortWith_In in Hin. apply in_map_iff in Hin.
  destruct Hin as (entry & <- & Hentry).
  apply songMap_entry in Hentry. destruct Hentry as (e & rest & Hes & ->).
  cbn [songRowOf totalMs se_totalMs]. apply sumMs_nonneg.
  intros x Hx. apply (event_invariant records x).
  rewrite <- Hes in Hx. now apply withSongKey_In in Hx.
Qed.

(** X3. When the durations of the accepted records add up to less than
    2^53 ms, nothing is lost or counted twice between the tables: the
    play counts of the song rows add up to the number of accepted
    records, their skip counts to the number of accepted records flagged
    as skipped, and the total times of the song rows, of the months and
    of the years each add up to the total time of the report, which is
    the sum of the sanitized durations of the accepted records and below
    2^53, so that adding the totals of the song rows as Numbers gives it
    exactly. *)
Theorem report_totals_conserved :
  forall (Meta : Type) (records : list RawRecord) (meta : Meta),
    sumMs (eventsOf records) < 2 ^ 53 ->
    let report := buildReport records meta in
    sumOf playCount report.(songRows) = report.(songRecordsUsed)
    /\ sumOf skipCount report.(songRows) = skipsOf (eventsOf records)
    /\ sumOf totalMs report.(songRows) = report.(totalSongMs)
    /\ report.(totalSongMs) = sumMs (eventsOf records)
    /\ sumOf mr_totalMs report.(monthlyMinutesRows) = report.(totalSongMs)
    /\ sumOf yr_totalMs report.(yearlyMinutesRows) = report.(totalSongMs)
    /\ 0 <= report.(totalSongMs) < 2 ^ 53
    /\ sumNumbers (map totalMs report.(songRows)) = report.(totalSongMs).
Proof.
  intros Meta records meta Hbound report.
  set (es := eventsOf records) in *.
  assert (Hsong : forall (measure : SongEntry -> Z) (weight : Event -> Z)
                         (field : SongRow -> Z),
             (forall entry, field (songRowOf entry) = measure entry) ->
             (forall e rest,
                 measure {| se_song := e.(ev_song);
                            se_artist := e.(ev_artist);
                            se_playCount := playsOf (e :: rest);
                            se_skipCount := skipsOf (e :: rest);
                            se_totalMs := sumMs (e :: rest);
                            se_albumCounter := observedCounter (map ev_album (e :: rest));
                            se_uriCounter := observedCounter (map ev_uri (e :: rest)) |}
                 = sumOf weight (e :: rest)) ->
             sumOf field report.(songRows) = sumOf weight es).
  { intros measure weight field Hfield Hmeasure.
    subst report. cbn [songRows buildReport].
    rewrite (sumOf_Permutation field _ _ (sortWith_Permutation _ _)).
    rewrite sumOf_map, aggregate_songMap.
    rewrite (sumOf_ext _ measure) by (intros; apply Hfield).
    apply (sumOf_groupBy ev_songKey weight updSong measure).
    intros k v Hget. rewrite groupBy_get in Hget.
    destruct (filter (fun e => keyb (ev_songKey e) k) _) as [| e rest];
      [discriminate |].
    rewrite accumulate_updSong in Hget. injection Hget as <-. apply Hmeasure. }
  assert (Hplays : sumOf playCount report.(songRows) = playsOf es).
  { rewrite playsOf_sumOf.
    apply (Hsong se_playCount (fun _ => 1) playCount); [reflexivity |].
    intros e rest. cbn [se_playCount]. apply playsOf_sumOf. }
  assert (Hskips : sumOf skipCount report.(songRows) = skipsOf es).
  { rewrite skipsOf_sumOf.
    apply (Hsong se_skipCount (fun e => boolToZ e.(ev_skipped)) skipCount);
      [reflexivity |].
    intros e rest. cbn [se_skipCount]. apply skipsOf_sumOf. }
  assert (Hms : sumOf totalMs report.(songRows) = sumMs es).
  { rewrite sumMs_sumOf.
    apply (Hsong se_totalMs ev_msPlayed totalMs); [reflexivity |].
    intros e rest. reflexivity. }
  assert (Htotal : report.(totalSongMs) = sumOf totalMs report.(songRows)).
  { subst report. cbn [totalSongMs songRows buildReport].
    rewrite sumOf_fold_left. lia. }
  assert (Hseries : forall (K : Type) (EK : EqKey K) (key : Event -> K),
             sumOf snd (groupBy key updMs es) = sumMs es).
  { intros K EK key. rewrite sumMs_sumOf.
    rewrite <- (sumOf_groupBy key ev_msPlayed updMs (fun v => v) es).
    - unfold mapValues. now rewrite sumOf_map.
    - intros k v Hget. rewrite groupBy_get in Hget.
      destruct (filter (fun e => keyb (key e) k) es) as [| e rest];
        [discriminate |].
      rewrite accumulate_updMs in Hget. now injection Hget as <-. }
  split.
  { rewrite Hplays. subst report. rewrite buildReport_songRecordsUsed.
    now rewrite countIf_isAccepted. }
  split; [exact Hskips |].
  split; [now rewrite Htotal |].
  split; [now rewrite Htotal |].
  assert (Hpos : 0 <= sumMs es).
  { apply sumMs_nonneg. intros e He. now apply (event_invariant records e). }
  rewrite Htotal, Hms. split.
  { subst report. cbn [monthlyMinutesRows buildReport].
    rewrite sumOf_map.
    rewrite (sumOf_Permutation _ _ _ (sortWith_Permutation _ _)).
    rewrite aggregate_monthlyMs.
    rewrite (sumOf_ext _ snd) by (intros [m v] _; reflexivity).
    apply Hseries. }
  split.
  { subst report. cbn [yearlyMinutesRows buildReport].
    rewrite sumOf_map.
    rewrite (sumOf_Permutation _ _ _ (sortWith_Permutation _ _)).
    rewrite aggregate_yearlyMs.
    rewrite (sumOf_ext _ snd) by (intros [y v] _; reflexivity).
    apply Hseries. }
  split; [lia |].
  rewrite <- Hms, <- (sumOf_map totalMs (fun x => x)).
  apply sumNumbers_exact.
  - intros x Hx. apply in_map_iff in Hx. destruct Hx as (row & <- & Hrow).
    now apply (songRow_totalMs_nonneg records meta).
  - rewrite sumOf_map. change (sumOf totalMs (songRows report) <= 2 ^ 53).
    rewrite Hms. lia.
Qed.

End SongRowProperties.

Lemma report_totals_conserved_witness :
  let report := @buildReport strictPlatform unit sampleHistory tt in
  report.(totalSongMs) = 5000
  /\ sumOf mr_totalMs report.(monthlyMinutesRows) = report.(totalSongMs)
  /\ sumOf yr_totalMs report.(yearlyMinutesRows) = report.(totalSongMs)
  /\ sumNumbers (map totalMs report.(songRows)) = report.(totalSongMs).
Proof.
  intros report. split; [vm_compute; reflexivity |].
  destruct (@report_totals_conserved strictPlatform unit sampleHistory tt)
    as (_ & _ & _ & _ & Hmonths & Hyears & _ & Hrows).
  - vm_compute. reflexivity.
  - repeat split; assumption.
Defined.

Lemma songRows_wellformed_witness :
  let rows := (@buildReport strictPlatform unit sampleHistory tt).(songRows) in
  let row := hd (rowOfCore (EmptyString, EmptyString, 0, 0, 0)) rows in
  In row rows
  /\ rowSummary row = ("Song C", "Artist B", 2, 3000)
  /\ 0 <= row.(skipCount) <= row.(playCount)
  /\ (row.(skipRate) <= 1)%Q.
Proof.
  intros rows row.
  assert (Hin : In row rows) by (vm_compute; left; reflexivity).
  split; [exact Hin |]. split; [vm_compute; reflexivity |].
  pose proof (@songRows_wellformed strictPlatform unit sampleHistory tt row Hin)
    as (_ & _ & _ & Hskips & _ & _ & _ & Hrate & _).
  split; [exact Hskips | exact Hrate].
Defined.

(** ** The empty report *)

Lemma groupBy_nil {E K V : Type} `{EqKey K} (key : E -> K)
  (upd : option V -> E -> V) (es : list E) :
  groupBy key upd es = [] <-> es = [].
Proof.
  split; [| now intros ->].
  destruct es as [| e es]; [reflexivity |]. intros Hnil.
  assert (Hin : In (key e) (mapKeys (groupBy key upd (e :: es))))
    by (apply groupBy_keys; exists e; split; [now left | reflexivity]).
  rewrite Hnil in Hin. contradiction.
Qed.

Lemma sortWith_nil {A : Type} (cmp : A -> A -> Z) (l : list A) :
  sortWith cmp l = [] <-> l = [].
Proof.
  rewrite <- !length_zero_iff_nil, sortWith_length. reflexivity.
Qed.

Lemma map_nil {A B : Type} (f : A -> B) (l : list A) : map f l = [] <-> l = [].
Proof. destruct l; cbn; split; congruence. Qed.

Lemma sliceFirst_nil {A : Type} (n : nat) (l : list A) :
  sliceFirst (S n) l = [] <-> l = [].
Proof. destruct l; cbn; split; congruence. Qed.

Lemma mapIndexed_nil {A B : Type} (f : A -> Z -> B) (index : Z) (l : list A) :
  mapIndexed f index l = [] <-> l = [].
Proof. destruct l; cbn; split; congruence. Qed.

Lemma pickPeak_None (rows : list PeriodRow) (value : PeriodRow -> Z)
  (key : PeriodRow -> string) :
  pickPeak rows value key = None <-> rows = [].
Proof.
  split; [| now intros ->].
  destruct rows as [| first rest]; [reflexivity |].
  unfold pickPeak. now destruct (fold_left _ rest first).
Qed.

Lemma dataRange_not_NA (a b : string) : (a ++ " - " ++ b)%string <> "N/A"%string.
Proof.
  destruct a as [| c0 [| c1 [| c2 [| c3 a]]]]; cbn; intros Heq;
    try discriminate Heq.
Qed.

(** The songs of a month that has an event. *)
Lemma monthlySongMap_get (es : list Event) (month : string) :
  In month (mapKeys (groupBy ev_monthKey updMonthSongs es)) ->
  withMonth month es <> []
  /\ mapGet (groupBy ev_monthKey updMonthSongs es) month
     = Some (groupBy ev_songKey updMonthSong (withMonth month es)).
Proof.
  intros Hin. apply groupBy_keys in Hin. destruct Hin as (e & He & Hm).
  assert (Hne : withMonth month es <> []).
  { intros Hnil.
    assert (Hin : In e (withMonth month es)).
    { unfold withMonth. apply filter_In. split; [exact He |]. now apply keyb_eq. }
    rewrite Hnil in Hin. contradiction. }
  split; [exact Hne |].
  rewrite groupBy_get, accumulate_updMonthSongs. fold (withMonth month es).
  now destruct (withMonth month es).
Qed.

Section EmptyReport.
Context {P : Platform}.

Lemma top3RowsOfMonth_nil (es : list Event) (month : string) :
  In month (mapKeys (groupBy ev_monthKey updMonthSongs es)) ->
  top3RowsOfMonth (groupBy ev_monthKey updMonthSongs es) month <> [].
Proof.
  intros Hin. destruct (monthlySongMap_get es month Hin) as [Hne Hget].
  unfold top3RowsOfMonth. rewrite Hget.
  rewrite mapIndexed_nil, sliceFirst_nil, sortWith_nil.
  intros Hnil. apply groupBy_nil in Hnil. contradiction.
Qed.

Lemma songRecordsUsed_zero {Meta : Type} (records : list RawRecord) (meta : Meta) :
  (buildReport records meta).(songRecordsUsed) = 0 <-> eventsOf records = [].
Proof.
  rewrite buildReport_songRecordsUsed, countIf_isAccepted.
  rewrite <- length_zero_iff_nil. lia.
Qed.

Lemma songRows_nil {Meta : Type} (records : list RawRecord) (meta : Meta) :
  (buildReport records meta).(songRows) = [] <-> eventsOf records = [].
Proof.
  cbn [songRows buildReport].
  rewrite sortWith_nil, map_nil. unfold mapValues. rewrite map_nil.
  rewrite aggregate_songMap. apply groupBy_nil.
Qed.

Lemma monthlyMinutesRows_nil {Meta : Type} (records : list RawRecord)
  (meta : Meta) :
  (buildReport records meta).(monthlyMinutesRows) = [] <-> eventsOf records = [].
Proof.
  cbn [monthlyMinutesRows buildReport].
  rewrite map_nil, sortWith_nil, aggregate_monthlyMs. apply groupBy_nil.
Qed.

Lemma yearlyMinutesRows_nil {Meta : Type} (records : list RawRecord)
  (meta : Meta) :
  (buildReport records meta).(yearlyMinutesRows) = [] <-> eventsOf records = [].
Proof.
  cbn [yearlyMinutesRows buildReport].
  rewrite map_nil, sortWith_nil, aggregate_yearlyMs. apply groupBy_nil.
Qed.

Lemma peaks_None {Meta : Type} (records : list RawRecord) (meta : Meta) :
  ((buildReport records meta).(peakMonth) = None <-> eventsOf records = [])
  /\ ((buildReport records meta).(peakYear) = None <-> eventsOf records = []).
Proof.
  split.
  - rewrite <- (monthlyMinutesRows_nil records meta).
    cbn [peakMonth monthlyMinutesRows buildReport].
    now rewrite pickPeak_None, map_nil.
  - rewrite <- (yearlyMinutesRows_nil records meta).
    cbn [peakYear yearlyMinutesRows buildReport].
    now rewrite pickPeak_None, map_nil.
Qed.

Lemma dataRange_NA {Meta : Type} (records : list RawRecord) (meta : Meta) :
  (buildReport records meta).(dataRange) = "N/A"%string <-> eventsOf records = [].
Proof.
  rewrite <- (monthlyMinutesRows_nil records meta).
  change ((buildReport records meta).(dataRange))
    with (match (buildReport records meta).(monthlyMinutesRows) with
          | [] => "N/A"%string
          | first :: _ =>
              (first.(mr_monthLabel) ++ " - "
               ++ (last (buildReport records meta).(monthlyMinutesRows) first).(mr_monthLabel))%string
          end).
  destruct (monthlyMinutesRows (buildReport records meta)) as [| first rest].
  - split; reflexivity.
  - split; [| discriminate]. intros Heq. exfalso.
    now apply dataRange_not_NA in Heq.
Qed.

(** X4. A report is empty all at once: no record is accepted exactly
    when the song table is empty, and exactly when the monthly series,
    the yearly series, the artist ranking, the rankings by play count and
    by time, the monthly Top-3, the peak month or the peak year is
    missing, and exactly when the data range reads "N/A". *)
Theorem report_empty_iff :
  forall (Meta : Type) (records : list RawRecord) (meta : Meta),
    let report := buildReport records meta in
    let none := report.(songRecordsUsed) = 0 in
    (none <-> eventsOf records = [])
    /\ (none <-> report.(songRows) = [])
    /\ (none <-> report.(top10ByPlayCount) = [])
    /\ (none <-> report.(top10ByTime) = [])
    /\ (none <-> report.(topArtistsByMinutes) = [])
    /\ (none <-> report.(top3PerMonthRows) = [])
    /\ (none <-> report.(monthlyMinutesRows) = [])
    /\ (none <-> report.(yearlyMinutesRows) = [])
    /\ (none <-> report.(peakMonth) = None)
    /\ (none <-> report.(peakYear) = None)
    /\ (none <-> report.(dataRange) = "N/A"%string)
    /\ (none <-> report.(uniqueSongs) = 0).
Proof.
  intros Meta records meta report none.
  pose proof (songRecordsUsed_zero records meta) as Hnone. fold report none in Hnone.
  pose proof (songRows_nil records meta) as Hrows. fold report in Hrows.
  split; [exact Hnone |].
  split; [now rewrite Hrows |].
  split.
  { rewrite Hnone, <- Hrows. subst report. cbn [top10ByPlayCount songRows buildReport].
    rewrite sliceFirst_nil, !sortWith_nil. reflexivity. }
  split.
  { rewrite Hnone, <- Hrows. subst report. cbn [top10ByTime songRows buildReport].
    rewrite sliceFirst_nil, !sortWith_nil. reflexivity. }
  split.
  { rewrite Hnone. subst report. cbn [topArtistsByMinutes buildReport].
    rewrite sliceFirst_nil, sortWith_nil, map_nil. unfold mapValues.
    rewrite map_nil, aggregate_artistMap. symmetry. apply groupBy_nil. }
  split.
  { rewrite Hnone. subst report. cbn [top3PerMonthRows buildReport].
    rewrite aggregate_monthlySongMap. split; [now intros -> |].
    destruct (sortWith localeCompare
                (mapKeys (groupBy ev_monthKey updMonthSongs (eventsOf records))))
      as [| month months] eqn:Es.
    - intros _. apply sortWith_nil in Es. unfold mapKeys in Es.
      apply map_nil in Es. now apply groupBy_nil in Es.
    - cbn [flat_map]. intros Hnil. apply app_eq_nil in Hnil.
      destruct Hnil as [Hnil _]. exfalso. revert Hnil.
      apply top3RowsOfMonth_nil. apply (sortWith_In localeCompare).
      rewrite Es. now left. }
  split; [rewrite Hnone; symmetry; apply monthlyMinutesRows_nil |].
  split; [rewrite Hnone; symmetry; apply yearlyMinutesRows_nil |].
  split; [rewrite Hnone; symmetry; apply peaks_None |].
  split; [rewrite Hnone; symmetry; apply peaks_None |].
  split; [rewrite Hnone; symmetry; apply dataRange_NA |].
  rewrite Hnone, <- Hrows.
  change (uniqueSongs report) with (Z.of_nat (List.length report.(songRows))).
  rewrite <- length_zero_iff_nil. lia.
Qed.

(** X5. A report that [handleProcess] hands over is never empty: it
    is the report of [buildReport], it used at least one record and not
    more than were read, and it has a song row, a peak month, a peak year
    and a data range. *)
Theorem handleProcess_report_nonempty :
  forall (Meta : Type) (records : list RawRecord) (meta : Meta)
         (report : Report Meta),
    handleProcess records meta = inr report ->
    report = buildReport records meta
    /\ 1 <= report.(songRecordsUsed) <= report.(totalRecordsRead)
    /\ report.(songRows) <> []
    /\ report.(peakMonth) <> None
    /\ report.(peakYear) <> None
    /\ report.(dataRange) <> "N/A"%string.
Proof.
  intros Meta records meta report Hrun.
  rewrite handleProcess_cases in Hrun.
  destruct (countIf isAccepted records =? 0) eqn:Ez; [discriminate |].
  injection Hrun as <-. apply Z.eqb_neq in Ez.
  split; [reflexivity |].
  assert (Hevents : eventsOf records <> []).
  { rewrite <- (songRecordsUsed_zero records meta).
    now rewrite buildReport_songRecordsUsed. }
  split.
  { rewrite buildReport_songRecordsUsed in *.
    cbn [totalRecordsRead buildReport]. unfold countIf in *.
    pose proof (filter_length_le isAccepted records). lia. }
  split; [now rewrite songRows_nil |].
  split; [now rewrite (proj1 (peaks_None records meta)) |].
  split; [now rewrite (proj2 (peaks_None records meta)) |].
  now rewrite dataRange_NA.
Qed.

End EmptyReport.

Lemma handleProcess_report_nonempty_witness :
  let report := @buildReport strictPlatform unit sampleHistory tt in
  @handleProcess strictPlatform unit sampleHistory tt = inr report
  /\ 1 <= report.(songRecordsUsed) <= report.(totalRecordsRead)
  /\ report.(songRows) <> [].
Proof.
  intros report.
  assert (Hrun : @handleProcess strictPlatform unit sampleHistory tt = inr report)
    by (vm_compute; reflexivity).
  split; [exact Hrun |].
  pose proof (@handleProcess_report_nonempty strictPlatform unit sampleHistory tt
                report Hrun) as (_ & Hused & Hrows & _).
  split; [exact Hused | exact Hrows].
Defined.

(** ** The rankings cut to their first rows *)

Lemma StronglySorted_app_cross {A : Type} (R : A -> A -> Prop) (l l' : list A) :
  StronglySorted R (l ++ l')%list ->
  forall a b, In a l -> In b l' -> R a b.
Proof.
  induction l as [| x l IH]; cbn [app]; intros Hs a b Ha Hb; [contradiction |].
  inversion Hs as [| ? ? Hs' Hall]; subst.
  destruct Ha as [<- | Ha].
  - rewrite Forall_forall in Hall. apply Hall, in_or_app. now right.
  - now apply IH.
Qed.

Lemma isTopOf_sortWith {A : Type} (cmp : A -> A -> Z) (n : nat) (l : list A) :
  Consistent cmp ->
  isTopOf (notAfter cmp) n l (sliceFirst n (sortWith cmp l)).
Proof.
  intros Hc. unfold isTopOf, sliceFirst.
  split; [apply firstn_le_length |].
  split; [now rewrite length_firstn, sortWith_length |].
  split; [apply StronglySorted_firstn, sortWith_StronglySorted, Hc |].
  split.
  - intros x Hx. apply (sortWith_In cmp). eapply In_firstn, Hx.
  - intros a b Ha Hb Hnot.
    apply (StronglySorted_app_cross (notAfter cmp) (firstn n (sortWith cmp l))
             (skipn n (sortWith cmp l))).
    + rewrite firstn_skipn. apply sortWith_StronglySorted, Hc.
    + exact Ha.
    + apply (sortWith_In cmp) in Hb. rewrite <- (firstn_skipn n) in Hb.
      apply in_app_or in Hb. destruct Hb as [Hb | Hb]; [contradiction | exact Hb].
Qed.

Lemma isTopOf_weaken {A : Type} (R R' : A -> A -> Prop) (n : nat)
  (l top : list A) :
  (forall a b, R a b -> R' a b) -> isTopOf R n l top -> isTopOf R' n l top.
Proof.
  intros Himp (H1 & H2 & H3 & H4 & H5).
  repeat split; try assumption.
  - now apply (StronglySorted_iff R R').
  - intros a b Ha Hb Hnot. now apply Himp, H5.
Qed.

Section TopRows.
Context {P : Platform}.

Lemma compareSongsByListenTime_order (a b : SongRow) :
  compareSongsByListenTime a b <= 0 <-> byListenTimeOrder a b.
Proof.
  unfold compareSongsByListenTime, byListenTimeOrder.
  rewrite !orElse_le. lia.
Qed.

Lemma compareSongsBySkipCount_order (a b : SongRow) :
  compareSongsBySkipCount a b <= 0 <-> bySkipCountOrder a b.
Proof.
  unfold compareSongsBySkipCount, bySkipCountOrder.
  rewrite !orElse_le. lia.
Qed.

Lemma compareArtistsByTime_order (a b : ArtistRow) :
  compareArtistsByTime a b <= 0 <-> byArtistTimeOrder a b.
Proof.
  unfold compareArtistsByTime, byArtistTimeOrder.
  rewrite !orElse_le. lia.
Qed.

Lemma artistRowsOf_row (records : list RawRecord) (row : ArtistRow) :
  In row (artistRowsOf records) ->
  exists e rest,
    withArtist row.(ar_artist) (eventsOf records) = e :: rest
    /\ row = {| ar_artist := e.(ev_artist);
                ar_playCount := playsOf (e :: rest);
                ar_skipCount := skipsOf (e :: rest);
                ar_totalMs := sumMs (e :: rest);
                ar_totalMinutes := toMinutes (sumMs (e :: rest)) |}.
Proof.
  unfold artistRowsOf, mapValues. rewrite map_map. intros Hin.
  apply in_map_iff in Hin. destruct Hin as ([k entry] & <- & Hin).
  cbn [snd]. pose proof (artistMap_entry _ _ _ Hin) as Hk.
  apply In_mapGet in Hin; [| apply groupBy_NoDup].
  rewrite groupBy_get in Hin. fold (withArtist k (eventsOf records)) in Hin.
  cbn [artistRowOf ar_artist]. rewrite Hk.
  destruct (withArtist k (eventsOf records)) as [| e rest]; [discriminate |].
  rewrite accumulate_updArtist in Hin. injection Hin as <-.
  exists e, rest. split; reflexivity.
Qed.

Lemma artistRowsOf_artists (records : list RawRecord) :
  map ar_artist (artistRowsOf records)
  = mapKeys (groupBy ev_artist updArtist (eventsOf records)).
Proof.
  unfold artistRowsOf, mapValues, mapKeys. rewrite !map_map.
  apply map_ext_in. intros [k entry] Hin. cbn [fst snd artistRowOf ar_artist].
  now apply artistMap_entry with (l := eventsOf records).
Qed.

Hypothesis collation : Consistent localeCompare.

Lemma compareSongsByListenTime_Consistent : Consistent compareSongsByListenTime.
Proof.
  unfold compareSongsByListenTime.
  apply (Consistent_orElse (fun a b : SongRow => b.(totalMs) - a.(totalMs))).
  { apply (Consistent_descending totalMs). }
  apply (Consistent_orElse (fun a b : SongRow => b.(playCount) - a.(playCount))).
  { apply (Consistent_descending playCount). }
  apply (Consistent_orElse
           (fun a b : SongRow => localeCompare a.(artist) b.(artist))
           (fun a b : SongRow => localeCompare a.(song) b.(song))).
  - apply (Consistent_on artist localeCompare collation).
  - apply (Consistent_on song localeCompare collation).
Qed.

Lemma compareSongsBySkipCount_Consistent : Consistent compareSongsBySkipCount.
Proof.
  unfold compareSongsBySkipCount.
  apply (Consistent_orElse (fun a b : SongRow => b.(skipCount) - a.(skipCount))).
  { apply (Consistent_descending skipCount). }
  apply (Consistent_orElse (fun a b : SongRow => b.(playCount) - a.(playCount))).
  { apply (Consistent_descending playCount). }
  apply (Consistent_orElse
           (fun a b : SongRow => localeCompare a.(artist) b.(artist))
           (fun a b : SongRow => localeCompare a.(song) b.(song))).
  - apply (Consistent_on artist localeCompare collation).
  - apply (Consistent_on song localeCompare collation).
Qed.

(** X6. The Top-10 by listening time is the first ten rows of the song
    table ranked by total time descending, then play count descending,
    then artist and song ascending: it has ten rows, or all rows of the
    song table when there are fewer, it is in that order, and no row of
    the song table it leaves out is ranked before one of its rows. *)
Theorem top10ByTime_ranked :
  forall (Meta : Type) (records : list RawRecord) (meta : Meta),
    let report := buildReport records meta in
    isTopOf byListenTimeOrder 10 report.(songRows) report.(top10ByTime).
Proof.
  intros Meta records meta report. subst report.
  cbn [top10ByTime songRows buildReport].
  apply (isTopOf_weaken (notAfter compareSongsByListenTime)).
  - intros a b. apply compareSongsByListenTime_order.
  - apply isTopOf_sortWith, compareSongsByListenTime_Consistent.
Qed.

(** X7. The Top-10 of skipped songs ranks the rows of the song table that
    were skipped at least once, and only them, by skip count descending,
    then play count descending, then artist and song ascending, and keeps
    the first ten; a song never skipped is not listed, however few rows
    there are. *)
Theorem top10Skipped_ranked :
  forall (Meta : Type) (records : list RawRecord) (meta : Meta),
    let report := buildReport records meta in
    isTopOf bySkipCountOrder 10
      (filter (fun row => row.(skipCount) >? 0) report.(songRows))
      report.(top10Skipped)
    /\ (forall row, In row report.(top10Skipped) ->
                    In row report.(songRows) /\ 1 <= row.(skipCount))
    /\ (forall row, In row report.(songRows) -> 1 <= row.(skipCount) ->
                    In row report.(top10Skipped)
                    \/ List.length report.(top10Skipped) = 10%nat).
Proof.
  intros Meta records meta report.
  assert (Htop : isTopOf bySkipCountOrder 10
                   (filter (fun row => row.(skipCount) >? 0) report.(songRows))
                   report.(top10Skipped)).
  { subst report. cbn [top10Skipped songRows buildReport].
    apply (isTopOf_weaken (notAfter compareSongsBySkipCount)).
    - intros a b. apply compareSongsBySkipCount_order.
    - apply isTopOf_sortWith, compareSongsBySkipCount_Consistent. }
  split; [exact Htop |].
  destruct Htop as (_ & Hlen & _ & Hin & _).
  split.
  - intros row Hrow. apply Hin, filter_In in Hrow. destruct Hrow as [Hrow Hskip].
    split; [exact Hrow | lia].
  - intros row Hrow Hskip.
    destruct (Nat.eq_dec (List.length report.(top10Skipped)) 10) as [E | E];
      [now right | left].
    assert (Hall : report.(top10Skipped)
                   = sortWith compareSongsBySkipCount
                       (filter (fun row => row.(skipCount) >? 0) report.(songRows))).
    { subst report. cbn [top10Skipped songRows buildReport] in *.
      unfold sliceFirst in *. apply firstn_all2.
      rewrite sortWith_length. lia. }
    rewrite Hall. apply (sortWith_In compareSongsBySkipCount), filter_In.
    split; [exact Hrow | lia].
Qed.

(** X8. When the durations of the accepted records add up to less than
    2^53 ms, the artist ranking is the first ten rows of the artist table
    ranked by total time descending, then play count descending, then
    artist ascending.  The artist table has one row per artist of an
    accepted record, and the row of an artist holds the number of that
    artist's accepted plays, the number of them flagged as skipped and
    the sum of their durations, which is below 2^53 and is what adding
    them as Numbers in the order of the input gives. *)
Theorem topArtists_ranked :
  forall (Meta : Type) (records : list RawRecord) (meta : Meta),
    sumMs (eventsOf records) < 2 ^ 53 ->
    let report := buildReport records meta in
    isTopOf byArtistTimeOrder 10 (artistRowsOf records)
      report.(topArtistsByMinutes)
    /\ NoDup (map ar_artist (artistRowsOf records))
    /\ (forall name, In name (map ar_artist (artistRowsOf records))
                     <-> exists e, In e (eventsOf records) /\ e.(ev_artist) = name)
    /\ (forall row, In row (artistRowsOf records) ->
                    let plays := withArtist row.(ar_artist) (eventsOf records) in
                    row.(ar_artist) <> EmptyString
                    /\ row.(ar_playCount) = playsOf plays
                    /\ row.(ar_skipCount) = skipsOf plays
                    /\ row.(ar_totalMs) = sumMs plays
                    /\ row.(ar_totalMinutes) = toMinutes (sumMs plays)
                    /\ 1 <= row.(ar_playCount)
                    /\ 0 <= row.(ar_totalMs) < 2 ^ 53
                    /\ sumNumbers (map ev_msPlayed plays) = row.(ar_totalMs)).
Proof.
  intros Meta records meta Hbound report.
  split.
  { subst report. cbn [topArtistsByMinutes buildReport].
    rewrite aggregate_artistMap. fold (artistRowsOf records).
    apply (isTopOf_weaken (notAfter compareArtistsByTime)).
    - intros a b. apply compareArtistsByTime_order.
    - apply isTopOf_sortWith, compareArtistsByTime_Consistent, collation. }
  rewrite artistRowsOf_artists.
  split; [apply groupBy_NoDup |].
  split; [intros name; apply groupBy_keys |].
  intros row Hrow plays. subst plays.
  destruct (artistRowsOf_row records row Hrow) as (e & rest & Hes & Hrow').
  destruct (selection_exact records (fun x => keyb (ev_artist x) row.(ar_artist))
              Hbound) as [Hrange Hexact].
  fold (withArtist row.(ar_artist) (eventsOf records)) in Hrange, Hexact.
  rewrite Hes in Hrange, Hexact |- *.
  assert (He : In e (eventsOf records)).
  { assert (Hin : In e (withArtist row.(ar_artist) (eventsOf records)))
      by (rewrite Hes; now left).
    unfold withArtist in Hin. now apply filter_In in Hin. }
  destruct (event_invariant records e He) as (_ & Hartist & _).
  rewrite Hrow'. cbn [ar_artist ar_playCount ar_skipCount ar_totalMs ar_totalMinutes].
  split; [exact Hartist |].
  do 4 (split; [reflexivity |]).
  split; [rewrite playsOf_cons; unfold playsOf; lia |].
  split; [exact Hrange | exact Hexact].
Qed.

End TopRows.

Lemma top10ByTime_ranked_witness :
  let report := @buildReport strictPlatform unit sampleHistory tt in
  map rowSummary report.(top10ByTime)
  = [("Song C", "Artist B", 2, 3000); ("Song A", "Artist A", 1, 1000);
     ("Song B", "Artist A", 1, 1000)]
  /\ isTopOf (@byListenTimeOrder strictPlatform) 10 report.(songRows)
       report.(top10ByTime).
Proof.
  intros report. split; [vm_compute; reflexivity |].
  exact (@top10ByTime_ranked strictPlatform codeUnitCompare_Consistent unit
           sampleHistory tt).
Defined.

Lemma top10Skipped_ranked_witness :
  let report := @buildReport strictPlatform unit sampleHistory tt in
  map rowSummary report.(top10Skipped)
  = [("Song C", "Artist B", 2, 3000); ("Song A", "Artist A", 1, 1000)]
  /\ forall row, In row report.(top10Skipped) ->
                 In row report.(songRows) /\ 1 <= row.(skipCount).
Proof.
  intros report. split; [vm_compute; reflexivity |].
  exact (proj1 (proj2 (@top10Skipped_ranked strictPlatform
                         codeUnitCompare_Consistent unit sampleHistory tt))).
Defined.

Lemma topArtists_ranked_witness :
  let report := @buildReport strictPlatform unit sampleHistory tt in
  map (fun row => (row.(ar_artist), row.(ar_playCount), row.(ar_totalMs)))
      report.(topArtistsByMinutes)
  = [("Artist B", 2, 3000); ("Artist A", 2, 2000)]
  /\ isTopOf (@byArtistTimeOrder strictPlatform) 10
       (@artistRowsOf strictPlatform sampleHistory) report.(topArtistsByMinutes).
Proof.
  intros report. split; [vm_compute; reflexivity |].
  assert (Hbound : sumMs (@eventsOf strictPlatform sampleHistory) < 2 ^ 53)
    by (vm_compute; reflexivity).
  exact (proj1 (@topArtists_ranked strictPlatform codeUnitCompare_Consistent unit
                  sampleHistory tt Hbound)).
Defined.

(** ** The monthly and the yearly series *)

Lemma StronglySorted_map {A B : Type} (f : A -> B) (R : B -> B -> Prop)
  (l : list A) :
  StronglySorted (fun a b => R (f a) (f b)) l -> StronglySorted R (map f l).
Proof.
  induction 1 as [| x l Hs IH Hall]; cbn [map]; constructor; [exact IH |].
  rewrite Forall_forall in *. intros y Hy. apply in_map_iff in Hy.
  destruct Hy as (z & <- & Hz). now apply Hall.
Qed.

Lemma StronglySorted_NoDup_strict {A : Type} (R : A -> A -> Prop) (l : list A) :
  StronglySorted R l -> NoDup l -> StronglySorted (fun a b => R a b /\ a <> b) l.
Proof.
  induction 1 as [| x l Hs IH Hall]; intros Hnd; constructor.
  - apply IH. now inversion Hnd.
  - inversion Hnd as [| ? ? Hx _]; subst. rewrite Forall_forall in *.
    intros y Hy. split; [now apply Hall |]. intros ->. contradiction.
Qed.

Section SeriesFacts.
Context {K : Type} `{EqKey K}.
Variable key : Event -> K.
Variable keycmp : K -> K -> Z.
Hypothesis keycmp_consistent : Consistent keycmp.
Variable es : list Event.

Let series : list (K * Z) :=
  sortWith (fun a b => keycmp (fst a) (fst b)) (groupBy key updMs es).

Lemma series_sorted :
  StronglySorted (fun a b => keycmp a b <= 0 /\ a <> b) (map fst series).
Proof.
  apply StronglySorted_NoDup_strict.
  - apply StronglySorted_map.
    apply (sortWith_StronglySorted (fun a b : K * Z => keycmp (fst a) (fst b))).
    apply (Consistent_on fst keycmp keycmp_consistent).
  - apply (Permutation_NoDup (l := mapKeys (groupBy key updMs es))).
    + apply Permutation_map, Permutation_sym, sortWith_Permutation.
    + apply groupBy_NoDup.
Qed.

Lemma series_keys (k : K) :
  In k (map fst series) <-> exists e, In e es /\ key e = k.
Proof.
  rewrite <- (groupBy_keys key updMs). unfold mapKeys.
  split; apply Permutation_in, Permutation_map;
    [| apply Permutation_sym]; apply sortWith_Permutation.
Qed.

Lemma series_total (k : K) (total : Z) :
  In (k, total) series ->
  total = sumMs (filter (fun e => keyb (key e) k) es)
  /\ 0 < playsOf (filter (fun e => keyb (key e) k) es).
Proof.
  intros Hin. apply sortWith_In in Hin.
  apply In_mapGet in Hin; [| apply groupBy_NoDup].
  rewrite groupBy_get in Hin.
  destruct (filter (fun e => keyb (key e) k) es) as [| e rest]; [discriminate |].
  rewrite accumulate_updMs in Hin. injection Hin as <-.
  split; [reflexivity |]. rewrite playsOf_cons. unfold playsOf. lia.
Qed.

End SeriesFacts.

Section SeriesProperties.
Context {P : Platform}.

(** X9. When the durations of the accepted records add up to less than
    2^53 ms, the yearly series has one row per UTC year of an accepted
    record, in strictly ascending order of the year; the row of a year
    holds the sum of the durations of the accepted records of that year,
    which is not negative, below 2^53 and what adding them as Numbers in
    the order of the input gives, and its minutes and hours are that sum
    divided by 60000 and by 3600000. *)
Theorem yearlyMinutesRows_series :
  forall (Meta : Type) (records : list RawRecord) (meta : Meta),
    sumMs (eventsOf records) < 2 ^ 53 ->
    let rows := (buildReport records meta).(yearlyMinutesRows) in
    StronglySorted Z.lt (map yr_year rows)
    /\ (forall year, In year (map yr_year rows)
                     <-> exists e, In e (eventsOf records) /\ e.(ev_yearKey) = year)
    /\ (forall row, In row rows ->
                    row.(yr_totalMs) = sumMs (withYear row.(yr_year) (eventsOf records))
                    /\ 0 <= row.(yr_totalMs) < 2 ^ 53
                    /\ sumNumbers (map ev_msPlayed
                                      (withYear row.(yr_year) (eventsOf records)))
                       = row.(yr_totalMs)
                    /\ row.(yr_minutes) = toMinutes row.(yr_totalMs)
                    /\ row.(yr_hours) = toHours row.(yr_totalMs)).
Proof.
  intros Meta records meta Hbound rows. subst rows.
  cbn [yearlyMinutesRows buildReport]. rewrite aggregate_yearlyMs.
  set (series := sortWith (fun a b : Z * Z => fst a - fst b)
                   (groupBy ev_yearKey updMs (eventsOf records))).
  assert (Hyears : map yr_year (map yearRowOf series) = map fst series).
  { rewrite map_map. apply map_ext. now intros [y v]. }
  rewrite Hyears.
  split.
  { apply StronglySorted_iff with (R := fun a b : Z => a - b <= 0 /\ a <> b).
    - intros a b. lia.
    - apply (series_sorted ev_yearKey (fun a b : Z => a - b)).
      apply (Consistent_ascending (fun y : Z => y)). }
  split.
  { intros year. apply (series_keys ev_yearKey (fun a b : Z => a - b)). }
  intros row Hrow. apply in_map_iff in Hrow.
  destruct Hrow as ([year total] & <- & Hin).
  cbn [yearRowOf yr_year yr_totalMs yr_minutes yr_hours].
  destruct (series_total ev_yearKey (fun a b : Z => a - b) _ _ _ Hin) as [Htotal _].
  destruct (selection_exact records (fun e => keyb (ev_yearKey e) year) Hbound)
    as [Hrange Hexact].
  fold (withYear year (eventsOf records)) in Htotal, Hrange, Hexact.
  rewrite <- Htotal in Hrange, Hexact.
  split; [exact Htotal |]. split; [exact Hrange |]. split; [exact Hexact |].
  split; reflexivity.
Qed.

Hypothesis collation : Consistent localeCompare.

(** X10. When the durations of the accepted records add up to less
    than 2^53 ms, the monthly series has one row per UTC month of an
    accepted record, each month standing before every later one in the
    order of [localeCompare] and no month standing twice; the row of a
    month holds the sum of the durations of the accepted records of that
    month, which is below 2^53 and what adding them as Numbers in the
    order of the input gives, and its label is the formatted month key. *)
Theorem monthlyMinutesRows_series :
  forall (Meta : Type) (records : list RawRecord) (meta : Meta),
    sumMs (eventsOf records) < 2 ^ 53 ->
    let rows := (buildReport records meta).(monthlyMinutesRows) in
    StronglySorted (fun a b => localeCompare a b <= 0 /\ a <> b)
                   (map mr_month rows)
    /\ (forall month, In month (map mr_month rows)
                      <-> exists e, In e (eventsOf records)
                                    /\ e.(ev_monthKey) = month)
    /\ (forall row, In row rows ->
                    row.(mr_totalMs)
                    = sumMs (withMonth row.(mr_month) (eventsOf records))
                    /\ 0 <= row.(mr_totalMs) < 2 ^ 53
                    /\ sumNumbers (map ev_msPlayed
                                      (withMonth row.(mr_month) (eventsOf records)))
                       = row.(mr_totalMs)
                    /\ row.(mr_monthLabel) = formatMonthLabel row.(mr_month)
                    /\ row.(mr_minutes) = toMinutes row.(mr_totalMs)
                    /\ row.(mr_hours) = toHours row.(mr_totalMs)).
Proof.
  intros Meta records meta Hbound rows. subst rows.
  cbn [monthlyMinutesRows buildReport]. rewrite aggregate_monthlyMs.
  set (series := sortWith (fun a b : string * Z => localeCompare (fst a) (fst b))
                   (groupBy ev_monthKey updMs (eventsOf records))).
  assert (Hmonths : map mr_month (map monthRowOf series) = map fst series).
  { rewrite map_map. apply map_ext. now intros [m v]. }
  rewrite Hmonths.
  split; [apply (series_sorted ev_monthKey localeCompare collation) |].
  split; [intros month; apply (series_keys ev_monthKey localeCompare) |].
  intros row Hrow. apply in_map_iff in Hrow.
  destruct Hrow as ([month total] & <- & Hin).
  cbn [monthRowOf mr_month mr_totalMs mr_monthLabel mr_minutes mr_hours].
  destruct (series_total ev_monthKey localeCompare _ _ _ Hin) as [Htotal _].
  destruct (selection_exact records (fun e => keyb (ev_monthKey e) month) Hbound)
    as [Hrange Hexact].
  fold (withMonth month (eventsOf records)) in Htotal, Hrange, Hexact.
  rewrite <- Htotal in Hrange, Hexact.
  split; [exact Htotal |]. split; [exact Hrange |]. split; [exact Hexact |].
  repeat split; reflexivity.
Qed.

End SeriesProperties.

Lemma yearlyMinutesRows_series_witness :
  let rows := (@buildReport strictPlatform unit sampleHistory tt).(yearlyMinutesRows) in
  map (fun row => (row.(yr_year), row.(yr_totalMs))) rows
  = [(2023, 2500); (2024, 2500)]
  /\ StronglySorted Z.lt (map yr_year rows).
Proof.
  intros rows. split; [vm_compute; reflexivity |].
  assert (Hbound : sumMs (@eventsOf strictPlatform sampleHistory) < 2 ^ 53)
    by (vm_compute; reflexivity).
  exact (proj1 (@yearlyMinutesRows_series strictPlatform unit sampleHistory tt
                  Hbound)).
Defined.

Lemma monthlyMinutesRows_series_witness :
  let rows := (@buildReport strictPlatform unit sampleHistory tt).(monthlyMinutesRows) in
  map (fun row => (row.(mr_month), row.(mr_monthLabel), row.(mr_totalMs))) rows
  = [("2023-05", "May 2023", 2000); ("2023-06", "Jun 2023", 500);
     ("2024-01", "Jan 2024", 2500)]
  /\ StronglySorted (fun a b => codeUnitCompare a b <= 0 /\ a <> b)
                    (map mr_month rows).
Proof.
  intros rows. split; [vm_compute; reflexivity |].
  assert (Hbound : sumMs (@eventsOf strictPlatform sampleHistory) < 2 ^ 53)
    by (vm_compute; reflexivity).
  exact (proj1 (@monthlyMinutesRows_series strictPlatform
                  codeUnitCompare_Consistent unit sampleHistory tt Hbound)).
Defined.

(** ** The monthly Top-3 *)

Lemma StronglySorted_app {A : Type} (R : A -> A -> Prop) (l l' : list A) :
  StronglySorted R l -> StronglySorted R l' ->
  (forall a b, In a l -> In b l' -> R a b) ->
  StronglySorted R (l ++ l')%list.
Proof.
  induction 1 as [| x l Hs IH Hall]; cbn [app]; intros Hs' Hcross; [exact Hs' |].
  constructor.
  - apply IH; [exact Hs' |]. intros a b Ha Hb. apply Hcross; [now right | exact Hb].
  - rewrite Forall_forall in *. intros y Hy. apply in_app_or in Hy.
    destruct Hy as [Hy | Hy]; [now apply Hall |]. apply Hcross; [now left | exact Hy].
Qed.

Lemma StronglySorted_constant {A : Type} (R : A -> A -> Prop) (x : A)
  (l : list A) :
  R x x -> (forall y, In y l -> y = x) -> StronglySorted R l.
Proof.
  intros Hx. induction l as [| y l IH]; intros Hall; constructor.
  - apply IH. intros z Hz. apply Hall. now right.
  - rewrite Forall_forall. intros z Hz.
    rewrite (Hall y (or_introl eq_refl)), (Hall z (or_intror Hz)). exact Hx.
Qed.

Section TaggedRows.
Context {K R : Type} `{EqKey K}.
Variable rowsOf : K -> list R.
Variable tag : R -> K.
Hypothesis rows_tagged : forall k r, In r (rowsOf k) -> tag r = k.

Lemma flat_map_tags_sorted (order : K -> K -> Prop) (ks : list K) :
  (forall k, order k k) -> StronglySorted order ks ->
  StronglySorted order (map tag (flat_map rowsOf ks)).
Proof.
  intros Hrefl. induction 1 as [| k ks Hs IH Hall]; cbn [flat_map map];
    [constructor |].
  rewrite map_app. apply StronglySorted_app; [| exact IH |].
  - apply (StronglySorted_constant order k); [apply Hrefl |].
    intros y Hy. apply in_map_iff in Hy. destruct Hy as (r & <- & Hr).
    now apply rows_tagged.
  - intros a b Ha Hb. apply in_map_iff in Ha. destruct Ha as (r & <- & Hr).
    rewrite (rows_tagged k r Hr).
    apply in_map_iff in Hb. destruct Hb as (r' & <- & Hr').
    apply in_flat_map in Hr'. destruct Hr' as (k' & Hk' & Hr').
    rewrite (rows_tagged k' r' Hr'). rewrite Forall_forall in Hall. now apply Hall.
Qed.

Lemma filter_rows_other (k k' : K) :
  k' <> k -> filter (fun r => keyb (tag r) k) (rowsOf k') = [].
Proof.
  intros Hne. destruct (filter (fun r => keyb (tag r) k) (rowsOf k'))
    as [| r rest] eqn:Ef; [reflexivity |].
  assert (Hin : In r (filter (fun r => keyb (tag r) k) (rowsOf k')))
    by (rewrite Ef; now left).
  apply filter_In in Hin. destruct Hin as [Hin Hk]. apply keyb_eq in Hk.
  rewrite (rows_tagged k' r Hin) in Hk. contradiction.
Qed.

Lemma filter_rows_same (k : K) :
  filter (fun r => keyb (tag r) k) (rowsOf k) = rowsOf k.
Proof.
  apply forallb_filter_id, forallb_forall.
  intros r Hr. apply keyb_eq. now apply rows_tagged.
Qed.

Lemma filter_flat_map_tag (k : K) (ks : list K) :
  NoDup ks ->
  filter (fun r => keyb (tag r) k) (flat_map rowsOf ks)
  = if existsb (keyb k) ks then rowsOf k else [].
Proof.
  induction 1 as [| k' ks Hk' Hnd IH]; [reflexivity |].
  cbn [flat_map existsb]. rewrite filter_app, IH.
  destruct (keyb k k') eqn:Ek; cbn [orb].
  - apply keyb_eq in Ek. subst k'. rewrite filter_rows_same.
    destruct (existsb (keyb k) ks) eqn:Ex; [| apply app_nil_r].
    apply existsb_exists in Ex. destruct Ex as (y & Hy & Ey).
    apply keyb_eq in Ey. subst y. contradiction.
  - rewrite filter_rows_other; [reflexivity |].
    intros ->. rewrite keyb_refl in Ek. discriminate.
Qed.

End TaggedRows.

Lemma mapIndexed_length {A B : Type} (f : A -> Z -> B) (index : Z) (l : list A) :
  List.length (mapIndexed f index l) = List.length l.
Proof.
  revert index. induction l as [| x l IH]; intros index; cbn; [reflexivity |].
  now rewrite IH.
Qed.

Lemma mapIndexed_In {A B : Type} (f : A -> Z -> B) (index : Z) (l : list A)
  (y : B) :
  In y (mapIndexed f index l) -> exists x i, In x l /\ y = f x i.
Proof.
  revert index. induction l as [| x l IH]; intros index; cbn [mapIndexed];
    [contradiction |].
  intros [<- | Hin].
  - exists x, index. split; [now left | reflexivity].
  - destruct (IH _ Hin) as (x' & i & Hx' & ->). exists x', i.
    split; [now right | reflexivity].
Qed.

Lemma mapIndexed_indices {A B : Type} (f : A -> Z -> B) (g : B -> Z)
  (index : Z) (l : list A) :
  (forall x i, g (f x i) = i + 1) ->
  map g (mapIndexed f index l)
  = map (fun n => index + Z.of_nat n) (seq 1 (List.length l)).
Proof.
  intros Hg. revert index. induction l as [| x l IH]; intros index;
    cbn [mapIndexed map List.length seq]; [reflexivity |].
  rewrite Hg, IH. f_equal.
  rewrite <- (seq_shift (List.length l) 1), map_map.
  apply map_ext. intros n. lia.
Qed.

Lemma mapIndexed_sorted {A B : Type} (f : A -> Z -> B) (R : A -> A -> Prop)
  (R' : B -> B -> Prop) (index : Z) (l : list A) :
  (forall x y i j, R x y -> R' (f x i) (f y j)) ->
  StronglySorted R l -> StronglySorted R' (mapIndexed f index l).
Proof.
  intros Hf Hs. revert index.
  induction Hs as [| x l Hs IH Hall]; intros index; cbn [mapIndexed];
    constructor; [apply IH |].
  rewrite Forall_forall in *. intros y Hy.
  apply mapIndexed_In in Hy. destruct Hy as (x' & i & Hx' & ->).
  now apply Hf, Hall.
Qed.

Lemma toMinutes_lt (a b : Z) : (toMinutes a < toMinutes b)%Q <-> a < b.
Proof.
  unfold toMinutes, Qdiv. rewrite Qmult_lt_r by reflexivity.
  now rewrite <- Zlt_Qlt.
Qed.

Lemma toMinutes_eq (a b : Z) : (toMinutes a == toMinutes b)%Q <-> a = b.
Proof.
  unfold toMinutes, Qdiv. rewrite Qmult_inj_r by discriminate.
  split; [apply inject_Z_injective | now intros ->].
Qed.

Lemma mapIndexed_listed {A B : Type} (f : A -> Z -> B) (index : Z)
  (l : list A) (x : A) :
  In x l -> exists i, In (f x i) (mapIndexed f index l).
Proof.
  revert index. induction l as [| y l IH]; intros index Hin; [contradiction |].
  cbn [mapIndexed]. destruct Hin as [-> | Hin].
  - exists index. now left.
  - destruct (IH (index + 1) Hin) as [i Hi]. exists i. now right.
Qed.

(** What the first [n] elements leave out is beyond them. *)
Lemma firstn_left_out {A : Type} (n : nat) (l : list A) (x : A) :
  In x l -> ~ In x (firstn n l) -> List.length (firstn n l) = n.
Proof.
  intros Hin Hnot. destruct (Nat.le_gt_cases (List.length l) n) as [Hle | Hgt].
  - rewrite firstn_all2 in Hnot by exact Hle. contradiction.
  - rewrite length_firstn. lia.
Qed.

Section MonthlyTop3.
Context {P : Platform}.

Lemma top3RowsOfMonth_rows
  (monthlySongMap : JsMap string (JsMap string MonthSongEntry)) (month : string) :
  top3RowsOfMonth monthlySongMap month
  = match mapGet monthlySongMap month with
    | None => []
    | Some monthSongs =>
        mapIndexed (top3RowOf month) 0
          (sliceFirst 3 (sortWith compareMonthlySongRank monthSongs))
    end.
Proof.
  unfold top3RowsOfMonth. destruct (mapGet monthlySongMap month) as [songs |];
    [| reflexivity].
  assert (Hrow : forall entry index,
             (let '(songKey, monthEntry) := entry in
              let '(title, performer) := splitSongKey songKey in
              {| t3_month := month;
                 t3_monthLabel := formatMonthLabel month;
                 t3_rank := index + 1;
                 t3_song := title;
                 t3_artist := performer;
                 t3_playCount := monthEntry.(ms_playCount);
                 t3_minutesListened := toMinutes monthEntry.(ms_totalMs) |})
             = top3RowOf month entry index).
  { intros [songKey monthEntry] index. unfold top3RowOf. cbn [fst snd].
    now destruct (splitSongKey songKey). }
  generalize (sliceFirst 3 (sortWith compareMonthlySongRank songs)) 0.
  intros l. induction l as [| x l IH]; intros index; cbn [mapIndexed];
    [reflexivity |].
  rewrite IH. f_equal. exact (Hrow x index).
Qed.

Lemma top3RowsOfMonth_month
  (monthlySongMap : JsMap string (JsMap string MonthSongEntry)) (month : string)
  (row : Top3Row) :
  In row (top3RowsOfMonth monthlySongMap month) -> row.(t3_month) = month.
Proof.
  rewrite top3RowsOfMonth_rows.
  destruct (mapGet monthlySongMap month); [| contradiction].
  intros Hin. apply mapIndexed_In in Hin. now destruct Hin as (x & i & _ & ->).
Qed.

Lemma compareMonthlySongRank_order (month : string)
  (x y : string * MonthSongEntry) (i j : Z) :
  compareMonthlySongRank x y <= 0 ->
  byMonthlyRankOrder (top3RowOf month x i) (top3RowOf month y j).
Proof.
  rewrite <- compareMonthlySongRank_chain, !orElse_le.
  unfold byMonthlyRankOrder, top3RowOf.
  cbn [t3_playCount t3_minutesListened t3_artist t3_song].
  rewrite toMinutes_lt, toMinutes_eq. lia.
Qed.

Lemma monthSong_entry (es : list Event) (songKey : string)
  (entry : MonthSongEntry) :
  In (songKey, entry) (groupBy ev_songKey updMonthSong es) ->
  withSongKey songKey es <> []
  /\ entry = {| ms_playCount := playsOf (withSongKey songKey es);
                ms_totalMs := sumMs (withSongKey songKey es) |}.
Proof.
  intros Hin. apply In_mapGet in Hin; [| apply groupBy_NoDup].
  rewrite groupBy_get in Hin. fold (withSongKey songKey es) in Hin.
  destruct (withSongKey songKey es) as [| e rest]; [discriminate |].
  rewrite accumulate_updMonthSong in Hin. injection Hin as <-.
  split; [discriminate | reflexivity].
Qed.

Hypothesis collation : Consistent localeCompare.

(** X11. When the durations of the accepted records add up to less
    than 2^53 ms, the monthly Top-3 lists the months in the order of
    [localeCompare]; for each month it has at most three rows, as many as
    three or as the month has songs, which are numbered 1, 2, 3 in their
    order and ranked by play count descending, then minutes descending,
    then artist and song ascending; a month has rows exactly when a
    record was accepted in it.  A row holds the two parts of a song key,
    the number of accepted plays of that key in that month and the
    minutes of their durations, whose sum is below 2^53 and what adding
    them as Numbers gives.  The rows of a month are its top: a song key
    with an accepted play in the month either has a row there, or the
    month has three rows and none of them is ranked after the row that
    key would make. *)
Theorem top3PerMonthRows_ranked :
  forall (Meta : Type) (records : list RawRecord) (meta : Meta),
    sumMs (eventsOf records) < 2 ^ 53 ->
    let rows := (buildReport records meta).(top3PerMonthRows) in
    StronglySorted (fun a b => localeCompare a b <= 0) (map t3_month rows)
    /\ (forall month,
           let ofMonth := rowsOfMonth month rows in
           (List.length ofMonth <= 3)%nat
           /\ List.length ofMonth
              = Nat.min 3 (List.length
                             (nodup string_dec
                                (map ev_songKey (withMonth month (eventsOf records)))))
           /\ map t3_rank ofMonth = map Z.of_nat (seq 1 (List.length ofMonth))
           /\ StronglySorted byMonthlyRankOrder ofMonth)
    /\ (forall row, In row rows ->
           exists songKey,
             let plays := withSongKey songKey
                            (withMonth row.(t3_month) (eventsOf records)) in
             plays <> []
             /\ (row.(t3_song), row.(t3_artist)) = splitSongKey songKey
             /\ row.(t3_playCount) = playsOf plays
             /\ row.(t3_minutesListened) = toMinutes (sumMs plays)
             /\ 0 <= sumMs plays < 2 ^ 53
             /\ sumNumbers (map ev_msPlayed plays) = sumMs plays
             /\ row.(t3_monthLabel) = formatMonthLabel row.(t3_month)
             /\ 1 <= row.(t3_rank) <= 3)
    /\ (forall month songKey,
           let ofMonth := rowsOfMonth month rows in
           let plays := withSongKey songKey
                          (withMonth month (eventsOf records)) in
           plays <> [] ->
           (exists row,
               In row ofMonth
               /\ (row.(t3_song), row.(t3_artist)) = splitSongKey songKey
               /\ row.(t3_playCount) = playsOf plays
               /\ row.(t3_minutesListened) = toMinutes (sumMs plays))
           \/ (List.length ofMonth = 3%nat
               /\ forall row, In row ofMonth ->
                    byMonthlyRankOrder row
                      (top3RowOf month
                         (songKey, {| ms_playCount := playsOf plays;
                                      ms_totalMs := sumMs plays |}) 0))).
Proof.
  intros Meta records meta Hbound rows. subst rows.
  cbn [top3PerMonthRows buildReport]. rewrite aggregate_monthlySongMap.
  set (es := eventsOf records) in *.
  set (monthly := groupBy ev_monthKey updMonthSongs es).
  set (months := sortWith localeCompare (mapKeys monthly)).
  assert (Hnd : NoDup months).
  { apply (Permutation_NoDup (l := mapKeys monthly)).
    - apply Permutation_sym, sortWith_Permutation.
    - apply groupBy_NoDup. }
  assert (Hrows : forall month,
             In month months ->
             withMonth month es <> []
             /\ top3RowsOfMonth monthly month
                = mapIndexed (top3RowOf month) 0
                    (sliceFirst 3
                       (sortWith compareMonthlySongRank
                          (groupBy ev_songKey updMonthSong (withMonth month es))))).
  { intros month Hin.
    apply (proj1 (sortWith_In localeCompare (mapKeys monthly) month)) in Hin.
    destruct (monthlySongMap_get es month Hin) as [Hne Hget].
    split; [exact Hne |]. rewrite top3RowsOfMonth_rows. fold monthly in Hget.
    now rewrite Hget. }
  assert (Hother : forall month, ~ In month months -> withMonth month es = []).
  { intros month Hnot.
    destruct (withMonth month es) as [| e rest] eqn:Ew; [reflexivity |].
    exfalso. apply Hnot. apply (sortWith_In localeCompare).
    apply groupBy_keys. exists e.
    assert (Hin : In e (withMonth month es)) by (rewrite Ew; now left).
    unfold withMonth in Hin. apply filter_In in Hin.
    destruct Hin as [Hin Hk]. apply keyb_eq in Hk. now split. }
  split.
  { apply (flat_map_tags_sorted (top3RowsOfMonth monthly) t3_month
             (top3RowsOfMonth_month monthly)).
    - intros k. pose proof (consistent_refl localeCompare collation k). lia.
    - apply (sortWith_StronglySorted localeCompare collation). }
  split.
  { intros month. unfold rowsOfMonth.
    rewrite (filter_flat_map_tag (top3RowsOfMonth monthly) t3_month
               (top3RowsOfMonth_month monthly) month months Hnd).
    destruct (existsb (keyb month) months) eqn:Ex.
    - assert (Hin : In month months).
      { apply existsb_exists in Ex. destruct Ex as (y & Hy & Ey).
        apply keyb_eq in Ey. now subst y. }
      destruct (Hrows month Hin) as [_ ->].
      set (songs := groupBy ev_songKey updMonthSong (withMonth month es)).
      rewrite mapIndexed_length. unfold sliceFirst.
      split; [apply firstn_le_length |].
      split.
      { rewrite length_firstn, sortWith_length. f_equal.
        rewrite <- (length_map fst songs).
        apply Permutation_length, NoDup_Permutation;
          [apply (groupBy_NoDup ev_songKey updMonthSong) | apply NoDup_nodup |].
        intros k. rewrite nodup_In.
        change (map fst songs) with (mapKeys songs). unfold songs.
        rewrite (groupBy_keys ev_songKey updMonthSong), in_map_iff.
        split; intros (e & H1 & H2); exists e; auto. }
      split.
      { rewrite (mapIndexed_indices (top3RowOf month) t3_rank) by reflexivity.
        apply map_ext. intros n. lia. }
      apply (mapIndexed_sorted (top3RowOf month) (notAfter compareMonthlySongRank)).
      + intros x y i j. apply compareMonthlySongRank_order.
      + apply StronglySorted_firstn, sortWith_StronglySorted.
        apply compareMonthlySongRank_Consistent, collation.
    - assert (Hnot : ~ In month months).
      { intros Hin. apply Bool.not_true_iff_false in Ex. apply Ex.
        apply existsb_exists. exists month. split; [exact Hin | apply keyb_refl]. }
      rewrite (Hother month Hnot). cbn.
      repeat split; try reflexivity; try lia; constructor. }
  split.
  { intros row Hrow. apply in_flat_map in Hrow.
    destruct Hrow as (month & Hmonth & Hrow).
    destruct (Hrows month Hmonth) as [_ Heq]. rewrite Heq in Hrow.
    assert (Hlen : (List.length
                      (sliceFirst 3
                         (sortWith compareMonthlySongRank
                            (groupBy ev_songKey updMonthSong (withMonth month es))))
                    <= 3)%nat) by apply firstn_le_length.
    assert (Hrank : In row.(t3_rank)
                       (map t3_rank
                          (mapIndexed (top3RowOf month) 0
                             (sliceFirst 3
                                (sortWith compareMonthlySongRank
                                   (groupBy ev_songKey updMonthSong
                                      (withMonth month es))))))) by now apply in_map.
    rewrite (mapIndexed_indices (top3RowOf month) t3_rank) in Hrank by reflexivity.
    apply in_map_iff in Hrank. destruct Hrank as (n & Hn & Hseq).
    apply in_seq in Hseq.
    apply mapIndexed_In in Hrow. destruct Hrow as ([songKey entry] & i & Hin & Hrow).
    apply In_firstn, sortWith_In in Hin.
    destruct (monthSong_entry _ _ _ Hin) as [Hne Hentry].
    destruct (selection_exact_within records
                (fun e => keyb (ev_monthKey e) month)
                (fun e => keyb (ev_songKey e) songKey) Hbound) as [Hrange Hexact].
    fold es in Hrange, Hexact.
    fold (withMonth month es) in Hrange, Hexact.
    fold (withSongKey songKey (withMonth month es)) in Hrange, Hexact.
    exists songKey. rewrite Hrow in *. cbn [top3RowOf t3_month t3_song t3_artist
      t3_playCount t3_minutesListened t3_monthLabel t3_rank fst snd] in *.
    rewrite Hentry. cbn [ms_playCount ms_totalMs].
    split; [exact Hne |]. split; [now destruct (splitSongKey songKey) |].
    split; [reflexivity |]. split; [reflexivity |].
    split; [exact Hrange |]. split; [exact Hexact |].
    split; [reflexivity | lia]. }
  intros month songKey Hne.
  assert (Hmonth : In month months).
  { destruct (withSongKey songKey (withMonth month es)) as [| e rest] eqn:Ew;
      [contradiction |].
    assert (He : In e (withSongKey songKey (withMonth month es)))
      by (rewrite Ew; now left).
    apply withSongKey_In in He. destruct He as [He _].
    unfold withMonth in He. apply filter_In in He. destruct He as [He Hk].
    apply keyb_eq in Hk.
    apply (sortWith_In localeCompare), groupBy_keys. exists e. now split. }
  unfold rowsOfMonth.
  rewrite (filter_flat_map_tag (top3RowsOfMonth monthly) t3_month
             (top3RowsOfMonth_month monthly) month months Hnd).
  assert (Ex : existsb (keyb month) months = true).
  { apply existsb_exists. exists month. split; [exact Hmonth | apply keyb_refl]. }
  rewrite Ex. destruct (Hrows month Hmonth) as [_ ->].
  set (songs := groupBy ev_songKey updMonthSong (withMonth month es)).
  set (top := sliceFirst 3 (sortWith compareMonthlySongRank songs)).
  assert (Hentry : In (songKey,
                       {| ms_playCount := playsOf (withSongKey songKey (withMonth month es));
                          ms_totalMs := sumMs (withSongKey songKey (withMonth month es)) |})
                      songs).
  { apply mapGet_Some_In. unfold songs. rewrite groupBy_get.
    fold (withSongKey songKey (withMonth month es)).
    destruct (withSongKey songKey (withMonth month es)) as [| e rest];
      [contradiction |].
    now rewrite accumulate_updMonthSong. }
  destruct (in_dec string_dec songKey (map fst top)) as [Hlisted | Hnot].
  - left. apply in_map_iff in Hlisted. destruct Hlisted as ([k v] & Hk & Hin).
    cbn [fst] in Hk. subst k.
    destruct (mapIndexed_listed (top3RowOf month) 0 top (songKey, v) Hin)
      as [i Hi].
    exists (top3RowOf month (songKey, v) i). split; [exact Hi |].
    cbn [top3RowOf t3_song t3_artist t3_playCount t3_minutesListened fst snd].
    split; [now destruct (splitSongKey songKey) |].
    apply In_firstn, sortWith_In in Hin.
    destruct (monthSong_entry _ _ _ Hin) as [_ ->]. split; reflexivity.
  - right.
    assert (Hout : ~ In (songKey,
                         {| ms_playCount := playsOf (withSongKey songKey (withMonth month es));
                            ms_totalMs := sumMs (withSongKey songKey (withMonth month es)) |})
                        top).
    { intros Hin. apply Hnot. apply in_map_iff.
      eexists. split; [| exact Hin]. reflexivity. }
    split.
    + rewrite mapIndexed_length. unfold top, sliceFirst.
      eapply firstn_left_out; [| exact Hout].
      apply sortWith_In. exact Hentry.
    + intros row Hrow. apply mapIndexed_In in Hrow.
      destruct Hrow as (x & i & Hx & ->).
      apply compareMonthlySongRank_order.
      destruct (isTopOf_sortWith compareMonthlySongRank 3 songs
                  (compareMonthlySongRank_Consistent collation))
        as (_ & _ & _ & _ & Hdom).
      apply Hdom; [exact Hx | exact Hentry | exact Hout].
Qed.

End MonthlyTop3.

Lemma top3PerMonthRows_ranked_witness :
  let rows := (@buildReport strictPlatform unit sampleHistory tt).(top3PerMonthRows) in
  map (fun row => (row.(t3_month), row.(t3_rank), row.(t3_song), row.(t3_playCount)))
      rows
  = [("2023-05", 1, "Song A", 1); ("2023-05", 2, "Song B", 1);
     ("2023-06", 1, "Song C", 1); ("2024-01", 1, "Song C", 1)]
  /\ StronglySorted (fun a b => codeUnitCompare a b <= 0) (map t3_month rows).
Proof.
  intros rows. split; [vm_compute; reflexivity |].
  assert (Hbound : sumMs (@eventsOf strictPlatform sampleHistory) < 2 ^ 53)
    by (vm_compute; reflexivity).
  exact (proj1 (@top3PerMonthRows_ranked strictPlatform
                  codeUnitCompare_Consistent unit sampleHistory tt Hbound)).
Defined.

(** ** Escaping *)

Lemma replaceAll_app (c : ascii) (r a b : string) :
  replaceAll c r (a ++ b) = replaceAll c r a ++ replaceAll c r b.
Proof.
  induction a as [| x a IH]; cbn [append replaceAll]; [reflexivity |].
  destruct (Ascii.eqb x c); rewrite IH; [| reflexivity].
  now rewrite append_assoc_str.
Qed.

Lemma occursIn_app (c : ascii) (a b : string) :
  occursIn c (a ++ b) = occursIn c a || occursIn c b.
Proof.
  induction a as [| x a IH]; cbn [append occursIn]; [reflexivity |].
  rewrite IH. apply orb_assoc.
Qed.

Lemma replaceAll_absent (c : ascii) (r s : string) :
  occursIn c s = false -> replaceAll c r s = s.
Proof.
  induction s as [| a s IH]; cbn [occursIn replaceAll]; [reflexivity |].
  intros Hno. apply orb_false_iff in Hno. destruct Hno as [-> Hno].
  now rewrite IH.
Qed.

(** The five replacements in a row escape every unit exactly once: an
    ampersand written by a later replacement is never escaped again,
    because the ampersands are replaced first. *)
Lemma escapeHtml_units (s : string) : escapeHtml s = escapeUnits s.
Proof.
  unfold escapeHtml. induction s as [| c s IH]; [reflexivity |].
  cbn [escapeUnits]. rewrite <- IH. unfold escapeUnit.
  cbn [replaceAll].
  destruct (Ascii.eqb c "&") eqn:E1.
  { rewrite !replaceAll_app. reflexivity. }
  cbn [replaceAll]. destruct (Ascii.eqb c "<") eqn:E2.
  { rewrite !replaceAll_app. reflexivity. }
  cbn [replaceAll]. destruct (Ascii.eqb c ">") eqn:E3.
  { rewrite !replaceAll_app. reflexivity. }
  cbn [replaceAll]. destruct (Ascii.eqb c QUOTE) eqn:E4.
  { rewrite !replaceAll_app. reflexivity. }
  cbn [replaceAll]. destruct (Ascii.eqb c "'") eqn:E5; reflexivity.
Qed.

Lemma escapeUnit_cases (c : ascii) :
  (c = "&"%char /\ escapeUnit c = "&amp;")
  \/ (c = "<"%char /\ escapeUnit c = "&lt;")
  \/ (c = ">"%char /\ escapeUnit c = "&gt;")
  \/ (c = QUOTE /\ escapeUnit c = "&quot;")
  \/ (c = "'"%char /\ escapeUnit c = "&#39;")
  \/ (c <> "&"%char /\ isMarkupUnit c = false
      /\ escapeUnit c = String c EmptyString).
Proof.
  unfold escapeUnit, isMarkupUnit.
  destruct (Ascii.eqb c "&") eqn:E1; [apply Ascii.eqb_eq in E1; auto |].
  destruct (Ascii.eqb c "<") eqn:E2; [apply Ascii.eqb_eq in E2; auto |].
  destruct (Ascii.eqb c ">") eqn:E3; [apply Ascii.eqb_eq in E3; auto 6 |].
  destruct (Ascii.eqb c QUOTE) eqn:E4; [apply Ascii.eqb_eq in E4; auto 6 |].
  destruct (Ascii.eqb c "'") eqn:E5; [apply Ascii.eqb_eq in E5; auto 7 |].
  apply Ascii.eqb_neq in E1. do 5 right. auto.
Qed.

Lemma escapeUnits_inj (s s' : string) :
  escapeUnits s = escapeUnits s' -> s = s'.
Proof.
  revert s'. induction s as [| c s IH]; intros [| c' s']; cbn [escapeUnits].
  - reflexivity.
  - destruct (escapeUnit_cases c')
      as [[_ ->] | [[_ ->] | [[_ ->] | [[_ ->] | [[_ ->] | (_ & _ & ->)]]]]];
      discriminate.
  - destruct (escapeUnit_cases c)
      as [[_ ->] | [[_ ->] | [[_ ->] | [[_ ->] | [[_ ->] | (_ & _ & ->)]]]]];
      discriminate.
  - destruct (escapeUnit_cases c)
      as [[-> ->] | [[-> ->] | [[-> ->] | [[-> ->] | [[-> ->] | (Hc & _ & ->)]]]]];
      destruct (escapeUnit_cases c')
        as [[-> ->] | [[-> ->] | [[-> ->] | [[-> ->] | [[-> ->] | (Hc' & _ & ->)]]]]];
      cbn [append]; intros Heq; try discriminate Heq;
      try (injection Heq as Heq; f_equal; now apply IH);
      try (injection Heq as Hhd Heq; congruence).
    injection Heq as -> Heq. f_equal. now apply IH.
Qed.

(** X12. [escapeHtml] escapes every code unit once, from left to right:
    each of the five special units becomes its entity and every other unit
    is kept, so an entity is never escaped again.  Its result holds no
    unit that opens or closes markup or an attribute value, a text
    without the five special units is returned as it is, and different
    texts have different results. *)
Theorem escapeHtml_safe :
  forall s : string,
    escapeHtml s = escapeUnits s
    /\ (forall c, isMarkupUnit c = true -> occursIn c (escapeHtml s) = false)
    /\ (occursIn "&" s = false ->
        (forall c, isMarkupUnit c = true -> occursIn c s = false) ->
        escapeHtml s = s)
    /\ (forall s', escapeHtml s = escapeHtml s' -> s = s').
Proof.
  intros s. split; [apply escapeHtml_units |].
  split.
  { intros c Hc. rewrite escapeHtml_units.
    induction s as [| a s IH]; [reflexivity |].
    cbn [escapeUnits]. rewrite occursIn_app, IH, orb_false_r.
    unfold isMarkupUnit in Hc.
    destruct (escapeUnit_cases a)
      as [[_ ->] | [[_ ->] | [[_ ->] | [[_ ->] | [[_ ->] | (_ & Ha & ->)]]]]].
    1-5: cbn [occursIn]; rewrite orb_false_r;
      repeat (apply orb_true_iff in Hc; destruct Hc as [Hc | Hc]);
      apply Ascii.eqb_eq in Hc; subst c; reflexivity.
    cbn [occursIn]. rewrite orb_false_r.
    destruct (Ascii.eqb a c) eqn:E; [| reflexivity].
    apply Ascii.eqb_eq in E. subst c. unfold isMarkupUnit in Ha. congruence. }
  split.
  { intros Hamp Hmarkup. unfold escapeHtml.
    rewrite (replaceAll_absent "&") by exact Hamp.
    rewrite (replaceAll_absent "<") by (apply Hmarkup; reflexivity).
    rewrite (replaceAll_absent ">") by (apply Hmarkup; reflexivity).
    rewrite (replaceAll_absent QUOTE) by (apply Hmarkup; reflexivity).
    apply replaceAll_absent, Hmarkup. reflexivity. }
  intros s'. rewrite !escapeHtml_units. apply escapeUnits_inj.
Qed.

Lemma escapeHtml_safe_witness :
  escapeHtml "Streaming_History_Audio_2023.json" = "Streaming_History_Audio_2023.json".
Proof.
  destruct (escapeHtml_safe "Streaming_History_Audio_2023.json")
    as (_ & _ & Hsame & _).
  apply Hsame; [reflexivity |].
  intros c Hc. unfold isMarkupUnit in Hc.
  repeat (apply orb_true_iff in Hc; destruct Hc as [Hc | Hc]);
    apply Ascii.eqb_eq in Hc; subst c; reflexivity.
Defined.

(** ** Decimal renderings *)

Lemma string_of_uint_digits (d : Decimal.uint) :
  allUnits isDigitUnit (NilEmpty.string_of_uint d) = true.
Proof. induction d; cbn; assumption || reflexivity. Qed.

Lemma intToString_units (z : Z) :
  match intToString z with
  | EmptyString => False
  | String c digits =>
      (isDigitUnit c = true \/ c = "-"%char) /\ allUnits isDigitUnit digits = true
  end.
Proof.
  assert (Huint : forall d,
             match NilZero.string_of_uint d with
             | EmptyString => False
             | String c digits =>
                 isDigitUnit c = true /\ allUnits isDigitUnit digits = true
             end).
  { intros d. pose proof (string_of_uint_digits d) as Hd.
    destruct d; cbn in *; auto; apply andb_true_iff in Hd; exact Hd. }
  unfold intToString, NilZero.string_of_int.
  destruct (Z.to_int z) as [d | d].
  - specialize (Huint d). destruct (NilZero.string_of_uint d); [exact Huint |].
    destruct Huint as [Hc Hd]. auto.
  - split; [now right |]. specialize (Huint d).
    destruct (NilZero.string_of_uint d) as [| c digits]; [contradiction |].
    cbn [allUnits]. apply andb_true_iff. exact Huint.
Qed.

Lemma allUnits_occursIn (f : ascii -> bool) (c : ascii) (s : string) :
  allUnits f s = true -> f c = false -> occursIn c s = false.
Proof.
  induction s as [| a s IH]; cbn [allUnits occursIn]; [reflexivity |].
  intros Hall Hc. apply andb_true_iff in Hall. destruct Hall as [Ha Hall].
  rewrite IH by assumption. rewrite orb_false_r.
  destruct (Ascii.eqb a c) eqn:E; [| reflexivity].
  apply Ascii.eqb_eq in E. congruence.
Qed.

(** A unit that is neither a digit nor the minus sign does not occur in
    the rendering of an integer. *)
Lemma intToString_free (c : ascii) (z : Z) :
  isDigitUnit c = false -> c <> "-"%char -> occursIn c (intToString z) = false.
Proof.
  intros Hdigit Hminus. pose proof (intToString_units z) as Hz.
  destruct (intToString z) as [| a digits]; [contradiction |].
  destruct Hz as [Ha Hdigits]. cbn [occursIn].
  rewrite (allUnits_occursIn isDigitUnit c digits Hdigits Hdigit), orb_false_r.
  destruct (Ascii.eqb a c) eqn:E; [| reflexivity].
  apply Ascii.eqb_eq in E. subst a. destruct Ha; congruence.
Qed.

Lemma intToString_inj (a b : Z) : intToString a = intToString b -> a = b.
Proof.
  unfold intToString. intros Heq. apply DecimalZ.to_int_inj.
  assert (Hnil : forall z, Z.to_int z <> Decimal.Pos Decimal.Nil
                           /\ Z.to_int z <> Decimal.Neg Decimal.Nil).
  { intros [| p | p]; cbn; split; try discriminate;
      intros [= Hp]; now apply DecimalPos.Unsigned.to_uint_nonnil in Hp. }
  destruct (Hnil a) as [Ha1 Ha2]. destruct (Hnil b) as [Hb1 Hb2].
  pose proof (NilZero.isi _ Ha1 Ha2) as Ea.
  pose proof (NilZero.isi _ Hb1 Hb2) as Eb.
  rewrite Heq in Ea. congruence.
Qed.

(** A text is split in one way only at its last separator. *)
Lemma split_last_unit (c : ascii) (a a' t t' : string) :
  occursIn c t = false -> occursIn c t' = false ->
  a ++ String c t = a' ++ String c t' -> a = a' /\ t = t'.
Proof.
  intros Ht Ht'. revert a'. induction a as [| x a IH]; intros [| x' a'];
    cbn [append]; intros Heq.
  - injection Heq as ->. now split.
  - injection Heq as _ Heq. rewrite Heq, occursIn_app in Ht. cbn [occursIn] in Ht.
    rewrite Ascii.eqb_refl, orb_true_r in Ht. discriminate.
  - injection Heq as _ Heq. rewrite <- Heq, occursIn_app in Ht'.
    cbn [occursIn] in Ht'. rewrite Ascii.eqb_refl, orb_true_r in Ht'. discriminate.
  - injection Heq as -> Heq. destruct (IH a' Heq) as [-> ->]. now split.
Qed.

(** ** The selected files *)

(** The key of a file determines its name, its size and its modification
    time: the two numbers are read from the right, where no colon can
    stand but the separators. *)
Lemma fileUniqueKey_fields :
  forall f g : File,
    fileUniqueKey f = fileUniqueKey g
    <-> f.(f_name) = g.(f_name)
        /\ f.(f_size) = g.(f_size)
        /\ f.(f_lastModified) = g.(f_lastModified).
Proof.
  intros [n s m] [n' s' m']. unfold fileUniqueKey. cbn [f_name f_size f_lastModified].
  split; [| now intros (-> & -> & ->)].
  intros Heq.
  assert (Hcolon : forall z, occursIn ":" (intToString z) = false)
    by (intros z; apply intToString_free; [reflexivity | discriminate]).
  assert (Hshape : forall (a b c : string),
             a ++ "::" ++ b ++ "::" ++ c
             = (((a ++ ":") ++ String ":" b) ++ ":") ++ String ":" c).
  { intros a b c. rewrite !append_assoc_str. reflexivity. }
  rewrite !Hshape in Heq.
  apply split_last_unit in Heq; [| apply Hcolon | apply Hcolon].
  destruct Heq as [Heq Hm]. apply intToString_inj in Hm.
  apply (split_last_unit ":" _ _ "" "") in Heq; [| reflexivity | reflexivity].
  destruct Heq as [Heq _].
  apply split_last_unit in Heq; [| apply Hcolon | apply Hcolon].
  destruct Heq as [Heq Hs]. apply intToString_inj in Hs.
  apply (split_last_unit ":" _ _ "" "") in Heq; [| reflexivity | reflexivity].
  destruct Heq as [Hn _]. auto.
Qed.

Lemma fileUniqueKey_inj (f g : File) : fileUniqueKey f = fileUniqueKey g -> f = g.
Proof.
  intros Heq. apply fileUniqueKey_fields in Heq.
  destruct f, g. cbn in Heq. destruct Heq as (-> & -> & ->). reflexivity.
Qed.

(** X13. The key by which [addFiles] tells files apart identifies a file
    by its name, its size and its modification time, and by nothing
    else: two files have the same key exactly when the three agree, also
    when a name holds colons or digits. *)
Theorem fileUniqueKey_injective :
  forall f g : File, fileUniqueKey f = fileUniqueKey g <-> f = g.
Proof.
  intros f g. split; [apply fileUniqueKey_inj | now intros ->].
Qed.


Lemma setHas_In (set : list string) (k : string) :
  setHas set k = true <-> In k set.
Proof.
  unfold setHas. rewrite existsb_exists. split.
  - intros (x & Hx & E). apply String.eqb_eq in E. now subst x.
  - intros Hin. exists k. split; [exact Hin | apply String.eqb_refl].
Qed.

Lemma endsWith_zip_json (s : string) :
  endsWith ".zip" s = true -> endsWith ".json" s = false.
Proof.
  induction s as [| c s IH]; [discriminate |].
  cbn [endsWith]. intros Hzip. apply orb_true_iff in Hzip.
  destruct Hzip as [Hzip | Hzip].
  - apply String.eqb_eq in Hzip. injection Hzip as <- <-. reflexivity.
  - rewrite (IH Hzip), orb_false_r.
    destruct (String.eqb ".json" (String c s)) eqn:E; [| reflexivity].
    apply String.eqb_eq in E. injection E as _ <-. discriminate Hzip.
Qed.

(** What the loop of [addFiles] keeps true, whatever the state it starts
    in. *)
Lemma addFileSteps_spec (incoming : list File) (loop : AddLoop) :
  loop.(al_existing) = map fileUniqueKey loop.(al_files) ->
  let loop' := fold_left addFileStep incoming loop in
  loop'.(al_existing) = map fileUniqueKey loop'.(al_files)
  /\ (exists new,
         loop'.(al_files) = (loop.(al_files) ++ new)%list
         /\ loop'.(al_added) = loop.(al_added) + Z.of_nat (List.length new)
         /\ (forall f, In f new ->
                       In f incoming /\ isSupportedInputFile f.(f_name) = true))
  /\ loop'.(al_added) + loop'.(al_skipped)
     = loop.(al_added) + loop.(al_skipped) + Z.of_nat (List.length incoming)
  /\ (NoDup (map fileUniqueKey loop.(al_files)) ->
      NoDup (map fileUniqueKey loop'.(al_files)))
  /\ (forall f, In f incoming -> isSupportedInputFile f.(f_name) = true ->
                In f loop'.(al_files)).
Proof.
  revert loop. induction incoming as [| file incoming IH]; intros loop Hinv loop'.
  - subst loop'. cbn [fold_left]. split; [exact Hinv |].
    split; [exists []; rewrite app_nil_r; cbn; repeat split; try lia; contradiction |].
    split; [cbn; lia |]. split; [auto | contradiction].
  - subst loop'. cbn [fold_left].
    assert (Hstep : (addFileStep loop file).(al_existing)
                    = map fileUniqueKey (addFileStep loop file).(al_files)).
    { unfold addFileStep.
      destruct (negb (isSupportedInputFile (f_name file))); [exact Hinv |].
      destruct (setHas (al_existing loop) (fileUniqueKey file)); [exact Hinv |].
      cbn [al_existing al_files]. rewrite map_app, Hinv. reflexivity. }
    destruct (IH (addFileStep loop file) Hstep)
      as (Hinv' & (new & Hfiles & Hadded & Hnew) & Hcount & Hnodup & Hkept).
    split; [exact Hinv' |]. clear Hstep Hinv' IH.
    remember (addFileStep loop file) as next eqn:Enext.
    unfold addFileStep in Enext.
    destruct (isSupportedInputFile (f_name file)) eqn:Esup; cbn [negb] in Enext.
    2:{ rewrite Enext in *. cbn [al_files al_added al_skipped] in *.
        split.
        { exists new. split; [exact Hfiles |]. split; [exact Hadded |].
          intros f Hf. destruct (Hnew f Hf). split; [now right | assumption]. }
        split; [cbn [List.length]; lia |].
        split; [exact Hnodup |].
        intros f [<- | Hf] Hsup; [congruence | now apply Hkept]. }
    destruct (setHas (al_existing loop) (fileUniqueKey file)) eqn:Ehas;
      rewrite Enext in *; cbn [al_files al_added al_skipped] in *.
    + split.
      { exists new. split; [exact Hfiles |]. split; [exact Hadded |].
        intros f Hf. destruct (Hnew f Hf). split; [now right | assumption]. }
      split; [cbn [List.length]; lia |].
      split; [exact Hnodup |].
      intros f [<- | Hf] Hsup; [| now apply Hkept].
      apply setHas_In in Ehas. rewrite Hinv in Ehas. apply in_map_iff in Ehas.
      destruct Ehas as (g & Hkey & Hg). apply fileUniqueKey_inj in Hkey. subst g.
      rewrite Hfiles. apply in_or_app. now left.
    + split.
      { exists (file :: new). rewrite Hfiles, <- app_assoc. cbn [app List.length].
        split; [reflexivity |]. split; [lia |].
        intros f [<- | Hf]; [split; [now left | exact Esup] |].
        destruct (Hnew f Hf). split; [now right | assumption]. }
      split; [cbn [List.length]; lia |].
      split.
      { intros Hnd. apply Hnodup. rewrite map_app. cbn [map].
        apply NoDup_app; [exact Hnd | repeat constructor; intros [] |].
        intros k Hk [<- | []].
        apply Bool.not_true_iff_false in Ehas. apply Ehas.
        apply setHas_In. now rewrite Hinv. }
      intros f [<- | Hf] Hsup; [| now apply Hkept].
      rewrite Hfiles. apply in_or_app. left. apply in_or_app. right. now left.
Qed.

Lemma addFilesLoop_spec (files incoming : list File) :
  let loop := addFilesLoop files incoming in
  (exists new,
      loop.(al_files) = (files ++ new)%list
      /\ loop.(al_added) = Z.of_nat (List.length new)
      /\ (forall f, In f new ->
                    In f incoming /\ isSupportedInputFile f.(f_name) = true))
  /\ loop.(al_added) + loop.(al_skipped) = Z.of_nat (List.length incoming)
  /\ (NoDup (map fileUniqueKey files) ->
      NoDup (map fileUniqueKey loop.(al_files)))
  /\ (forall f, In f incoming -> isSupportedInputFile f.(f_name) = true ->
                In f loop.(al_files)).
Proof.
  intros loop. subst loop. unfold addFilesLoop.
  destruct (addFileSteps_spec incoming
              {| al_files := files; al_existing := map fileUniqueKey files;
                 al_added := 0; al_skipped := 0 |} eq_refl)
    as (_ & Hnew & Hcount & Hnodup & Hkept).
  cbn [al_files al_added al_skipped] in *.
  split; [exact Hnew |]. split; [lia |]. split; assumption.
Qed.

Lemma addFiles_files (files incoming : list File) :
  fst (addFiles files incoming) = (addFilesLoop files incoming).(al_files).
Proof. destruct incoming; reflexivity. Qed.

(** Files that are all unsupported or selected already are all skipped. *)
Lemma addFileSteps_known (incoming : list File) (loop : AddLoop) :
  loop.(al_existing) = map fileUniqueKey loop.(al_files) ->
  (forall f, In f incoming -> isSupportedInputFile f.(f_name) = true ->
             In f loop.(al_files)) ->
  fold_left addFileStep incoming loop
  = {| al_files := loop.(al_files); al_existing := loop.(al_existing);
       al_added := loop.(al_added);
       al_skipped := loop.(al_skipped) + Z.of_nat (List.length incoming) |}.
Proof.
  revert loop. induction incoming as [| file incoming IH]; intros loop Hinv Hknown.
  - cbn [fold_left List.length Z.of_nat]. rewrite Z.add_0_r. now destruct loop.
  - cbn [fold_left].
    assert (Hstep : addFileStep loop file
                    = {| al_files := loop.(al_files);
                         al_existing := loop.(al_existing);
                         al_added := loop.(al_added);
                         al_skipped := loop.(al_skipped) + 1 |}).
    { unfold addFileStep.
      destruct (isSupportedInputFile (f_name file)) eqn:Esup; [| reflexivity].
      cbn [negb].
      assert (Hhas : setHas (al_existing loop) (fileUniqueKey file) = true).
      { apply setHas_In. rewrite Hinv. apply in_map, Hknown; [now left | exact Esup]. }
      now rewrite Hhas. }
    rewrite Hstep, IH;
      cbn [al_files al_existing al_added al_skipped List.length].
    + f_equal. rewrite Nat2Z.inj_succ. lia.
    + exact Hinv.
    + intros f Hf. apply Hknown. now right.
Qed.

(** X14. [addFiles] keeps the selection well formed: the files selected
    before stay where they were, what is appended are supported files of
    the incoming ones, in their order, and when no two selected files had
    the same key and all were supported, this still holds afterwards.
    No supported incoming file is lost: it is selected afterwards, as
    itself or as the equal file selected before. *)
Theorem addFiles_selection :
  forall files incoming : list File,
    selectionOk files ->
    let selected := fst (addFiles files incoming) in
    selectionOk selected
    /\ (exists new,
           selected = (files ++ new)%list
           /\ forall f, In f new ->
                        In f incoming /\ isSupportedInputFile f.(f_name) = true)
    /\ (forall f, In f incoming -> isSupportedInputFile f.(f_name) = true ->
                  In f selected).
Proof.
  intros files incoming [Hnd Hsup] selected. subst selected.
  rewrite addFiles_files.
  destruct (addFilesLoop_spec files incoming)
    as ((new & Hfiles & _ & Hnew) & _ & Hnodup & Hkept).
  split.
  { split; [now apply Hnodup |].
    intros file Hin. rewrite Hfiles in Hin. apply in_app_or in Hin.
    destruct Hin as [Hin | Hin]; [now apply Hsup | now apply Hnew]. }
  split; [exists new; split; assumption | exact Hkept].
Qed.

(** X15. The two counters of [addFiles] account for every incoming file:
    the files added and the files skipped are as many as came in, and the
    selection grows by the number added.  Adding the same files a second
    time changes nothing: all of them are skipped, and the only status
    line says so. *)
Theorem addFiles_accounting :
  forall files incoming : list File,
    let loop := addFilesLoop files incoming in
    loop.(al_added) + loop.(al_skipped) = Z.of_nat (List.length incoming)
    /\ Z.of_nat (List.length loop.(al_files))
       = Z.of_nat (List.length files) + loop.(al_added)
    /\ 0 <= loop.(al_added) /\ 0 <= loop.(al_skipped)
    /\ addFiles loop.(al_files) incoming
       = (loop.(al_files),
          match incoming with
          | [] => []
          | _ :: _ =>
              [(intToString (Z.of_nat (List.length incoming))
                ++ " file(s) skipped (duplicate or unsupported).", "warn")]
          end).
Proof.
  intros files incoming loop.
  destruct (addFilesLoop_spec files incoming)
    as ((new & Hfiles & Hadded & Hnew) & Hcount & _ & Hkept).
  fold loop in Hfiles, Hadded, Hcount, Hkept.
  split; [exact Hcount |].
  split; [rewrite Hfiles, length_app; lia |].
  split; [lia |].
  assert (Hskipped : 0 <= al_skipped loop).
  { subst loop. unfold addFilesLoop.
    assert (Hgen : forall l st, 0 <= al_skipped st ->
                                0 <= al_skipped (fold_left addFileStep l st)).
    { induction l as [| f l IH]; intros st Hst; [exact Hst |].
      cbn [fold_left]. apply IH. unfold addFileStep.
      destruct (negb (isSupportedInputFile (f_name f))); cbn [al_skipped]; [lia |].
      destruct (setHas (al_existing st) (fileUniqueKey f)); cbn [al_skipped]; lia. }
    apply Hgen. cbn. lia. }
  split; [exact Hskipped |].
  assert (Hagain : addFilesLoop (al_files loop) incoming
                   = {| al_files := al_files loop;
                        al_existing := map fileUniqueKey (al_files loop);
                        al_added := 0;
                        al_skipped := 0 + Z.of_nat (List.length incoming) |}).
  { unfold addFilesLoop at 1.
    now rewrite addFileSteps_known by (cbn [al_files al_existing]; auto). }
  unfold addFiles. rewrite Hagain. clear.
  destruct incoming as [| file rest]; reflexivity.
Qed.

(** X16. The summary line of the selection counts every supported file
    once: no name ends with both extensions, so the number of ZIP files
    and the number of JSON files add up to the number of files selected,
    whatever the case of the letters of the extensions. *)
Theorem selection_counts_partition :
  forall files : list File,
    (forall file, In file files -> isSupportedInputFile file.(f_name) = true) ->
    zipCount files + jsonCount files = Z.of_nat (List.length files).
Proof.
  intros files Hsup. unfold zipCount, jsonCount.
  induction files as [| file files IH]; [reflexivity |].
  cbn [filter].
  assert (Hfile : isSupportedInputFile file.(f_name) = true) by (apply Hsup; now left).
  unfold isSupportedInputFile in Hfile.
  assert (IH' := IH (fun f Hf => Hsup f (or_intror Hf))).
  destruct (endsWith ".zip" (toLowerCase (f_name file))) eqn:Ezip.
  - rewrite (endsWith_zip_json _ Ezip). cbn [List.length]. lia.
  - cbn [orb] in Hfile. rewrite Hfile. cbn [List.length]. lia.
Qed.

Lemma addFiles_selection_witness :
  map f_name (fst (addFiles [] sampleFiles))
  = ["my_spotify_data.ZIP"; "Streaming_History_Audio_2023.json"]
  /\ selectionOk (fst (addFiles [] sampleFiles)).
Proof.
  split; [vm_compute; reflexivity |].
  assert (Hempty : selectionOk []) by (split; [constructor | intros file []]).
  exact (proj1 (addFiles_selection [] sampleFiles Hempty)).
Defined.

Lemma selection_counts_partition_witness :
  zipCount (fst (addFiles [] sampleFiles)) = 1
  /\ jsonCount (fst (addFiles [] sampleFiles)) = 1
  /\ zipCount (fst (addFiles [] sampleFiles))
     + jsonCount (fst (addFiles [] sampleFiles))
     = Z.of_nat (List.length (fst (addFiles [] sampleFiles))).
Proof.
  split; [vm_compute; reflexivity |]. split; [vm_compute; reflexivity |].
  apply selection_counts_partition.
  intros file Hin. vm_compute in Hin.
  destruct Hin as [<- | [<- | []]]; vm_compute; reflexivity.
Defined.

(** ** Column widths *)

Lemma setAt_length {A : Type} (l : list A) (i : nat) (v : A) :
  List.length (setAt l i v) = List.length l.
Proof.
  revert i. induction l as [| x l IH]; intros [| i]; cbn; auto.
Qed.

Lemma nth_setAt {A : Type} (l : list A) (i j : nat) (v d : A) :
  (i < List.length l)%nat ->
  nth j (setAt l i v) d = if (j =? i)%nat then v else nth j l d.
Proof.
  revert i j. induction l as [| x l IH]; intros i j Hi; [cbn in Hi; lia |].
  destruct i as [| i], j as [| j]; cbn [setAt nth Nat.eqb]; try reflexivity.
  apply IH. cbn in Hi. lia.
Qed.

Section ColumnWidths.
Context {P : Platform}.

Lemma widenStep_length (row : list JsValue) (widths : list Z) (col : nat) :
  List.length (widenStep row widths col) = List.length widths.
Proof.
  unfold widenStep. destruct (_ >? _); [apply setAt_length | reflexivity].
Qed.

Lemma widenStep_nth (row : list JsValue) (widths : list Z) (col j : nat) :
  (col < List.length widths)%nat ->
  nth j (widenStep row widths col) 0
  = if (j =? col)%nat then widenCell row col (nth col widths 0)
    else nth j widths 0.
Proof.
  intros Hcol. unfold widenStep, widenCell.
  destruct (_ >? _).
  - now apply nth_setAt.
  - destruct (j =? col)%nat eqn:E; [| reflexivity].
    apply Nat.eqb_eq in E. now subst j.
Qed.

Lemma widenColumns_nth (row : list JsValue) (count start : nat)
  (widths : list Z) (j : nat) :
  (start + count <= List.length widths)%nat ->
  List.length (fold_left (widenStep row) (seq start count) widths)
  = List.length widths
  /\ nth j (fold_left (widenStep row) (seq start count) widths) 0
     = if ((start <=? j) && (j <? start + count))%nat
       then widenCell row j (nth j widths 0)
       else nth j widths 0.
Proof.
  revert start widths. induction count as [| count IH]; intros start widths Hlen.
  - cbn [seq fold_left]. split; [reflexivity |].
    replace (j <? start + 0)%nat with (j <? start)%nat by (f_equal; lia).
    destruct (start <=? j)%nat eqn:E1, (j <? start)%nat eqn:E2; try reflexivity.
    apply Nat.leb_le in E1. apply Nat.ltb_lt in E2. lia.
  - cbn [seq fold_left].
    destruct (IH (S start) (widenStep row widths start)) as [Hl Hn].
    { rewrite widenStep_length. lia. }
    rewrite Hl, Hn, widenStep_length. split; [reflexivity |].
    rewrite !widenStep_nth by lia.
    destruct (Nat.eq_dec j start) as [-> | Hne].
    + rewrite Nat.eqb_refl.
      replace (S start <=? start)%nat with false by (symmetry; apply Nat.leb_gt; lia).
      replace (start <=? start)%nat with true by (symmetry; apply Nat.leb_le; lia).
      replace (start <? start + S count)%nat with true
        by (symmetry; apply Nat.ltb_lt; lia).
      reflexivity.
    + replace (j =? start)%nat with false by (symmetry; apply Nat.eqb_neq; lia).
      replace (j <? S start + count)%nat with (j <? start + S count)%nat
        by (f_equal; lia).
      destruct (S start <=? j)%nat eqn:E1, (start <=? j)%nat eqn:E2;
        try reflexivity.
      * apply Nat.leb_le in E1. apply Nat.leb_gt in E2. lia.
      * apply Nat.leb_gt in E1. apply Nat.leb_le in E2. lia.
Qed.

Lemma widenRows_nth (rows : list (list JsValue)) (widths : list Z) (j : nat) :
  let count := List.length widths in
  let result :=
    fold_left (fun widths row => fold_left (widenStep row) (seq 0 count) widths)
              rows widths in
  List.length result = count
  /\ ((j < count)%nat ->
      nth j result 0
      = fold_left (fun width row => widenCell row j width) rows (nth j widths 0)).
Proof.
  cbn zeta. revert widths. induction rows as [| row rows IH]; intros widths.
  - cbn [fold_left]. split; reflexivity.
  - cbn [fold_left].
    destruct (widenColumns_nth row (List.length widths) 0 widths j) as [Hl Hn];
      [lia |].
    specialize (IH (fold_left (widenStep row) (seq 0 (List.length widths)) widths)).
    rewrite Hl in IH. destruct IH as [IHl IHn].
    split; [exact IHl |]. intros Hj. rewrite (IHn Hj), Hn.
    replace ((0 <=? j) && (j <? 0 + List.length widths))%nat with true; [reflexivity |].
    symmetry. apply andb_true_iff. split; [apply Nat.leb_le | apply Nat.ltb_lt]; lia.
Qed.

Lemma widenCells_bounds (rows : list (list JsValue)) (j : nat) (width : Z) :
  10 <= width <= 70 ->
  let final := fold_left (fun width row => widenCell row j width) rows width in
  width <= final <= 70
  /\ (forall row, In row rows ->
                  Z.min (Z.of_nat (String.length (cellText (cellAt row j)))) 70
                  <= final)
  /\ (final = width
      \/ exists row,
           In row rows
           /\ final
              = Z.min (Z.of_nat (String.length (cellText (cellAt row j))) + 2) 70).
Proof.
  cbn zeta. revert width. induction rows as [| row rows IH]; intros width Hw.
  - cbn [fold_left]. split; [lia |]. split; [contradiction | now left].
  - cbn [fold_left].
    set (len := Z.of_nat (String.length (cellText (cellAt row j)))).
    assert (Hstep : width <= widenCell row j width <= 70
                    /\ Z.min len 70 <= widenCell row j width
                    /\ (widenCell row j width = width
                        \/ widenCell row j width = Z.min (len + 2) 70)).
    { unfold widenCell. fold len. destruct (len >? width) eqn:E.
      - apply Z.gtb_lt in E. lia.
      - assert (len <= width) by (apply Z.ltb_ge; rewrite <- Z.gtb_ltb; exact E).
        lia. }
    destruct Hstep as (Hmono & Hfit & Hvalue).
    destruct (IH (widenCell row j width)) as (Hmono' & Hfit' & Hvalue'); [lia |].
    split; [lia |]. split.
    + intros r [<- | Hr]; [fold len; lia | now apply Hfit'].
    + destruct Hvalue' as [Hsame | (r & Hr & Hfinal)].
      * rewrite Hsame. destruct Hvalue as [Hkept | Hset]; [now left |].
        right. exists row. split; [now left | exact Hset].
      * right. exists r. split; [now right | exact Hfinal].
Qed.

(** X17. [columnWidths] gives one width per column of the first row,
    each between 10 and 70.  Every cell of the table fits its column, up
    to the cap: the width of a column is not less than the length of the
    text of any of its cells, or it is 70; a cell that a row does not have
    counts as empty.  A width other than 10 is the length of a cell of
    the column plus 2, capped at 70.  A table without rows has no
    widths. *)
Theorem columnWidths_fit :
  forall (header : list JsValue) (rows : list (list JsValue)),
    let table := header :: rows in
    let widths := columnWidths table in
    columnWidths [] = []
    /\ List.length widths = List.length header
    /\ (forall col, (col < List.length header)%nat ->
           10 <= nth col widths 0 <= 70
           /\ (forall row, In row table ->
                  Z.min (Z.of_nat (String.length (cellText (cellAt row col)))) 70
                  <= nth col widths 0)
           /\ (nth col widths 0 = 10
               \/ exists row,
                    In row table
                    /\ nth col widths 0
                       = Z.min (Z.of_nat (String.length
                                            (cellText (cellAt row col))) + 2) 70)).
Proof.
  intros header rows table widths. split; [reflexivity |].
  subst widths table. unfold columnWidths.
  pose proof (widenRows_nth (header :: rows) (repeat 10 (List.length header)))
    as Hrows.
  cbn zeta in Hrows. rewrite repeat_length in Hrows.
  split; [apply (Hrows 0%nat) |].
  intros col Hcol. destruct (Hrows col) as [_ Hnth].
  rewrite (Hnth Hcol).
  assert (Hstart : nth col (repeat 10 (List.length header)) 0 = 10).
  { apply nth_repeat_lt. exact Hcol. }
  rewrite Hstart.
  destruct (widenCells_bounds (header :: rows) col 10) as (Hb & Hfit & Hvalue);
    [lia |].
  split; [lia |]. split; assumption.
Qed.

End ColumnWidths.

(** ** Sheet names *)

Lemma length_string_of_uint (d : Decimal.uint) :
  String.length (NilEmpty.string_of_uint d) = Decimal.nb_digits d.
Proof. induction d; cbn; congruence. Qed.

Lemma of_uint_acc_lower (d : Decimal.uint) (acc : positive) :
  Z.pos acc * 10 ^ Z.of_nat (Decimal.nb_digits d)
  <= Z.pos (Pos.of_uint_acc d acc).
Proof.
  revert acc. induction d; intros acc; cbn [Decimal.nb_digits Pos.of_uint_acc];
    [cbn; lia | ..];
    (etransitivity; [| apply IHd]);
    rewrite Nat2Z.inj_succ, Z.pow_succ_r by lia;
    pose proof (Z.pow_nonneg 10 (Z.of_nat (Decimal.nb_digits d))); nia.
Qed.

Lemma to_uint_lower (p : positive) :
  10 ^ (Z.of_nat (Decimal.nb_digits (Pos.to_uint p)) - 1) <= Z.pos p.
Proof.
  pose proof (DecimalPos.Unsigned.of_to p) as Hof.
  pose proof (DecimalPos.Unsigned.to_uint_nonnil p) as Hnil.
  pose proof (DecimalPos.Unsigned.to_uint_nonzero p) as Hzero.
  pose proof (DecimalPos.Unsigned.to_of (Pos.to_uint p)) as Hnorm.
  rewrite Hof in Hnorm. change (N.to_uint (N.pos p)) with (Pos.to_uint p) in Hnorm.
  destruct (Pos.to_uint p) as [| d | d | d | d | d | d | d | d | d | d];
    [contradiction | ..].
  { exfalso. unfold Decimal.unorm in Hnorm. cbn [Decimal.nzhead] in Hnorm.
    destruct (Decimal.nzhead d) eqn:Ed; try discriminate Hnorm;
      injection Hnorm as Hd; subst;
      first [now apply Hzero | now apply (DecimalFacts.nzhead_nonzero _ _ Ed)]. }
  all: cbn [Pos.of_uint] in Hof; injection Hof as <-;
    cbn [Decimal.nb_digits]; rewrite Nat2Z.inj_succ;
    replace (Z.succ (Z.of_nat (Decimal.nb_digits d)) - 1)
      with (Z.of_nat (Decimal.nb_digits d)) by lia;
    (etransitivity; [| apply of_uint_acc_lower]);
    pose proof (Z.pow_nonneg 10 (Z.of_nat (Decimal.nb_digits d))); nia.
Qed.

(** The rendering of a number below [10^k] has at most [k] digits. *)
Lemma intToString_length (z : Z) (k : nat) :
  0 <= z < 10 ^ Z.of_nat k -> (1 <= k)%nat ->
  (String.length (intToString z) <= k)%nat.
Proof.
  intros Hz Hk. unfold intToString. destruct z as [| p | p]; [exact Hk | | lia].
  cbn [Z.to_int NilZero.string_of_int].
  pose proof (DecimalPos.Unsigned.to_uint_nonnil p) as Hnil.
  pose proof (to_uint_lower p) as Hlow.
  rewrite <- length_string_of_uint in Hlow.
  assert (Hsame : NilZero.string_of_uint (Pos.to_uint p)
                  = NilEmpty.string_of_uint (Pos.to_uint p))
    by (destruct (Pos.to_uint p); [contradiction | reflexivity ..]).
  rewrite Hsame.
  destruct (Nat.le_gt_cases
              (String.length (NilEmpty.string_of_uint (Pos.to_uint p))) k)
    as [Hle | Hgt]; [exact Hle | exfalso].
  assert (10 ^ Z.of_nat k
          <= 10 ^ (Z.of_nat (String.length
                               (NilEmpty.string_of_uint (Pos.to_uint p))) - 1))
    by (apply Z.pow_le_mono_r; lia).
  lia.
Qed.

Lemma allUnits_app (f : ascii -> bool) (a b : string) :
  allUnits f (a ++ b) = allUnits f a && allUnits f b.
Proof.
  induction a as [| c a IH]; cbn [append allUnits]; [reflexivity |].
  rewrite IH. apply andb_assoc.
Qed.

Lemma allUnits_weaken (f g : ascii -> bool) (s : string) :
  (forall c, f c = true -> g c = true) ->
  allUnits f s = true -> allUnits g s = true.
Proof.
  intros Hfg. induction s as [| c s IH]; cbn [allUnits]; [reflexivity |].
  intros H. apply andb_true_iff in H. destruct H as [Hc Hs].
  apply andb_true_iff. split; [now apply Hfg | now apply IH].
Qed.

Lemma allUnits_takeStr (f : ascii -> bool) (n : nat) (s : string) :
  allUnits f s = true -> allUnits f (takeStr n s) = true.
Proof.
  revert s. induction n as [| n IH]; intros [| c s]; cbn [takeStr allUnits];
    try reflexivity.
  intros H. apply andb_true_iff in H. destruct H as [Hc Hs].
  apply andb_true_iff. split; [exact Hc | now apply IH].
Qed.

Lemma allUnits_trimStart (f : ascii -> bool) (s : string) :
  allUnits f s = true -> allUnits f (trimStart s) = true.
Proof.
  induction s as [| c s IH]; cbn [trimStart allUnits]; [reflexivity |].
  intros H. destruct (isWhiteSpace c); [| exact H].
  apply andb_true_iff in H. now apply IH.
Qed.

Lemma allUnits_trimEnd (f : ascii -> bool) (s : string) :
  allUnits f s = true -> allUnits f (trimEnd s) = true.
Proof.
  induction s as [| c s IH]; cbn [trimEnd allUnits]; [reflexivity |].
  intros H. apply andb_true_iff in H. destruct H as [Hc Hs].
  specialize (IH Hs). destruct (trimEnd s) as [| c' t].
  - destruct (isWhiteSpace c); cbn [allUnits]; [reflexivity |].
    now rewrite Hc.
  - cbn [allUnits] in *. now rewrite Hc, IH.
Qed.

Lemma takeStr_all (n : nat) (s : string) :
  (String.length s <= n)%nat -> takeStr n s = s.
Proof.
  revert s. induction n as [| n IH]; intros [| c s] Hlen; cbn [takeStr];
    try reflexivity; cbn [String.length] in Hlen; [lia |].
  rewrite IH by lia. reflexivity.
Qed.

Lemma length_takeStr_min (n : nat) (s : string) :
  String.length (takeStr n s) = Nat.min n (String.length s).
Proof.
  revert s. induction n as [| n IH]; intros [| c s]; cbn [takeStr String.length];
    try reflexivity.
  now rewrite IH.
Qed.

(** [s.slice(0, k)] for [k] that is not negative: the first [k] units,
    or all of [s]. *)
Lemma slice_start (s : string) (k : Z) :
  0 <= k -> slice s 0 k = takeStr (Z.to_nat k) s.
Proof.
  intros Hk. unfold slice, sliceIndex.
  set (len := Z.of_nat (String.length s)).
  replace (if 0 <? 0 then Z.max (len + 0) 0 else Z.min 0 len) with 0
    by (cbn [Z.ltb Z.compare]; lia).
  replace (if k <? 0 then Z.max (len + k) 0 else Z.min k len) with (Z.min k len)
    by (destruct (k <? 0) eqn:E; [apply Z.ltb_lt in E; lia | reflexivity]).
  cbn [Z.to_nat dropStr]. replace (dropStr 0 s) with s by (now destruct s).
  destruct (Z.le_gt_cases k len) as [Hle | Hgt].
  - f_equal. lia.
  - rewrite !takeStr_all by (subst len; lia). reflexivity.
Qed.

Lemma replaceForbidden_units (s : string) :
  allUnits isSheetUnit (replaceForbidden s) = true.
Proof.
  induction s as [| c s IH]; cbn [replaceForbidden allUnits]; [reflexivity |].
  rewrite IH, andb_true_r. unfold isSheetUnit.
  destruct (isForbiddenSheetUnit c) eqn:E; [reflexivity | now rewrite E].
Qed.

Lemma trimEnd_truthy (c : ascii) (s : string) :
  isWhiteSpace c = false -> trimEnd (String c s) <> EmptyString.
Proof.
  intros Hc. cbn [trimEnd]. destruct (trimEnd s); [now rewrite Hc | discriminate].
Qed.

Lemma sheetBase_spec (desiredName : string) :
  sheetBase desiredName <> EmptyString
  /\ (String.length (sheetBase desiredName) <= 31)%nat
  /\ allUnits isSheetUnit (sheetBase desiredName) = true.
Proof.
  unfold sheetBase.
  set (cleaned := trim (replaceForbidden desiredName)).
  assert (Hclean : allUnits isSheetUnit cleaned = true).
  { apply allUnits_trimEnd, allUnits_trimStart, replaceForbidden_units. }
  set (base := if negb (strTruthy cleaned) then "Sheet" else cleaned).
  assert (Hbase : base <> EmptyString /\ allUnits isSheetUnit base = true).
  { subst base. destruct cleaned; cbn [strTruthy negb];
      [split; [discriminate | reflexivity] | split; [discriminate | exact Hclean]]. }
  destruct Hbase as [Hne Hunits].
  rewrite slice_start by lia. change (Z.to_nat 31) with 31%nat.
  split; [destruct base; [contradiction | discriminate] |].
  split; [rewrite length_takeStr_min; lia | now apply allUnits_takeStr].
Qed.

Lemma sheetCandidate_inj (base : string) (i j : Z) :
  sheetCandidate base i = sheetCandidate base j -> i = j.
Proof.
  unfold sheetCandidate. cbn [append]. intros Heq.
  apply split_last_unit in Heq.
  - now apply intToString_inj.
  - apply intToString_free; [reflexivity | discriminate].
  - apply intToString_free; [reflexivity | discriminate].
Qed.

Lemma sheetCandidate_spec (base : string) (index : Z) :
  allUnits isSheetUnit base = true ->
  0 <= index < 10 ^ 30 ->
  sheetCandidate base index <> EmptyString
  /\ (String.length (sheetCandidate base index) <= 31)%nat
  /\ allUnits isSheetUnit (sheetCandidate base index) = true.
Proof.
  intros Hbase Hindex. unfold sheetCandidate.
  set (suffix := "_" ++ intToString index).
  assert (Hlen : (String.length suffix <= 31)%nat).
  { subst suffix. cbn [append String.length].
    pose proof (intToString_length index 30 Hindex). lia. }
  assert (Hsuffix : allUnits isSheetUnit suffix = true).
  { subst suffix. cbn [append allUnits].
    apply andb_true_iff. split; [reflexivity |].
    pose proof (intToString_units index) as Hu.
    destruct (intToString index) as [| c digits]; [contradiction |].
    destruct Hu as [Hc Hdigits]. cbn [allUnits].
    assert (Hdigit : forall a, isDigitUnit a = true -> isSheetUnit a = true).
    { intros a Ha. unfold isDigitUnit in Ha. unfold isSheetUnit, isForbiddenSheetUnit.
      destruct a as [[] [] [] [] [] [] [] []]; try discriminate Ha; reflexivity. }
    apply andb_true_iff. split.
    - destruct Hc as [Hc | ->]; [now apply Hdigit | reflexivity].
    - now apply (allUnits_weaken isDigitUnit). }
  rewrite slice_start by lia.
  split; [subst suffix; destruct (takeStr _ base); discriminate |].
  split.
  - rewrite length_append, length_takeStr_min. lia.
  - rewrite allUnits_app, Hsuffix, andb_true_r. now apply allUnits_takeStr.
Qed.

Lemma map_inj_NoDup {A B : Type} (f : A -> B) (l : list A) :
  (forall x y, f x = f y -> x = y) -> NoDup l -> NoDup (map f l).
Proof.
  intros Hinj. induction 1 as [| x l Hx _ IH]; cbn [map]; constructor; [| exact IH].
  intros Hin. apply in_map_iff in Hin. destruct Hin as (y & Hy & Hl).
  apply Hinj in Hy. now subst y.
Qed.

(** A list of different names longer than the list of the names in use
    has a name that is not in use. *)
Lemma fresh_among (used candidates : list string) :
  NoDup candidates ->
  (List.length used < List.length candidates)%nat ->
  exists name, In name candidates /\ ~ In name used.
Proof.
  intros Hnd Hlen.
  destruct (forallb (setHas used) candidates) eqn:Eall.
  - exfalso. rewrite forallb_forall in Eall.
    assert (Hincl : incl candidates used)
      by (intros name Hname; now apply setHas_In, Eall).
    pose proof (NoDup_incl_length Hnd Hincl). lia.
  - clear Hnd Hlen. induction candidates as [| name candidates IH];
      [discriminate |].
    cbn [forallb] in Eall. destruct (setHas used name) eqn:Ehas.
    + destruct (IH Eall) as (x & Hx & Hfree). exists x. split; [now right | exact Hfree].
    + exists name. split; [now left |]. rewrite <- setHas_In. congruence.
Qed.

Lemma firstFreeCandidate_found (used : list string) (base : string)
  (fuel : nat) (index : Z) :
  (exists j, (j < fuel)%nat
             /\ ~ In (sheetCandidate base (index + Z.of_nat j)) used) ->
  exists j, (j < fuel)%nat
            /\ ~ In (sheetCandidate base (index + Z.of_nat j)) used
            /\ (forall i, (i < j)%nat ->
                          In (sheetCandidate base (index + Z.of_nat i)) used)
            /\ forall extra,
                 firstFreeCandidate (fuel + extra) used base index
                 = Some (sheetCandidate base (index + Z.of_nat j)).
Proof.
  revert index. induction fuel as [| fuel IH]; intros index (j & Hj & Hfree);
    [lia |].
  destruct (setHas used (sheetCandidate base index)) eqn:Ehas.
  - destruct j as [| j].
    { exfalso. apply Hfree. rewrite Z.add_0_r. now apply setHas_In. }
    destruct (IH (index + 1)) as (j' & Hj' & Hfree' & Hused & Hrun).
    { exists j. split; [lia |].
      now replace (index + 1 + Z.of_nat j) with (index + Z.of_nat (S j)) by lia. }
    exists (S j'). split; [lia |].
    replace (index + Z.of_nat (S j')) with (index + 1 + Z.of_nat j') by lia.
    split; [exact Hfree' |]. split.
    + intros [| i] Hi.
      * rewrite Z.add_0_r. now apply setHas_In.
      * replace (index + Z.of_nat (S i)) with (index + 1 + Z.of_nat i) by lia.
        apply Hused. lia.
    + intros extra. cbn [Nat.add firstFreeCandidate].
      rewrite Ehas. cbn [negb]. apply Hrun.
  - exists 0%nat. split; [lia |]. rewrite Z.add_0_r.
    split; [rewrite <- setHas_In; congruence |].
    split; [intros i Hi; lia |].
    intros extra. cbn [Nat.add firstFreeCandidate]. now rewrite Ehas.
Qed.

(** X18. [uniqueSheetName] ends, and in no more rounds than there are
    sheets, with a name that no sheet has yet: the cleaned name itself
    when it is free, and otherwise the first free one of the candidates
    with the suffixes [_2], [_3], ..., every candidate with a smaller
    suffix being the name of a sheet.  The name is not empty, has at most
    31 units and none of the units a sheet name may not hold. *)
Theorem uniqueSheetName_fresh :
  forall (sheetNames : list string) (desiredName : string),
    Z.of_nat (List.length sheetNames) + 2 < 10 ^ 30 ->
    let base := sheetBase desiredName in
    exists name,
      (forall fuel, (List.length sheetNames < fuel)%nat ->
                    uniqueSheetName fuel sheetNames desiredName = Some name)
      /\ ~ In name sheetNames
      /\ name <> EmptyString
      /\ (String.length name <= 31)%nat
      /\ allUnits isSheetUnit name = true
      /\ (~ In base sheetNames -> name = base)
      /\ (In base sheetNames ->
          name <> base
          /\ exists index,
               2 <= index <= Z.of_nat (List.length sheetNames) + 2
               /\ name = sheetCandidate base index
               /\ forall i, 2 <= i < index ->
                            In (sheetCandidate base i) sheetNames).
Proof.
  intros used desiredName Hsize base. unfold uniqueSheetName.
  destruct (sheetBase_spec desiredName) as (Hne & Hlen & Hunits).
  fold base in Hne, Hlen, Hunits |- *.
  destruct (setHas used base) eqn:Ehas; cbn [negb].
  2:{ exists base. split; [reflexivity |].
      assert (Hfree : ~ In base used) by (rewrite <- setHas_In; congruence).
      repeat split; try assumption; try contradiction. }
  set (rounds := S (List.length used)).
  destruct (fresh_among used
              (map (fun j => sheetCandidate base (2 + Z.of_nat j)) (seq 0 rounds)))
    as (name & Hname & Hfree).
  { apply map_inj_NoDup; [| apply seq_NoDup].
    intros i j Hij. apply sheetCandidate_inj in Hij. lia. }
  { rewrite length_map, length_seq. subst rounds. lia. }
  apply in_map_iff in Hname. destruct Hname as (j & <- & Hj). apply in_seq in Hj.
  destruct (firstFreeCandidate_found used base rounds 2)
    as (j' & Hj' & Hfree' & Hused & Hrun).
  { exists j. split; [lia | exact Hfree]. }
  exists (sheetCandidate base (2 + Z.of_nat j')).
  split.
  { intros fuel Hfuel. replace fuel with (rounds + (fuel - rounds))%nat
      by (subst rounds; lia).
    apply Hrun. }
  split; [exact Hfree' |].
  destruct (sheetCandidate_spec base (2 + Z.of_nat j') Hunits) as (Hc1 & Hc2 & Hc3).
  { subst rounds. lia. }
  assert (Hin : In base used) by now apply setHas_In.
  repeat split; try assumption.
  - intros Hnot. contradiction.
  - intros Heq. apply Hfree'. now rewrite Heq.
  - exists (2 + Z.of_nat j'). split; [subst rounds; lia |].
    split; [reflexivity |].
    intros i Hi. replace i with (2 + Z.of_nat (Z.to_nat (i - 2))) by lia.
    apply Hused. lia.
Qed.

Lemma uniqueSheetName_fresh_witness :
  uniqueSheetName 3 ["Summary"; "Summary_2"] "Summary" = Some "Summary_3"
  /\ exists name,
       uniqueSheetName 3 ["Summary"; "Summary_2"] "Summary" = Some name
       /\ ~ In name ["Summary"; "Summary_2"]
       /\ exists index, name = sheetCandidate "Summary" index.
Proof.
  split; [vm_compute; reflexivity |].
  destruct (uniqueSheetName_fresh ["Summary"; "Summary_2"] "Summary")
    as (name & Hrun & Hfree & _ & _ & _ & _ & Hfirst); [vm_compute; reflexivity |].
  exists name. split; [apply Hrun; cbn; lia |]. split; [exact Hfree |].
  destruct Hfirst as (_ & index & _ & Hname & _); [now left |].
  exists index. exact Hname.
Defined.

(** ** File sizes *)

Section FileSizeProperties.
Context {P : Platform}.

Lemma toFixed_whole (x : Q) :
  Qle_bool (inject_Z (10 ^ 21)) (Qabs x) = false ->
  Qle_bool 0 x = true ->
  toFixed x 0 = intToString (Qfloor (x + (1 # 2))).
Proof.
  intros Hbig Hsign. unfold toFixed. rewrite Hbig, Hsign.
  cbn [append Z.of_nat Z.pow]. apply Qle_bool_iff in Hsign.
  assert (Heq : (Qabs x * inject_Z (10 ^ 0) + (1 # 2) == x + (1 # 2))%Q).
  { rewrite Qabs_pos by exact Hsign. change (inject_Z (10 ^ 0)) with 1%Q.
    now rewrite Qmult_1_r. }
  now rewrite Heq.
Qed.

Lemma scaleSize_B (bytes : Z) :
  bytes < 1024 -> scaleSize 3 (inject_Z bytes) 0 = (inject_Z bytes, 0%nat).
Proof.
  intros Hb. cbn [scaleSize].
  assert (E : Qle_bool 1024 (inject_Z bytes) = false).
  { apply Bool.not_true_iff_false. intros H. apply Qle_bool_iff in H.
    change 1024%Q with (inject_Z 1024) in H. rewrite <- Zle_Qle in H. lia. }
  now rewrite E.
Qed.

Lemma Qle_bool_scaled (a bytes : Z) (p : positive) :
  Qle_bool (inject_Z a) (bytes # p) = (a * Z.pos p <=? bytes).
Proof. unfold Qle_bool. cbn [Qnum Qden inject_Z]. now rewrite Z.mul_1_r. Qed.

Lemma scaled_once (bytes : Z) : (inject_Z bytes / 1024 == bytes # 1024)%Q.
Proof. unfold Qeq, Qdiv, Qmult, Qinv. cbn. lia. Qed.

Lemma scaled_twice (bytes : Z) :
  (inject_Z bytes / 1024 / 1024 == bytes # 1048576)%Q.
Proof. unfold Qeq, Qdiv, Qmult, Qinv. cbn. lia. Qed.

Lemma scaled_thrice (bytes : Z) :
  (inject_Z bytes / 1024 / 1024 / 1024 == bytes # 1073741824)%Q.
Proof. unfold Qeq, Qdiv, Qmult, Qinv. cbn. lia. Qed.

Lemma Qle_bool_Qeq (a x y : Q) : (x == y)%Q -> Qle_bool a x = Qle_bool a y.
Proof.
  intros Heq. destruct (Qle_bool a x) eqn:E1, (Qle_bool a y) eqn:E2;
    try reflexivity.
  - apply Qle_bool_iff in E1. rewrite Heq in E1. apply Qle_bool_iff in E1. congruence.
  - apply Qle_bool_iff in E2. rewrite <- Heq in E2. apply Qle_bool_iff in E2.
    congruence.
Qed.

Lemma Qle_bool_bytes (a bytes : Z) :
  Qle_bool (inject_Z a) (inject_Z bytes) = (a <=? bytes).
Proof.
  change (inject_Z bytes) with (bytes # 1). rewrite Qle_bool_scaled.
  now rewrite Z.mul_1_r.
Qed.

Lemma Qle_bool_once (a bytes : Z) :
  Qle_bool (inject_Z a) (inject_Z bytes / 1024) = (a * 1024 <=? bytes).
Proof.
  rewrite (Qle_bool_Qeq _ _ _ (scaled_once bytes)). apply Qle_bool_scaled.
Qed.

Lemma Qle_bool_twice (a bytes : Z) :
  Qle_bool (inject_Z a) (inject_Z bytes / 1024 / 1024) = (a * 1048576 <=? bytes).
Proof.
  rewrite (Qle_bool_Qeq _ _ _ (scaled_twice bytes)). apply Qle_bool_scaled.
Qed.

Lemma Qle_bool_thrice (a bytes : Z) :
  Qle_bool (inject_Z a) (inject_Z bytes / 1024 / 1024 / 1024)
  = (a * 1073741824 <=? bytes).
Proof.
  rewrite (Qle_bool_Qeq _ _ _ (scaled_thrice bytes)). apply Qle_bool_scaled.
Qed.

Lemma scaleSize_steps (bytes : Z) :
  scaleSize 3 (inject_Z bytes) 0
  = if bytes <? 1024 then (inject_Z bytes, 0%nat)
    else if bytes <? 1048576 then ((inject_Z bytes / 1024)%Q, 1%nat)
    else if bytes <? 1073741824 then ((inject_Z bytes / 1024 / 1024)%Q, 2%nat)
    else ((inject_Z bytes / 1024 / 1024 / 1024)%Q, 3%nat).
Proof.
  cbn [scaleSize].
  rewrite (Qle_bool_bytes 1024), (Qle_bool_once 1024), (Qle_bool_twice 1024).
  destruct (bytes <? 1024) eqn:E1, (1024 <=? bytes) eqn:L1; try lia.
  - reflexivity.
  - destruct (bytes <? 1048576) eqn:E2, (1024 * 1024 <=? bytes) eqn:L2; try lia.
    + reflexivity.
    + destruct (bytes <? 1073741824) eqn:E3, (1024 * 1048576 <=? bytes) eqn:L3;
        try lia; reflexivity.
Qed.

Lemma formatFileSize_scaled (bytes : Z) :
  formatFileSize bytes
  = if bytes <? 1024 then toFixed (inject_Z bytes) 0 ++ " B"
    else if bytes <? 1048576
    then toFixed (inject_Z bytes / 1024) (if bytes <? 10240 then 1 else 0)
         ++ " KB"
    else if bytes <? 1073741824
    then toFixed (inject_Z bytes / 1024 / 1024)
           (if bytes <? 10485760 then 1 else 0) ++ " MB"
    else toFixed (inject_Z bytes / 1024 / 1024 / 1024)
           (if bytes <? 10737418240 then 1 else 0) ++ " GB".
Proof.
  unfold formatFileSize. change (List.length SIZE_UNITS - 1)%nat with 3%nat.
  rewrite scaleSize_steps.
  assert (Hdigits : forall limit : Z,
             (if negb (limit <=? bytes) && true then 1%nat else 0%nat)
             = (if bytes <? limit then 1%nat else 0%nat)).
  { intros limit. destruct (limit <=? bytes) eqn:E1, (bytes <? limit) eqn:E2;
      try reflexivity; lia. }
  pose proof (Qle_bool_once 10 bytes) as H1.
  pose proof (Qle_bool_twice 10 bytes) as H2.
  pose proof (Qle_bool_thrice 10 bytes) as H3.
  change (inject_Z 10) with 10%Q in H1, H2, H3.
  destruct (bytes <? 1024); [now rewrite andb_false_r |].
  destruct (bytes <? 1048576).
  { cbn [Nat.ltb Nat.leb nth SIZE_UNITS]. now rewrite H1, Hdigits. }
  destruct (bytes <? 1073741824).
  { cbn [Nat.ltb Nat.leb nth SIZE_UNITS]. now rewrite H2, Hdigits. }
  cbn [Nat.ltb Nat.leb nth SIZE_UNITS]. now rewrite H3, Hdigits.
Qed.

Lemma toFixed_KB (bytes : Z) (digits : nat) :
  0 <= bytes < 1048576 ->
  toFixed (inject_Z bytes / 1024) digits
  = let n := (2 * 10 ^ Z.of_nat digits * bytes + 1024) / 2048 in
    match digits with
    | O => intToString n
    | S _ =>
        let m := padStart0 (S digits) (intToString n) in
        takeStr (String.length m - digits) m ++ "."
        ++ dropStr (String.length m - digits) m
    end.
Proof.
  intros Hb. unfold toFixed.
  assert (Hbig : Qle_bool (inject_Z (10 ^ 21)) (Qabs (inject_Z bytes / 1024)) = false).
  { apply Bool.not_true_iff_false. intros H. apply Qle_bool_iff in H.
    rewrite (scaled_once bytes) in H. unfold Qle, Qabs, inject_Z in H.
    cbn [Qnum Qden] in H. lia. }
  assert (Hsign : Qle_bool 0 (inject_Z bytes / 1024) = true).
  { apply Qle_bool_iff. rewrite (scaled_once bytes). unfold Qle. cbn. lia. }
  rewrite Hbig, Hsign. cbn [append].
  assert (Hn : Qfloor (Qabs (inject_Z bytes / 1024)
                       * inject_Z (10 ^ Z.of_nat digits) + (1 # 2))
               = (2 * 10 ^ Z.of_nat digits * bytes + 1024) / 2048).
  { assert (Heq : (Qabs (inject_Z bytes / 1024)
                   * inject_Z (10 ^ Z.of_nat digits) + (1 # 2)
                   == (bytes * 10 ^ Z.of_nat digits * 2 + 1024) # 2048)%Q).
    { rewrite (scaled_once bytes). unfold Qeq, Qabs, Qplus, Qmult, inject_Z.
      cbn [Qnum Qden]. rewrite Z.abs_eq by lia.
      set (scale := 10 ^ Z.of_nat digits). clearbody scale. cbn. ring. }
    rewrite Heq. unfold Qfloor. f_equal. ring. }
  rewrite Hn. reflexivity.
Qed.

(** X19. [formatFileSize] picks the unit by the powers of 1024: bytes
    below 1024 are shown as they are, then kilobytes, megabytes and, from
    1024^3 on and however large, gigabytes, with one decimal exactly when
    the size is less than ten units.  The unit is chosen before the number
    is rounded, so that a size just below the next unit is shown as 1024 of
    the smaller one, and a size that rounds to ten units keeps its
    decimal.  (Sizes below 2^53, which the program holds exactly.) *)
Theorem formatFileSize_units :
  forall bytes : Z,
    0 <= bytes < 2 ^ 53 ->
    (bytes < 1024 -> formatFileSize bytes = intToString bytes ++ " B")
    /\ (1024 <= bytes < 1024 ^ 2 ->
        formatFileSize bytes
        = toFixed (inject_Z bytes / 1024) (if bytes <? 10 * 1024 then 1 else 0)
          ++ " KB")
    /\ (1024 ^ 2 <= bytes < 1024 ^ 3 ->
        formatFileSize bytes
        = toFixed (inject_Z bytes / 1024 / 1024)
            (if bytes <? 10 * 1024 ^ 2 then 1 else 0) ++ " MB")
    /\ (1024 ^ 3 <= bytes ->
        formatFileSize bytes
        = toFixed (inject_Z bytes / 1024 / 1024 / 1024)
            (if bytes <? 10 * 1024 ^ 3 then 1 else 0) ++ " GB")
    /\ (1024 ^ 2 - 512 <= bytes < 1024 ^ 2 -> formatFileSize bytes = "1024 KB")
    /\ (10189 <= bytes < 10 * 1024 -> formatFileSize bytes = "10.0 KB").
Proof.
  intros bytes [Hpos _]. rewrite formatFileSize_scaled.
  change (1024 ^ 2) with 1048576. change (1024 ^ 3) with 1073741824.
  change (10 * 1024) with 10240. change (10 * 1048576) with 10485760.
  change (10 * 1073741824) with 10737418240.
  split.
  { intros Hb. replace (bytes <? 1024) with true by (symmetry; apply Z.ltb_lt; lia).
    rewrite toFixed_whole.
    - f_equal. f_equal. change (1 # 2)%Q with (Qmake 1 2).
      unfold Qfloor, Qplus, inject_Z. cbn [Qnum Qden].
      replace (bytes * 2 + 1 * 1) with (1 + bytes * 2) by lia.
      change (Z.pos (1 * 2)) with 2. rewrite Z.div_add by lia. reflexivity.
    - apply Bool.not_true_iff_false. intros H. apply Qle_bool_iff in H.
      unfold Qle, Qabs, inject_Z in H. cbn [Qnum Qden] in H. lia.
    - apply Qle_bool_iff. unfold Qle, inject_Z. cbn. lia. }
  split.
  { intros Hb. replace (bytes <? 1024) with false by (symmetry; apply Z.ltb_ge; lia).
    now replace (bytes <? 1048576) with true by (symmetry; apply Z.ltb_lt; lia). }
  split.
  { intros Hb. replace (bytes <? 1024) with false by (symmetry; apply Z.ltb_ge; lia).
    replace (bytes <? 1048576) with false by (symmetry; apply Z.ltb_ge; lia).
    now replace (bytes <? 1073741824) with true by (symmetry; apply Z.ltb_lt; lia). }
  split.
  { intros Hb. replace (bytes <? 1024) with false by (symmetry; apply Z.ltb_ge; lia).
    replace (bytes <? 1048576) with false by (symmetry; apply Z.ltb_ge; lia).
    now replace (bytes <? 1073741824) with false by (symmetry; apply Z.ltb_ge; lia). }
  split.
  { intros Hb. replace (bytes <? 1024) with false by (symmetry; apply Z.ltb_ge; lia).
    replace (bytes <? 1048576) with true by (symmetry; apply Z.ltb_lt; lia).
    replace (bytes <? 10240) with false by (symmetry; apply Z.ltb_ge; lia).
    rewrite toFixed_KB by lia. cbn zeta. change (10 ^ Z.of_nat 0) with 1.
    replace ((2 * 1 * bytes + 1024) / 2048) with 1024; [reflexivity |].
    apply Z.div_unique with (2 * bytes - 2096128); lia. }
  intros Hb. replace (bytes <? 1024) with false by (symmetry; apply Z.ltb_ge; lia).
  replace (bytes <? 1048576) with true by (symmetry; apply Z.ltb_lt; lia).
  replace (bytes <? 10240) with true by (symmetry; apply Z.ltb_lt; lia).
  rewrite toFixed_KB by lia. cbn zeta.
  change (10 ^ Z.of_nat 1) with 10.
  replace ((2 * 10 * bytes + 1024) / 2048) with 100; [reflexivity |].
  apply Z.div_unique with (20 * bytes - 203776); lia.
Qed.

End FileSizeProperties.

Lemma formatFileSize_units_witness :
  @formatFileSize strictPlatform 1048575 = "1024 KB"
  /\ @formatFileSize strictPlatform 1000 = "1000 B".
Proof.
  destruct (@formatFileSize_units strictPlatform 1048575) as (_ & _ & _ & _ & H & _);
    [lia |].
  destruct (@formatFileSize_units strictPlatform 1000) as (H' & _); [lia |].
  split; [apply H; lia | apply H'; lia].
Defined.

(** ** Reading back what was rendered *)

Lemma append_empty_r (s : string) : s ++ EmptyString = s.
Proof. induction s as [| c s IH]; cbn [append]; [reflexivity | now rewrite IH]. Qed.

Lemma readDigits_uint (d : Decimal.uint) (rest : string) (acc : Z) (count : nat) :
  readDigits 10 (NilEmpty.string_of_uint d ++ rest) acc count
  = readDigits 10 rest (digitsValue acc d) (count + Decimal.nb_digits d).
Proof.
  revert acc count. induction d; intros acc count;
    cbn [NilEmpty.string_of_uint append digitsValue Decimal.nb_digits];
    [now rewrite Nat.add_0_r | ..];
    cbn [readDigits]; cbv [digitOf]; cbn; rewrite IHd; f_equal; lia.
Qed.

Lemma digitsValue_acc (d : Decimal.uint) (acc : positive) :
  digitsValue (Z.pos acc) d = Z.pos (Pos.of_uint_acc d acc).
Proof.
  revert acc. induction d; intros acc; cbn [digitsValue Pos.of_uint_acc];
    [reflexivity | ..]; rewrite <- IHd; f_equal; lia.
Qed.

Lemma digitsValue_of_uint (d : Decimal.uint) :
  digitsValue 0 d = Z.of_N (Pos.of_uint d).
Proof.
  induction d; cbn [digitsValue Pos.of_uint]; [reflexivity | exact IHd | ..];
    cbn [Z.mul Z.add Z.of_N]; apply digitsValue_acc.
Qed.

(** The digits of a number that is not negative, and the number they
    denote. *)
Lemma intToString_digits (y : Z) :
  0 <= y ->
  exists d, intToString y = NilEmpty.string_of_uint d
            /\ d <> Decimal.Nil /\ digitsValue 0 d = y.
Proof.
  intros Hy. unfold intToString. destruct y as [| p | p]; [| | lia].
  - exists (Decimal.D0 Decimal.Nil). repeat split. discriminate.
  - exists (Pos.to_uint p). cbn [Z.to_int NilZero.string_of_int].
    pose proof (DecimalPos.Unsigned.to_uint_nonnil p) as Hnil.
    split; [destruct (Pos.to_uint p); [contradiction | reflexivity ..] |].
    split; [exact Hnil |].
    now rewrite digitsValue_of_uint, DecimalPos.Unsigned.of_to.
Qed.

Lemma readDigits_intToString (y : Z) :
  0 <= y ->
  exists count,
    readDigits 10 (intToString y) 0 0 = (y, S count, EmptyString).
Proof.
  intros Hy. destruct (intToString_digits y Hy) as (d & Hs & Hnil & Hvalue).
  rewrite Hs, <- (append_empty_r (NilEmpty.string_of_uint d)).
  rewrite readDigits_uint, Hvalue. cbn [readDigits Nat.add].
  destruct (Decimal.nb_digits d) as [| count] eqn:Ed.
  - destruct d; cbn in Ed; congruence.
  - now exists count.
Qed.

Lemma digit_not_white (c : ascii) : isDigitUnit c = true -> isWhiteSpace c = false.
Proof.
  unfold isDigitUnit.
  destruct c as [[] [] [] [] [] [] [] []]; intros H; try discriminate H; reflexivity.
Qed.

Lemma trimEnd_digits (s : string) :
  allUnits isDigitUnit s = true -> trimEnd s = s.
Proof.
  induction s as [| c s IH]; cbn [allUnits trimEnd]; [reflexivity |].
  intros H. apply andb_true_iff in H. destruct H as [Hc Hs].
  rewrite (IH Hs). destruct s; [| reflexivity].
  now rewrite (digit_not_white c Hc).
Qed.

Lemma trim_digits (s : string) : allUnits isDigitUnit s = true -> trim s = s.
Proof.
  intros Hs. unfold trim.
  assert (Hstart : trimStart s = s).
  { destruct s as [| c s]; [reflexivity |]. cbn [allUnits] in Hs.
    apply andb_true_iff in Hs. cbn [trimStart].
    now rewrite (digit_not_white c (proj1 Hs)). }
  rewrite Hstart. now apply trimEnd_digits.
Qed.

Lemma radixOfPrefix_digits (s : string) :
  allUnits isDigitUnit s = true -> radixOfPrefix s = None.
Proof.
  destruct s as [| c [| x r]]; [reflexivity | |].
  - intros _. unfold radixOfPrefix.
    destruct c as [[] [] [] [] [] [] [] []]; reflexivity.
  - cbn [allUnits]. intros H. apply andb_true_iff in H. destruct H as [_ H].
    apply andb_true_iff in H. destruct H as [Hx _].
    assert (Hletters : Ascii.eqb x "x" || Ascii.eqb x "X" = false
                       /\ Ascii.eqb x "o" || Ascii.eqb x "O" = false
                       /\ Ascii.eqb x "b" || Ascii.eqb x "B" = false).
    { unfold isDigitUnit in Hx.
      destruct x as [[] [] [] [] [] [] [] []]; try discriminate Hx;
        repeat split; reflexivity. }
    destruct Hletters as (H1 & H2 & H3). unfold radixOfPrefix.
    destruct c as [[] [] [] [] [] [] [] []]; try reflexivity.
    now rewrite H1, H2, H3.
Qed.

Lemma readSign_digits (s : string) :
  allUnits isDigitUnit s = true -> readSign s = (false, s).
Proof.
  destruct s as [| c s]; [reflexivity |]. cbn [allUnits]. intros H.
  apply andb_true_iff in H. destruct H as [Hc _]. unfold isDigitUnit in Hc.
  destruct c as [[] [] [] [] [] [] [] []]; try discriminate Hc; reflexivity.
Qed.

Lemma intToString_allDigits (y : Z) :
  0 <= y -> allUnits isDigitUnit (intToString y) = true.
Proof.
  intros Hy. destruct (intToString_digits y Hy) as (d & -> & _).
  apply string_of_uint_digits.
Qed.

(** Reading the rendering of a number that is not negative gives the
    number back. *)
Lemma stringToNumber_intToString (y : Z) :
  0 <= y < 10 ^ 21 ->
  exists q, stringToNumber (intToString y) = Finite q /\ (q == inject_Z y)%Q.
Proof.
  intros Hy.
  assert (Hdigits := intToString_allDigits y (proj1 Hy)).
  destruct (readDigits_intToString y (proj1 Hy)) as (count & Hread).
  unfold stringToNumber. rewrite (trim_digits _ Hdigits).
  rewrite (radixOfPrefix_digits _ Hdigits), (readSign_digits _ Hdigits).
  assert (Hinf : String.eqb (intToString y) "Infinity" = false).
  { apply String.eqb_neq. intros Heq. rewrite Heq in Hdigits. discriminate Hdigits. }
  destruct (intToString y) as [| c s] eqn:Es.
  { discriminate Hread. }
  unfold unsignedDecimal. rewrite Hinf, Hread.
  cbn [Nat.add Nat.eqb Z.of_nat].
  set (q := (inject_Z (y * 10 ^ 0 + 0) * Qpower (inject_Z 10) (0 - 0))%Q).
  assert (Hq : (q == inject_Z y)%Q).
  { subst q. cbn [Z.sub Z.opp Z.add Qpower Z.pow]. rewrite Qmult_1_r.
    apply Qeq_alt. unfold Qcompare, inject_Z. cbn [Qnum Qden].
    apply Z.compare_eq_iff. lia. }
  unfold finiteOrInfinity.
  assert (Hfinite : Qle_bool doubleOverflow q = false).
  { apply Bool.not_true_iff_false. intros H. apply Qle_bool_iff in H.
    rewrite Hq in H. unfold doubleOverflow in H. rewrite <- Zle_Qle in H.
    assert (10 ^ 21 < 2 ^ 1024 - 2 ^ 970) by (vm_compute; reflexivity).
    lia. }
  rewrite Hfinite. exists q. split; [reflexivity | exact Hq].
Qed.

Section NumberRendering.
Context {P : Platform}.

Lemma numberToString_integer (q : Q) (y : Z) :
  (q == inject_Z y)%Q -> 0 <= y < 10 ^ 21 ->
  numberToString q = intToString y.
Proof.
  intros Hq Hy. unfold numberToString.
  assert (Hfloor : Qfloor q = y) by (rewrite Hq; apply Qfloor_Z).
  assert (Hint : isIntegral q = true).
  { unfold isIntegral. apply Qeq_bool_iff. now rewrite Hfloor. }
  assert (Hsmall : Qle_bool (inject_Z (10 ^ 21)) (Qabs q) = false).
  { apply Bool.not_true_iff_false. intros H. apply Qle_bool_iff in H.
    rewrite Hq, Qabs_pos in H.
    - rewrite <- Zle_Qle in H. lia.
    - change 0%Q with (inject_Z 0). rewrite <- Zle_Qle. lia. }
  now rewrite Hint, Hsmall, Hfloor.
Qed.

End NumberRendering.

(** ** Month labels *)

Lemma splitOn_whole (sep : ascii) (s : string) :
  occursIn sep s = false -> splitOn sep s = [s].
Proof.
  induction s as [| c s IH]; cbn [occursIn splitOn]; [reflexivity |].
  intros H. apply orb_false_iff in H. destruct H as [Hc Hs].
  rewrite Hc, (IH Hs). reflexivity.
Qed.

Lemma splitOn_first (sep : ascii) (a b : string) :
  occursIn sep a = false ->
  splitOn sep (a ++ String sep b) = a :: splitOn sep b.
Proof.
  induction a as [| c a IH]; cbn [occursIn append splitOn].
  - intros _. now rewrite Ascii.eqb_refl.
  - intros H. apply orb_false_iff in H. destruct H as [Hc Ha].
    rewrite Hc, (IH Ha). reflexivity.
Qed.

Lemma MonthFromTime_range (t : Z) : 0 <= MonthFromTime t <= 11.
Proof.
  unfold MonthFromTime.
  set (leap := isLeapYear (YearFromTime t)). set (d := DayWithinYear t).
  clearbody leap d.
  repeat match goal with
         | |- context [if ?c then _ else _] => destruct c; [cbn; lia |]
         end.
  cbn. lia.
Qed.

Section MonthLabels.
Context {P : Platform}.

Lemma formatMonthLabel_parts (yearText monthText : string) (year month : Q) :
  occursIn "-" yearText = false -> occursIn "-" monthText = false ->
  stringToNumber yearText = Finite year ->
  stringToNumber monthText = Finite month ->
  formatMonthLabel (yearText ++ "-" ++ monthText)
  = if negb (Qle_bool 1 month) || negb (Qle_bool month 12)
    then yearText ++ "-" ++ monthText
    else (if isIntegral month
          then nth (Z.to_nat (Qfloor month - 1)) MONTH_NAMES "undefined"
          else "undefined")
         ++ " " ++ numberToString year.
Proof.
  intros Hy Hm Hyear Hmonth. unfold formatMonthLabel.
  cbn [append]. rewrite (splitOn_first "-" yearText monthText Hy).
  rewrite (splitOn_whole "-" monthText Hm), Hyear, Hmonth. reflexivity.
Qed.

(** X20. The label of the month key of a timestamp is the English
    abbreviation of its UTC month followed by its UTC year, for every
    year from 0 on; for a year before 0 the key begins with a minus sign,
    is not taken for a month key, and is its own label. *)
Theorem monthLabel_of_timestamp :
  forall t : Z,
    let year := getUTCFullYear t in
    let month := getUTCMonth t in
    0 <= month <= 11
    /\ timestampToMonthKey t
       = intToString year ++ "-" ++ padStart0 2 (intToString (month + 1))
    /\ (0 <= year < 10 ^ 21 ->
        formatMonthLabel (timestampToMonthKey t)
        = nth (Z.to_nat month) MONTH_NAMES EmptyString ++ " " ++ intToString year)
    /\ (year < 0 ->
        formatMonthLabel (timestampToMonthKey t) = timestampToMonthKey t).
Proof.
  intros t year month.
  assert (Hmonth : 0 <= month <= 11) by apply MonthFromTime_range.
  split; [exact Hmonth |]. split; [reflexivity |].
  unfold timestampToMonthKey. fold year month.
  assert (Hcases : month = 0 \/ month = 1 \/ month = 2 \/ month = 3 \/ month = 4
                   \/ month = 5 \/ month = 6 \/ month = 7 \/ month = 8
                   \/ month = 9 \/ month = 10 \/ month = 11) by lia.
  clearbody month year. split.
  - intros Hyear.
    destruct (stringToNumber_intToString year Hyear) as (q & Hq & Hvalue).
    assert (Hfree : occursIn "-" (intToString year) = false).
    { apply (allUnits_occursIn isDigitUnit); [| reflexivity].
      apply intToString_allDigits. lia. }
    pose proof (numberToString_integer q year Hvalue Hyear) as Hrender.
    destruct Hcases as [-> | [-> | [-> | [-> | [-> | [-> | [-> | [-> | [-> | [-> |
                       [-> | ->]]]]]]]]]]];
      (erewrite formatMonthLabel_parts;
       [| exact Hfree | reflexivity | exact Hq | vm_compute; reflexivity]);
      rewrite Hrender; reflexivity.
  - intros Hyear. unfold formatMonthLabel.
    assert (Hminus : exists digits,
               intToString year = String "-" digits
               /\ occursIn "-" digits = false).
    { unfold intToString. destruct year as [| p | p]; try lia.
      cbn [Z.to_int NilZero.string_of_int].
      exists (NilZero.string_of_uint (Pos.to_uint p)). split; [reflexivity |].
      pose proof (intToString_allDigits (Z.pos p) ltac:(lia)) as Hd.
      unfold intToString in Hd. cbn [Z.to_int NilZero.string_of_int] in Hd.
      now apply (allUnits_occursIn isDigitUnit). }
    destruct Hminus as (digits & -> & Hfree).
    cbn [append splitOn]. rewrite Ascii.eqb_refl.
    rewrite (splitOn_first "-" digits _ Hfree).
    destruct Hcases as [-> | [-> | [-> | [-> | [-> | [-> | [-> | [-> | [-> | [-> |
                       [-> | ->]]]]]]]]]]]; reflexivity.
Qed.

End MonthLabels.

(** ** The calendar *)

Lemma DayFromYear_succ (y : Z) :
  DayFromYear (y + 1) = DayFromYear y + 365 + (if isLeapYear y then 1 else 0).
Proof.
  unfold DayFromYear, isLeapYear.
  destruct (y mod 4 =? 0) eqn:E4; cbn [negb];
    [apply Z.eqb_eq in E4 | apply Z.eqb_neq in E4].
  2:{ Z.div_mod_to_equations. lia. }
  destruct (y mod 100 =? 0) eqn:E100; cbn [negb];
    [apply Z.eqb_eq in E100 | apply Z.eqb_neq in E100].
  2:{ Z.div_mod_to_equations. lia. }
  destruct (y mod 400 =? 0) eqn:E400; cbn [negb];
    [apply Z.eqb_eq in E400 | apply Z.eqb_neq in E400];
    Z.div_mod_to_equations; lia.
Qed.

Lemma DayFromYear_mono (a b : Z) : a <= b -> DayFromYear a <= DayFromYear b.
Proof.
  intros Hab. unfold DayFromYear. Z.div_mod_to_equations. lia.
Qed.

(** The year of a day is the only year the day lies in. *)
Lemma YearFromTime_unique (t y : Z) :
  DayFromYear y <= Day t < DayFromYear (y + 1) -> YearFromTime t = y.
Proof.
  intros Hy. pose proof (YearFromTime_bounds t) as Hb.
  destruct (Z.lt_trichotomy (YearFromTime t) y) as [Hlt | [Heq | Hgt]];
    [| exact Heq |]; exfalso.
  - pose proof (DayFromYear_mono (YearFromTime t + 1) y ltac:(lia)). lia.
  - pose proof (DayFromYear_mono (y + 1) (YearFromTime t) ltac:(lia)). lia.
Qed.

Lemma Day_MakeDate (day time : Z) :
  0 <= time < msPerDay -> Day (MakeDate day time) = day.
Proof.
  intros Ht. unfold Day, MakeDate. symmetry.
  apply Z.div_unique with time; [left; exact Ht | unfold msPerDay in *; lia].
Qed.

Lemma monthStart_cases (leap : bool) (month : Z) :
  1 <= month <= 12 ->
  let extra := if leap then 1 else 0 in
  (month = 1 /\ monthStart leap 0 = 0 /\ monthStart leap 1 = 31)
  \/ (month = 2 /\ monthStart leap 1 = 31 /\ monthStart leap 2 = 59 + extra)
  \/ (month = 3 /\ monthStart leap 2 = 59 + extra /\ monthStart leap 3 = 90 + extra)
  \/ (month = 4 /\ monthStart leap 3 = 90 + extra /\ monthStart leap 4 = 120 + extra)
  \/ (month = 5 /\ monthStart leap 4 = 120 + extra /\ monthStart leap 5 = 151 + extra)
  \/ (month = 6 /\ monthStart leap 5 = 151 + extra /\ monthStart leap 6 = 181 + extra)
  \/ (month = 7 /\ monthStart leap 6 = 181 + extra /\ monthStart leap 7 = 212 + extra)
  \/ (month = 8 /\ monthStart leap 7 = 212 + extra /\ monthStart leap 8 = 243 + extra)
  \/ (month = 9 /\ monthStart leap 8 = 243 + extra /\ monthStart leap 9 = 273 + extra)
  \/ (month = 10 /\ monthStart leap 9 = 273 + extra
      /\ monthStart leap 10 = 304 + extra)
  \/ (month = 11 /\ monthStart leap 10 = 304 + extra
      /\ monthStart leap 11 = 334 + extra)
  \/ (month = 12 /\ monthStart leap 11 = 334 + extra
      /\ monthStart leap 12 = 365 + extra).
Proof.
  intros Hm extra.
  assert (Hcases : month = 1 \/ month = 2 \/ month = 3 \/ month = 4 \/ month = 5
                   \/ month = 6 \/ month = 7 \/ month = 8 \/ month = 9
                   \/ month = 10 \/ month = 11 \/ month = 12) by lia.
  subst extra.
  destruct Hcases as [-> | [-> | [-> | [-> | [-> | [-> | [-> | [-> | [-> | [-> |
                     [-> | ->]]]]]]]]]]]; destruct leap; cbn; auto 20.
Qed.

(** The UTC year and month of a day of a month are that year and that
    month. *)
Lemma utc_fields (year month date time : Z) :
  1 <= month <= 12 -> 1 <= date <= daysInMonth year month ->
  0 <= time < msPerDay ->
  let t := MakeDate (MakeDay year (month - 1) date) time in
  YearFromTime t = year /\ MonthFromTime t = month - 1.
Proof.
  intros Hmonth Hdate Htime t.
  assert (Hday : Day t = DayFromYear year
                         + monthStart (isLeapYear year) (month - 1) + date - 1).
  { subst t. rewrite Day_MakeDate by exact Htime. unfold MakeDay.
    replace ((month - 1) / 12) with 0 by (symmetry; apply Z.div_small; lia).
    replace ((month - 1) mod 12) with (month - 1)
      by (symmetry; apply Z.mod_small; lia).
    now rewrite Z.add_0_r. }
  unfold daysInMonth in Hdate.
  pose proof (monthStart_cases (isLeapYear year) month Hmonth) as Hstart.
  cbn zeta in Hstart.
  assert (Hyear : YearFromTime t = year).
  { apply YearFromTime_unique. rewrite Hday, DayFromYear_succ.
    destruct (isLeapYear year);
      destruct Hstart as [(-> & H1 & H2) | [(-> & H1 & H2) | [(-> & H1 & H2) |
        [(-> & H1 & H2) | [(-> & H1 & H2) | [(-> & H1 & H2) | [(-> & H1 & H2) |
        [(-> & H1 & H2) | [(-> & H1 & H2) | [(-> & H1 & H2) | [(-> & H1 & H2) |
        (-> & H1 & H2)]]]]]]]]]]];
      cbn [Z.sub Z.add Z.opp Z.pos_sub Pos.pred_double] in *; lia. }
  split; [exact Hyear |].
  unfold MonthFromTime, DayWithinYear. rewrite Hyear, Hday.
  set (leap := isLeapYear year) in *.
  replace (DayFromYear year + monthStart leap (month - 1) + date - 1
           - DayFromYear year)
    with (monthStart leap (month - 1) + date - 1) by lia.
  clear Hday Hyear. clearbody t.
  destruct leap;
    destruct Hstart as [(-> & _) | [(-> & _) | [(-> & _) | [(-> & _) |
      [(-> & _) | [(-> & _) | [(-> & _) | [(-> & _) | [(-> & _) | [(-> & _) |
      [(-> & _) | (-> & _)]]]]]]]]]]];
    repeat match goal with
           | |- context [monthStart ?l ?k] =>
               let v := eval vm_compute in (monthStart l k) in
               change (monthStart l k) with v
           | H : context [monthStart ?l ?k] |- _ =>
               let v := eval vm_compute in (monthStart l k) in
               change (monthStart l k) with v in H
           end;
    repeat match goal with
           | |- context [if ?c then _ else _] =>
               destruct c eqn:?; [first [reflexivity | lia] |]
           end;
    first [reflexivity | lia].
Qed.

(** ** Reading the fields of a timestamp *)

Lemma readFixed_uint (d : Decimal.uint) (rest : string) (acc : Z) :
  readFixed (Decimal.nb_digits d) (NilEmpty.string_of_uint d ++ rest) acc
  = Some (digitsValue acc d, rest).
Proof.
  revert acc. induction d; intros acc;
    cbn [NilEmpty.string_of_uint append digitsValue Decimal.nb_digits readFixed];
    [reflexivity | ..]; cbv [digitOf]; cbn; apply IHd.
Qed.

Lemma zeros_succ (k : nat) :
  String.concat "" (repeat "0" (S k))
  = String "0" (String.concat "" (repeat "0" k)).
Proof. destruct k; reflexivity. Qed.

Lemma zeros_digits (k : nat) :
  allUnits isDigitUnit (String.concat "" (repeat "0" k)) = true.
Proof.
  induction k as [| k IH]; [reflexivity |].
  rewrite zeros_succ. cbn [allUnits]. now rewrite IH.
Qed.

Lemma readFixed_zeros (k n : nat) (s : string) :
  readFixed (k + n) (String.concat "" (repeat "0" k) ++ s) 0 = readFixed n s 0.
Proof.
  induction k as [| k IH]; [reflexivity |].
  rewrite zeros_succ. cbn [Nat.add append readFixed]. exact IH.
Qed.

(** A field of [n] digits that holds a number below [10^n], with zeros
    in front as [padStart] writes them, is read as that number. *)
Lemma readFixed_padded (n : nat) (v : Z) (rest : string) :
  (1 <= n)%nat -> 0 <= v < 10 ^ Z.of_nat n ->
  readFixed n (padStart0 n (intToString v) ++ rest) 0 = Some (v, rest).
Proof.
  intros Hn Hv. unfold padStart0.
  pose proof (intToString_length v n Hv Hn) as Hlen.
  destruct (intToString_digits v (proj1 Hv)) as (d & Hs & _ & Hvalue).
  rewrite Hs in *. rewrite length_string_of_uint in *.
  rewrite append_assoc_str.
  replace n with ((n - Decimal.nb_digits d) + Decimal.nb_digits d)%nat at 1 by lia.
  rewrite readFixed_zeros, readFixed_uint, Hvalue. reflexivity.
Qed.

Lemma padStart0_digits (n : nat) (v : Z) :
  0 <= v -> allUnits isDigitUnit (padStart0 n (intToString v)) = true.
Proof.
  intros Hv. unfold padStart0.
  now rewrite allUnits_app, zeros_digits, intToString_allDigits.
Qed.

Lemma padStart0_truthy (n : nat) (v : Z) :
  0 <= v ->
  exists c s, padStart0 n (intToString v) = String c s /\ isDigitUnit c = true.
Proof.
  intros Hv. pose proof (padStart0_digits n v Hv) as Hd.
  destruct (padStart0 n (intToString v)) as [| c s] eqn:E.
  - exfalso. unfold padStart0 in E.
    destruct (intToString_digits v Hv) as (d & Hs & Hnil & _). rewrite Hs in E.
    destruct (String.concat "" (repeat "0" (n - String.length (NilEmpty.string_of_uint d))));
      [| discriminate E].
    destruct d; cbn in E; discriminate || contradiction.
  - exists c, s. split; [reflexivity |]. cbn [allUnits] in Hd.
    now apply andb_true_iff in Hd.
Qed.

Lemma readIsoYear_digit (c : ascii) (s : string) :
  isDigitUnit c = true -> readIsoYear (String c s) = readFixed 4 (String c s) 0.
Proof.
  unfold isDigitUnit, readIsoYear.
  destruct c as [[] [] [] [] [] [] [] []]; intros H; try discriminate H; reflexivity.
Qed.

Lemma readOptField_padded (lead : ascii) (n : nat) (dflt v : Z) (rest : string) :
  (1 <= n)%nat -> 0 <= v < 10 ^ Z.of_nat n ->
  readOptField lead n dflt (String lead (padStart0 n (intToString v) ++ rest))
  = Some (v, true, rest).
Proof.
  intros Hn Hv. unfold readOptField.
  now rewrite Ascii.eqb_refl, readFixed_padded.
Qed.

Lemma readIsoTime_stamp (hour minute second : Z) :
  0 <= hour <= 23 -> 0 <= minute <= 59 -> 0 <= second <= 59 ->
  readIsoTime
    (padStart0 2 (intToString hour)
     ++ String ":" (padStart0 2 (intToString minute)
                    ++ String ":" (padStart0 2 (intToString second) ++ "Z")))
  = Some (MakeTime hour minute second 0, Some 0).
Proof.
  intros Hh Hm Hs. unfold readIsoTime.
  rewrite readFixed_padded by (cbn; lia).
  rewrite readFixed_padded by (cbn; lia).
  rewrite readOptField_padded by (cbn; lia).
  cbn [readOptField readIsoOffset Ascii.eqb Bool.eqb].
  replace (hour <=? 24) with true by (symmetry; apply Z.leb_le; lia).
  replace (minute <=? 59) with true by (symmetry; apply Z.leb_le; lia).
  replace (second <=? 59) with true by (symmetry; apply Z.leb_le; lia).
  replace (hour <? 24) with true by (symmetry; apply Z.ltb_lt; lia).
  reflexivity.
Qed.

Lemma daysInMonth_range (year month : Z) :
  1 <= month <= 12 ->
  28 <= daysInMonth year month <= 31
  /\ 0 <= monthStart (isLeapYear year) (month - 1) <= 335.
Proof.
  intros Hm. unfold daysInMonth.
  pose proof (monthStart_cases (isLeapYear year) month Hm) as Hstart.
  cbn zeta in Hstart.
  destruct (isLeapYear year);
    destruct Hstart as [(-> & H1 & H2) | [(-> & H1 & H2) | [(-> & H1 & H2) |
      [(-> & H1 & H2) | [(-> & H1 & H2) | [(-> & H1 & H2) | [(-> & H1 & H2) |
      [(-> & H1 & H2) | [(-> & H1 & H2) | [(-> & H1 & H2) | [(-> & H1 & H2) |
      (-> & H1 & H2)]]]]]]]]]]];
    repeat match goal with
           | |- context [monthStart ?l ?k] =>
               let v := eval vm_compute in (monthStart l k) in
               change (monthStart l k) with v
           end; lia.
Qed.

Section StampProperties.
Context {P : Platform}.

(** X21. A timestamp as the streaming history writes it,
    [YYYY-MM-DDTHH:mm:ssZ] with a day that its month has, is read without
    any repair as the instant its fields denote, and the record is counted
    in that year and in the month [YYYY-MM] of its own text: neither the
    time of day nor the host's time zone moves it into a neighbouring
    month. *)
Theorem isoStamp_bucket :
  forall year month date hour minute second : Z,
    0 <= year <= 9999 -> 1 <= month <= 12 ->
    1 <= date <= daysInMonth year month ->
    0 <= hour <= 23 -> 0 <= minute <= 59 -> 0 <= second <= 59 ->
    let t := MakeDate (MakeDay year (month - 1) date)
                      (MakeTime hour minute second 0) in
    parseTimestamp (JString (isoStamp year month date hour minute second))
    = Some t
    /\ getUTCFullYear t = year
    /\ getUTCMonth t = month - 1
    /\ timestampToMonthKey t
       = intToString year ++ "-" ++ padStart0 2 (intToString month).
Proof.
  intros year month date hour minute second Hyear Hmonth Hdate Hh Hm Hs t.
  destruct (daysInMonth_range year month Hmonth) as [Hdays Hstart].
  assert (Htime : 0 <= MakeTime hour minute second 0 < msPerDay)
    by (unfold MakeTime, msPerDay; lia).
  destruct (utc_fields year month date _ Hmonth Hdate Htime) as [Hy Hmo].
  fold t in Hy, Hmo.
  assert (Hread : readIsoDateTime (isoStamp year month date hour minute second)
                  = Some (t, Some 0)).
  { unfold isoStamp, readIsoDateTime.
    destruct (padStart0_truthy 4 year) as (c & s & Hpad & Hc); [lia |].
    assert (Hfield : forall rest,
               readIsoYear (padStart0 4 (intToString year) ++ rest)
               = Some (year, rest)).
    { intros rest. rewrite Hpad. cbn [append]. rewrite readIsoYear_digit by exact Hc.
      change (String c (s ++ rest)) with (String c s ++ rest). rewrite <- Hpad.
      apply readFixed_padded; [lia | cbn; lia]. }
    rewrite Hfield. cbn [append].
    rewrite readOptField_padded by (cbn; lia). cbn [append].
    rewrite readOptField_padded by (cbn; lia).
    replace (1 <=? month) with true by (symmetry; apply Z.leb_le; lia).
    replace (month <=? 12) with true by (symmetry; apply Z.leb_le; lia).
    replace (1 <=? date) with true by (symmetry; apply Z.leb_le; lia).
    replace (date <=? 31) with true by (symmetry; apply Z.leb_le; lia).
    cbn [andb append]. now rewrite readIsoTime_stamp. }
  assert (Hclip : TimeClip t = Some t).
  { unfold TimeClip.
    replace (Z.abs t <=? 8640000000000000) with true; [reflexivity |].
    symmetry. apply Z.leb_le. subst t. unfold MakeDate, MakeDay.
    replace ((month - 1) / 12) with 0 by (symmetry; apply Z.div_small; lia).
    replace ((month - 1) mod 12) with (month - 1)
      by (symmetry; apply Z.mod_small; lia).
    rewrite Z.add_0_r. unfold msPerDay in *.
    assert (-719528 <= DayFromYear year <= 2932897)
      by (unfold DayFromYear; Z.div_mod_to_equations; lia).
    lia. }
  split.
  { apply parseTimestamp_direct.
    - unfold isoStamp.
      destruct (padStart0_truthy 4 year) as (c & s & -> & Hc); [lia |].
      cbn [append]. unfold trim. cbn [trimStart].
      rewrite (digit_not_white c Hc). apply trimEnd_truthy, digit_not_white, Hc.
    - unfold newDate, dateParse. rewrite Hread, Z.sub_0_r. exact Hclip. }
  split; [exact Hy |]. split; [exact Hmo |].
  unfold timestampToMonthKey, getUTCFullYear, getUTCMonth. rewrite Hy, Hmo.
  now replace (month - 1 + 1) with month by lia.
Qed.

End StampProperties.

Lemma isoStamp_bucket_witness :
  isoStamp 2024 2 29 23 59 59 = "2024-02-29T23:59:59Z"
  /\ exists t,
       @parseTimestamp strictPlatform (JString "2024-02-29T23:59:59Z") = Some t
       /\ timestampToMonthKey t = "2024-02".
Proof.
  split; [vm_compute; reflexivity |].
  destruct (@isoStamp_bucket strictPlatform 2024 2 29 23 59 59)
    as (Hparse & _ & _ & Hkey);
    try lia; [vm_compute; split; discriminate |].
  eexists. split; [exact Hparse | exact Hkey].
Defined.

Lemma padStart0_field_inj (n : nat) (v v' : Z) :
  (1 <= n)%nat -> 0 <= v < 10 ^ Z.of_nat n -> 0 <= v' < 10 ^ Z.of_nat n ->
  padStart0 n (intToString v) = padStart0 n (intToString v') -> v = v'.
Proof.
  intros Hn Hv Hv' Heq.
  pose proof (readFixed_padded n v EmptyString Hn Hv) as H1.
  pose proof (readFixed_padded n v' EmptyString Hn Hv') as H2.
  rewrite Heq, H2 in H1. now injection H1.
Qed.

(** X22. Two timestamps have the same month key exactly when they have
    the same UTC year and the same UTC month: a monthly bucket holds the
    records of one month of one year and no others, also for years with
    fewer or more than four digits and for years before 0. *)
Theorem monthKey_same_bucket :
  forall t1 t2 : Z,
    timestampToMonthKey t1 = timestampToMonthKey t2
    <-> getUTCFullYear t1 = getUTCFullYear t2
        /\ getUTCMonth t1 = getUTCMonth t2.
Proof.
  intros t1 t2. unfold timestampToMonthKey.
  pose proof (MonthFromTime_range t1) as H1.
  pose proof (MonthFromTime_range t2) as H2.
  unfold getUTCFullYear, getUTCMonth.
  set (y1 := YearFromTime t1). set (y2 := YearFromTime t2).
  set (m1 := MonthFromTime t1) in *. set (m2 := MonthFromTime t2) in *.
  clearbody y1 y2 m1 m2.
  split; [| now intros [-> ->]].
  intros Heq. cbn [append] in Heq.
  apply split_last_unit in Heq.
  - destruct Heq as [Hy Hm]. apply intToString_inj in Hy.
    apply padStart0_field_inj in Hm; [| lia | cbn; lia | cbn; lia].
    split; [exact Hy | lia].
  - apply (allUnits_occursIn isDigitUnit); [| reflexivity].
    apply padStart0_digits. lia.
  - apply (allUnits_occursIn isDigitUnit); [| reflexivity].
    apply padStart0_digits. lia.
Qed.

(** ** The parsing policy and scenario D *)

Section TimestampPolicy.
Context {P : Platform}.

(** A time within a month of the calendar has the year and the month of
    that month. *)
Lemma month_of_time (year month t : Z) :
  1 <= month <= 12 ->
  let start := MakeDate (MakeDay year (month - 1) 1) 0 in
  start <= t < start + daysInMonth year month * msPerDay ->
  YearFromTime t = year /\ MonthFromTime t = month - 1.
Proof.
  intros Hmonth start Ht.
  set (date := (t - start) / msPerDay + 1).
  set (time := (t - start) mod msPerDay).
  assert (Hms : 0 < msPerDay) by reflexivity.
  assert (Htime : 0 <= time < msPerDay) by (apply Z.mod_pos_bound; exact Hms).
  assert (Hdate : 1 <= date <= daysInMonth year month).
  { subst date. split.
    - assert (0 <= (t - start) / msPerDay) by (apply Z.div_pos; lia). lia.
    - assert ((t - start) / msPerDay < daysInMonth year month)
        by (apply Z.div_lt_upper_bound; lia).
      lia. }
  assert (Heq : t = MakeDate (MakeDay year (month - 1) date) time).
  { pose proof (Z.div_mod (t - start) msPerDay ltac:(lia)) as Hdm.
    fold time in Hdm. subst start. unfold MakeDate, MakeDay in *.
    subst date. clearbody time. lia. }
  rewrite Heq. now apply utc_fields.
Qed.

(** The month of 10:00:00 on 2023-05-01 read as the local time of a zone
    [tza] milliseconds ahead of UTC: May up to ten hours ahead, April
    beyond. *)
Lemma scenarioD_local_month (tza : Z) :
  - msPerDay < tza < msPerDay ->
  let date := 1682935200000 - tza in
  TimeClip date = Some date
  /\ (tza <= 36000000 -> timestampToMonthKey date = "2023-05")
  /\ (36000000 < tza -> timestampToMonthKey date = "2023-04").
Proof.
  intros Htza date. unfold msPerDay in Htza.
  split.
  { unfold TimeClip. replace (Z.abs date <=? 8640000000000000) with true;
      [reflexivity |]. symmetry. apply Z.leb_le. subst date. lia. }
  split; intros Hzone.
  - destruct (month_of_time 2023 5 date) as [Hy Hm]; [lia | |].
    { replace (MakeDate (MakeDay 2023 (5 - 1) 1) 0) with 1682899200000
        by (vm_compute; reflexivity).
      replace (daysInMonth 2023 5) with 31 by (vm_compute; reflexivity).
      unfold msPerDay. subst date. lia. }
    unfold timestampToMonthKey, getUTCFullYear, getUTCMonth.
    rewrite Hy, Hm. vm_compute. reflexivity.
  - destruct (month_of_time 2023 4 date) as [Hy Hm]; [lia | |].
    { replace (MakeDate (MakeDay 2023 (4 - 1) 1) 0) with 1680307200000
        by (vm_compute; reflexivity).
      replace (daysInMonth 2023 4) with 30 by (vm_compute; reflexivity).
      unfold msPerDay. subst date. lia. }
    unfold timestampToMonthKey, getUTCFullYear, getUTCMonth.
    rewrite Hy, Hm. vm_compute. reflexivity.
Qed.

(** C1, as amended.  [parseTimestamp] rejects what is not a non-blank
    string; on a non-blank string it first gives the string as it is to
    the engine's Date parser, which reads the ISO-8601 date-time format
    and, failing that, whatever else the engine accepts, and only when
    that is invalid parses the leniently repaired string (a space turned
    into the [T] separator when the string has none, [Z] appended when the
    string does not end with it).  The timestamp "2023-05-01 10:00:00" is
    not in the date-time format, so that its direct parse is up to the
    engine.  Where the engine rejects it, it is repaired to
    "2023-05-01T10:00:00Z" and its record is counted in the UTC month
    2023-05.  Where the engine accepts it, the direct parse decides and
    the record is counted in the UTC month of the instant the engine
    read; for an engine that reads it as local time this is 2023-05 up to
    ten hours ahead of UTC and 2023-04 beyond. *)
Theorem parseTimestamp_policy :
  (forall value : JsValue,
      (forall s, value <> JString s) -> parseTimestamp value = None)
  /\ (forall s, trim s = EmptyString -> parseTimestamp (JString s) = None)
  /\ (forall s date,
         trim s <> EmptyString -> newDate s = Some date ->
         parseTimestamp (JString s) = Some date)
  /\ (forall s,
         trim s <> EmptyString -> newDate s = None ->
         parseTimestamp (JString s) = newDate (lenientRepair s))
  /\ (forall s,
         endsWith "Z" (lenientRepair s) = true
         /\ (includes "T" s = false ->
             lenientRepair s = withZoneMarker (replaceFirst " " "T" s)))
  /\ readIsoDateTime "2023-05-01 10:00:00" = None
  /\ newDate "2023-05-01 10:00:00"
     = match legacyDateParse "2023-05-01 10:00:00" with
       | Some tv => TimeClip tv
       | None => None
       end
  /\ lenientRepair "2023-05-01 10:00:00" = "2023-05-01T10:00:00Z"
  /\ newDate "2023-05-01T10:00:00Z" = Some 1682935200000
  /\ timestampToMonthKey 1682935200000 = "2023-05"
  /\ (newDate "2023-05-01 10:00:00" = None ->
      parseTimestamp (JString "2023-05-01 10:00:00")
      = newDate (lenientRepair "2023-05-01 10:00:00")
      /\ parseTimestamp (JString "2023-05-01 10:00:00") = Some 1682935200000
      /\ forall record : RawRecord,
           isSongRecord record = true ->
           record.(ts) = JString "2023-05-01 10:00:00" ->
           let report := buildReport [record] tt in
           report.(songRecordsUsed) = 1
           /\ report.(ignoredBadTimestamp) = 0
           /\ map mr_month report.(monthlyMinutesRows) = ["2023-05"]
           /\ map yr_year report.(yearlyMinutesRows) = [2023])
  /\ (forall date,
         newDate "2023-05-01 10:00:00" = Some date ->
         parseTimestamp (JString "2023-05-01 10:00:00") = Some date
         /\ forall record : RawRecord,
              isSongRecord record = true ->
              record.(ts) = JString "2023-05-01 10:00:00" ->
              let report := buildReport [record] tt in
              report.(songRecordsUsed) = 1
              /\ report.(ignoredBadTimestamp) = 0
              /\ map mr_month report.(monthlyMinutesRows)
                 = [timestampToMonthKey date]
              /\ map yr_year report.(yearlyMinutesRows) = [getUTCFullYear date])
  /\ (forall tza,
         - msPerDay < tza < msPerDay ->
         legacyDateParse "2023-05-01 10:00:00" = Some (1682935200000 - tza) ->
         parseTimestamp (JString "2023-05-01 10:00:00")
         = Some (1682935200000 - tza)
         /\ (tza <= 36000000 ->
             timestampToMonthKey (1682935200000 - tza) = "2023-05")
         /\ (36000000 < tza ->
             timestampToMonthKey (1682935200000 - tza) = "2023-04")).
Proof.
  split.
  { intros value H. destruct value; try reflexivity.
    exfalso. apply (H s). reflexivity. }
  split.
  { intros s H. rewrite parseTimestamp_string, H. reflexivity. }
  split.
  { intros s date Hs Hd. rewrite parseTimestamp_string, Hd.
    apply strTruthy_true in Hs. rewrite Hs. reflexivity. }
  split.
  { intros s Hs Hd. rewrite parseTimestamp_string, Hd.
    apply strTruthy_true in Hs. rewrite Hs. reflexivity. }
  split.
  { intros s. split; [apply lenientRepair_zone |].
    intros HT. unfold lenientRepair, withTSeparator. now rewrite HT. }
  split; [vm_compute; reflexivity |].
  split; [exact scenarioD_direct |].
  split; [vm_compute; reflexivity |].
  split; [exact scenarioD_repaired |].
  split; [vm_compute; reflexivity |].
  split.
  { intros Hnone.
    assert (Hparse : parseTimestamp (JString "2023-05-01 10:00:00")
                     = Some 1682935200000)
      by (rewrite scenarioD_parse, Hnone; reflexivity).
    split.
    { rewrite Hparse.
      replace (lenientRepair "2023-05-01 10:00:00") with "2023-05-01T10:00:00Z"
        by (vm_compute; reflexivity).
      symmetry. exact scenarioD_repaired. }
    split; [exact Hparse |].
    intros record Hsong Hts. rewrite <- Hts in Hparse.
    pose proof (single_record_bucket record tt _ Hsong Hparse) as Hreport.
    replace (timestampToMonthKey 1682935200000) with "2023-05" in Hreport
      by (vm_compute; reflexivity).
    replace (getUTCFullYear 1682935200000) with 2023 in Hreport
      by (vm_compute; reflexivity).
    exact Hreport. }
  split.
  { intros date Hdate.
    assert (Hparse : parseTimestamp (JString "2023-05-01 10:00:00") = Some date)
      by (rewrite scenarioD_parse, Hdate; reflexivity).
    split; [exact Hparse |].
    intros record Hsong Hts. rewrite <- Hts in Hparse.
    exact (single_record_bucket record tt _ Hsong Hparse). }
  intros tza Htza Hlocal.
  destruct (scenarioD_local_month tza Htza) as (Hclip & Hmay & Hapril).
  split; [| split; assumption].
  rewrite scenarioD_parse, scenarioD_direct, Hlocal, Hclip. reflexivity.
Qed.

End TimestampPolicy.

Lemma parseTimestamp_policy_witness :
  @parseTimestamp strictPlatform (JString "2023-05-01 10:00:00")
  = Some 1682935200000
  /\ @parseTimestamp strictPlatform (JString "2023-05-01T10:00:00Z")
     = Some 1682935200000
  /\ @parseTimestamp strictPlatform JNull = None
  /\ @parseTimestamp (spaceTolerantPlatform 7200000)
       (JString "2023-05-01 10:00:00") = Some (1682935200000 - 7200000).
Proof.
  pose proof (@parseTimestamp_policy strictPlatform)
    as (H1 & _ & H3 & _ & _ & _ & _ & _ & _ & _ & H5 & _).
  pose proof (@parseTimestamp_policy (spaceTolerantPlatform 7200000))
    as (_ & _ & _ & _ & _ & _ & _ & _ & _ & _ & _ & _ & H6).
  split; [| split; [| split]].
  - apply H5. vm_compute. reflexivity.
  - apply H3; [vm_compute; discriminate | vm_compute; reflexivity].
  - apply H1. intros s; discriminate.
  - apply (H6 7200000); [vm_compute; split; reflexivity |].
    vm_compute. reflexivity.
Defined.

(** C1 as stated fails on an engine that reads the space-separated form
    itself: twelve hours ahead of UTC, the timestamp of scenario D is
    valid as it is, so that no repair takes place, it denotes 22:00:00 on
    2023-04-30 in UTC, which is not what the repaired string denotes, and
    its record is counted in April 2023. *)
Lemma scenarioD_counterexample :
  let engine := spaceTolerantPlatform (12 * 3600000) in
  let record := songRecord "Song X" "Artist A" "" "" "2023-05-01 10:00:00"
                  1000 false in
  @newDate engine "2023-05-01 10:00:00" = Some 1682892000000
  /\ @parseTimestamp engine (JString "2023-05-01 10:00:00") = Some 1682892000000
  /\ @parseTimestamp engine (JString "2023-05-01 10:00:00")
     <> @newDate engine (lenientRepair "2023-05-01 10:00:00")
  /\ timestampToMonthKey 1682892000000 = "2023-04"
  /\ map mr_month (@buildReport engine unit [record] tt).(monthlyMinutesRows)
     = ["2023-04"]
  /\ (@buildReport engine unit [record] tt).(songRecordsUsed) = 1.
Proof.
  intros engine record.
  split; [vm_compute; reflexivity |].
  split; [vm_compute; reflexivity |].
  split; [vm_compute; discriminate |].
  split; [vm_compute; reflexivity |].
  split; vm_compute; reflexivity.
Qed.

(** ** What the tables depend on *)

Section ReportInputs.
Context {P : Platform}.

Lemma eventsOf_accepted (records : list RawRecord) :
  eventsOf (filter isAccepted records) = eventsOf records.
Proof.
  unfold eventsOf. induction records as [| record records IH]; [reflexivity |].
  cbn [filter flat_map]. unfold isAccepted at 1.
  destruct (dispose record) as [| | e] eqn:Ed; cbn [app]; try exact IH.
  cbn [flat_map]. rewrite Ed, IH. reflexivity.
Qed.

Lemma isAccepted_filter (records : list RawRecord) :
  countIf isNonSong (filter isAccepted records) = 0
  /\ countIf isBadTimestamp (filter isAccepted records) = 0
  /\ countIf isAccepted (filter isAccepted records) = countIf isAccepted records.
Proof.
  unfold countIf.
  induction records as [| record records (IH1 & IH2 & IH3)]; [repeat split |].
  cbn [filter]. destruct (isAccepted record) eqn:Ea; [| repeat split; assumption].
  cbn [filter]. rewrite Ea.
  unfold isAccepted in Ea. unfold isNonSong, isBadTimestamp.
  destruct (dispose record); try discriminate Ea.
  cbn [List.length]. repeat split; try assumption. lia.
Qed.

(** X23. The records that are not accepted leave no trace in the report
    but in the three provenance counters: the report of all records and
    the report of the accepted records alone have the same tables, the
    same totals, the same peaks and the same data range, and the report
    of the accepted records alone has read as many records as it used and
    ignored none. *)
Theorem rejected_records_leave_no_trace :
  forall (Meta : Type) (records : list RawRecord) (meta : Meta),
    let all := buildReport records meta in
    let accepted := buildReport (filter isAccepted records) meta in
    accepted.(songRows) = all.(songRows)
    /\ accepted.(top10ByPlayCount) = all.(top10ByPlayCount)
    /\ accepted.(top10ByTime) = all.(top10ByTime)
    /\ accepted.(top10Skipped) = all.(top10Skipped)
    /\ accepted.(top3PerMonthRows) = all.(top3PerMonthRows)
    /\ accepted.(monthlyMinutesRows) = all.(monthlyMinutesRows)
    /\ accepted.(yearlyMinutesRows) = all.(yearlyMinutesRows)
    /\ accepted.(topArtistsByMinutes) = all.(topArtistsByMinutes)
    /\ accepted.(peakMonth) = all.(peakMonth)
    /\ accepted.(peakYear) = all.(peakYear)
    /\ accepted.(dataRange) = all.(dataRange)
    /\ accepted.(uniqueSongs) = all.(uniqueSongs)
    /\ accepted.(totalSongMs) = all.(totalSongMs)
    /\ accepted.(songRecordsUsed) = all.(songRecordsUsed)
    /\ accepted.(totalRecordsRead) = all.(songRecordsUsed)
    /\ accepted.(ignoredNonSong) = 0
    /\ accepted.(ignoredBadTimestamp) = 0.
Proof.
  intros Meta records meta all accepted. subst all accepted.
  pose proof (eventsOf_accepted records) as Hevents.
  assert (H1 : (aggregate (filter isAccepted records)).(st_songMap)
               = (aggregate records).(st_songMap))
    by now rewrite !aggregate_songMap, Hevents.
  assert (H2 : (aggregate (filter isAccepted records)).(st_artistMap)
               = (aggregate records).(st_artistMap))
    by now rewrite !aggregate_artistMap, Hevents.
  assert (H3 : (aggregate (filter isAccepted records)).(st_monthlySongMap)
               = (aggregate records).(st_monthlySongMap))
    by now rewrite !aggregate_monthlySongMap, Hevents.
  assert (H4 : (aggregate (filter isAccepted records)).(st_monthlyMs)
               = (aggregate records).(st_monthlyMs))
    by now rewrite !aggregate_monthlyMs, Hevents.
  assert (H5 : (aggregate (filter isAccepted records)).(st_yearlyMs)
               = (aggregate records).(st_yearlyMs))
    by now rewrite !aggregate_yearlyMs, Hevents.
  destruct (isAccepted_filter records) as (Hnon & Hbad & Hused).
  destruct (fold_counters (filter isAccepted records) initialState)
    as (Hc1 & Hc2 & Hc3).
  cbn zeta in Hc1, Hc2, Hc3. fold (aggregate (filter isAccepted records)) in Hc1, Hc2, Hc3.
  cbn [st_ignoredNonSong st_ignoredBadTimestamp st_songRecordsUsed initialState]
    in Hc1, Hc2, Hc3.
  cbn [songRows top10ByPlayCount top10ByTime top10Skipped top3PerMonthRows
       monthlyMinutesRows yearlyMinutesRows topArtistsByMinutes peakMonth
       peakYear dataRange uniqueSongs totalSongMs songRecordsUsed
       totalRecordsRead ignoredNonSong ignoredBadTimestamp buildReport].
  rewrite H1, H2, H3, H4, H5.
  repeat (split; [reflexivity |]).
  pose proof (buildReport_songRecordsUsed records meta) as Hall.
  cbn [songRecordsUsed buildReport] in Hall.
  split; [rewrite Hc3, Hall; lia |].
  split; [rewrite Hall; reflexivity |].
  split; lia.
Qed.

End ReportInputs.

(** ** The data range *)

Lemma StronglySorted_ends {A : Type} (R : A -> A -> Prop) (x : A) (l : list A) :
  (forall a, R a a) -> StronglySorted R (x :: l) ->
  forall y, In y (x :: l) -> R x y /\ R y (last (x :: l) x).
Proof.
  intros Hrefl Hs y Hy. split.
  - inversion Hs as [| ? ? _ Hall]; subst. destruct Hy as [<- | Hy]; [apply Hrefl |].
    rewrite Forall_forall in Hall. now apply Hall.
  - assert (Hsplit : x :: l = (removelast (x :: l) ++ [last (x :: l) x])%list)
      by (apply app_removelast_last; discriminate).
    set (z := last (x :: l) x) in *. rewrite Hsplit in Hs, Hy.
    apply in_app_or in Hy. destruct Hy as [Hy | [<- | []]]; [| apply Hrefl].
    apply (StronglySorted_app_cross R _ _ Hs); [exact Hy | now left].
Qed.

Lemma last_map {A B : Type} (f : A -> B) (l : list A) (d : A) :
  last (map f l) (f d) = f (last l d).
Proof.
  induction l as [| x l IH]; [reflexivity |].
  destruct l as [| y l]; [reflexivity |]. exact IH.
Qed.

Section DataRange.
Context {P : Platform}.
Hypothesis collation : Consistent localeCompare.

(** X24. The data range names the first and the last month of the
    monthly series: when a record was accepted, it is the label of a
    month that no month of an accepted record stands before in the order
    of [localeCompare], a dash, and the label of a month that none stands
    after; with one month only, both labels are the same. *)
Theorem dataRange_first_last :
  forall (Meta : Type) (records : list RawRecord) (meta : Meta),
    eventsOf records <> [] ->
    exists first last,
      (buildReport records meta).(dataRange)
      = formatMonthLabel first ++ " - " ++ formatMonthLabel last
      /\ (exists e, In e (eventsOf records) /\ e.(ev_monthKey) = first)
      /\ (exists e, In e (eventsOf records) /\ e.(ev_monthKey) = last)
      /\ forall e, In e (eventsOf records) ->
                   localeCompare first e.(ev_monthKey) <= 0
                   /\ localeCompare e.(ev_monthKey) last <= 0.
Proof.
  intros Meta records meta Hevents.
  cbn [dataRange buildReport]. rewrite aggregate_monthlyMs.
  set (series := sortWith (fun a b : string * Z => localeCompare (fst a) (fst b))
                   (groupBy ev_monthKey updMs (eventsOf records))).
  assert (Hsorted : StronglySorted (fun a b => localeCompare a b <= 0)
                      (map fst series)).
  { apply StronglySorted_map.
    apply (sortWith_StronglySorted (fun a b : string * Z => localeCompare (fst a) (fst b))).
    apply (Consistent_on fst localeCompare collation). }
  assert (Hkeys : forall k, In k (map fst series)
                            <-> exists e, In e (eventsOf records) /\ ev_monthKey e = k)
    by apply (series_keys ev_monthKey localeCompare).
  assert (Hlabels : map mr_monthLabel (map monthRowOf series)
                    = map formatMonthLabel (map fst series)).
  { rewrite !map_map. apply map_ext. now intros [m v]. }
  destruct series as [| [month total] rest] eqn:Es.
  { exfalso. apply Hevents. subst series. apply sortWith_nil in Es.
    now apply groupBy_nil in Es. }
  cbn [map] in *.
  exists month, (last (month :: map fst rest) month).
  assert (Hrefl : forall a, localeCompare a a <= 0)
    by (intros a; pose proof (consistent_refl localeCompare collation a); lia).
  split.
  { assert (Hl : mr_monthLabel
                   (last (map monthRowOf ((month, total) :: rest))
                         (monthRowOf (month, total)))
                 = formatMonthLabel
                     (last (map fst ((month, total) :: rest)) (fst (month, total)))).
    { rewrite !last_map. now destruct (last ((month, total) :: rest) (month, total)). }
    cbn [map fst] in Hl. rewrite Hl. reflexivity. }
  assert (Hlast : In (last (month :: map fst rest) month) (month :: map fst rest)).
  { destruct (exists_last (l := month :: map fst rest)) as (l' & a & Hl');
      [discriminate |].
    rewrite Hl', last_last. apply in_or_app. right. now left. }
  split; [apply Hkeys; now left |].
  split; [apply Hkeys; exact Hlast |].
  intros e He.
  apply (StronglySorted_ends (fun a b => localeCompare a b <= 0) month
           (map fst rest) Hrefl Hsorted).
  apply Hkeys. now exists e.
Qed.

End DataRange.

Lemma dataRange_first_last_witness :
  (@buildReport strictPlatform unit sampleHistory tt).(dataRange)
  = "May 2023 - Jan 2024"
  /\ exists first last,
       (@buildReport strictPlatform unit sampleHistory tt).(dataRange)
       = @formatMonthLabel strictPlatform first ++ " - "
         ++ @formatMonthLabel strictPlatform last.
Proof.
  split; [vm_compute; reflexivity |].
  destruct (@dataRange_first_last strictPlatform codeUnitCompare_Consistent unit
              sampleHistory tt) as (first & last & Hrange & _);
    [vm_compute; discriminate |].
  exists first, last. exact Hrange.
Defined.

(** ** The list of the selected files *)

Lemma countUnit_app (c : ascii) (a b : string) :
  countUnit c (a ++ b) = countUnit c a + countUnit c b.
Proof.
  induction a as [| x a IH]; cbn [append countUnit]; [reflexivity |].
  rewrite IH. lia.
Qed.

Lemma countUnit_absent (c : ascii) (s : string) :
  occursIn c s = false -> countUnit c s = 0.
Proof.
  induction s as [| a s IH]; cbn [occursIn countUnit]; [reflexivity |].
  intros H. apply orb_false_iff in H. destruct H as [-> Hs]. now rewrite IH.
Qed.

Lemma concat_empty_cons (x : string) (l : list string) :
  String.concat "" (x :: l) = x ++ String.concat "" l.
Proof. destruct l; cbn [String.concat append]; [now rewrite append_empty_r | reflexivity]. Qed.

Lemma allUnits_dropStr (f : ascii -> bool) (n : nat) (s : string) :
  allUnits f s = true -> allUnits f (dropStr n s) = true.
Proof.
  revert s. induction n as [| n IH]; intros [| c s]; cbn [dropStr allUnits];
    try reflexivity; intros H; [exact H |].
  apply andb_true_iff in H. now apply IH.
Qed.

Lemma digit_isNumberUnit (c : ascii) :
  isDigitUnit c = true -> isNumberUnit c = true.
Proof. intros H. unfold isNumberUnit. now rewrite H. Qed.

Section FileListProperties.
Context {P : Platform}.

(** Below 10^21, [toFixed] writes digits, a point and a sign only. *)
Lemma toFixed_units (x : Q) (digits : nat) :
  Qle_bool (inject_Z (10 ^ 21)) (Qabs x) = false ->
  allUnits isNumberUnit (toFixed x digits) = true.
Proof.
  intros Hbig. unfold toFixed. rewrite Hbig.
  set (n := Qfloor (Qabs x * inject_Z (10 ^ Z.of_nat digits) + (1 # 2))).
  assert (Hn : 0 <= n).
  { subst n. change 0 with (Qfloor 0). apply Qfloor_resp_le.
    apply Qle_trans with (Qabs x * inject_Z (10 ^ Z.of_nat digits))%Q.
    - apply Qmult_le_0_compat; [apply Qabs_nonneg |].
      change 0%Q with (inject_Z 0). rewrite <- Zle_Qle. apply Z.pow_nonneg. lia.
    - rewrite <- Qplus_0_r at 1. apply Qplus_le_r. discriminate. }
  clearbody n.
  assert (Hm : allUnits isNumberUnit (intToString n) = true).
  { apply (allUnits_weaken isDigitUnit); [apply digit_isNumberUnit |].
    now apply intToString_allDigits. }
  rewrite allUnits_app. apply andb_true_iff. split.
  { destruct (Qle_bool 0 x); reflexivity. }
  destruct digits as [| digits]; [exact Hm |].
  assert (Hpad : allUnits isNumberUnit (padStart0 (S (S digits)) (intToString n))
                 = true).
  { apply (allUnits_weaken isDigitUnit); [apply digit_isNumberUnit |].
    now apply padStart0_digits. }
  cbn zeta. rewrite !allUnits_app.
  rewrite allUnits_takeStr, allUnits_dropStr by exact Hpad. reflexivity.
Qed.

Lemma scaled_small (bytes : Z) (x : Q) (p : positive) :
  0 <= bytes < 2 ^ 53 -> (x == bytes # p)%Q ->
  Qle_bool (inject_Z (10 ^ 21)) (Qabs x) = false.
Proof.
  intros Hb Hx. apply Bool.not_true_iff_false. intros H. apply Qle_bool_iff in H.
  rewrite Hx in H. unfold Qle, Qabs, inject_Z in H. cbn [Qnum Qden] in H.
  rewrite Z.abs_eq in H by lia.
  assert (bytes * 1 < 10 ^ 21 * Z.pos p); [| lia].
  assert (2 ^ 53 < 10 ^ 21) by (vm_compute; reflexivity).
  assert (1 <= Z.pos p) by lia. nia.
Qed.

Lemma formatFileSize_units_free (bytes : Z) (c : ascii) :
  0 <= bytes < 2 ^ 53 -> isMarkupUnit c = true ->
  occursIn c (formatFileSize bytes) = false.
Proof.
  intros Hb Hc.
  assert (Hnumber : isNumberUnit c = false).
  { unfold isMarkupUnit in Hc.
    repeat (apply orb_true_iff in Hc; destruct Hc as [Hc | Hc]);
      apply Ascii.eqb_eq in Hc; subst c; reflexivity. }
  assert (Hunit : forall unit, In unit SIZE_UNITS -> occursIn c (" " ++ unit) = false).
  { unfold isMarkupUnit in Hc.
    intros unit [<- | [<- | [<- | [<- | []]]]];
      repeat (apply orb_true_iff in Hc; destruct Hc as [Hc | Hc]);
      apply Ascii.eqb_eq in Hc; subst c; reflexivity. }
  assert (Hfixed : forall x digits p,
             (x == bytes # p)%Q -> occursIn c (toFixed x digits) = false).
  { intros x digits p Hx. apply (allUnits_occursIn isNumberUnit); [| exact Hnumber].
    apply toFixed_units. now apply (scaled_small bytes x p). }
  rewrite formatFileSize_scaled.
  destruct (bytes <? 1024);
    [rewrite occursIn_app, (Hfixed _ _ 1%positive) by reflexivity;
     apply (Hunit "B"); cbn; auto |].
  destruct (bytes <? 1048576);
    [rewrite occursIn_app, (Hfixed _ _ _ (scaled_once bytes));
     apply (Hunit "KB"); cbn; auto |].
  destruct (bytes <? 1073741824);
    [rewrite occursIn_app, (Hfixed _ _ _ (scaled_twice bytes));
     apply (Hunit "MB"); cbn; auto |].
  rewrite occursIn_app, (Hfixed _ _ _ (scaled_thrice bytes)).
  apply (Hunit "GB"); cbn; auto.
Qed.

(** X25. The names of the files cannot change the markup of the file
    list: whatever the names are, the list holds six opening angle
    brackets, six closing ones and six double quotes per file, those of
    its own tags and attributes, and no single quote. *)
Theorem fileList_markup :
  forall files : list File,
    (forall file, In file files -> 0 <= file.(f_size) < 2 ^ 53) ->
    let html := snd (renderSelectedFiles files) in
    let count := Z.of_nat (List.length files) in
    countUnit "<" html = 6 * count
    /\ countUnit ">" html = 6 * count
    /\ countUnit QUOTE html = 6 * count
    /\ countUnit "'" html = 0.
Proof.
  intros files Hsizes html count. subst html count.
  assert (Hitem : forall file,
             0 <= file.(f_size) < 2 ^ 53 ->
             countUnit "<" (fileListItem file) = 6
             /\ countUnit ">" (fileListItem file) = 6
             /\ countUnit QUOTE (fileListItem file) = 6
             /\ countUnit "'" (fileListItem file) = 0).
  { intros file Hsize.
    assert (Hname : forall c, isMarkupUnit c = true ->
                              countUnit c (escapeHtml file.(f_name)) = 0).
    { intros c Hc. apply countUnit_absent.
      rewrite escapeHtml_units. clear Hsize.
      induction (f_name file) as [| a s IH]; [reflexivity |].
      cbn [escapeUnits]. rewrite occursIn_app, IH, orb_false_r.
      unfold isMarkupUnit in Hc.
      destruct (escapeUnit_cases a)
        as [[_ ->] | [[_ ->] | [[_ ->] | [[_ ->] | [[_ ->] | (_ & Ha & ->)]]]]].
      1-5: repeat (apply orb_true_iff in Hc; destruct Hc as [Hc | Hc]);
        apply Ascii.eqb_eq in Hc; subst c; reflexivity.
      cbn [occursIn]. rewrite orb_false_r.
      destruct (Ascii.eqb a c) eqn:E; [| reflexivity].
      apply Ascii.eqb_eq in E. subst c. unfold isMarkupUnit in Ha. congruence. }
    assert (Hsize' : forall c, isMarkupUnit c = true ->
                               countUnit c (formatFileSize file.(f_size)) = 0).
    { intros c Hc. apply countUnit_absent. now apply formatFileSize_units_free. }
    unfold fileListItem. cbn zeta. rewrite !countUnit_app.
    rewrite !(Hname "<"%char), !(Hname ">"%char), !(Hname QUOTE),
      !(Hname "'"%char) by reflexivity.
    rewrite !(Hsize' "<"%char), !(Hsize' ">"%char), !(Hsize' QUOTE),
      !(Hsize' "'"%char) by reflexivity.
    repeat split; reflexivity. }
  assert (Hlist : forall items : list File,
             (forall file, In file items -> 0 <= file.(f_size) < 2 ^ 53) ->
             let html := String.concat "" (map fileListItem items) in
             let count := Z.of_nat (List.length items) in
             countUnit "<" html = 6 * count
             /\ countUnit ">" html = 6 * count
             /\ countUnit QUOTE html = 6 * count
             /\ countUnit "'" html = 0).
  { induction items as [| file items IH]; intros Hall; [repeat split |].
    cbn zeta. cbn [map]. rewrite concat_empty_cons, !countUnit_app.
    destruct (Hitem file (Hall file (or_introl eq_refl))) as (H1 & H2 & H3 & H4).
    destruct (IH (fun f Hf => Hall f (or_intror Hf))) as (I1 & I2 & I3 & I4).
    cbn zeta in I1, I2, I3, I4. rewrite H1, H2, H3, H4, I1, I2, I3, I4.
    cbn [List.length]. repeat split; lia. }
  destruct files as [| file files]; [repeat split |].
  cbn [renderSelectedFiles snd]. now apply Hlist.
Qed.

End FileListProperties.

Lemma fileList_markup_witness :
  let files := [{| f_name := "<b>&.json"; f_size := 1536; f_lastModified := 0 |}] in
  snd (@renderSelectedFiles strictPlatform files)
  = "<li><span class=" ++ String QUOTE "name" ++ String QUOTE " title="
    ++ String QUOTE "&lt;b&gt;&amp;.json" ++ String QUOTE ">&lt;b&gt;&amp;.json"
    ++ "</span><span class=" ++ String QUOTE "size" ++ String QUOTE ">1.5 KB"
    ++ "</span></li>"
  /\ countUnit "<" (snd (@renderSelectedFiles strictPlatform files)) = 6.
Proof.
  intros files. split; [vm_compute; reflexivity |].
  destruct (@fileList_markup strictPlatform files) as (H & _); [| exact H].
  intros file [<- | []]. vm_compute. split; [discriminate | reflexivity].
Defined.

(** ** Keys in order *)

Lemma digitsValue_linear (d : Decimal.uint) (acc : Z) :
  digitsValue acc d
  = acc * 10 ^ Z.of_nat (Decimal.nb_digits d) + digitsValue 0 d
  /\ 0 <= digitsValue 0 d < 10 ^ Z.of_nat (Decimal.nb_digits d).
Proof.
  revert acc. induction d; intros acc; cbn [digitsValue Decimal.nb_digits];
    [cbn; lia | ..];
    rewrite Nat2Z.inj_succ, Z.pow_succ_r by lia;
    set (scale := 10 ^ Z.of_nat (Decimal.nb_digits d)) in *;
    match goal with
    | |- digitsValue ?a d = _ /\ 0 <= digitsValue ?b d < _ =>
        destruct (IHd a) as [Ea Ba]; destruct (IHd b) as [Eb Bb];
        rewrite Ea, Eb; nia
    end.
Qed.

(** Two runs of digits of the same length stand in the order of the
    numbers they denote. *)
Lemma compare_digits (d1 d2 : Decimal.uint) (r1 r2 : string) :
  Decimal.nb_digits d1 = Decimal.nb_digits d2 ->
  String.compare (NilEmpty.string_of_uint d1 ++ r1)
                 (NilEmpty.string_of_uint d2 ++ r2)
  = match Z.compare (digitsValue 0 d1) (digitsValue 0 d2) with
    | Eq => String.compare r1 r2
    | c => c
    end.
Proof.
  assert (Hgen : forall d1 d2 acc,
             Decimal.nb_digits d1 = Decimal.nb_digits d2 ->
             String.compare (NilEmpty.string_of_uint d1 ++ r1)
                            (NilEmpty.string_of_uint d2 ++ r2)
             = match Z.compare (digitsValue acc d1) (digitsValue acc d2) with
               | Eq => String.compare r1 r2
               | c => c
               end).
  { clear d1 d2. induction d1 as [| d1 IH | d1 IH | d1 IH | d1 IH | d1 IH
                                  | d1 IH | d1 IH | d1 IH | d1 IH | d1 IH];
      intros [| d2 | d2 | d2 | d2 | d2 | d2 | d2 | d2 | d2 | d2] acc Hlen;
      cbn [Decimal.nb_digits] in Hlen; try discriminate Hlen;
      [cbn [NilEmpty.string_of_uint append digitsValue];
       now rewrite Z.compare_refl | ..];
      injection Hlen as Hlen;
      cbn [NilEmpty.string_of_uint append digitsValue String.compare];
      match goal with
      | |- context [Ascii.compare ?a ?b] =>
          let c := eval vm_compute in (Ascii.compare a b) in
          change (Ascii.compare a b) with c
      end;
      cbv iota;
      first
        [ apply IH; exact Hlen
        | symmetry;
          match goal with
          | |- match Z.compare (digitsValue ?a d1) (digitsValue ?b d2) with
               | Eq => _ | Lt => _ | Gt => _ end = Lt =>
              destruct (digitsValue_linear d1 a) as [Ea Ba];
              destruct (digitsValue_linear d2 b) as [Eb Bb];
              rewrite Hlen in *;
              replace (Z.compare (digitsValue a d1) (digitsValue b d2)) with Lt;
              [reflexivity | symmetry; apply Z.compare_lt_iff; nia]
          | |- match Z.compare (digitsValue ?a d1) (digitsValue ?b d2) with
               | Eq => _ | Lt => _ | Gt => _ end = Gt =>
              destruct (digitsValue_linear d1 a) as [Ea Ba];
              destruct (digitsValue_linear d2 b) as [Eb Bb];
              rewrite Hlen in *;
              replace (Z.compare (digitsValue a d1) (digitsValue b d2)) with Gt;
              [reflexivity | symmetry; apply Z.compare_gt_iff; nia]
          end ]. }
  apply Hgen.
Qed.

Lemma strGt_compare (a b : string) :
  strGt a b = true <-> String.compare a b = Gt.
Proof. unfold strGt. destruct (String.compare a b); split; congruence. Qed.

(** The digits of a number with four digits. *)
Lemma intToString_four (y : Z) :
  1000 <= y <= 9999 ->
  exists d, intToString y = NilEmpty.string_of_uint d
            /\ Decimal.nb_digits d = 4%nat /\ digitsValue 0 d = y.
Proof.
  intros Hy. destruct (intToString_digits y ltac:(lia)) as (d & Hs & _ & Hvalue).
  exists d. split; [exact Hs |]. split; [| exact Hvalue].
  pose proof (intToString_length y 4 ltac:(cbn; lia) ltac:(lia)) as Hle.
  rewrite Hs, length_string_of_uint in Hle.
  destruct (digitsValue_linear d 0) as [_ Hbound]. rewrite Hvalue in Hbound.
  destruct (Decimal.nb_digits d) as [| [| [| [| [| n]]]]]; cbn in Hbound; lia.
Qed.

Lemma monthText_compare (m1 m2 : Z) :
  0 <= m1 <= 11 -> 0 <= m2 <= 11 ->
  String.compare ("-" ++ padStart0 2 (intToString (m1 + 1)))
                 ("-" ++ padStart0 2 (intToString (m2 + 1)))
  = Z.compare m1 m2.
Proof.
  intros H1 H2.
  assert (C1 : m1 = 0 \/ m1 = 1 \/ m1 = 2 \/ m1 = 3 \/ m1 = 4 \/ m1 = 5
               \/ m1 = 6 \/ m1 = 7 \/ m1 = 8 \/ m1 = 9 \/ m1 = 10 \/ m1 = 11)
    by lia.
  assert (C2 : m2 = 0 \/ m2 = 1 \/ m2 = 2 \/ m2 = 3 \/ m2 = 4 \/ m2 = 5
               \/ m2 = 6 \/ m2 = 7 \/ m2 = 8 \/ m2 = 9 \/ m2 = 10 \/ m2 = 11)
    by lia.
  clear H1 H2.
  destruct C1 as [-> | [-> | [-> | [-> | [-> | [-> | [-> | [-> | [-> | [-> |
                 [-> | ->]]]]]]]]]]];
    destruct C2 as [-> | [-> | [-> | [-> | [-> | [-> | [-> | [-> | [-> | [-> |
                   [-> | ->]]]]]]]]]]];
    vm_compute; reflexivity.
Qed.

(** X26. With years of four digits, the order of the keys as strings is
    the order of time: of two month keys the greater one by the operator
    [>] is the one of the later month, and of two years written in
    decimal the greater one is the later year.  So the peak among periods
    with the same total is the latest of them; and under a collation by
    code units the monthly series is in the order of time. *)
Theorem period_keys_chronological :
  forall t1 t2 : Z,
    let y1 := getUTCFullYear t1 in
    let y2 := getUTCFullYear t2 in
    let m1 := getUTCMonth t1 in
    let m2 := getUTCMonth t2 in
    1000 <= y1 <= 9999 -> 1000 <= y2 <= 9999 ->
    (strGt (timestampToMonthKey t1) (timestampToMonthKey t2) = true
     <-> y2 < y1 \/ (y1 = y2 /\ m2 < m1))
    /\ (codeUnitCompare (timestampToMonthKey t1) (timestampToMonthKey t2) <= 0
        <-> y1 < y2 \/ (y1 = y2 /\ m1 <= m2))
    /\ (strGt (intToString y1) (intToString y2) = true <-> y2 < y1).
Proof.
  intros t1 t2 y1 y2 m1 m2 Hy1 Hy2.
  assert (Hm1 : 0 <= m1 <= 11) by apply MonthFromTime_range.
  assert (Hm2 : 0 <= m2 <= 11) by apply MonthFromTime_range.
  unfold timestampToMonthKey. fold y1 y2 m1 m2. clearbody y1 y2 m1 m2.
  destruct (intToString_four y1 Hy1) as (d1 & -> & Hn1 & Hv1).
  destruct (intToString_four y2 Hy2) as (d2 & -> & Hn2 & Hv2).
  assert (Hkeys : String.compare
                    (NilEmpty.string_of_uint d1 ++ "-"
                     ++ padStart0 2 (intToString (m1 + 1)))
                    (NilEmpty.string_of_uint d2 ++ "-"
                     ++ padStart0 2 (intToString (m2 + 1)))
                  = match Z.compare y1 y2 with
                    | Eq => Z.compare m1 m2
                    | c => c
                    end).
  { rewrite compare_digits by congruence. rewrite Hv1, Hv2.
    now rewrite monthText_compare. }
  assert (Hyears : String.compare (NilEmpty.string_of_uint d1)
                                  (NilEmpty.string_of_uint d2)
                   = Z.compare y1 y2).
  { rewrite <- (append_empty_r (NilEmpty.string_of_uint d1)).
    rewrite <- (append_empty_r (NilEmpty.string_of_uint d2)).
    rewrite compare_digits by congruence. rewrite Hv1, Hv2.
    now destruct (Z.compare y1 y2). }
  unfold codeUnitCompare. rewrite !strGt_compare, Hkeys, Hyears.
  destruct (Z.compare_spec y1 y2) as [Hy | Hy | Hy];
    destruct (Z.compare_spec m1 m2) as [Hm | Hm | Hm];
    repeat split; intros; try discriminate; try lia; try reflexivity.
Qed.

Lemma period_keys_chronological_witness :
  strGt (timestampToMonthKey 1704362400000) (timestampToMonthKey 1682935200000)
  = true.
Proof.
  destruct (period_keys_chronological 1704362400000 1682935200000) as (H & _);
    [vm_compute; split; discriminate | vm_compute; split; discriminate |].
  apply H. left. vm_compute. reflexivity.
Defined.

(** With a year of three digits the order of the keys is not the order of
    time. *)
Example month_keys_three_digits :
  strGt "999-12" "1000-01" = true /\ codeUnitCompare "1000-01" "999-12" = -1.
Proof. split; reflexivity. Qed.

(** ** The artist table and the song table *)

Lemma sumOf_filter {A : Type} (f : A -> Z) (p : A -> bool) (l : list A) :
  sumOf f (filter p l) = sumOf (fun x => if p x then f x else 0) l.
Proof.
  induction l as [| x l IH]; [reflexivity |].
  cbn [filter]. rewrite sumOf_cons, <- IH.
  destruct (p x); [apply sumOf_cons | lia].
Qed.

Section ArtistsAndSongs.
Context {P : Platform}.

(** X27. When no two accepted records with different (song, artist)
    pairs share a song key and the durations of the accepted records add
    up to less than 2^53 ms, the artist table and the song table agree:
    the play count, the skip count and the total time of an artist are
    the sums of those of the artist's rows in the song table, and adding
    the total times of these rows as Numbers gives the artist's total
    time exactly. *)
Theorem artist_rows_sum_songs :
  forall (Meta : Type) (records : list RawRecord) (meta : Meta)
         (row : ArtistRow),
    keysDistinguish (eventsOf records) ->
    sumMs (eventsOf records) < 2 ^ 53 ->
    In row (artistRowsOf records) ->
    let songsOfArtist :=
      filter (fun r => keyb r.(artist) row.(ar_artist))
             (buildReport records meta).(songRows) in
    row.(ar_playCount) = sumOf playCount songsOfArtist
    /\ row.(ar_skipCount) = sumOf skipCount songsOfArtist
    /\ row.(ar_totalMs) = sumOf totalMs songsOfArtist
    /\ 0 <= row.(ar_totalMs) < 2 ^ 53
    /\ sumNumbers (map totalMs songsOfArtist) = row.(ar_totalMs).
Proof.
  intros Meta records meta row Hkeys Hbound Hrow songsOfArtist.
  subst songsOfArtist.
  set (es := eventsOf records) in *. set (name := row.(ar_artist)).
  assert (Hsum : forall (field : SongRow -> Z) (measure : SongEntry -> Z)
                        (weight : Event -> Z),
             (forall entry, field (songRowOf entry) = measure entry) ->
             (forall e rest,
                 measure {| se_song := e.(ev_song);
                            se_artist := e.(ev_artist);
                            se_playCount := playsOf (e :: rest);
                            se_skipCount := skipsOf (e :: rest);
                            se_totalMs := sumMs (e :: rest);
                            se_albumCounter :=
                              observedCounter (map ev_album (e :: rest));
                            se_uriCounter :=
                              observedCounter (map ev_uri (e :: rest)) |}
                 = sumOf weight (e :: rest)) ->
             sumOf field
               (filter (fun r => keyb r.(artist) name)
                       (buildReport records meta).(songRows))
             = sumOf weight (withArtist name es)).
  { intros field measure weight Hfield Hmeasure.
    cbn [songRows buildReport]. rewrite sumOf_filter.
    rewrite (sumOf_Permutation _ _ _ (sortWith_Permutation _ _)).
    rewrite sumOf_map, aggregate_songMap. fold es.
    unfold withArtist. rewrite sumOf_filter.
    apply (sumOf_groupBy ev_songKey
             (fun e => if keyb e.(ev_artist) name then weight e else 0) updSong
             (fun entry => if keyb (artist (songRowOf entry)) name
                           then field (songRowOf entry) else 0)).
    intros k v Hget. rewrite groupBy_get in Hget.
    destruct (filter (fun e => keyb (ev_songKey e) k) es) as [| e rest] eqn:Ef;
      [discriminate |].
    rewrite accumulate_updSong in Hget. injection Hget as <-.
    rewrite Hfield, Hmeasure. cbn [songRowOf artist se_artist].
    assert (Hsame : forall x, In x (e :: rest) -> ev_artist x = ev_artist e).
    { intros x Hx. rewrite <- Ef in Hx.
      assert (He : In e (filter (fun e => keyb (ev_songKey e) k) es))
        by (rewrite Ef; now left).
      apply filter_In in Hx. apply filter_In in He.
      destruct Hx as [Hx Kx]. destruct He as [He Ke].
      apply keyb_eq in Kx. apply keyb_eq in Ke.
      apply (Hkeys x e Hx He). congruence. }
    destruct (keyb (ev_artist e) name) eqn:Ea.
    - apply sumOf_ext. intros x Hx. now rewrite (Hsame x Hx), Ea.
    - rewrite (sumOf_ext _ (fun _ => 0)).
      + clear. induction (e :: rest) as [| x l IH]; [reflexivity |].
        rewrite sumOf_cons, <- IH. reflexivity.
      + intros x Hx. now rewrite (Hsame x Hx), Ea. }
  destruct (artistRowsOf_row records row Hrow) as (e & rest & Hes & Hfields).
  fold es name in Hes.
  destruct (selection_exact records (fun x => keyb (ev_artist x) name) Hbound)
    as [Hrange _].
  fold es in Hrange. fold (withArtist name es) in Hrange.
  assert (Hms : sumOf totalMs
                  (filter (fun r => keyb r.(artist) name)
                          (buildReport records meta).(songRows))
                = row.(ar_totalMs)).
  { rewrite (Hsum totalMs se_totalMs ev_msPlayed);
      [| reflexivity | intros; cbn [se_totalMs]; apply sumMs_sumOf].
    rewrite Hes, <- sumMs_sumOf, Hfields. reflexivity. }
  assert (Htotal : row.(ar_totalMs) = sumMs (withArtist name es))
    by (rewrite Hes, Hfields; reflexivity).
  split.
  { rewrite (Hsum playCount se_playCount (fun _ => 1));
      [| reflexivity | intros; cbn [se_playCount]; apply playsOf_sumOf].
    rewrite Hes, <- playsOf_sumOf, Hfields. reflexivity. }
  split.
  { rewrite (Hsum skipCount se_skipCount (fun e => boolToZ e.(ev_skipped)));
      [| reflexivity | intros; cbn [se_skipCount]; apply skipsOf_sumOf].
    rewrite Hes, <- skipsOf_sumOf, Hfields. reflexivity. }
  split; [now rewrite Hms |].
  split; [rewrite Htotal; exact Hrange |].
  rewrite <- Hms, <- (sumOf_map totalMs (fun x => x)).
  apply sumNumbers_exact.
  - intros x Hx. apply in_map_iff in Hx. destruct Hx as (r & <- & Hr).
    apply filter_In in Hr. destruct Hr as [Hr _].
    now apply (songRow_totalMs_nonneg records meta).
  - rewrite sumOf_map.
    change (sumOf totalMs
              (filter (fun r => keyb r.(artist) name)
                      (buildReport records meta).(songRows)) <= 2 ^ 53).
    rewrite Hms, Htotal. lia.
Qed.

End ArtistsAndSongs.

Lemma artist_rows_sum_songs_witness :
  let row := hd {| ar_artist := EmptyString; ar_playCount := 0; ar_skipCount := 0;
                   ar_totalMs := 0; ar_totalMinutes := 0 |}
                (@artistRowsOf strictPlatform sampleHistory) in
  (row.(ar_artist), row.(ar_playCount), row.(ar_totalMs)) = ("Artist A", 2, 2000)
  /\ row.(ar_totalMs)
     = sumOf totalMs
         (filter (fun r => keyb r.(artist) row.(ar_artist))
                 (@buildReport strictPlatform unit sampleHistory tt).(songRows)).
Proof.
  intros row. split; [vm_compute; reflexivity |].
  destruct (@artist_rows_sum_songs strictPlatform unit sampleHistory tt row)
    as (_ & _ & H & _).
  - intros e e' He He' Hk. vm_compute in He, He'.
    destruct He as [<- | [<- | [<- | [<- | []]]]];
      destruct He' as [<- | [<- | [<- | [<- | []]]]];
      first [split; reflexivity | vm_compute in Hk; discriminate Hk].
  - vm_compute. reflexivity.
  - vm_compute. left. reflexivity.
  - exact H.
Defined.
